(** * A shallow embedding of the crypto matching engine

    The development follows the Python sources file by file:
    [models.py] (the [Order] and [Trade] records), [trade_log.py]
    (the trade recorder), [stop_orders.py] (the trigger predicate),
    [engine.py] (price levels, the order book and the matching engine)
    and the admission guards of [main.py].

    Numbers.  The program computes with Python floats.  Here a float [x] is
    the integer [10^4 * x] (four decimal places, fixed point), so that
    [100.00] is [1000000] and the fee rate [0.0005] is [5].  Addition,
    subtraction, comparison, [min] and [max] are those of [Z]; a product of
    [k] numbers is kept exactly, at scale [10^(4k)], and only [round] brings
    it back to scale [10^4].  Rounding error of binary floating point, and
    the special values (infinities, not-a-number), are not part of the
    model.  Most statements only compare numbers, take a [min] or subtract
    a number from itself, which the code does without rounding.  The
    statements that add up quantities are made for the quantities whose
    sums and differences the code computes exactly ([exact_quantity],
    [exact_world], [reachable_exact]), and the statements about prices read
    [normalize_price] as the [round(price, 2)] of the code, using only that
    it is idempotent and nearest to the cent.

    Objects.  Orders are mutable objects shared between the id index of a
    book, the queues of its price levels and the caller; they live in a heap
    indexed by references.  Price levels and books are only reachable from
    their owner and are kept by value. *)

From Stdlib Require Import ZArith Lia Bool.
From stdpp Require Import gmap strings list sorting.

Local Open Scope Z_scope.

(** ** Python numbers and values *)

(** [unit4 = 10^4]: one unit of a fixed-point number. *)
Definition unit4 : Z := 10000.

(** The nearest integer to [num / den] (for [0 < den]), ties going to the
    even neighbour, as Python's [round] does. *)
Definition round_half_even (num den : Z) : Z :=
  let q := num / den in
  let r := num mod den in
  if 2 * r <? den then q
  else if den <? 2 * r then q + 1
  else if Z.even q then q else q + 1.

(** [py_round num den ndigits] is [round(num / den, ndigits)] as a
    fixed-point number, for [0 <= ndigits <= 4]. *)
Definition py_round (num den : Z) (ndigits : Z) : Z :=
  10 ^ (4 - ndigits) * round_half_even (num * 10 ^ ndigits) den.

(** Values that travel as keyword arguments and in [dict()] exports. *)
Inductive pyval :=
| PStr (s : string)
| PFloat (x : Z)
| PUuid (u : N)
| PTime (z : Z).

Definition kwargs := list (string * pyval).

Fixpoint kw_get (k : string) (kw : kwargs) : option pyval :=
  match kw with
  | [] => None
  | (k', v) :: kw' => if String.eqb k k' then Some v else kw_get k kw'
  end.

(** Truthiness of an optional float and of an optional string
    ([not x] is [negb (truthy x)]). *)
Definition truthy_float (x : option Z) : bool :=
  match x with Some v => negb (v =? 0) | None => false end.

Definition truthy_str (x : option string) : bool :=
  match x with Some s => negb (String.eqb s "") | None => false end.

(** The slice [l[start:]]: a negative [start] counts from the end, and both
    ends are clipped to the list. *)
Definition py_slice_from {A} (start : Z) (l : list A) : list A :=
  let n := Z.of_nat (length l) in
  if start <? 0 then drop (Z.to_nat (Z.max (n + start) 0)) l
  else drop (Z.to_nat (Z.min start n)) l.

(** ** models.py *)

Module Order.
Record t := mk {
  id : N;                        (* UUID *)
  symbol : string;
  order_type : string;           (* "market", "limit", "ioc", "fok" *)
  side : string;                 (* "buy" or "sell" *)
  quantity : Z;
  price : option Z;
  timestamp : Z;
  trigger_price : option Z;
  trigger_type : option string
}.

Definition with_quantity (o : t) (q : Z) : t :=
  mk (id o) (symbol o) (order_type o) (side o) q (price o) (timestamp o)
     (trigger_price o) (trigger_type o).

#[global] Instance eq_dec : EqDecision t.
Proof. solve_decision. Defined.

#[global] Instance inhabited : Inhabited t :=
  populate (mk 0%N "" "" "" 0 None 0 None None).
End Order.

Module Trade.
(** The declared fields of the [Trade] model. *)
Record t := mk {
  trade_id : N;
  symbol : string;
  price : Z;
  quantity : Z;
  aggressor_side : string;
  maker_order_id : N;
  taker_order_id : N;
  timestamp : Z
}.

(** The constructor [Trade], called with keyword arguments.  [trade_id]
    and [timestamp] come from their default factories ([uuid4()] and the
    clock) unless given.  The model class
    declares no configuration, so a keyword that names no declared field
    is dropped without error; a missing or ill-typed required field is a
    validation error ([None]). *)
Definition init (fresh : N) (now : Z) (kw : kwargs) : option t :=
  let tid := match kw_get "trade_id" kw with Some (PUuid u) => u | _ => fresh end in
  let ts := match kw_get "timestamp" kw with Some (PTime z) => z | _ => now end in
  match kw_get "symbol" kw, kw_get "price" kw, kw_get "quantity" kw,
        kw_get "aggressor_side" kw, kw_get "maker_order_id" kw,
        kw_get "taker_order_id" kw with
  | Some (PStr s), Some (PFloat p), Some (PFloat q),
    Some (PStr a), Some (PUuid m), Some (PUuid k) =>
      Some (mk tid s p q a m k ts)
  | _, _, _, _, _, _ => None
  end.

(** [trade.dict()], which [trade.json()] serialises. *)
Definition dict (x : t) : kwargs :=
  [ ("trade_id", PUuid (trade_id x)); ("symbol", PStr (symbol x));
    ("price", PFloat (price x)); ("quantity", PFloat (quantity x));
    ("aggressor_side", PStr (aggressor_side x));
    ("maker_order_id", PUuid (maker_order_id x));
    ("taker_order_id", PUuid (taker_order_id x));
    ("timestamp", PTime (timestamp x)) ]%string.

#[global] Instance inhabited : Inhabited t :=
  populate (mk 0%N "" 0 0 "" 0%N 0%N 0).
End Trade.

(** ** trade_log.py *)

Module TradeLog.
(** The module's globals: [trade_history], [symbol_trades], the lines of
    [trades.jsonl], and the two sources the [Trade] defaults read, the
    random UUID generator (a counter: [uuid4()] never repeats) and the
    clock. *)
Record t := mk {
  trade_history : list Trade.t;
  symbol_trades : gmap string (list Trade.t);
  trades_file : list kwargs;
  next_uuid : N;
  now : Z
}.

(** The log of a first start: no trade in memory and no file yet.  (After
    a restart the file still holds the lines of earlier processes; see
    [recorded_after].) *)
Definition empty : t := mk [] ∅ [] 0%N 0.
End TradeLog.

Definition MAKER_FEE_RATE : Z := 5.     (* 0.0005 *)
Definition TAKER_FEE_RATE : Z := 10.    (* 0.001 *)

(** [deque(maxlen=1000).append]: a full ring drops its oldest entry. *)
Definition RING_CAPACITY : nat := 1000.

Definition deque_append {A} (maxlen : nat) (d : list A) (x : A) : list A :=
  if (maxlen <=? length d)%nat then drop (S (length d) - maxlen) (d ++ [x])
  else d ++ [x].

(** [symbol_trades[symbol]] of the [defaultdict]. *)
Definition ring_of (tl : TradeLog.t) (symbol : string) : list Trade.t :=
  default [] (TradeLog.symbol_trades tl !! symbol).

(** The fees [log_trade] computes: the product, then [round(_, 4)].  The
    product is kept exactly here (at scale [10^12]) where the code rounds
    the product of floats, so the two can differ when the exact product
    lies halfway between two multiples of [0.0001]; no statement below
    depends on the value of a fee. *)
Definition fee_exact (price quantity rate : Z) : Z := price * quantity * rate.

Definition fee_rounded (price quantity rate : Z) : Z :=
  py_round (fee_exact price quantity rate) (unit4 ^ 3) 4.

(** The keyword arguments [log_trade] hands to [Trade]. *)
Definition log_trade_kwargs (symbol : string) (price quantity : Z)
    (aggressor_side : string) (maker_order_id taker_order_id : N) : kwargs :=
  let taker_fee := fee_rounded price quantity TAKER_FEE_RATE in
  let maker_fee := fee_rounded price quantity MAKER_FEE_RATE in
  [ ("symbol", PStr symbol); ("price", PFloat price);
    ("quantity", PFloat quantity); ("aggressor_side", PStr aggressor_side);
    ("maker_order_id", PUuid maker_order_id);
    ("taker_order_id", PUuid taker_order_id);
    ("maker_fee", PFloat maker_fee); ("taker_fee", PFloat taker_fee) ]%string.

(** [log_trade].  With the ids being UUIDs and the fields well typed the
    constructor cannot fail, so the [except] branch (log and re-raise) is
    never taken; the [default] below stands for it. *)
Definition log_trade (symbol : string) (price quantity : Z)
    (aggressor_side : string) (maker_order_id taker_order_id : N)
    (tl : TradeLog.t) : TradeLog.t * Trade.t :=
  let kw := log_trade_kwargs symbol price quantity aggressor_side
                             maker_order_id taker_order_id in
  let trade := default inhabitant
                 (Trade.init (TradeLog.next_uuid tl) (TradeLog.now tl) kw) in
  (TradeLog.mk
     (TradeLog.trade_history tl ++ [trade])
     (<[symbol := deque_append RING_CAPACITY (ring_of tl symbol) trade]>
        (TradeLog.symbol_trades tl))
     (TradeLog.trades_file tl ++ [Trade.dict trade])
     (N.succ (TradeLog.next_uuid tl))
     (TradeLog.now tl),
   trade).

Definition get_recent_trades (tl : TradeLog.t) (symbol : string) (limit : Z)
    : list Trade.t :=
  match TradeLog.symbol_trades tl !! symbol with
  | None => []
  | Some d => reverse (py_slice_from (- limit) d)
  end.

(** The logs the recorder can build: the empty log at start-up, then one
    [log_trade] after the other. *)
Inductive recorded : TradeLog.t -> Prop :=
| recorded_empty : recorded TradeLog.empty
| recorded_log tl symbol price quantity aggressor_side maker taker :
    recorded tl ->
    recorded (log_trade symbol price quantity aggressor_side maker taker tl).1.

(** A trade that carries its fees: its exported fields hold a maker fee and
    a taker fee, and they are the exact products of price, quantity and
    rate. *)
Definition carries_exact_fees (t : Trade.t) : Prop :=
  exists maker_fee taker_fee,
    kw_get "maker_fee" (Trade.dict t) = Some (PFloat maker_fee) /\
    kw_get "taker_fee" (Trade.dict t) = Some (PFloat taker_fee) /\
    maker_fee * unit4 ^ 2 = fee_exact (Trade.price t) (Trade.quantity t) MAKER_FEE_RATE /\
    taker_fee * unit4 ^ 2 = fee_exact (Trade.price t) (Trade.quantity t) TAKER_FEE_RATE.

(** ** stop_orders.py *)

Module BBO.
(** The dictionary [get_bbo] returns, read through [bbo.get]. *)
Record t := mk { bid : option Z; ask : option Z }.
End BBO.

(** [x is not None and x <= y], and the same with [>=]. *)
Definition some_le (x : option Z) (y : Z) : bool :=
  match x with Some v => v <=? y | None => false end.

Definition some_ge (x : option Z) (y : Z) : bool :=
  match x with Some v => y <=? v | None => false end.

Definition should_trigger (order : Order.t) (bbo : BBO.t) : bool :=
  if negb (truthy_float (Order.trigger_price order))
     || negb (truthy_str (Order.trigger_type order))
  then false
  else
    let trigger := default 0 (Order.trigger_price order) in
    let ttype := default ""%string (Order.trigger_type order) in
    let bid := BBO.bid bbo in
    let ask := BBO.ask bbo in
    if String.eqb ttype "stop_loss" then
      if String.eqb (Order.side order) "sell" && some_le bid trigger then true
      else if String.eqb (Order.side order) "buy" && some_ge ask trigger then true
      else false
    else if String.eqb ttype "take_profit" then
      if String.eqb (Order.side order) "sell" && some_ge bid trigger then true
      else if String.eqb (Order.side order) "buy" && some_le ask trigger then true
      else false
    else if String.eqb ttype "stop_limit" then
      if String.eqb (Order.side order) "buy" && some_ge ask trigger then true
      else if String.eqb (Order.side order) "sell" && some_le bid trigger then true
      else false
    else false.

(** The guard of [submit_stop_order] in [main.py]: only orders that pass it
    reach [add_stop_order] and become pending. *)
Definition stop_order_admitted (order : Order.t) : bool :=
  if negb (truthy_float (Order.trigger_price order))
     || negb (truthy_str (Order.trigger_type order))
  then false
  else if negb (String.eqb (Order.order_type order) "limit"
                || String.eqb (Order.order_type order) "market")
  then false
  else true.

(** The trigger table of the specification, one constructor per cell. *)
Inductive trigger_table (bbo : BBO.t) (trigger : Z) : string -> string -> Prop :=
| tt_stop_loss_buy a :
    BBO.ask bbo = Some a -> trigger <= a ->
    trigger_table bbo trigger "stop_loss" "buy"
| tt_stop_loss_sell b :
    BBO.bid bbo = Some b -> b <= trigger ->
    trigger_table bbo trigger "stop_loss" "sell"
| tt_take_profit_buy a :
    BBO.ask bbo = Some a -> a <= trigger ->
    trigger_table bbo trigger "take_profit" "buy"
| tt_take_profit_sell b :
    BBO.bid bbo = Some b -> trigger <= b ->
    trigger_table bbo trigger "take_profit" "sell"
| tt_stop_limit_buy a :
    BBO.ask bbo = Some a -> trigger <= a ->
    trigger_table bbo trigger "stop_limit" "buy"
| tt_stop_limit_sell b :
    BBO.bid bbo = Some b -> b <= trigger ->
    trigger_table bbo trigger "stop_limit" "sell".

(** ** engine.py *)

(** [round(price, 2)].  A price with more than two decimals that lies half
    way between two cents goes to the even cent here; the float of the code
    lies a little to one side of the half and the code rounds to that side.
    The statements below use of this function only that it is idempotent
    and that its result is a whole number of cents nearest to the price
    ([normalize_price_idem], [normalize_price_cents]), which holds for both
    directions of a tie. *)
Definition normalize_price (price : Z) : Z := py_round price unit4 2.

(** References to [Order] objects, and the heap they live in.  A reference
    the program holds always points to an object; [h !!! r] reads it. *)
Abbreviation ref := nat (only parsing).
Abbreviation heap := (gmap nat Order.t) (only parsing).

(** Exceptions the modelled code can raise, and the outcome of a call: the
    state it leaves behind is kept in both cases. *)
Inductive exn := KeyError | TypeError.

Inductive outcome (A : Type) :=
| Return (a : A)
| Raise (e : exn).
Arguments Return {A} a.
Arguments Raise {A} e.

(** What a Python function hands back where a [bool] is announced. *)
Inductive pyres := PNone | PBool (b : bool).

(** [sorted(d.keys())], [sorted(d.keys(), reverse=True)], [max] and [min]
    of the keys of a dictionary with float keys. *)
Definition keys {V} (d : gmap Z V) : list Z := (map_to_list d).*1.

Definition sorted (l : list Z) : list Z := merge_sort Z.le l.
Definition sorted_reverse (l : list Z) : list Z := reverse (merge_sort Z.le l).

Definition py_max (l : list Z) : option Z :=
  match l with [] => None | x :: l' => Some (foldl Z.max x l') end.

Definition py_min (l : list Z) : option Z :=
  match l with [] => None | x :: l' => Some (foldl Z.min x l') end.

Module PriceLevel.
Record t := mk {
  price : Z;
  orders : list nat;
  total_quantity : Z
}.

Definition new (price : Z) : t := mk (normalize_price price) [] 0.

(** [total_quantity += order.quantity] and, in [remove_order],
    [total_quantity -= order.quantity] are the float operations of the
    code, written with the exact [+] and [-] of [Z]: they agree for the
    quantities of [exact_quantity]. *)
Definition add_order (h : heap) (self : t) (order : ref) : t :=
  mk (price self) (orders self ++ [order])
     (total_quantity self + Order.quantity (h !!! order)).

(** [x is order or x == order]: what [in] and [list.remove] test.  The
    model class compares field by field. *)
Definition same (h : heap) (order x : ref) : bool :=
  bool_decide (x = order) || bool_decide (h !!! x = h !!! order).

(** [l.remove(order)] for a list that holds a match: the first one goes. *)
Fixpoint list_remove (p : nat -> bool) (l : list nat) : list nat :=
  match l with
  | [] => []
  | x :: l' => if p x then l' else x :: list_remove p l'
  end.

Definition remove_order (h : heap) (self : t) (order : ref) : t :=
  if existsb (same h order) (orders self) then
    mk (price self) (list_remove (same h order) (orders self))
       (total_quantity self - Order.quantity (h !!! order))
  else self.

Definition is_empty (self : t) : bool := (length (orders self) =? 0)%nat.
End PriceLevel.

Module OrderBook.
Record t := mk {
  symbol : string;
  bids : gmap Z PriceLevel.t;
  asks : gmap Z PriceLevel.t;
  orders : gmap N nat
}.

Definition new (symbol : string) : t := mk symbol ∅ ∅ ∅.

(** [self.bids if order.side == "buy" else self.asks], and writing the
    dictionary back. *)
Definition side_book (self : t) (side : string) : gmap Z PriceLevel.t :=
  if String.eqb side "buy" then bids self else asks self.

Definition set_side_book (self : t) (side : string)
    (d : gmap Z PriceLevel.t) : t :=
  if String.eqb side "buy" then mk (symbol self) d (asks self) (orders self)
  else mk (symbol self) (bids self) d (orders self).

Definition set_orders (self : t) (ix : gmap N nat) : t :=
  mk (symbol self) (bids self) (asks self) ix.

(** The id index is written before [normalize_price] can fail on a
    missing price. *)
Definition add_order (h : heap) (order : ref) (self : t) : t * outcome unit :=
  let o := h !!! order in
  let self1 := set_orders self (<[Order.id o := order]> (orders self)) in
  match Order.price o with
  | None => (self1, Raise TypeError)
  | Some p =>
      let price_key := normalize_price p in
      let book := side_book self1 (Order.side o) in
      let book1 :=
        match book !! price_key with
        | None => <[price_key := PriceLevel.new price_key]> book
        | Some _ => book
        end in
      let book2 :=
        alter (fun l => PriceLevel.add_order h l order) price_key book1 in
      (set_side_book self1 (Order.side o) book2, Return tt)
  end.

(** The method has no [return]: it hands back [None] (here [tt]). *)
Definition remove_order (h : heap) (order : ref) (self : t) : t * outcome unit :=
  let o := h !!! order in
  match Order.price o with
  | None => (self, Raise TypeError)
  | Some p =>
      let price_key := normalize_price p in
      let book := side_book self (Order.side o) in
      let book' :=
        match book !! price_key with
        | Some level =>
            let level' := PriceLevel.remove_order h level order in
            if PriceLevel.is_empty level' then delete price_key book
            else <[price_key := level']> book
        | None => book
        end in
      let self1 := set_side_book self (Order.side o) book' in
      (set_orders self1 (delete (Order.id o) (orders self1)), Return tt)
  end.

Definition get_best_bid (self : t) : option Z := py_max (keys (bids self)).
Definition get_best_ask (self : t) : option Z := py_min (keys (asks self)).

(** [get_depth]: the first [levels] entries of each side, best first, as
    pairs of price and [total_quantity]. *)
Definition depth_side (d : gmap Z PriceLevel.t) (ks : list Z) (levels : nat)
    : list (Z * Z) :=
  omap (fun k => (fun l => (k, PriceLevel.total_quantity l)) <$> d !! k)
       (take levels ks).

Definition get_depth (self : t) (levels : nat) : list (Z * Z) * list (Z * Z) :=
  (depth_side (bids self) (sorted_reverse (keys (bids self))) levels,
   depth_side (asks self) (sorted (keys (asks self))) levels).
End OrderBook.

(** The part of the world a call on one book works on: the heap of orders,
    the book and the trade log. *)
Module Env.
Record t := mk {
  heap : gmap nat Order.t;
  book : OrderBook.t;
  tlog : TradeLog.t
}.

Definition set_book (s : t) (b : OrderBook.t) : t := mk (heap s) b (tlog s).
End Env.

(** [order.quantity -= q] on the object behind [r].  The matching pass
    calls it with [q = min(order.quantity, resting_order.quantity)], so one
    of the two subtractions of a fill is [x - x]; the other is one float
    subtraction, exact for the quantities of [exact_quantity]. *)
Definition sub_quantity (h : heap) (r : ref) (q : Z) : heap :=
  <[r := Order.with_quantity (h !!! r) (Order.quantity (h !!! r) - q)]> h.

Module MatchingEngine.

(** [book.asks if is_buy else book.bids]. *)
Definition opposite_book (is_buy : bool) (b : OrderBook.t)
    : gmap Z PriceLevel.t :=
  if is_buy then OrderBook.asks b else OrderBook.bids b.

Definition set_opposite_book (is_buy : bool) (b : OrderBook.t)
    (d : gmap Z PriceLevel.t) : OrderBook.t :=
  if is_buy
  then OrderBook.mk (OrderBook.symbol b) (OrderBook.bids b) d (OrderBook.orders b)
  else OrderBook.mk (OrderBook.symbol b) d (OrderBook.asks b) (OrderBook.orders b).

(** The inner loop of [_match_order], over the copy [level.orders[:]];
    [trades] is the list built so far. *)
Fixpoint match_level (order : ref) (price : Z) (resting_orders : list nat)
    (trades : list Trade.t) (s : Env.t) : Env.t * outcome (list Trade.t) :=
  match resting_orders with
  | [] => (s, Return trades)
  | resting_order :: rest =>
      if Order.quantity (Env.heap s !!! order) <=? 0 then (s, Return trades)
      else
        let traded_qty :=
          Z.min (Order.quantity (Env.heap s !!! order))
                (Order.quantity (Env.heap s !!! resting_order)) in
        let h1 := sub_quantity (Env.heap s) order traded_qty in
        let h2 := sub_quantity h1 resting_order traded_qty in
        let '(tl, trade) :=
          log_trade (Order.symbol (h2 !!! order)) price traded_qty
                    (Order.side (h2 !!! order))
                    (Order.id (h2 !!! resting_order))
                    (Order.id (h2 !!! order)) (Env.tlog s) in
        let trades' := trades ++ [trade] in
        if Order.quantity (h2 !!! resting_order) <=? 0 then
          match OrderBook.remove_order h2 resting_order (Env.book s) with
          | (b, Return _) => match_level order price rest trades' (Env.mk h2 b tl)
          | (b, Raise e) => (Env.mk h2 b tl, Raise e)
          end
        else match_level order price rest trades' (Env.mk h2 (Env.book s) tl)
  end.

(** The guard at the head of the outer loop: [Return true] means [break].
    [normalize_price(order.price)] is evaluated whenever [market] is
    false, and fails on a missing price. *)
Definition beyond_limit (h : heap) (order : ref) (market is_buy : bool)
    (price : Z) : outcome bool :=
  if market then Return false
  else match Order.price (h !!! order) with
       | None => Raise TypeError
       | Some p =>
           Return ((is_buy && (normalize_price p <? price))
                   || (negb is_buy && (price <? normalize_price p)))
       end.

(** The outer loop of [_match_order] over [price_levels].

    [level] is the object stored under [price] when the iteration starts.
    It is only changed through the dictionary entry, and it leaves the
    dictionary only once it is empty (in [OrderBook.remove_order]); so
    after the inner loop [level.is_empty()] is read from the entry when
    there is one, and is true when the entry is gone. *)
Fixpoint match_levels (order : ref) (market is_buy : bool)
    (price_levels : list Z) (trades : list Trade.t) (s : Env.t)
    : Env.t * outcome (list Trade.t) :=
  match price_levels with
  | [] => (s, Return trades)
  | price :: rest =>
      match beyond_limit (Env.heap s) order market is_buy price with
      | Raise e => (s, Raise e)
      | Return true => (s, Return trades)
      | Return false =>
          match opposite_book is_buy (Env.book s) !! price with
          | None => (s, Raise KeyError)
          | Some level =>
              match match_level order price (PriceLevel.orders level) trades s with
              | (s1, Raise e) => (s1, Raise e)
              | (s1, Return trades1) =>
                  let d := opposite_book is_buy (Env.book s1) in
                  let level_is_empty :=
                    match d !! price with
                    | Some l => PriceLevel.is_empty l
                    | None => true
                    end in
                  let after_del :=
                    if level_is_empty then
                      match d !! price with
                      | None => (s1, Raise KeyError)
                      | Some _ =>
                          (Env.set_book s1
                             (set_opposite_book is_buy (Env.book s1) (delete price d)),
                           Return tt)
                      end
                    else (s1, Return tt) in
                  match after_del with
                  | (s2, Raise e) => (s2, Raise e)
                  | (s2, Return _) =>
                      if Order.quantity (Env.heap s2 !!! order) <=? 0
                      then (s2, Return trades1)
                      else match_levels order market is_buy rest trades1 s2
                  end
              end
          end
      end
  end.

Definition _match_order (order : ref) (market : bool) (s : Env.t)
    : Env.t * outcome (list Trade.t) :=
  let is_buy := String.eqb (Order.side (Env.heap s !!! order)) "buy" in
  let opposite := opposite_book is_buy (Env.book s) in
  let price_levels :=
    if is_buy then sorted (keys opposite) else sorted_reverse (keys opposite) in
  match_levels order market is_buy price_levels [] s.

Definition _execute_market_order (order : ref) (s : Env.t)
    : Env.t * outcome (list Trade.t) :=
  _match_order order true s.

Definition _execute_limit_order (order : ref) (ioc : bool) (s : Env.t)
    : Env.t * outcome (list Trade.t) :=
  match _match_order order false s with
  | (s1, Raise e) => (s1, Raise e)
  | (s1, Return trades) =>
      if (0 <? Order.quantity (Env.heap s1 !!! order)) && negb ioc then
        match OrderBook.add_order (Env.heap s1) order (Env.book s1) with
        | (b, Return _) => (Env.set_book s1 b, Return trades)
        | (b, Raise e) => (Env.set_book s1 b, Raise e)
        end
      else (s1, Return trades)
  end.

(** The loop of [_can_fully_fill].  Leaving the loop, by [break] or at its
    end, leads to the final [return False].  [total] is a running sum of
    floats in the code; the statements that depend on its value are made
    for books whose sums are exact ([exact_world]). *)
Fixpoint can_fill_loop (d : gmap Z PriceLevel.t) (is_buy : bool)
    (price_key quantity : Z) (prices : list Z) (total : Z) : outcome bool :=
  match prices with
  | [] => Return false
  | price :: rest =>
      if (if is_buy then price_key <? price else price <? price_key)
      then Return false
      else match d !! price with
           | None => Raise KeyError
           | Some level =>
               let total' := total + PriceLevel.total_quantity level in
               if quantity <=? total' then Return true
               else can_fill_loop d is_buy price_key quantity rest total'
           end
  end.

Definition _can_fully_fill (order : ref) (s : Env.t) : outcome bool :=
  let o := Env.heap s !!! order in
  match Order.price o with
  | None => Raise TypeError
  | Some p =>
      let price_key := normalize_price p in
      if String.eqb (Order.side o) "buy" then
        can_fill_loop (OrderBook.asks (Env.book s)) true price_key
                      (Order.quantity o)
                      (sorted (keys (OrderBook.asks (Env.book s)))) 0
      else
        can_fill_loop (OrderBook.bids (Env.book s)) false price_key
                      (Order.quantity o)
                      (sorted_reverse (keys (OrderBook.bids (Env.book s)))) 0
  end.

(** The dispatch of [process_order] on the order type, on the book that
    [_get_order_book] returned. *)
Definition dispatch (order : ref) (s : Env.t) : Env.t * outcome (list Trade.t) :=
  let ty := Order.order_type (Env.heap s !!! order) in
  if String.eqb ty "market" then _execute_market_order order s
  else if String.eqb ty "limit" then _execute_limit_order order false s
  else if String.eqb ty "ioc" then _execute_limit_order order true s
  else if String.eqb ty "fok" then
    match _can_fully_fill order s with
    | Raise e => (s, Raise e)
    | Return true => _execute_limit_order order false s
    | Return false => (s, Return [])
    end
  else (s, Return []).
End MatchingEngine.

(** ** The engine facade and the world around it *)

(** The whole state: the heap of order objects with its allocation counter,
    the registry [engine.order_books], and the globals of [trade_log.py]. *)
Module World.
Record t := mk {
  heap : gmap nat Order.t;
  next_ref : nat;
  order_books : gmap string OrderBook.t;
  tlog : TradeLog.t
}.

Definition init : t := mk ∅ 0%nat ∅ TradeLog.empty.

(** A new [Order] object. *)
Definition alloc (o : Order.t) (w : t) : t * nat :=
  (mk (<[next_ref w := o]> (heap w)) (S (next_ref w)) (order_books w) (tlog w),
   next_ref w).
End World.

(** [_get_order_book]: the book of the symbol, created empty on first use. *)
Definition _get_order_book (symbol : string) (w : World.t) : OrderBook.t :=
  default (OrderBook.new symbol) (World.order_books w !! symbol).

(** [process_order].  The book object is registered by [_get_order_book]
    before matching starts and is changed in place, so the registry sees
    the book as the call leaves it, also when the call raises. *)
Definition process_order (order : ref) (w : World.t)
    : World.t * outcome (list Trade.t) :=
  let symbol := Order.symbol (World.heap w !!! order) in
  let book := _get_order_book symbol w in
  let '(s, res) :=
    MatchingEngine.dispatch order (Env.mk (World.heap w) book (World.tlog w)) in
  (World.mk (Env.heap s) (World.next_ref w)
            (<[symbol := Env.book s]> (World.order_books w)) (Env.tlog s),
   res).

(** [cancel_order].  A book object is always truthy, so [not book] asks
    whether the symbol is registered.  On the last line the method returns
    what [OrderBook.remove_order] returns. *)
Definition cancel_order (symbol : string) (order_id : N) (w : World.t)
    : World.t * outcome pyres :=
  match World.order_books w !! symbol with
  | None => (w, Return (PBool false))
  | Some book =>
      match OrderBook.orders book !! order_id with
      | None => (w, Return (PBool false))
      | Some order =>
          let '(b, res) := OrderBook.remove_order (World.heap w) order book in
          (World.mk (World.heap w) (World.next_ref w)
                    (<[symbol := b]> (World.order_books w)) (World.tlog w),
           match res with Return _ => Return PNone | Raise e => Raise e end)
      end
  end.

Definition get_bbo (symbol : string) (w : World.t) : BBO.t :=
  match World.order_books w !! symbol with
  | None => BBO.mk None None
  | Some book => BBO.mk (OrderBook.get_best_bid book) (OrderBook.get_best_ask book)
  end.

(** ** main.py: admission of an order *)

Inductive response :=
| Accepted (order_id : N) (trades : nat)
| HttpError (status : nat).

(** [submit_order]: the request body becomes a new [Order] object; an order
    other than a market order needs a price; any exception of the engine is
    answered with status 500, after the engine has done what it did. *)
Definition submit_order (o : Order.t) (w : World.t) : World.t * response :=
  let '(w1, order) := World.alloc o w in
  if negb (String.eqb (Order.order_type o) "market")
     && negb (bool_decide (is_Some (Order.price o)))
  then (w1, HttpError 500)
  else match process_order order w1 with
       | (w2, Return trades) => (w2, Accepted (Order.id o) (length trades))
       | (w2, Raise _) => (w2, HttpError 500)
       end.

(** A new order object handed to [process_order] directly, as the stop
    order monitor and the loader of saved books do. *)
Definition process_new (o : Order.t) (w : World.t)
    : World.t * outcome (list Trade.t) :=
  let '(w1, order) := World.alloc o w in process_order order w1.

(** ** Notions used to state the properties *)

(** The sum of the remaining quantities of the orders queued at a level,
    recomputed from the heap. *)
Definition level_sum (h : heap) (l : PriceLevel.t) : Z :=
  foldr (fun r acc => Order.quantity (h !!! r) + acc) 0 (PriceLevel.orders l).

(** [r] rests in the book: it is queued at some level of one side. *)
Definition queued (d : gmap Z PriceLevel.t) (r : ref) : Prop :=
  exists k l, d !! k = Some l /\ r ∈ PriceLevel.orders l.

Definition resting (b : OrderBook.t) (r : ref) : Prop :=
  queued (OrderBook.bids b) r \/ queued (OrderBook.asks b) r.

(** The objects queued on one side, and in the whole book. *)
Definition level_refs (d : gmap Z PriceLevel.t) : list nat :=
  mbind (fun kl => PriceLevel.orders kl.2) (map_to_list d).

Definition resting_refs (b : OrderBook.t) : list nat :=
  level_refs (OrderBook.bids b) ++ level_refs (OrderBook.asks b).

(** An order with identifier [i] is in the book: queued at a level, or named
    by the id index. *)
Definition in_book (h : heap) (b : OrderBook.t) (i : N) : bool :=
  existsb (fun r => N.eqb (Order.id (h !!! r)) i) (resting_refs b)
  || bool_decide (is_Some (OrderBook.orders b !! i)).

(** Everything of an order but its remaining quantity. *)
Definition static (o : Order.t) : Order.t := Order.with_quantity o 0.

(** [h'] comes from [h] by changes of remaining quantities only. *)
Definition frozen (h h' : heap) : Prop :=
  forall r, static (h' !!! r) = static (h !!! r).

(** [h'] agrees with [h] outside of the references in [P]. *)
Definition same_outside (P : nat -> Prop) (h h' : heap) : Prop :=
  forall r, ~ P r -> h' !!! r = h !!! r.

(** One side of a book has only lost orders and levels. *)
Definition side_le (d' d : gmap Z PriceLevel.t) : Prop :=
  forall k l', d' !! k = Some l' ->
    exists l, d !! k = Some l /\ PriceLevel.orders l' `sublist_of` PriceLevel.orders l.

Definition book_le (b' b : OrderBook.t) : Prop :=
  side_le (OrderBook.bids b') (OrderBook.bids b)
  /\ side_le (OrderBook.asks b') (OrderBook.asks b)
  /\ OrderBook.orders b' ⊆ OrderBook.orders b.

(** What a trade says of the match that produced it: [t] was printed at
    level [price] for the incoming [order] against one of the orders [rs]. *)
Definition trade_of (h : heap) (order : ref) (price : Z) (rs : list nat)
    (t : Trade.t) : Prop :=
  Trade.price t = price
  /\ Trade.aggressor_side t = Order.side (h !!! order)
  /\ Trade.taker_order_id t = Order.id (h !!! order)
  /\ exists r, r ∈ rs /\ Trade.maker_order_id t = Order.id (h !!! r).

(** The same, with the level found in the side [d] of the book. *)
Definition trade_in (h : heap) (order : ref) (d : gmap Z PriceLevel.t)
    (t : Trade.t) : Prop :=
  exists level, d !! Trade.price t = Some level
    /\ trade_of h order (Trade.price t) (PriceLevel.orders level) t.

(** [price] is no worse than the limit of the incoming order. *)
Definition within_limit (h : heap) (order : ref) (price : Z) : Prop :=
  exists p, Order.price (h !!! order) = Some p
    /\ (Order.side (h !!! order) = "buy"%string -> price <= normalize_price p)
    /\ (Order.side (h !!! order) <> "buy"%string -> normalize_price p <= price).

(** Well-formed books.  An order queued at key [k] of the bids ([buy_side]
    true) or asks carries that side and a price that normalises to [k], and
    has a positive remaining quantity; a level present is non-empty and
    holds no object twice; the sides do not cross. *)
Definition order_ok (h : heap) (buy_side : bool) (k : Z) (r : ref) : Prop :=
  String.eqb (Order.side (h !!! r)) "buy" = buy_side
  /\ (exists p, Order.price (h !!! r) = Some p /\ normalize_price p = k)
  /\ 0 < Order.quantity (h !!! r).

Definition level_ok (h : heap) (buy_side : bool) (k : Z) (l : PriceLevel.t) : Prop :=
  PriceLevel.orders l <> []
  /\ NoDup (PriceLevel.orders l)
  /\ Forall (order_ok h buy_side k) (PriceLevel.orders l).

Definition side_ok (h : heap) (buy_side : bool) (d : gmap Z PriceLevel.t) : Prop :=
  forall k l, d !! k = Some l -> level_ok h buy_side k l.

Definition no_cross (b : OrderBook.t) : Prop :=
  forall kb ka,
    is_Some (OrderBook.bids b !! kb) -> is_Some (OrderBook.asks b !! ka) -> kb < ka.

Definition book_ok (h : heap) (b : OrderBook.t) : Prop :=
  side_ok h true (OrderBook.bids b) /\ side_ok h false (OrderBook.asks b)
  /\ no_cross b.

(** The invariant of the inner loop of [_match_order] at level [price] on a
    well-formed book, [rs] being what is left of the copy of the queue:
    unless the incoming order is exhausted, the level holds exactly [rs],
    and is gone from the dictionary when [rs] is empty. *)
Definition level_at (d : gmap Z PriceLevel.t) (price : Z) (rs : list nat) : Prop :=
  match rs with
  | [] => d !! price = None
  | _ => exists l, d !! price = Some l /\ PriceLevel.orders l = rs
  end.

Definition match_inv (order : ref) (is_buy : bool) (price : Z) (s : Env.t)
    (rs : list nat) : Prop :=
  book_ok (Env.heap s) (Env.book s)
  /\ ~ resting (Env.book s) order
  /\ (Order.quantity (Env.heap s !!! order) <= 0
      \/ level_at (MatchingEngine.opposite_book is_buy (Env.book s)) price rs).

(** Well-formed worlds: every registered book is well formed, and the
    objects queued in the book of a symbol are allocated and carry that
    symbol. *)
Definition world_ok (w : World.t) : Prop :=
  forall symbol b, World.order_books w !! symbol = Some b ->
    book_ok (World.heap w) b
    /\ forall r, resting b r ->
         (r < World.next_ref w)%nat
         /\ Order.symbol (World.heap w !!! r) = symbol.

(** The states of the engine: from the empty engine, by new orders handed
    to [process_order] (from [submit_order], from the stop order monitor or
    from the loader) and by cancellations. *)
Inductive reachable : World.t -> Prop :=
| reachable_init : reachable World.init
| reachable_process o w : reachable w -> reachable (process_new o w).1
| reachable_submit o w : reachable w -> reachable (submit_order o w).1
| reachable_cancel symbol order_id w :
    reachable w -> reachable (cancel_order symbol order_id w).1.

(** The priority queue of one side: its levels best first, each in arrival
    order. *)
Definition queue_of (d : gmap Z PriceLevel.t) (ks : list Z) : list nat :=
  mbind (fun k => from_option PriceLevel.orders [] (d !! k)) ks.

Definition opposite_queue (is_buy : bool) (b : OrderBook.t) : list nat :=
  let d := MatchingEngine.opposite_book is_buy b in
  queue_of d (if is_buy then sorted (keys d) else sorted_reverse (keys d)).

(** [fills h trades rs]: the trades consume the queue [rs] from its head,
    one trade per order, each order but the last one traded being consumed
    in full (its whole remaining quantity in [h]). *)
Inductive fills (h : heap) : list Trade.t -> list nat -> Prop :=
| fills_nil rs : fills h [] rs
| fills_last t r rs :
    Trade.maker_order_id t = Order.id (h !!! r) ->
    0 < Trade.quantity t <= Order.quantity (h !!! r) ->
    fills h [t] (r :: rs)
| fills_cons t t' ts r rs :
    Trade.maker_order_id t = Order.id (h !!! r) ->
    Trade.quantity t = Order.quantity (h !!! r) ->
    fills h (t' :: ts) rs ->
    fills h (t :: t' :: ts) (r :: rs).

(** What one call on a well-formed book guarantees: the book stays well
    formed, only remaining quantities change, and only those of the incoming
    order and of orders that rested in the book; no order but the incoming
    one enters the book; and the trades consume the opposite queue from its
    head. *)
Definition call_ok (order : ref) (s s' : Env.t) : Prop :=
  book_ok (Env.heap s') (Env.book s')
  /\ frozen (Env.heap s) (Env.heap s')
  /\ same_outside (fun x => x = order \/ resting (Env.book s) x)
                  (Env.heap s) (Env.heap s')
  /\ (forall x, resting (Env.book s') x -> x = order \/ resting (Env.book s) x)
  /\ exists new,
       TradeLog.trade_history (Env.tlog s')
         = TradeLog.trade_history (Env.tlog s) ++ new
       /\ fills (Env.heap s) new
            (opposite_queue (String.eqb (Order.side (Env.heap s !!! order)) "buy")
                            (Env.book s)).

(** ** Sample orders and worlds *)

(** A limit order for the symbol BTC-USDT. *)
Definition limit_order (i : N) (side : string) (quantity price : Z) : Order.t :=
  Order.mk i "BTC-USDT" "limit" side quantity (Some price) 0 None None.

Definition typed_order (ty : string) (i : N) (side : string)
    (quantity price : Z) : Order.t :=
  Order.mk i "BTC-USDT" ty side quantity (Some price) 0 None None.

(** One ask of 2.0 at 100.00. *)
Definition world_one_ask : World.t :=
  (process_new (limit_order 1 "sell" 20000 1000000) World.init).1.

(** The same after a buy of 1.0 at 100.00 has traded against it. *)
Definition world_after_partial_fill : World.t :=
  (process_new (limit_order 2 "buy" 10000 1000000) world_one_ask).1.

(** Two asks of 1.0 at 100.00, order 1 admitted before order 2. *)
Definition world_two_asks : World.t :=
  (process_new (limit_order 2 "sell" 10000 1000000)
     (process_new (limit_order 1 "sell" 10000 1000000) World.init).1).1.

(** A bid at 100.00 and an ask at 101.00. *)
Definition world_two_sided : World.t :=
  (process_new (limit_order 2 "buy" 10000 1000000)
     (process_new (limit_order 1 "sell" 10000 1010000) World.init).1).1.

(** One ask of 1.0 at 100.00. *)
Definition world_first_ask : World.t :=
  (process_new (limit_order 1 "sell" 10000 1000000) World.init).1.

(** One ask of 2.0 at 100.00 and a new immediate-or-cancel order, buying
    1.0 at 100.00, not yet processed; it is the object behind reference 1. *)
Definition world_with_ioc : World.t :=
  (World.alloc (typed_order "ioc" 2 "buy" 10000 1000000) world_one_ask).1.

(** ** Read-only calls: engine.py, trade_log.py and the endpoints of main.py *)

(** [get_order_book_depth]: the pair of the entries ["bids"] and ["asks"]
    of the dictionary it returns (the entries ["symbol"] and ["timestamp"]
    are left out).  The callers pass no [levels], which is then 10; a
    natural number stands for a non-negative [levels]. *)
Definition get_order_book_depth (symbol : string) (levels : nat) (w : World.t)
    : list (Z * Z) * list (Z * Z) :=
  match World.order_books w !! symbol with
  | None => ([], [])
  | Some book => OrderBook.get_depth book levels
  end.

(** [get_order_status]: the object the id index holds, or [None]. *)
Definition get_order_status (symbol : string) (order_id : N) (w : World.t)
    : option nat :=
  match World.order_books w !! symbol with
  | None => None
  | Some book => OrderBook.orders book !! order_id
  end.

(** [get_all_trade_history]: [trade_history[-limit:][::-1]]. *)
Definition get_all_trade_history (tl : TradeLog.t) (limit : Z) : list Trade.t :=
  reverse (py_slice_from (- limit) (TradeLog.trade_history tl)).

(** What a read-only endpoint answers: a body, or a JSON response with an
    error status. *)
Inductive reply (A : Type) :=
| Body (a : A)
| Status (code : nat).
Arguments Body {A} a.
Arguments Status {A} code.

(** [GET /orderbook/{symbol}] and [GET /bbo/{symbol}]. *)
Definition get_order_book (symbol : string) (w : World.t)
    : reply (list (Z * Z) * list (Z * Z)) :=
  let depth := get_order_book_depth symbol 10 w in
  if bool_decide (depth.1 = []) && bool_decide (depth.2 = [])
  then Status 404 else Body depth.

Definition get_bbo_endpoint (symbol : string) (w : World.t) : reply BBO.t :=
  let bbo := get_bbo symbol w in
  if bool_decide (BBO.bid bbo = None) && bool_decide (BBO.ask bbo = None)
  then Status 404 else Body bbo.

(** ** The id index *)

(** The states the engine reaches through the endpoint [submit_order] and
    through cancellations alone (no stop order is triggered and no saved
    book is loaded). *)
Inductive reachable_api : World.t -> Prop :=
| reachable_api_init : reachable_api World.init
| reachable_api_submit o w : reachable_api w -> reachable_api (submit_order o w).1
| reachable_api_cancel symbol order_id w :
    reachable_api w -> reachable_api (cancel_order symbol order_id w).1.

(** The id index of a book is sound: an identifier it holds names an object
    that rests in the book and carries that identifier. *)
Definition book_sound (h : heap) (b : OrderBook.t) : Prop :=
  forall i r, OrderBook.orders b !! i = Some r ->
    resting b r /\ Order.id (h !!! r) = i.

Definition index_sound (w : World.t) : Prop :=
  forall symbol b, World.order_books w !! symbol = Some b ->
    book_sound (World.heap w) b.

(** One ask of 1.0 at 100.00, submitted through the endpoint. *)
Definition world_api_ask : World.t :=
  (submit_order (limit_order 1 "sell" 10000 1000000) World.init).1.

(** ** Quantities *)

(** The sum of the remaining quantities of a list of orders, and the
    quantity a list of trades has moved.  ([level_sum h l] is
    [queue_sum h (PriceLevel.orders l)].) *)
Definition queue_sum (h : heap) (rs : list nat) : Z :=
  foldr (fun r acc => Order.quantity (h !!! r) + acc) 0 rs.

Definition traded (ts : list Trade.t) : Z :=
  foldr (fun t acc => Trade.quantity t + acc) 0 ts.

(** The best price of the side an incoming order trades against: the best
    ask for a buy order, the best bid for any other order. *)
Definition best_opposite (is_buy : bool) (b : OrderBook.t) : option Z :=
  if is_buy then OrderBook.get_best_ask b else OrderBook.get_best_bid b.

(** [p] is a price the incoming order [o] accepts: any price for a market
    order, and otherwise a price no worse than its limit rounded to the
    cent. *)
Definition accepts (o : Order.t) (p : Z) : bool :=
  String.eqb (Order.order_type o) "market"
  || match Order.price o with
     | Some limit =>
         if String.eqb (Order.side o) "buy" then p <=? normalize_price limit
         else normalize_price limit <=? p
     | None => false
     end.

(** What one call does to the quantities and to the levels, for a
    well-formed book. *)
Definition accounted (order : nat) (s s' : Env.t) (res : outcome (list Trade.t))
    : Prop :=
  let h := Env.heap s in
  let is_buy := String.eqb (Order.side (h !!! order)) "buy" in
  let queue := opposite_queue is_buy (Env.book s) in
  exists new,
    TradeLog.trade_history (Env.tlog s')
      = TradeLog.trade_history (Env.tlog s) ++ new
    /\ (forall ts, res = Return ts -> ts = new)
    /\ Forall (fun t => 0 < Trade.quantity t
                        /\ best_opposite is_buy (Env.book s) = Some (Trade.price t))
              new
    /\ (forall sym, sym <> Order.symbol (h !!! order) ->
          TradeLog.symbol_trades (Env.tlog s') !! sym
          = TradeLog.symbol_trades (Env.tlog s) !! sym)
    /\ Order.quantity (Env.heap s' !!! order)
       = Order.quantity (h !!! order) - traded new
    /\ (0 <= Order.quantity (h !!! order) ->
        0 <= Order.quantity (Env.heap s' !!! order))
    /\ queue_sum (Env.heap s') queue = queue_sum h queue - traded new
    /\ same_outside (fun x => x = order \/ x ∈ queue) h (Env.heap s')
    /\ (forall k, best_opposite is_buy (Env.book s) <> Some k ->
          MatchingEngine.opposite_book is_buy (Env.book s') !! k
          = MatchingEngine.opposite_book is_buy (Env.book s) !! k).

(** ** The aggregate of a level *)

(** The aggregate a level stores is at least the sum of what its orders
    have left, and the level stores its own key as price. *)
Definition level_agg (h : heap) (k : Z) (l : PriceLevel.t) : Prop :=
  level_sum h l <= PriceLevel.total_quantity l /\ PriceLevel.price l = k.

Definition side_agg (h : heap) (d : gmap Z PriceLevel.t) : Prop :=
  forall k l, d !! k = Some l -> level_agg h k l.

Definition book_agg (h : heap) (b : OrderBook.t) : Prop :=
  side_agg h (OrderBook.bids b) /\ side_agg h (OrderBook.asks b).

Definition world_agg (w : World.t) : Prop :=
  forall symbol b, World.order_books w !! symbol = Some b ->
    book_agg (World.heap w) b.

(** What the book can give an incoming order: the sum of the remaining
    quantities of the orders resting on the opposite side at prices the
    order accepts. *)
Definition available (h : heap) (b : OrderBook.t) (o : Order.t) : Z :=
  let is_buy := String.eqb (Order.side o) "buy" in
  let d := MatchingEngine.opposite_book is_buy b in
  queue_sum h (queue_of d (List.filter (accepts o)
                             (if is_buy then sorted (keys d)
                              else sorted_reverse (keys d)))).

(** ** stop_orders.py: the pending stop orders and their monitor *)

(** [stop_orders_by_symbol], a [defaultdict(list)]: the symbols in the
    order in which they got their first stop order, each with the list of
    its pending orders in the order of arrival. *)
Module StopOrders.
Definition t := list (string * list nat).

Fixpoint get (symbol : string) (d : t) : option (list nat) :=
  match d with
  | [] => None
  | (s, l) :: d' => if String.eqb s symbol then Some l else get symbol d'
  end.

(** [d[symbol] = l]: an entry keeps its place, a new one goes last. *)
Fixpoint store (symbol : string) (l : list nat) (d : t) : t :=
  match d with
  | [] => [(symbol, l)]
  | (s, l0) :: d' =>
      if String.eqb s symbol then (s, l) :: d'
      else (s, l0) :: store symbol l d'
  end.

(** [d[symbol]] of the [defaultdict], read only. *)
Definition pending (symbol : string) (d : t) : list nat :=
  default [] (get symbol d).

(** All pending orders. *)
Definition refs (d : t) : list nat := mbind snd d.
End StopOrders.

(** The engine together with the module [stop_orders]: the world, the
    pending stop orders, and the number of identifiers the monitor has
    drawn from [uuid.uuid4] so far. *)
Module System.
Record t := mk {
  world : World.t;
  stop_orders_by_symbol : StopOrders.t;
  drawn : nat
}.

Definition init : t := mk World.init [] 0%nat.

Definition set_world (st : t) (w : World.t) : t :=
  mk w (stop_orders_by_symbol st) (drawn st).
End System.

(** [add_stop_order]: the order goes to the end of the list of its
    symbol. *)
Definition add_stop_order (order : ref) (st : System.t) : System.t :=
  let symbol := Order.symbol (World.heap (System.world st) !!! order) in
  let d := System.stop_orders_by_symbol st in
  System.mk (System.world st)
            (StopOrders.store symbol (StopOrders.pending symbol d ++ [order]) d)
            (System.drawn st).

(** What [POST /submit_stop_order] answers: the [OrderResponse] with status
    "queued", or an HTTP error. *)
Inductive stop_response :=
| Queued (order_id : N) (trades : nat)
| Refused (status : nat).

(** [submit_stop_order] of [main.py]: the request body becomes a new
    [Order] object; both guards answer with status 400. *)
Definition submit_stop_order (o : Order.t) (st : System.t)
    : System.t * stop_response :=
  let '(w1, order) := World.alloc o (System.world st) in
  let st1 := System.set_world st w1 in
  if negb (stop_order_admitted o) then (st1, Refused 400)
  else (add_stop_order order st1, Queued (Order.id o) 0).

(** How a pass of [monitor_stop_orders] ends: it reaches the [sleep], or an
    exception ends the task ([list.remove] raises [ValueError], and the
    exceptions of the engine are not caught). *)
Inductive monitor_exn :=
| EngineError (e : exn)
| ValueError.

Inductive monitor_result :=
| Completed
| Died (e : monitor_exn).

(** The stop order turned into a plain order: the trigger is cleared and
    the order gets a new id. *)
Definition triggered (o : Order.t) (new_id : N) : Order.t :=
  Order.mk new_id (Order.symbol o) (Order.order_type o) (Order.side o)
           (Order.quantity o) (Order.price o) (Order.timestamp o) None None.

(** The body of the second inner loop of [monitor_stop_orders], for one
    order of [to_trigger]; [uuid4] is the sequence of the values of
    [uuid.uuid4()]. *)
Definition trigger (uuid4 : nat -> N) (symbol : string) (order : ref)
    (st : System.t) : System.t * monitor_result :=
  let w := System.world st in
  let h := World.heap w in
  let d := System.stop_orders_by_symbol st in
  let pending := StopOrders.pending symbol d in
  if existsb (PriceLevel.same h order) pending then
    let d' := StopOrders.store symbol
                (PriceLevel.list_remove (PriceLevel.same h order) pending) d in
    let o' := triggered (h !!! order) (uuid4 (System.drawn st)) in
    let w1 := World.mk (<[order := o']> h) (World.next_ref w)
                       (World.order_books w) (World.tlog w) in
    let '(w2, res) := process_order order w1 in
    (System.mk w2 d' (S (System.drawn st)),
     match res with
     | Return _ => Completed
     | Raise e => Died (EngineError e)
     end)
  else (st, Died ValueError).

Fixpoint trigger_all (uuid4 : nat -> N) (symbol : string)
    (to_trigger : list nat) (st : System.t) : System.t * monitor_result :=
  match to_trigger with
  | [] => (st, Completed)
  | order :: rest =>
      match trigger uuid4 symbol order st with
      | (st1, Completed) => trigger_all uuid4 symbol rest st1
      | (st1, Died e) => (st1, Died e)
      end
  end.

(** The body of the outer loop, for one symbol: the quote is read once, the
    orders it triggers are collected, then they are executed in turn. *)
Definition monitor_symbol (uuid4 : nat -> N) (symbol : string) (st : System.t)
    : System.t * monitor_result :=
  let w := System.world st in
  let bbo := get_bbo symbol w in
  let orders := StopOrders.pending symbol (System.stop_orders_by_symbol st) in
  let to_trigger :=
    List.filter (fun order => should_trigger (World.heap w !!! order) bbo)
                orders in
  trigger_all uuid4 symbol to_trigger st.

Fixpoint monitor_symbols (uuid4 : nat -> N) (symbols : list string)
    (st : System.t) : System.t * monitor_result :=
  match symbols with
  | [] => (st, Completed)
  | symbol :: rest =>
      match monitor_symbol uuid4 symbol st with
      | (st1, Completed) => monitor_symbols uuid4 rest st1
      | (st1, Died e) => (st1, Died e)
      end
  end.

(** One pass of the loop of [monitor_stop_orders], from
    [list(stop_orders_by_symbol.items())] to the [sleep]; nothing else
    runs in between. *)
Definition monitor_pass (uuid4 : nat -> N) (st : System.t)
    : System.t * monitor_result :=
  monitor_symbols uuid4 (System.stop_orders_by_symbol st).*1 st.

(** The states of the whole service: orders submitted and cancelled, new
    orders handed to [process_order] directly (as the loader of saved books
    does), stop orders submitted, and passes of the monitor, whether they
    complete or end the task (two monitor tasks are started, so a pass may
    follow a pass that died). *)
Inductive reachable_sys (uuid4 : nat -> N) : System.t -> Prop :=
| sys_init : reachable_sys uuid4 System.init
| sys_process o st :
    reachable_sys uuid4 st ->
    reachable_sys uuid4 (System.set_world st (process_new o (System.world st)).1)
| sys_submit o st :
    reachable_sys uuid4 st ->
    reachable_sys uuid4 (System.set_world st (submit_order o (System.world st)).1)
| sys_cancel symbol order_id st :
    reachable_sys uuid4 st ->
    reachable_sys uuid4
      (System.set_world st (cancel_order symbol order_id (System.world st)).1)
| sys_stop o st :
    reachable_sys uuid4 st -> reachable_sys uuid4 (submit_stop_order o st).1
| sys_monitor st :
    reachable_sys uuid4 st -> reachable_sys uuid4 (monitor_pass uuid4 st).1.

(** Well-formed states of the service: the world is well formed, a symbol
    has one entry, and a pending stop order is pending once, is an
    allocated object that passed the guard of [submit_stop_order], is
    filed under its symbol and rests in no book. *)
Definition pending_ok (w : World.t) (symbol : string) (r : ref) : Prop :=
  (r < World.next_ref w)%nat
  /\ Order.symbol (World.heap w !!! r) = symbol
  /\ stop_order_admitted (World.heap w !!! r) = true
  /\ forall sym b, World.order_books w !! sym = Some b -> ~ resting b r.

Definition system_ok (st : System.t) : Prop :=
  world_ok (System.world st)
  /\ NoDup (System.stop_orders_by_symbol st).*1
  /\ NoDup (StopOrders.refs (System.stop_orders_by_symbol st))
  /\ forall symbol l r,
       (symbol, l) ∈ System.stop_orders_by_symbol st -> r ∈ l ->
       pending_ok (System.world st) symbol r.

(** What a part of a pass of the monitor leaves of the state it started
    from, [touched] being the symbols it has worked on: the state is well
    formed; the symbols keep their places; an order still pending was
    pending and is unchanged; an order that was pending and is not any more
    has been turned into a plain order with a new id; any other object
    keeps everything but its remaining quantity; the other symbols keep
    their pending orders and their books. *)
Definition monitor_ok (uuid4 : nat -> N) (touched : string -> Prop)
    (st st' : System.t) : Prop :=
  let d := System.stop_orders_by_symbol st in
  let d' := System.stop_orders_by_symbol st' in
  let h := World.heap (System.world st) in
  let h' := World.heap (System.world st') in
  system_ok st'
  /\ d'.*1 = d.*1
  /\ (System.drawn st <= System.drawn st')%nat
  /\ (forall x, x ∈ StopOrders.refs d' ->
        x ∈ StopOrders.refs d /\ h' !!! x = h !!! x)
  /\ (forall y, y ∉ StopOrders.refs d -> static (h' !!! y) = static (h !!! y))
  /\ (forall r, r ∈ StopOrders.refs d -> r ∉ StopOrders.refs d' ->
        exists i, (System.drawn st <= i < System.drawn st')%nat
                  /\ static (h' !!! r) = static (triggered (h !!! r) (uuid4 i)))
  /\ (forall sym, ~ touched sym ->
        StopOrders.get sym d' = StopOrders.get sym d
        /\ World.order_books (System.world st') !! sym
           = World.order_books (System.world st) !! sym).

(** Sample states of the service: two asks of 1.0 at 100.00 submitted
    through the endpoint, then a stop-loss order to buy 0.5 at the market
    once the best ask is at 99.00 or above; the monitor draws the ids 1000,
    1001, ... *)
Definition sample_uuid4 (n : nat) : N := (N.of_nat n + 1000)%N.

Definition stop_order (i : N) (ty side : string) (quantity : Z)
    (price : option Z) (trigger : Z) (ttype : string) : Order.t :=
  Order.mk i "BTC-USDT" ty side quantity price 0 (Some trigger) (Some ttype).

Definition system_one_ask : System.t :=
  System.set_world System.init
    (submit_order (limit_order 1 "sell" 10000 1000000)
                  (System.world System.init)).1.

Definition system_two_asks : System.t :=
  System.set_world system_one_ask
    (submit_order (limit_order 2 "sell" 10000 1000000)
                  (System.world system_one_ask)).1.

Definition system_with_stop : System.t :=
  (submit_stop_order (stop_order 3 "market" "buy" 5000 None 990000 "stop_loss")
                     system_two_asks).1.

(** The same with a stop-loss order that buys 2.0 at the market, all that
    the asks hold. *)
Definition system_with_fatal_stop : System.t :=
  (submit_stop_order (stop_order 3 "market" "buy" 20000 None 990000 "stop_loss")
                     system_two_asks).1.

(** The logs of a process that starts with a file [trades.jsonl] already
    holding [lines], as it does after a restart: [log_trade] opens the file
    for appending and nothing truncates it, while [trade_history] and
    [symbol_trades] start empty with every process; [next] and [now] are the
    states of the identifier source and of the clock at the start. *)
Inductive recorded_after (lines : list kwargs) : TradeLog.t -> Prop :=
| recorded_start next now :
    recorded_after lines (TradeLog.mk [] ∅ lines next now)
| recorded_after_log tl symbol price quantity aggressor_side maker taker :
    recorded_after lines tl ->
    recorded_after lines
      (log_trade symbol price quantity aggressor_side maker taker tl).1.

(** ** Quantities the program computes exactly

    In the code a quantity is a binary floating-point number, and every sum
    and difference is rounded to the nearest such number.  A multiple of
    1/16 between 0 and 2^44 ([625 * m] here, with [m <= 2^48]) is a
    floating-point number, and the sum and the difference of two of them
    are computed without rounding.  The statements below that add up
    quantities are made for these quantities: [exact_world] asks it of the
    remaining quantity of every resting order and of the aggregate of every
    level, and bounds the sum of the aggregates of each side of a book,
    which is what the probe of a fill-or-kill order adds up. *)
Definition EXACT_MAX : Z := 625 * 2 ^ 48.

Definition exact_quantity (q : Z) : bool :=
  (q mod 625 =? 0) && (0 <=? q) && (q <=? EXACT_MAX).

Definition side_total (d : gmap Z PriceLevel.t) : Z :=
  foldr (fun kl acc => PriceLevel.total_quantity kl.2 + acc) 0 (map_to_list d).

Definition exact_side (d : gmap Z PriceLevel.t) : bool :=
  forallb (fun kl => exact_quantity (PriceLevel.total_quantity kl.2))
          (map_to_list d)
  && (side_total d <=? EXACT_MAX).

Definition exact_book (h : heap) (b : OrderBook.t) : bool :=
  forallb (fun r => exact_quantity (Order.quantity (h !!! r))) (resting_refs b)
  && exact_side (OrderBook.bids b) && exact_side (OrderBook.asks b).

Definition exact_world (w : World.t) : bool :=
  forallb (fun sb => exact_book (World.heap w) sb.2)
          (map_to_list (World.order_books w)).

(** The states the engine reaches while it stays within these quantities:
    every order handed to it has such a quantity, and so has every state. *)
Inductive reachable_exact : World.t -> Prop :=
| reachable_exact_init : reachable_exact World.init
| reachable_exact_process o w :
    reachable_exact w ->
    exact_quantity (Order.quantity o) = true ->
    exact_world (process_new o w).1 = true ->
    reachable_exact (process_new o w).1
| reachable_exact_submit o w :
    reachable_exact w ->
    exact_quantity (Order.quantity o) = true ->
    exact_world (submit_order o w).1 = true ->
    reachable_exact (submit_order o w).1
| reachable_exact_cancel symbol order_id w :
    reachable_exact w ->
    exact_world (cancel_order symbol order_id w).1 = true ->
    reachable_exact (cancel_order symbol order_id w).1.

(** [prints h h' o d ts rs]: between the heaps [h] and [h'] the trades [ts]
    are made against the orders at the head of the queue [rs], one trade per
    order and in the order of the queue.  A trade names the resting order it
    is made against as maker and the incoming order [o] as taker and
    aggressor; its price is the key of the level of [d] in which that
    resting order is queued, which is the price of the resting order rounded
    to the cent; its quantity is positive and no more than the resting order
    has left; and the resting order is the object the fill is booked on: in
    [h'] it is the object of [h] with the quantity of the trade taken off
    ([resting_order.quantity -= trade_quantity]). *)
Inductive prints (h h' : heap) (o : Order.t) (d : gmap Z PriceLevel.t)
    : list Trade.t -> list nat -> Prop :=
| prints_nil rs : prints h h' o d [] rs
| prints_cons t ts r rs level p :
    d !! Trade.price t = Some level ->
    r ∈ PriceLevel.orders level ->
    Order.price (h !!! r) = Some p ->
    normalize_price p = Trade.price t ->
    Trade.maker_order_id t = Order.id (h !!! r) ->
    Trade.taker_order_id t = Order.id o ->
    Trade.aggressor_side t = Order.side o ->
    0 < Trade.quantity t <= Order.quantity (h !!! r) ->
    h' !!! r = Order.with_quantity (h !!! r)
                 (Order.quantity (h !!! r) - Trade.quantity t) ->
    prints h h' o d ts rs ->
    prints h h' o d (t :: ts) (r :: rs).

(** * Properties *)

Arguments log_trade : simpl never.
Arguments normalize_price : simpl never.
Arguments OrderBook.remove_order : simpl never.
Arguments OrderBook.add_order : simpl never.
Arguments sub_quantity : simpl never.

(** ** Rounding *)

Lemma round_half_even_nearest num den :
  0 < den -> 2 * Z.abs (den * round_half_even num den - num) <= den.
Proof.
  intros Hden. unfold round_half_even.
  pose proof (Z.div_mod num den ltac:(lia)) as Hdm.
  pose proof (Z.mod_pos_bound num den Hden) as Hb.
  repeat case_match; lia.
Qed.

Lemma round_half_even_exact k den :
  0 < den -> round_half_even (k * den) den = k.
Proof.
  intros Hden. unfold round_half_even.
  rewrite Z.div_mul, Z.mod_mul by lia.
  case_match; lia.
Qed.

Lemma normalize_price_idem p :
  normalize_price (normalize_price p) = normalize_price p.
Proof.
  unfold normalize_price, py_round, unit4.
  change (10 ^ (4 - 2)) with 100. change (10 ^ 2) with 100.
  set (k := round_half_even (p * 100) 10000).
  replace (100 * k * 100) with (k * 10000) by lia.
  by rewrite round_half_even_exact by lia.
Qed.

(** ** The trade recorder *)

Lemma log_trade_trade symbol price quantity side maker taker tl :
  (log_trade symbol price quantity side maker taker tl).2
  = Trade.mk (TradeLog.next_uuid tl) symbol price quantity side maker taker
             (TradeLog.now tl).
Proof. reflexivity. Qed.

Lemma log_trade_history symbol price quantity side maker taker tl :
  TradeLog.trade_history (log_trade symbol price quantity side maker taker tl).1
  = TradeLog.trade_history tl
      ++ [(log_trade symbol price quantity side maker taker tl).2].
Proof. reflexivity. Qed.

Lemma deque_append_length {A} maxlen (d : list A) x :
  (0 < maxlen)%nat -> (length d <= maxlen)%nat ->
  (length (deque_append maxlen d x) <= maxlen)%nat.
Proof.
  intros Hpos Hlen. unfold deque_append.
  destruct (Nat.leb_spec maxlen (length d)).
  - rewrite length_drop, length_app. simpl. lia.
  - rewrite length_app. simpl. lia.
Qed.

Lemma recorded_ring_capacity tl symbol :
  recorded tl -> (length (ring_of tl symbol) <= RING_CAPACITY)%nat.
Proof.
  induction 1 as [|tl s p q a m k Hrec IH].
  { unfold ring_of, TradeLog.empty. simpl. rewrite lookup_empty. simpl. lia. }
  unfold ring_of in *. simpl.
  destruct (decide (s = symbol)) as [->|Hne].
  - rewrite lookup_insert_eq. simpl.
    apply deque_append_length; [unfold RING_CAPACITY; lia | done].
  - by rewrite lookup_insert_ne.
Qed.

Lemma py_slice_from_last {A} (n : nat) (l : list A) :
  py_slice_from (- Z.of_nat (S n)) l = drop (length l - S n) l.
Proof.
  unfold py_slice_from.
  destruct (Z.ltb_spec (- Z.of_nat (S n)) 0); [|lia].
  f_equal. lia.
Qed.

Lemma py_slice_from_zero {A} (l : list A) : py_slice_from (- 0) l = l.
Proof.
  unfold py_slice_from.
  destruct (Z.ltb_spec (- 0) 0); [lia|].
  by replace (Z.to_nat ((- 0) `min` Z.of_nat (length l))) with 0%nat by lia.
Qed.

(** C10: [get_recent_trades] with [limit = 0] returns every trade stored for
    the symbol, newest first (the store never holds more than 1000); with a
    positive [limit] it returns the [min limit stored] newest, newest
    first. *)
Theorem get_recent_trades_limit tl symbol :
  recorded tl ->
  (length (ring_of tl symbol) <= 1000)%nat /\
  get_recent_trades tl symbol 0 = reverse (ring_of tl symbol) /\
  forall n : nat,
    get_recent_trades tl symbol (Z.of_nat (S n))
    = take (S n `min` length (ring_of tl symbol)) (reverse (ring_of tl symbol)).
Proof.
  intros Hrec. split; [exact (recorded_ring_capacity tl symbol Hrec)|].
  unfold get_recent_trades, ring_of.
  destruct (TradeLog.symbol_trades tl !! symbol) as [d|]; cbn [default from_option id].
  - split; [by rewrite py_slice_from_zero|]. intros n.
    rewrite py_slice_from_last, reverse_drop. f_equal. lia.
  - split; [done|]. intros n. change (reverse []) with (@nil Trade.t).
    by rewrite take_nil.
Qed.

Lemma get_recent_trades_limit_witness :
  let tl := (log_trade "BTC-USDT" 1000000 10000 "buy" 1 2 TradeLog.empty).1 in
  (length (ring_of tl "BTC-USDT") <= 1000)%nat /\
  get_recent_trades tl "BTC-USDT" 0 = reverse (ring_of tl "BTC-USDT") /\
  forall n : nat,
    get_recent_trades tl "BTC-USDT" (Z.of_nat (S n))
    = take (S n `min` length (ring_of tl "BTC-USDT"))
           (reverse (ring_of tl "BTC-USDT")).
Proof.
  apply (get_recent_trades_limit
           (log_trade "BTC-USDT" 1000000 10000 "buy" 1 2 TradeLog.empty).1
           "BTC-USDT").
  apply recorded_log, recorded_empty.
Defined.

Lemma recorded_trade_ids tl :
  recorded tl ->
  Forall (fun t => (Trade.trade_id t < TradeLog.next_uuid tl)%N)
         (TradeLog.trade_history tl)
  /\ NoDup (Trade.trade_id <$> TradeLog.trade_history tl).
Proof.
  induction 1 as [|tl s p q a m k Hrec [IHlt IHnd]].
  { split; [constructor | simpl; constructor]. }
  rewrite log_trade_history, log_trade_trade. simpl. split.
  - apply Forall_app. split.
    + eapply Forall_impl; [exact IHlt|]. simpl. intros; lia.
    + repeat constructor. simpl. lia.
  - rewrite fmap_app. apply NoDup_app. split; [done|]. split.
    + intros x Hx Hx'. apply list_elem_of_singleton in Hx'. subst x.
      apply list_elem_of_fmap in Hx as (t & Heq & Ht).
      rewrite Forall_forall in IHlt. specialize (IHlt t Ht). simpl in Heq. lia.
    + apply NoDup_singleton.
Qed.

(** C8 fails on every input.  [log_trade] computes both fees and hands
    them to the [Trade] constructor under the keywords [maker_fee] and
    [taker_fee]; the model class declares no such field and drops them.  So
    the trade that comes back, which is the one stored in the history and
    written to the file, carries no maker fee and no taker fee, whatever the
    price, the quantity and the state of the log. *)
Theorem log_trade_drops_fees symbol price quantity side maker taker tl :
  let kw := log_trade_kwargs symbol price quantity side maker taker in
  let r := log_trade symbol price quantity side maker taker tl in
  is_Some (kw_get "maker_fee" kw)
  /\ is_Some (kw_get "taker_fee" kw)
  /\ Trade.init (TradeLog.next_uuid tl) (TradeLog.now tl) kw = Some r.2
  /\ kw_get "maker_fee" (Trade.dict r.2) = None
  /\ kw_get "taker_fee" (Trade.dict r.2) = None
  /\ ~ carries_exact_fees r.2
  /\ TradeLog.trade_history r.1 = TradeLog.trade_history tl ++ [r.2]
  /\ TradeLog.trades_file r.1 = TradeLog.trades_file tl ++ [Trade.dict r.2].
Proof.
  cbv zeta. split; [by eexists|]. split; [by eexists|].
  split; [reflexivity|]. split; [reflexivity|]. split; [reflexivity|].
  split; [|split; reflexivity].
  intros (maker_fee & taker_fee & Hm & _). discriminate Hm.
Qed.

(** ** The trigger predicate *)

Lemma truthy_float_Some x :
  truthy_float x = true -> exists v, x = Some v /\ v <> 0.
Proof.
  destruct x as [v|]; [|done]. simpl. intros H. exists v. split; [done|].
  destruct (Z.eqb_spec v 0); [done|lia].
Qed.

Lemma truthy_str_Some x :
  truthy_str x = true -> exists s, x = Some s /\ s <> ""%string.
Proof.
  destruct x as [s|]; [|done]. simpl. intros H. exists s. split; [done|].
  destruct (String.eqb_spec s ""); [done|done].
Qed.

Lemma some_le_true x y : some_le x y = true <-> exists v, x = Some v /\ v <= y.
Proof.
  destruct x as [v|]; simpl.
  - rewrite Z.leb_le. split; [eauto|]. by intros (? & [= <-] & ?).
  - split; [done|]. by intros (? & ? & ?).
Qed.

Lemma some_ge_true x y : some_ge x y = true <-> exists v, x = Some v /\ y <= v.
Proof.
  destruct x as [v|]; simpl.
  - rewrite Z.leb_le. split; [eauto|]. by intros (? & [= <-] & ?).
  - split; [done|]. by intros (? & ? & ?).
Qed.

(** C9: for a pending conditional order (one that passed the admission guard
    of [submit_stop_order]), [should_trigger] holds exactly when the trigger
    table of the specification holds on the BBO; with the relevant side of
    the BBO absent it does not trigger. *)
Theorem should_trigger_table order bbo :
  stop_order_admitted order = true ->
  exists trigger ttype,
    Order.trigger_price order = Some trigger /\
    Order.trigger_type order = Some ttype /\
    (should_trigger order bbo = true
     <-> trigger_table bbo trigger ttype (Order.side order)) /\
    (Order.side order = "buy"%string -> BBO.ask bbo = None ->
     should_trigger order bbo = false) /\
    (Order.side order = "sell"%string -> BBO.bid bbo = None ->
     should_trigger order bbo = false).
Proof.
  unfold stop_order_admitted, should_trigger.
  destruct (truthy_float (Order.trigger_price order)) eqn:Hp; [|done].
  destruct (truthy_str (Order.trigger_type order)) eqn:Ht; [|done].
  intros _.
  apply truthy_float_Some in Hp as (trigger & Hp & _).
  apply truthy_str_Some in Ht as (ttype & Ht & _).
  exists trigger, ttype. rewrite Hp, Ht. simpl.
  split; [done|]. split; [done|]. split; [split|split].
  - destruct (String.eqb_spec ttype "stop_loss") as [->|]; [|
    destruct (String.eqb_spec ttype "take_profit") as [->|]; [|
    destruct (String.eqb_spec ttype "stop_limit") as [->|]; [|done]]];
    destruct (String.eqb_spec (Order.side order) "sell") as [->|];
    destruct (String.eqb_spec (Order.side order) "buy") as [Hb|]; try done;
    try rewrite Hb; simpl;
    repeat match goal with
    | |- context [some_le ?x ?y] =>
        let E := fresh in destruct (some_le x y) eqn:E;
        [apply some_le_true in E as (? & ? & ?)|]
    | |- context [some_ge ?x ?y] =>
        let E := fresh in destruct (some_ge x y) eqn:E;
        [apply some_ge_true in E as (? & ? & ?)|]
    end; try done; intros _; econstructor; eauto.
  - intros Htab.
    inversion Htab; simpl;
      try (assert (some_ge (BBO.ask bbo) trigger = true) as ->
             by (apply some_ge_true; eauto));
      try (assert (some_le (BBO.ask bbo) trigger = true) as ->
             by (apply some_le_true; eauto));
      try (assert (some_ge (BBO.bid bbo) trigger = true) as ->
             by (apply some_ge_true; eauto));
      try (assert (some_le (BBO.bid bbo) trigger = true) as ->
             by (apply some_le_true; eauto));
      done.
  - intros -> ->. simpl. by repeat case_match.
  - intros -> ->. simpl. by repeat case_match.
Qed.

Lemma should_trigger_table_witness :
  let order := Order.mk 7 "BTC-USDT" "market" "sell" 10000 None 0
                        (Some 990000) (Some "stop_loss"%string) in
  let bbo := BBO.mk (Some 985000) None in
  exists trigger ttype,
    Order.trigger_price order = Some trigger /\
    Order.trigger_type order = Some ttype /\
    (should_trigger order bbo = true
     <-> trigger_table bbo trigger ttype (Order.side order)) /\
    (Order.side order = "buy"%string -> BBO.ask bbo = None ->
     should_trigger order bbo = false) /\
    (Order.side order = "sell"%string -> BBO.bid bbo = None ->
     should_trigger order bbo = false).
Proof.
  apply (should_trigger_table
           (Order.mk 7 "BTC-USDT" "market" "sell" 10000 None 0
                     (Some 990000) (Some "stop_loss"%string))
           (BBO.mk (Some 985000) None)).
  reflexivity.
Defined.

(** ** The heap *)

Lemma sub_quantity_eq h r q :
  sub_quantity h r q !!! r
  = Order.with_quantity (h !!! r) (Order.quantity (h !!! r) - q).
Proof. unfold sub_quantity. by rewrite lookup_total_insert_eq. Qed.

Lemma sub_quantity_ne h r q r' :
  r <> r' -> sub_quantity h r q !!! r' = h !!! r'.
Proof. intros. unfold sub_quantity. by rewrite lookup_total_insert_ne. Qed.

Lemma static_with_quantity o q : static (Order.with_quantity o q) = static o.
Proof. reflexivity. Qed.

Lemma frozen_refl h : frozen h h.
Proof. by intros r. Qed.

Lemma frozen_trans h1 h2 h3 : frozen h1 h2 -> frozen h2 h3 -> frozen h1 h3.
Proof. intros H12 H23 r. by rewrite H23. Qed.

Lemma frozen_sub_quantity h r q : frozen h (sub_quantity h r q).
Proof.
  intros r'. destruct (decide (r = r')) as [<-|Hne].
  - by rewrite sub_quantity_eq, static_with_quantity.
  - by rewrite sub_quantity_ne.
Qed.

Lemma static_fields o o' :
  static o' = static o ->
  Order.id o' = Order.id o /\ Order.symbol o' = Order.symbol o
  /\ Order.order_type o' = Order.order_type o /\ Order.side o' = Order.side o
  /\ Order.price o' = Order.price o.
Proof. destruct o, o'. unfold static. simpl. intros [=]. by subst. Qed.

Lemma frozen_id h h' r : frozen h h' -> Order.id (h' !!! r) = Order.id (h !!! r).
Proof. intros H. by destruct (static_fields _ _ (H r)) as (? & _). Qed.

Lemma frozen_symbol h h' r :
  frozen h h' -> Order.symbol (h' !!! r) = Order.symbol (h !!! r).
Proof. intros H. by destruct (static_fields _ _ (H r)) as (_ & ? & _). Qed.

Lemma frozen_side h h' r :
  frozen h h' -> Order.side (h' !!! r) = Order.side (h !!! r).
Proof. intros H. by destruct (static_fields _ _ (H r)) as (_ & _ & _ & ? & _). Qed.

Lemma frozen_price h h' r :
  frozen h h' -> Order.price (h' !!! r) = Order.price (h !!! r).
Proof. intros H. by destruct (static_fields _ _ (H r)) as (_ & _ & _ & _ & ?). Qed.

Lemma same_outside_refl P h : same_outside P h h.
Proof. by intros r _. Qed.

Lemma same_outside_weaken (P Q : nat -> Prop) h h' :
  (forall r, P r -> Q r) -> same_outside P h h' -> same_outside Q h h'.
Proof. intros HPQ H r Hr. apply H. naive_solver. Qed.

(** ** Price levels and books only lose orders when an order is removed *)

Lemma list_remove_sublist p l : PriceLevel.list_remove p l `sublist_of` l.
Proof.
  induction l as [|x l IH]; simpl; [done|].
  destruct (p x); [by apply sublist_cons | by apply sublist_skip].
Qed.

Lemma PriceLevel_remove_order_sublist h l r :
  PriceLevel.orders (PriceLevel.remove_order h l r)
    `sublist_of` PriceLevel.orders l.
Proof.
  unfold PriceLevel.remove_order. case_match; simpl; [|done].
  apply list_remove_sublist.
Qed.

Lemma is_empty_true l : PriceLevel.is_empty l = true <-> PriceLevel.orders l = [].
Proof.
  unfold PriceLevel.is_empty. rewrite Nat.eqb_eq. by destruct (PriceLevel.orders l).
Qed.

Lemma side_le_refl d : side_le d d.
Proof. intros k l Hl. by exists l. Qed.

Lemma side_le_trans d1 d2 d3 : side_le d1 d2 -> side_le d2 d3 -> side_le d1 d3.
Proof.
  intros H12 H23 k l1 Hl1.
  destruct (H12 k l1 Hl1) as (l2 & Hl2 & Hs12).
  destruct (H23 k l2 Hl2) as (l3 & Hl3 & Hs23).
  exists l3. split; [done|]. by etrans.
Qed.

Lemma side_le_delete d k : side_le (delete k d) d.
Proof.
  intros k' l Hl. apply lookup_delete_Some in Hl as [_ Hl]. by exists l.
Qed.

Lemma side_le_insert d k l l' :
  d !! k = Some l ->
  PriceLevel.orders l' `sublist_of` PriceLevel.orders l ->
  side_le (<[k := l']> d) d.
Proof.
  intros Hk Hsub k' l'' Hl.
  destruct (decide (k = k')) as [<-|Hne].
  - rewrite lookup_insert_eq in Hl. injection Hl as <-. by exists l.
  - rewrite lookup_insert_ne in Hl by done. by exists l''.
Qed.

Lemma book_le_refl b : book_le b b.
Proof. repeat split; try apply side_le_refl. done. Qed.

Lemma book_le_trans b1 b2 b3 : book_le b1 b2 -> book_le b2 b3 -> book_le b1 b3.
Proof.
  intros (Hb & Ha & Hi) (Hb' & Ha' & Hi'). repeat split.
  - by eapply side_le_trans.
  - by eapply side_le_trans.
  - by etrans.
Qed.

Lemma remove_order_book_le h r b b' res :
  OrderBook.remove_order h r b = (b', res) -> book_le b' b.
Proof.
  unfold OrderBook.remove_order.
  destruct (Order.price (h !!! r)) as [p|]; [|intros [= <- _]; apply book_le_refl].
  intros [= <- _].
  set (k := normalize_price p).
  assert (Hside : side_le
            match OrderBook.side_book b (Order.side (h !!! r)) !! k with
            | Some level =>
                if PriceLevel.is_empty (PriceLevel.remove_order h level r)
                then delete k (OrderBook.side_book b (Order.side (h !!! r)))
                else <[k := PriceLevel.remove_order h level r]>
                       (OrderBook.side_book b (Order.side (h !!! r)))
            | None => OrderBook.side_book b (Order.side (h !!! r))
            end (OrderBook.side_book b (Order.side (h !!! r)))).
  { destruct (_ !! k) as [level|] eqn:Hk; [|apply side_le_refl].
    case_match; [apply side_le_delete|].
    eapply side_le_insert; [done|]. apply PriceLevel_remove_order_sublist. }
  revert Hside. unfold OrderBook.set_side_book, OrderBook.side_book, OrderBook.set_orders.
  destruct (String.eqb (Order.side (h !!! r)) "buy"); simpl; intros Hside;
    (split; [|split]); try done; try apply side_le_refl; apply delete_subseteq.
Qed.

(** ** What the matching pass does on any book *)

Lemma log_trade_spec symbol price quantity side maker taker tl tl' trade :
  log_trade symbol price quantity side maker taker tl = (tl', trade) ->
  trade = Trade.mk (TradeLog.next_uuid tl) symbol price quantity side maker
                   taker (TradeLog.now tl)
  /\ TradeLog.trade_history tl' = TradeLog.trade_history tl ++ [trade].
Proof. intros [= <- <-]. done. Qed.

Opaque log_trade.

Lemma trade_of_mono h h' order price rs rs' t :
  frozen h' h -> rs ⊆ rs' ->
  trade_of h order price rs t -> trade_of h' order price rs' t.
Proof.
  intros Hfr Hsub (Hp & Hs & Ht & r & Hr & Hm).
  split; [done|]. rewrite <- (frozen_side h' h), <- !(frozen_id h' h) by done.
  split; [done|]. split; [done|]. exists r.
  rewrite <- (frozen_id h' h) by done. split; [by apply Hsub | done].
Qed.

(** A run that stops at once: nothing changes and no trade is added. *)
Ltac no_trades :=
  split; [apply frozen_refl|]; split; [apply book_le_refl|];
  exists []; rewrite !app_nil_r; repeat split; [congruence | constructor].

Lemma match_level_trades order price rs :
  forall trades s s' res,
    MatchingEngine.match_level order price rs trades s = (s', res) ->
    frozen (Env.heap s) (Env.heap s')
    /\ book_le (Env.book s') (Env.book s)
    /\ exists new,
         TradeLog.trade_history (Env.tlog s')
           = TradeLog.trade_history (Env.tlog s) ++ new
         /\ (forall ts, res = Return ts -> ts = trades ++ new)
         /\ Forall (trade_of (Env.heap s) order price rs) new.
Proof.
  induction rs as [|r rs IH]; intros trades s s' res; simpl.
  { intros [= <- <-]. no_trades. }
  destruct (Order.quantity (Env.heap s !!! order) <=? 0).
  { intros [= <- <-]. no_trades. }
  set (q := Z.min _ _).
  set (h1 := sub_quantity (Env.heap s) order q).
  set (h2 := sub_quantity h1 r q).
  assert (Hfr : frozen (Env.heap s) h2).
  { eapply frozen_trans; apply frozen_sub_quantity. }
  destruct (log_trade _ _ _ _ _ _ _) as [tl trade] eqn:Hlog.
  apply log_trade_spec in Hlog as [Htrade Hhist].
  assert (Hof : trade_of (Env.heap s) order price (r :: rs) trade).
  { rewrite Htrade. repeat split; simpl.
    - by apply frozen_side.
    - by apply frozen_id.
    - exists r. split; [left | by apply frozen_id]. }
  assert (Hstep : forall b s' res,
    book_le b (Env.book s) ->
    MatchingEngine.match_level order price rs (trades ++ [trade]) (Env.mk h2 b tl)
      = (s', res) ->
    frozen (Env.heap s) (Env.heap s')
    /\ book_le (Env.book s') (Env.book s)
    /\ exists new,
         TradeLog.trade_history (Env.tlog s')
           = TradeLog.trade_history (Env.tlog s) ++ new
         /\ (forall ts, res = Return ts -> ts = trades ++ new)
         /\ Forall (trade_of (Env.heap s) order price (r :: rs)) new).
  { intros b s1 res1 Hb Hrun.
    apply IH in Hrun as (Hfr1 & Hle1 & new & Hh1 & Hret1 & Hall1). simpl in *.
    split; [by eapply frozen_trans|]. split; [by eapply book_le_trans|].
    exists (trade :: new). split; [|split].
    - rewrite Hh1, Hhist, <- app_assoc. done.
    - intros ts Hts. rewrite (Hret1 ts Hts), <- app_assoc. done.
    - constructor; [done|]. eapply Forall_impl; [exact Hall1|].
      intros t Ht. eapply trade_of_mono; [exact Hfr | | exact Ht].
      intros x Hx. by right. }
  destruct (Order.quantity (h2 !!! r) <=? 0).
  - destruct (OrderBook.remove_order h2 r (Env.book s)) as [b [u|e]] eqn:Hrm.
    + intros Hrun. eapply Hstep; [|exact Hrun].
      by eapply remove_order_book_le.
    + intros [= <- <-]. simpl. split; [done|].
      split; [by eapply remove_order_book_le|].
      exists [trade]. split; [done|]. split; [done|]. by constructor.
  - intros Hrun. eapply Hstep; [|exact Hrun]. apply book_le_refl.
Qed.

Lemma book_le_opposite is_buy b' b :
  book_le b' b ->
  side_le (MatchingEngine.opposite_book is_buy b')
          (MatchingEngine.opposite_book is_buy b).
Proof. intros (Hb & Ha & _). by destruct is_buy. Qed.

Lemma book_le_delete_opposite is_buy b price :
  book_le (MatchingEngine.set_opposite_book is_buy b
             (delete price (MatchingEngine.opposite_book is_buy b))) b.
Proof.
  destruct is_buy; simpl; repeat split;
    try apply side_le_refl; try apply side_le_delete; done.
Qed.

Lemma beyond_limit_false h order market is_buy price :
  MatchingEngine.beyond_limit h order market is_buy price = Return false ->
  is_buy = String.eqb (Order.side (h !!! order)) "buy" ->
  market = false -> within_limit h order price.
Proof.
  unfold MatchingEngine.beyond_limit, within_limit. intros Hb His ->.
  simpl in Hb.
  destruct (Order.price (h !!! order)) as [p|]; [|discriminate].
  injection Hb as Hb. exists p. split; [done|].
  destruct (String.eqb_spec (Order.side (h !!! order)) "buy") as [Hs|Hs];
    subst is_buy; simpl in Hb; rewrite ?orb_false_r in Hb;
    apply Z.ltb_ge in Hb; split; intros; done.
Qed.

Lemma trade_in_of h h0 order d d0 price level t :
  frozen h0 h -> side_le d d0 -> d !! price = Some level ->
  trade_of h order price (PriceLevel.orders level) t ->
  trade_in h0 order d0 t.
Proof.
  intros Hfr Hle Hlvl Hof.
  destruct (Hle _ _ Hlvl) as (level0 & Hlvl0 & Hsub).
  assert (Hp : Trade.price t = price) by apply Hof.
  exists level0. rewrite Hp. split; [done|].
  eapply trade_of_mono; [exact Hfr | | exact Hof].
  intros x Hx. by eapply elem_of_sublist.
Qed.

Lemma within_limit_frozen h h0 order price :
  frozen h0 h -> within_limit h order price -> within_limit h0 order price.
Proof.
  intros Hfr (p & Hp & Hb & Hs). exists p.
  rewrite <- (frozen_price h0 h), <- (frozen_side h0 h) by done. done.
Qed.

Lemma match_levels_trades order market is_buy ps :
  forall trades s s' res,
    MatchingEngine.match_levels order market is_buy ps trades s = (s', res) ->
    is_buy = String.eqb (Order.side (Env.heap s !!! order)) "buy" ->
    frozen (Env.heap s) (Env.heap s')
    /\ book_le (Env.book s') (Env.book s)
    /\ exists new,
         TradeLog.trade_history (Env.tlog s')
           = TradeLog.trade_history (Env.tlog s) ++ new
         /\ (forall ts, res = Return ts -> ts = trades ++ new)
         /\ Forall (fun t =>
              trade_in (Env.heap s) order
                       (MatchingEngine.opposite_book is_buy (Env.book s)) t
              /\ (market = false -> within_limit (Env.heap s) order (Trade.price t)))
              new.
Proof.
  induction ps as [|price ps IH]; intros trades s s' res; simpl.
  { intros [= <- <-] _. no_trades. }
  destruct (MatchingEngine.beyond_limit _ _ _ _ _) as [[|]|e] eqn:Hlim;
    try (intros [= <- <-] _; no_trades).
  destruct (MatchingEngine.opposite_book is_buy (Env.book s) !! price)
    as [level|] eqn:Hlevel; [|intros [= <- <-] _; no_trades].
  destruct (MatchingEngine.match_level _ _ _ _ _) as [s1 [trades1|e]] eqn:Hrun;
    apply match_level_trades in Hrun as (Hfr1 & Hle1 & new1 & Hh1 & Hret1 & Hall1).
  2:{ intros [= <- <-] His. split; [done|]. split; [done|].
      exists new1. split; [done|]. split; [done|].
      eapply Forall_impl; [exact Hall1|]. intros t Ht. split.
      - eapply trade_in_of; [apply frozen_refl | apply side_le_refl | done | done].
      - intros Hm. destruct Ht as (-> & _).
        by eapply beyond_limit_false. }
  specialize (Hret1 _ eq_refl). subst trades1.
  assert (Hnew1 : Forall (fun t =>
              trade_in (Env.heap s) order
                       (MatchingEngine.opposite_book is_buy (Env.book s)) t
              /\ (market = false ->
                  is_buy = String.eqb (Order.side (Env.heap s !!! order)) "buy" ->
                  within_limit (Env.heap s) order (Trade.price t))) new1).
  { eapply Forall_impl; [exact Hall1|]. intros t Ht. split.
    - eapply trade_in_of; [apply frozen_refl | apply side_le_refl | done | done].
    - intros Hm His. destruct Ht as (-> & _). by eapply beyond_limit_false. }
  set (d := MatchingEngine.opposite_book is_buy (Env.book s1)).
  assert (Hcont : forall s2,
    Env.heap s2 = Env.heap s1 -> Env.tlog s2 = Env.tlog s1 ->
    book_le (Env.book s2) (Env.book s1) ->
    (if Order.quantity (Env.heap s2 !!! order) <=? 0
     then (s2, Return (trades ++ new1))
     else MatchingEngine.match_levels order market is_buy ps (trades ++ new1) s2)
      = (s', res) ->
    is_buy = String.eqb (Order.side (Env.heap s !!! order)) "buy" ->
    frozen (Env.heap s) (Env.heap s')
    /\ book_le (Env.book s') (Env.book s)
    /\ exists new,
         TradeLog.trade_history (Env.tlog s')
           = TradeLog.trade_history (Env.tlog s) ++ new
         /\ (forall ts, res = Return ts -> ts = trades ++ new)
         /\ Forall (fun t =>
              trade_in (Env.heap s) order
                       (MatchingEngine.opposite_book is_buy (Env.book s)) t
              /\ (market = false -> within_limit (Env.heap s) order (Trade.price t)))
              new).
  { intros s2 Hheap Htlog Hle2 Hrun2 His.
    assert (Hle : book_le (Env.book s2) (Env.book s)) by by eapply book_le_trans.
    destruct (Order.quantity (Env.heap s2 !!! order) <=? 0).
    - injection Hrun2 as <- <-. rewrite Hheap, Htlog.
      split; [done|]. split; [done|]. exists new1.
      split; [done|]. split; [congruence|].
      eapply Forall_impl; [exact Hnew1|].
      intros t [Hin Hwl]. split; [done|]. intros Hm. by apply Hwl.
    - apply IH in Hrun2 as (Hfr2 & Hle2' & new2 & Hh2 & Hret2 & Hall2).
      2:{ rewrite Hheap, (frozen_side _ _ _ Hfr1). done. }
      rewrite Hheap in Hfr2. rewrite Htlog in Hh2.
      split; [by eapply frozen_trans|]. split; [by eapply book_le_trans|].
      exists (new1 ++ new2). split; [|split].
      + by rewrite Hh2, Hh1, app_assoc.
      + intros ts Hts. by rewrite (Hret2 ts Hts), app_assoc.
      + apply Forall_app. split.
        * eapply Forall_impl; [exact Hnew1|].
      intros t [Hin Hwl]. split; [done|]. intros Hm. by apply Hwl.
        * eapply Forall_impl; [exact Hall2|]. intros t [(lvl & Hlvl & Hof) Hlim2].
          rewrite Hheap in Hof, Hlim2. split.
          -- eapply trade_in_of; [exact Hfr1 | | exact Hlvl | exact Hof].
             by apply book_le_opposite.
          -- intros Hm. eapply within_limit_frozen; [exact Hfr1 | by apply Hlim2]. }
  destruct (d !! price) as [l|] eqn:Hd.
  - destruct (PriceLevel.is_empty l).
    + apply Hcont; try done. apply book_le_delete_opposite.
    + apply Hcont; try done. apply book_le_refl.
  - intros [= <- <-] His. split; [done|]. split; [done|].
    exists new1. split; [done|]. split; [done|].
    eapply Forall_impl; [exact Hnew1|].
      intros t [Hin Hwl]. split; [done|]. intros Hm. by apply Hwl.
Qed.

Lemma match_order_trades order market s s' res :
  MatchingEngine._match_order order market s = (s', res) ->
  frozen (Env.heap s) (Env.heap s')
  /\ book_le (Env.book s') (Env.book s)
  /\ exists new,
       TradeLog.trade_history (Env.tlog s')
         = TradeLog.trade_history (Env.tlog s) ++ new
       /\ (forall ts, res = Return ts -> ts = new)
       /\ Forall (fun t =>
            trade_in (Env.heap s) order
              (MatchingEngine.opposite_book
                 (String.eqb (Order.side (Env.heap s !!! order)) "buy")
                 (Env.book s)) t
            /\ (market = false -> within_limit (Env.heap s) order (Trade.price t)))
            new.
Proof.
  unfold MatchingEngine._match_order. intros Hrun.
  apply match_levels_trades in Hrun; [|done].
  destruct Hrun as (Hfr & Hle & new & Hh & Hret & Hall).
  split; [done|]. split; [done|]. exists new.
  split; [done|]. split; [|done]. intros ts Hts. by rewrite (Hret ts Hts).
Qed.

(** In any state whatever, also one in which the book is not well formed:
    every trade emitted by the matching pass, recorded in the trade log and
    returned when the pass returns, is printed at the key of a level of the
    opposite side and names as maker an order queued at that level; its
    aggressor side is the side of the incoming order and its taker is the
    incoming order.  Which of the queued orders it names is settled for
    well-formed books in the last section of the file. *)
Lemma match_order_trade_fields order market s :
  exists new,
    TradeLog.trade_history (Env.tlog (MatchingEngine._match_order order market s).1)
      = TradeLog.trade_history (Env.tlog s) ++ new
    /\ (forall ts, (MatchingEngine._match_order order market s).2 = Return ts
                   -> ts = new)
    /\ Forall (fun t =>
         exists level resting_order,
           MatchingEngine.opposite_book
             (String.eqb (Order.side (Env.heap s !!! order)) "buy") (Env.book s)
             !! Trade.price t = Some level
           /\ resting_order ∈ PriceLevel.orders level
           /\ Trade.maker_order_id t = Order.id (Env.heap s !!! resting_order)
           /\ Trade.aggressor_side t = Order.side (Env.heap s !!! order)
           /\ Trade.taker_order_id t = Order.id (Env.heap s !!! order))
         new.
Proof.
  destruct (MatchingEngine._match_order order market s) as [s' res] eqn:Hrun.
  apply match_order_trades in Hrun as (_ & _ & new & Hh & Hret & Hall).
  exists new. split; [done|]. split; [done|].
  eapply Forall_impl; [exact Hall|].
  intros t [(level & Hlevel & _ & Hside & Htaker & r & Hr & Hmaker) _].
  by exists level, r.
Qed.

(** ** Immediate-or-cancel orders *)

Lemma elem_of_level_refs d r : r ∈ level_refs d <-> queued d r.
Proof.
  unfold level_refs, queued. rewrite list_elem_of_bind. split.
  - intros ([k l] & Hr & Hkl). apply elem_of_map_to_list in Hkl. by exists k, l.
  - intros (k & l & Hkl & Hr). exists (k, l). split; [done|].
    by apply elem_of_map_to_list.
Qed.

Lemma elem_of_resting_refs b r : r ∈ resting_refs b <-> resting b r.
Proof.
  unfold resting_refs, resting. by rewrite elem_of_app, !elem_of_level_refs.
Qed.

Lemma queued_le d' d r : side_le d' d -> queued d' r -> queued d r.
Proof.
  intros Hle (k & l' & Hl' & Hr). destruct (Hle k l' Hl') as (l & Hl & Hsub).
  exists k, l. split; [done|]. by eapply elem_of_sublist.
Qed.

Lemma resting_le b' b r : book_le b' b -> resting b' r -> resting b r.
Proof.
  intros (Hb & Ha & _) [Hr|Hr]; [left|right]; by eapply queued_le.
Qed.

Lemma in_book_true h b i :
  in_book h b i = true
  <-> (exists r, resting b r /\ Order.id (h !!! r) = i)
      \/ is_Some (OrderBook.orders b !! i).
Proof.
  unfold in_book. rewrite orb_true_iff, existsb_exists, bool_decide_eq_true.
  split; intros [H|H]; try (by right); left.
  - destruct H as (r & Hr & Hi). exists r. split.
    + apply elem_of_resting_refs. by apply list_elem_of_In.
    + by apply N.eqb_eq.
  - destruct H as (r & Hr & Hi). exists r. split.
    + apply list_elem_of_In. by apply elem_of_resting_refs.
    + by apply N.eqb_eq.
Qed.

Lemma in_book_le h h' b b' i :
  frozen h h' -> book_le b' b -> in_book h b i = false -> in_book h' b' i = false.
Proof.
  intros Hfr Hle Hno. apply not_true_iff_false. intros Hin.
  apply not_true_iff_false in Hno. apply Hno.
  apply in_book_true. apply in_book_true in Hin as [(r & Hr & Hi)|Hi].
  - left. exists r. split; [by eapply resting_le|].
    by rewrite <- (frozen_id h h').
  - right. destruct Hle as (_ & _ & Hix). destruct Hi as [x Hx].
    exists x. by eapply lookup_weaken.
Qed.

Lemma get_order_book_process order w :
  _get_order_book (Order.symbol (World.heap w !!! order)) (process_order order w).1
  = Env.book (MatchingEngine.dispatch order
       (Env.mk (World.heap w)
               (_get_order_book (Order.symbol (World.heap w !!! order)) w)
               (World.tlog w))).1.
Proof.
  unfold process_order.
  destruct (MatchingEngine.dispatch _ _) as [s res]. simpl.
  unfold _get_order_book. simpl. by rewrite lookup_insert_eq.
Qed.

Lemma process_order_dispatch order w :
  let d := MatchingEngine.dispatch order
       (Env.mk (World.heap w)
               (_get_order_book (Order.symbol (World.heap w !!! order)) w)
               (World.tlog w)) in
  World.heap (process_order order w).1 = Env.heap d.1
  /\ World.tlog (process_order order w).1 = Env.tlog d.1
  /\ (process_order order w).2 = d.2.
Proof.
  unfold process_order. by destruct (MatchingEngine.dispatch _ _) as [s res].
Qed.

Lemma execute_limit_order_ioc order s :
  MatchingEngine._execute_limit_order order true s
  = MatchingEngine._match_order order false s.
Proof.
  unfold MatchingEngine._execute_limit_order.
  destruct (MatchingEngine._match_order order false s) as [s1 [ts|e]];
    [|done]. simpl. by rewrite andb_false_r.
Qed.

(** C7: for an immediate-or-cancel order, every trade of the call is printed
    at a price no worse than the order's limit, the call adds nothing to the
    book, and, the order's identifier being new to the book, no order with
    that identifier is in the book when the call is over (whether it returns
    or raises). *)
Theorem ioc_never_rests order w :
  Order.order_type (World.heap w !!! order) = "ioc"%string ->
  in_book (World.heap w)
          (_get_order_book (Order.symbol (World.heap w !!! order)) w)
          (Order.id (World.heap w !!! order)) = false ->
  in_book (World.heap (process_order order w).1)
          (_get_order_book (Order.symbol (World.heap w !!! order))
                           (process_order order w).1)
          (Order.id (World.heap w !!! order)) = false
  /\ book_le (_get_order_book (Order.symbol (World.heap w !!! order))
                              (process_order order w).1)
             (_get_order_book (Order.symbol (World.heap w !!! order)) w)
  /\ exists new,
       TradeLog.trade_history (World.tlog (process_order order w).1)
         = TradeLog.trade_history (World.tlog w) ++ new
       /\ (forall ts, (process_order order w).2 = Return ts -> ts = new)
       /\ Forall (fun t => within_limit (World.heap w) order (Trade.price t)) new.
Proof.
  intros Hty Hnew.
  rewrite get_order_book_process.
  destruct (process_order_dispatch order w) as (-> & -> & ->).
  set (b := _get_order_book _ w) in *.
  unfold MatchingEngine.dispatch. simpl. rewrite Hty. simpl.
  rewrite execute_limit_order_ioc.
  destruct (MatchingEngine._match_order _ _ _) as [s1 res] eqn:Hrun.
  apply match_order_trades in Hrun as (Hfr & Hle & new & Hh & Hret & Hall).
  simpl in *.
  split; [by eapply in_book_le|]. split; [done|].
  exists new. split; [done|]. split; [done|].
  eapply Forall_impl; [exact Hall|]. intros t [_ Hwl]. by apply Hwl.
Qed.

Lemma ioc_never_rests_witness :
  Order.order_type (World.heap world_with_ioc !!! 1%nat) = "ioc"%string
  /\ in_book (World.heap world_with_ioc)
       (_get_order_book (Order.symbol (World.heap world_with_ioc !!! 1%nat))
                        world_with_ioc)
       (Order.id (World.heap world_with_ioc !!! 1%nat)) = false
  /\ in_book (World.heap (process_order 1%nat world_with_ioc).1)
       (_get_order_book (Order.symbol (World.heap world_with_ioc !!! 1%nat))
                        (process_order 1%nat world_with_ioc).1)
       (Order.id (World.heap world_with_ioc !!! 1%nat)) = false
  /\ book_le (_get_order_book (Order.symbol (World.heap world_with_ioc !!! 1%nat))
                              (process_order 1%nat world_with_ioc).1)
             (_get_order_book (Order.symbol (World.heap world_with_ioc !!! 1%nat))
                              world_with_ioc)
  /\ exists new,
       TradeLog.trade_history (World.tlog (process_order 1%nat world_with_ioc).1)
         = TradeLog.trade_history (World.tlog world_with_ioc) ++ new
       /\ (forall ts, (process_order 1%nat world_with_ioc).2 = Return ts -> ts = new)
       /\ Forall (fun t => within_limit (World.heap world_with_ioc) 1%nat
                                        (Trade.price t)) new.
Proof.
  split; [vm_compute; reflexivity|].
  split; [vm_compute; reflexivity|].
  apply (ioc_never_rests 1%nat world_with_ioc).
  - vm_compute; reflexivity.
  - vm_compute; reflexivity.
Defined.

(** ** Well-formed books *)

Lemma order_ok_ext h h' buy_side k r :
  h' !!! r = h !!! r -> order_ok h buy_side k r -> order_ok h' buy_side k r.
Proof. unfold order_ok. by intros ->. Qed.

Lemma order_ok_quantity h h' buy_side k r :
  static (h' !!! r) = static (h !!! r) -> 0 < Order.quantity (h' !!! r) ->
  order_ok h buy_side k r -> order_ok h' buy_side k r.
Proof.
  intros Hst Hq (Hs & Hp & _).
  destruct (static_fields _ _ Hst) as (_ & _ & _ & Hside & Hprice).
  unfold order_ok. by rewrite Hside, Hprice.
Qed.

Lemma side_ok_heap h h' buy_side d :
  side_ok h buy_side d ->
  (forall k l r, d !! k = Some l -> r ∈ PriceLevel.orders l ->
                 order_ok h buy_side k r -> order_ok h' buy_side k r) ->
  side_ok h' buy_side d.
Proof.
  intros Hok Hstep k l Hl. destruct (Hok k l Hl) as (Hne & Hnd & Hall).
  split; [done|]. split; [done|].
  apply Forall_forall. intros r Hr. eapply Hstep; [done..|].
  rewrite Forall_forall in Hall. by apply Hall.
Qed.

Lemma side_ok_delete h buy_side d k :
  side_ok h buy_side d -> side_ok h buy_side (delete k d).
Proof. intros Hok k' l Hl. apply lookup_delete_Some in Hl as [_ Hl]. by apply Hok. Qed.

Lemma side_ok_insert h buy_side d k l :
  side_ok h buy_side d -> level_ok h buy_side k l ->
  side_ok h buy_side (<[k := l]> d).
Proof.
  intros Hok Hl k' l' Hl'. destruct (decide (k = k')) as [<-|Hne].
  - rewrite lookup_insert_eq in Hl'. by injection Hl' as <-.
  - rewrite lookup_insert_ne in Hl' by done. by apply Hok.
Qed.

Lemma side_ok_queued h buy_side d r :
  side_ok h buy_side d -> queued d r ->
  exists k l, d !! k = Some l /\ r ∈ PriceLevel.orders l /\ order_ok h buy_side k r.
Proof.
  intros Hok (k & l & Hl & Hr). exists k, l. split; [done|]. split; [done|].
  destruct (Hok k l Hl) as (_ & _ & Hall). rewrite Forall_forall in Hall.
  by apply Hall.
Qed.

Lemma level_ok_sublist h buy_side k l l' :
  level_ok h buy_side k l ->
  PriceLevel.orders l' `sublist_of` PriceLevel.orders l ->
  PriceLevel.orders l' <> [] ->
  level_ok h buy_side k l'.
Proof.
  intros (_ & Hnd & Hall) Hsub Hne. split; [done|]. split.
  - by eapply sublist_NoDup.
  - apply Forall_forall. intros r Hr. rewrite Forall_forall in Hall.
    apply Hall. by eapply elem_of_sublist.
Qed.

Lemma book_ok_sides is_buy h b :
  book_ok h b <->
  side_ok h (negb is_buy) (MatchingEngine.opposite_book is_buy b)
  /\ side_ok h is_buy (MatchingEngine.opposite_book (negb is_buy) b)
  /\ no_cross b.
Proof. unfold book_ok. destruct is_buy; simpl; tauto. Qed.

Lemma resting_sides is_buy b r :
  resting b r <->
  queued (MatchingEngine.opposite_book is_buy b) r
  \/ queued (MatchingEngine.opposite_book (negb is_buy) b) r.
Proof. unfold resting. destruct is_buy; simpl; tauto. Qed.

Lemma side_book_opposite is_buy b side :
  String.eqb side "buy" = negb is_buy ->
  OrderBook.side_book b side = MatchingEngine.opposite_book is_buy b.
Proof. unfold OrderBook.side_book. intros ->. by destruct is_buy. Qed.

Lemma set_side_book_opposite is_buy b side d :
  String.eqb side "buy" = negb is_buy ->
  MatchingEngine.opposite_book is_buy (OrderBook.set_side_book b side d) = d
  /\ MatchingEngine.opposite_book (negb is_buy) (OrderBook.set_side_book b side d)
     = MatchingEngine.opposite_book (negb is_buy) b
  /\ OrderBook.orders (OrderBook.set_side_book b side d) = OrderBook.orders b.
Proof. unfold OrderBook.set_side_book. intros ->. by destruct is_buy. Qed.

Lemma no_cross_le b' b : book_le b' b -> no_cross b -> no_cross b'.
Proof.
  intros (Hb & Ha & _) Hnc kb ka [lb Hlb] [la Hla].
  destruct (Hb kb lb Hlb) as (? & ? & _). destruct (Ha ka la Hla) as (? & ? & _).
  apply Hnc; eauto.
Qed.

Lemma opposite_book_set_orders is_buy b ix :
  MatchingEngine.opposite_book is_buy (OrderBook.set_orders b ix)
  = MatchingEngine.opposite_book is_buy b.
Proof. by destruct is_buy. Qed.

(** Removing the order at the head of its level. *)
Lemma remove_order_head h b is_buy k l r rs p :
  MatchingEngine.opposite_book is_buy b !! k = Some l ->
  PriceLevel.orders l = r :: rs ->
  String.eqb (Order.side (h !!! r)) "buy" = negb is_buy ->
  Order.price (h !!! r) = Some p -> normalize_price p = k ->
  exists b',
    OrderBook.remove_order h r b = (b', Return tt)
    /\ MatchingEngine.opposite_book (negb is_buy) b'
       = MatchingEngine.opposite_book (negb is_buy) b
    /\ match rs with
       | [] => MatchingEngine.opposite_book is_buy b'
               = delete k (MatchingEngine.opposite_book is_buy b)
       | _ => exists l', PriceLevel.orders l' = rs
               /\ MatchingEngine.opposite_book is_buy b'
                  = <[k := l']> (MatchingEngine.opposite_book is_buy b)
       end.
Proof.
  intros Hl Hrs Hside Hp Hk. unfold OrderBook.remove_order.
  rewrite Hp, Hk, (side_book_opposite is_buy) by done. rewrite Hl.
  assert (Hrem : PriceLevel.orders (PriceLevel.remove_order h l r) = rs).
  { unfold PriceLevel.remove_order. rewrite Hrs. simpl.
    unfold PriceLevel.same at 1. rewrite bool_decide_eq_true_2 by done. simpl.
    unfold PriceLevel.same at 1. by rewrite bool_decide_eq_true_2 by done. }
  eexists. split; [reflexivity|]. rewrite !opposite_book_set_orders.
  destruct (PriceLevel.is_empty _) eqn:Hemp.
  - apply is_empty_true in Hemp. rewrite Hrem in Hemp. rewrite Hemp.
    destruct (set_side_book_opposite is_buy b (Order.side (h !!! r))
                (delete k (MatchingEngine.opposite_book is_buy b)) Hside)
      as (H1 & H2 & _).
    by split.
  - destruct (set_side_book_opposite is_buy b (Order.side (h !!! r))
                (<[k := PriceLevel.remove_order h l r]>
                   (MatchingEngine.opposite_book is_buy b)) Hside)
      as (H1 & H2 & _).
    split; [done|].
    destruct rs as [|r' rs'].
    { apply not_true_iff_false in Hemp. destruct Hemp. by apply is_empty_true. }
    by exists (PriceLevel.remove_order h l r).
Qed.

Lemma side_ok_same h h' buy_side d :
  side_ok h buy_side d ->
  (forall x, queued d x -> h' !!! x = h !!! x) ->
  side_ok h' buy_side d.
Proof.
  intros Hok Hsame. eapply side_ok_heap; [exact Hok|].
  intros k l r Hl Hr. apply (order_ok_ext h), Hsame. by exists k, l.
Qed.

Lemma order_ok_key h buy_side k k' r :
  order_ok h buy_side k r -> order_ok h buy_side k' r -> k = k'.
Proof. intros (_ & (p & Hp & <-) & _) (_ & (p' & Hp' & <-) & _). congruence. Qed.

Lemma side_ok_after_head h h' buy_side d k l r rs order :
  side_ok h buy_side d -> d !! k = Some l -> PriceLevel.orders l = r :: rs ->
  ~ queued d order ->
  (forall x, x <> order -> x <> r -> h' !!! x = h !!! x) ->
  side_ok h' buy_side (delete k d)
  /\ forall l', PriceLevel.orders l' = rs -> rs <> [] ->
       side_ok h' buy_side (<[k := l']> d).
Proof.
  intros Hok Hl Hrs Hnq Hsame.
  destruct (Hok k l Hl) as (_ & Hnd & Hall). rewrite Hrs in Hnd, Hall.
  apply NoDup_cons in Hnd as [Hr_notin Hnd].
  apply Forall_cons in Hall as [Hr_ok Hall].
  assert (Hdel : side_ok h' buy_side (delete k d)).
  { eapply side_ok_heap; [by apply side_ok_delete|].
    intros k' l' x Hl' Hx Hx_ok.
    apply lookup_delete_Some in Hl' as [Hne Hl'].
    apply (order_ok_ext h); [|done]. apply Hsame.
    - intros ->. apply Hnq. by exists k', l'.
    - intros ->. apply Hne. exact (order_ok_key h buy_side k k' r Hr_ok Hx_ok). }
  split; [done|]. intros l' Hl'rs Hne.
  rewrite <- insert_delete_eq. apply side_ok_insert; [done|].
  split; [by rewrite Hl'rs|]. rewrite Hl'rs. split; [done|].
  apply Forall_forall. intros x Hx. rewrite Forall_forall in Hall.
  apply (order_ok_ext h); [|by apply Hall]. apply Hsame.
  - intros ->. apply Hnq. exists k, l. split; [done|]. rewrite Hrs. by right.
  - by intros ->.
Qed.

Lemma match_level_done order price rs trades s :
  Order.quantity (Env.heap s !!! order) <= 0 ->
  MatchingEngine.match_level order price rs trades s = (s, Return trades).
Proof.
  intros Hq. destruct rs; simpl; [done|].
  by destruct (Z.leb_spec (Order.quantity (Env.heap s !!! order)) 0); [|lia].
Qed.

Lemma match_level_cons order price r rs trades s :
  MatchingEngine.match_level order price (r :: rs) trades s =
  if Order.quantity (Env.heap s !!! order) <=? 0 then (s, Return trades)
  else
    let q := Z.min (Order.quantity (Env.heap s !!! order))
                   (Order.quantity (Env.heap s !!! r)) in
    let h2 := sub_quantity (sub_quantity (Env.heap s) order q) r q in
    let lt := log_trade (Order.symbol (h2 !!! order)) price q
                        (Order.side (h2 !!! order)) (Order.id (h2 !!! r))
                        (Order.id (h2 !!! order)) (Env.tlog s) in
    if Order.quantity (h2 !!! r) <=? 0 then
      match OrderBook.remove_order h2 r (Env.book s) with
      | (b, Return _) =>
          MatchingEngine.match_level order price rs (trades ++ [lt.2])
                                     (Env.mk h2 b lt.1)
      | (b, Raise e) => (Env.mk h2 b lt.1, Raise e)
      end
    else MatchingEngine.match_level order price rs (trades ++ [lt.2])
                                    (Env.mk h2 (Env.book s) lt.1).
Proof. simpl. by destruct (log_trade _ _ _ _ _ _ _). Qed.

Lemma fills_ext h h' ts rs :
  (forall x, x ∈ rs -> h' !!! x = h !!! x) -> fills h ts rs -> fills h' ts rs.
Proof.
  intros Hsame Hf. induction Hf as [rs|t r rs Hm Hq|t t' ts r rs Hm Hq Hf IH].
  - constructor.
  - constructor; rewrite Hsame; [done|left|done|left].
  - constructor; [rewrite Hsame; [done|left]..|].
    apply IH. intros x Hx. apply Hsame. by right.
Qed.

Lemma fills_step h t ts r rs :
  Trade.maker_order_id t = Order.id (h !!! r) ->
  Trade.quantity t = Order.quantity (h !!! r) ->
  0 < Order.quantity (h !!! r) ->
  fills h ts rs -> fills h (t :: ts) (r :: rs).
Proof.
  intros Hm Hq Hpos Hf. destruct ts as [|t' ts].
  - apply fills_last; [done|lia].
  - by apply fills_cons.
Qed.

(** The inner loop on a well-formed book: it never raises; it leaves a
    well-formed book; it ends with the incoming order exhausted or with the
    level emptied and dropped from the book; and its trades consume the
    queue from the head. *)
Lemma match_level_ok order is_buy price rs :
  forall trades s s' res,
    is_buy = String.eqb (Order.side (Env.heap s !!! order)) "buy" ->
    match_inv order is_buy price s rs ->
    MatchingEngine.match_level order price rs trades s = (s', res) ->
    (exists ts, res = Return ts)
    /\ book_ok (Env.heap s') (Env.book s')
    /\ ~ resting (Env.book s') order
    /\ (Order.quantity (Env.heap s' !!! order) <= 0
        \/ MatchingEngine.opposite_book is_buy (Env.book s') !! price = None)
    /\ same_outside (fun x => x = order \/ x ∈ rs) (Env.heap s) (Env.heap s')
    /\ exists new,
         TradeLog.trade_history (Env.tlog s')
           = TradeLog.trade_history (Env.tlog s) ++ new
         /\ fills (Env.heap s) new rs.
Proof.
  induction rs as [|r rs IH]; intros trades s s' res His (Hok & Hnr & Hlvl).
  { simpl. intros [= <- <-]. split; [eauto|]. split; [done|]. split; [done|].
    split; [done|]. split; [apply same_outside_refl|].
    exists []. rewrite app_nil_r. split; [done|constructor]. }
  rewrite match_level_cons.
  destruct (Z.leb_spec (Order.quantity (Env.heap s !!! order)) 0) as [Hq|Hq].
  { intros [= <- <-]. split; [eauto|]. split; [done|]. split; [done|].
    split; [by left|]. split; [apply same_outside_refl|].
    exists []. rewrite app_nil_r. split; [done|constructor]. }
  destruct Hlvl as [Hlvl|(l & Hl & Hrs)]; [lia|].
  cbv zeta.
  set (h := Env.heap s) in *.
  set (d := MatchingEngine.opposite_book is_buy (Env.book s)) in *.
  set (q := Z.min (Order.quantity (h !!! order)) (Order.quantity (h !!! r))).
  set (h2 := sub_quantity (sub_quantity h order q) r q).
  set (lt := log_trade _ _ _ _ _ _ _).
  apply (book_ok_sides is_buy) in Hok as (Hopp & Hown & Hnc).
  destruct (Hopp price l Hl) as (_ & Hnd & Hall). rewrite Hrs in Hnd, Hall.
  apply NoDup_cons in Hnd as [Hr_notin Hnd].
  apply Forall_cons in Hall as [Hr_ok Hall].
  destruct Hr_ok as (Hr_side & (p & Hp & Hpk) & Hr_q).
  assert (Hnq_opp : ~ queued d order).
  { intros Hqd. apply Hnr. apply (resting_sides is_buy). by left. }
  assert (Hnq_own : ~ queued (MatchingEngine.opposite_book (negb is_buy) (Env.book s)) order).
  { intros Hqd. apply Hnr. apply (resting_sides is_buy). by right. }
  assert (Hne_r : r <> order).
  { intros ->. apply Hnq_opp. exists price, l. split; [done|]. rewrite Hrs. left. }
  assert (Hh2o : h2 !!! order
                 = Order.with_quantity (h !!! order) (Order.quantity (h !!! order) - q)).
  { unfold h2. rewrite sub_quantity_ne by done. apply sub_quantity_eq. }
  assert (Hh2r : h2 !!! r
                 = Order.with_quantity (h !!! r) (Order.quantity (h !!! r) - q)).
  { unfold h2. rewrite sub_quantity_eq. by rewrite sub_quantity_ne by done. }
  assert (Hh2x : forall x, x <> order -> x <> r -> h2 !!! x = h !!! x).
  { intros x Hxo Hxr. unfold h2. by rewrite !sub_quantity_ne by done. }
  assert (Hfr : frozen h h2).
  { eapply frozen_trans; apply frozen_sub_quantity. }
  assert (Hlt2 : Trade.maker_order_id lt.2 = Order.id (h !!! r)
                 /\ Trade.quantity lt.2 = q).
  { unfold lt. rewrite log_trade_trade. simpl. split; [|done].
    by apply frozen_id. }
  assert (Hlt1 : TradeLog.trade_history lt.1
                 = TradeLog.trade_history (Env.tlog s) ++ [lt.2]).
  { unfold lt. apply log_trade_history. }
  clearbody lt.
  assert (Hown2 : side_ok h2 is_buy
                    (MatchingEngine.opposite_book (negb is_buy) (Env.book s))).
  { eapply side_ok_same; [exact Hown|]. intros x Hx. apply Hh2x.
    - by intros ->.
    - intros ->. destruct (side_ok_queued _ _ _ _ Hown Hx) as (k & l0 & _ & _ & Hs & _).
      rewrite Hr_side in Hs. by destruct is_buy. }
  assert (Hso : same_outside (fun x => x = order \/ x ∈ r :: rs) h h2).
  { intros x Hx. apply Hh2x.
    - intros ->. apply Hx. by left.
    - intros ->. apply Hx. right. left. }
  destruct (Z.leb_spec (Order.quantity (h2 !!! r)) 0) as [Hfull|Hpart];
    rewrite Hh2r in Hfull || rewrite Hh2r in Hpart; simpl in *.
  - (* the resting order is filled and leaves the book *)
    assert (Hqr : q = Order.quantity (h !!! r)) by lia.
    destruct (remove_order_head h2 (Env.book s) is_buy price l r rs p Hl Hrs)
      as (b' & Hrm & Hown' & Hopp').
    { by rewrite (frozen_side h h2). }
    { by rewrite (frozen_price h h2). }
    { done. }
    rewrite Hrm. intros Hrun.
    destruct (side_ok_after_head h h2 (negb is_buy) d price l r rs order
                Hopp Hl Hrs Hnq_opp Hh2x) as (Hdel & Hins).
    assert (Hle : book_le b' (Env.book s)) by (by eapply remove_order_book_le).
    assert (Hinv1 : match_inv order is_buy price (Env.mk h2 b' lt.1) rs).
    { split; [|split]; simpl.
      - apply (book_ok_sides is_buy). split; [|split].
        + destruct rs as [|r' rs'].
          * by rewrite Hopp'.
          * destruct Hopp' as (l' & Hl' & ->). by apply Hins.
        + by rewrite Hown'.
        + by eapply no_cross_le.
      - intros Hres. apply Hnr. by eapply resting_le.
      - right. destruct rs as [|r' rs']; simpl.
        + rewrite Hopp'. apply lookup_delete_eq.
        + destruct Hopp' as (l' & Hl' & ->). exists l'.
          by rewrite lookup_insert_eq. }
    apply (IH _ _ _ _) in Hrun; [|simpl; by rewrite (frozen_side h h2)|exact Hinv1].
    destruct Hrun as (Hret & Hok' & Hnr' & Hdone & Hso' & new & Hh & Hf).
    simpl in *.
    split; [done|]. split; [done|]. split; [done|]. split; [done|]. split.
    { intros x Hx. rewrite Hso', Hso; [done|done|].
      intros [->|Hx']; apply Hx; [by left|by right; right]. }
    exists (lt.2 :: new). split.
    { by rewrite Hh, Hlt1, <- app_assoc. }
    destruct Hlt2 as [Hm Hq2]. apply fills_step; [done|lia|done|].
    eapply fills_ext; [|exact Hf]. intros x Hx. symmetry. apply Hh2x.
    + intros ->. apply Hnq_opp. exists price, l. split; [done|].
      rewrite Hrs. by right.
    + by intros ->.
  - (* the incoming order is exhausted *)
    rewrite match_level_done by (simpl; rewrite Hh2o; simpl; lia).
    intros [= <- <-]. simpl.
    split; [eauto|]. split.
    { apply (book_ok_sides is_buy). split; [|split; [exact Hown2|exact Hnc]].
      eapply side_ok_heap; [exact Hopp|]. intros k l0 x Hl0 Hx Hxok.
      destruct (decide (x = r)) as [->|Hxr].
      - eapply order_ok_quantity; [apply Hfr| |exact Hxok].
        rewrite Hh2r. simpl. lia.
      - apply (order_ok_ext h); [|done]. apply Hh2x; [|done].
        intros ->. apply Hnq_opp. by exists k, l0. }
    split; [done|]. split; [left; rewrite Hh2o; simpl; lia|].
    split; [done|]. exists [lt.2]. split; [done|].
    destruct Hlt2 as [Hm Hq2]. apply fills_last; [done|lia].
Qed.

Lemma fills_app h ts rs rs' : fills h ts rs -> fills h ts (rs ++ rs').
Proof.
  induction 1 as [rs|t r rs Hm Hq|t t' ts r rs Hm Hq Hf IH]; simpl.
  - constructor.
  - by constructor.
  - by constructor.
Qed.

Lemma level_ok_not_empty h buy_side k l :
  level_ok h buy_side k l -> PriceLevel.is_empty l = false.
Proof.
  intros (Hne & _). apply not_true_iff_false. intros He.
  by apply is_empty_true in He.
Qed.

(** The outer loop on a well-formed book.  A level that is consumed
    entirely has already been dropped by [OrderBook.remove_order] when the
    loop comes to delete it, so the loop works on one level at most: it
    stops there with the incoming order exhausted, or raises [KeyError]. *)
Lemma match_levels_ok order market is_buy ps trades s s' res :
  is_buy = String.eqb (Order.side (Env.heap s !!! order)) "buy" ->
  book_ok (Env.heap s) (Env.book s) ->
  ~ resting (Env.book s) order ->
  (forall p, p ∈ ps ->
     is_Some (MatchingEngine.opposite_book is_buy (Env.book s) !! p)) ->
  MatchingEngine.match_levels order market is_buy ps trades s = (s', res) ->
  book_ok (Env.heap s') (Env.book s')
  /\ ~ resting (Env.book s') order
  /\ same_outside (fun x => x = order \/ resting (Env.book s) x)
                  (Env.heap s) (Env.heap s')
  /\ (exists new,
        TradeLog.trade_history (Env.tlog s')
          = TradeLog.trade_history (Env.tlog s) ++ new
        /\ fills (Env.heap s) new
             (queue_of (MatchingEngine.opposite_book is_buy (Env.book s)) ps))
  /\ (forall ts, res = Return ts ->
        0 < Order.quantity (Env.heap s' !!! order) ->
        s' = s
        /\ (ps = []
            \/ exists p ps', ps = p :: ps'
                 /\ MatchingEngine.beyond_limit (Env.heap s) order market is_buy p
                    = Return true)).
Proof.
  intros His Hok Hnr Hkeys.
  assert (Hstay : (s', res) = (s, res) ->
    (forall ts, res = Return ts -> 0 < Order.quantity (Env.heap s !!! order) ->
       ps = [] \/ exists p ps', ps = p :: ps'
                 /\ MatchingEngine.beyond_limit (Env.heap s) order market is_buy p
                    = Return true) ->
    book_ok (Env.heap s') (Env.book s')
    /\ ~ resting (Env.book s') order
    /\ same_outside (fun x => x = order \/ resting (Env.book s) x)
                    (Env.heap s) (Env.heap s')
    /\ (exists new,
          TradeLog.trade_history (Env.tlog s')
            = TradeLog.trade_history (Env.tlog s) ++ new
          /\ fills (Env.heap s) new
               (queue_of (MatchingEngine.opposite_book is_buy (Env.book s)) ps))
    /\ (forall ts, res = Return ts ->
          0 < Order.quantity (Env.heap s' !!! order) ->
          s' = s
          /\ (ps = []
              \/ exists p ps', ps = p :: ps'
                   /\ MatchingEngine.beyond_limit (Env.heap s) order market is_buy p
                      = Return true))).
  { intros [= ->] Hwhy. split; [done|]. split; [done|].
    split; [apply same_outside_refl|]. split.
    - exists []. rewrite app_nil_r. split; [done|constructor].
    - intros ts Hts Hq. split; [done|]. by eapply Hwhy. }
  destruct ps as [|price ps]; simpl.
  { intros [= <- <-]. apply Hstay; [done|]. intros; by left. }
  destruct (MatchingEngine.beyond_limit _ _ _ _ _) as [[|]|e] eqn:Hlim.
  { intros [= <- <-]. apply Hstay; [done|]. intros; right; eauto. }
  2:{ intros [= <- <-]. apply Hstay; [done|]. intros; done. }
  destruct (Hkeys price ltac:(left)) as [level Hlevel]. rewrite Hlevel.
  pose proof Hok as Hok0.
  apply (book_ok_sides is_buy) in Hok0 as (Hopp & _ & _).
  pose proof (Hopp price level Hlevel) as Hlvl_ok.
  destruct (MatchingEngine.match_level _ _ _ _ _) as [s1 res1] eqn:Hrun.
  apply (match_level_ok order is_buy) in Hrun; [|done|].
  2:{ split; [done|]. split; [done|]. right.
      destruct Hlvl_ok as (Hne & _).
      destruct (PriceLevel.orders level) eqn:Hords; [done|].
      exists level. by rewrite Hords. }
  destruct Hrun as ((ts1 & ->) & Hok1 & Hnr1 & Hend & Hso & new & Hh & Hf).
  assert (Hso' : same_outside (fun x => x = order \/ resting (Env.book s) x)
                              (Env.heap s) (Env.heap s1)).
  { eapply same_outside_weaken; [|exact Hso]. intros x [->|Hx]; [by left|].
    right. apply (resting_sides is_buy). left. by exists price, level. }
  assert (Hnew : exists new,
        TradeLog.trade_history (Env.tlog s1)
          = TradeLog.trade_history (Env.tlog s) ++ new
        /\ fills (Env.heap s) new
             (PriceLevel.orders level
              ++ queue_of (MatchingEngine.opposite_book is_buy (Env.book s)) ps)).
  { exists new. split; [done|]. by apply fills_app. }
  destruct (MatchingEngine.opposite_book is_buy (Env.book s1) !! price)
    as [l1|] eqn:Hl1.
  - destruct Hend as [Hq1|?]; [|done].
    pose proof Hok1 as Hok1'.
    apply (book_ok_sides is_buy) in Hok1' as (Hopp1 & _ & _).
    rewrite (level_ok_not_empty _ _ _ _ (Hopp1 price l1 Hl1)).
    destruct (Z.leb_spec (Order.quantity (Env.heap s1 !!! order)) 0); [|lia].
    intros [= <- <-]. split; [done|]. split; [done|]. split; [done|].
    split; [exact Hnew|]. intros ts _ Hpos. lia.
  - intros [= <- <-]. split; [done|]. split; [done|]. split; [done|].
    split; [exact Hnew|]. intros ts Hts. done.
Qed.

(** ** Sorted keys *)

Lemma elem_of_keys {V} (d : gmap Z V) k : k ∈ keys d <-> is_Some (d !! k).
Proof.
  unfold keys. rewrite list_elem_of_fmap. split.
  - intros ([k' v] & -> & Hkv). apply elem_of_map_to_list in Hkv. by exists v.
  - intros [v Hv]. exists (k, v). split; [done|]. by apply elem_of_map_to_list.
Qed.

Lemma elem_of_sorted l k : k ∈ sorted l <-> k ∈ l.
Proof. unfold sorted. by rewrite merge_sort_Permutation. Qed.

Lemma elem_of_sorted_reverse l k : k ∈ sorted_reverse l <-> k ∈ l.
Proof. unfold sorted_reverse. by rewrite elem_of_reverse, merge_sort_Permutation. Qed.

Lemma sorted_head_le l p ps k : sorted l = p :: ps -> k ∈ l -> p <= k.
Proof.
  intros Hs Hk. apply elem_of_sorted in Hk. rewrite Hs in Hk.
  pose proof (StronglySorted_merge_sort Z.le l) as Hss.
  unfold sorted in Hs. rewrite Hs in Hss.
  apply StronglySorted_cons in Hss as [Hall _].
  apply elem_of_cons in Hk as [->|Hk]; [lia|].
  rewrite Forall_forall in Hall. by apply Hall.
Qed.

Lemma sorted_reverse_head_ge l p ps k :
  sorted_reverse l = p :: ps -> k ∈ l -> k <= p.
Proof.
  intros Hs Hk. apply elem_of_sorted_reverse in Hk. rewrite Hs in Hk.
  pose proof (StronglySorted_merge_sort Z.le l) as Hss.
  unfold sorted_reverse in Hs.
  apply (f_equal reverse) in Hs. rewrite reverse_involutive, reverse_cons in Hs.
  rewrite Hs in Hss.
  apply elem_of_cons in Hk as [->|Hk]; [lia|].
  eapply (StronglySorted_app_1_elem_of Z.le); [exact Hss| |left].
  by apply elem_of_reverse.
Qed.

Lemma beyond_limit_true h order is_buy price :
  MatchingEngine.beyond_limit h order false is_buy price = Return true ->
  exists p, Order.price (h !!! order) = Some p
    /\ if is_buy then normalize_price p < price else price < normalize_price p.
Proof.
  unfold MatchingEngine.beyond_limit. simpl.
  destruct (Order.price (h !!! order)) as [p|]; [|done].
  intros [= Hb]. exists p. split; [done|].
  destruct is_buy; simpl in Hb; rewrite ?orb_false_r in Hb; by apply Z.ltb_lt.
Qed.

(** [_match_order] on a well-formed book.  When it returns with the
    incoming order not exhausted, the book is as it was and every level of
    the opposite side is beyond the order's limit. *)
Lemma match_order_ok order market s s' res :
  book_ok (Env.heap s) (Env.book s) ->
  ~ resting (Env.book s) order ->
  MatchingEngine._match_order order market s = (s', res) ->
  book_ok (Env.heap s') (Env.book s')
  /\ ~ resting (Env.book s') order
  /\ same_outside (fun x => x = order \/ resting (Env.book s) x)
                  (Env.heap s) (Env.heap s')
  /\ (exists new,
        TradeLog.trade_history (Env.tlog s')
          = TradeLog.trade_history (Env.tlog s) ++ new
        /\ fills (Env.heap s) new
             (opposite_queue (String.eqb (Order.side (Env.heap s !!! order)) "buy")
                             (Env.book s)))
  /\ (forall ts, res = Return ts ->
        0 < Order.quantity (Env.heap s' !!! order) -> market = false ->
        s' = s /\
        forall p k,
          Order.price (Env.heap s !!! order) = Some p ->
          is_Some (MatchingEngine.opposite_book
                     (String.eqb (Order.side (Env.heap s !!! order)) "buy")
                     (Env.book s) !! k) ->
          if String.eqb (Order.side (Env.heap s !!! order)) "buy"
          then normalize_price p < k else k < normalize_price p).
Proof.
  intros Hok Hnr. unfold MatchingEngine._match_order, opposite_queue.
  set (is_buy := String.eqb (Order.side (Env.heap s !!! order)) "buy").
  set (d := MatchingEngine.opposite_book is_buy (Env.book s)).
  set (ps := if is_buy then sorted (keys d) else sorted_reverse (keys d)).
  assert (Hps : forall k, k ∈ ps <-> is_Some (d !! k)).
  { intros k. unfold ps. destruct is_buy.
    - by rewrite elem_of_sorted, elem_of_keys.
    - by rewrite elem_of_sorted_reverse, elem_of_keys. }
  intros Hrun.
  apply (match_levels_ok order market is_buy) in Hrun; [|done|done|done|].
  2:{ intros p Hp. by apply Hps. }
  destruct Hrun as (Hok' & Hnr' & Hso & Hnew & Hret).
  split; [done|]. split; [done|]. split; [done|]. split; [done|].
  intros ts Hts Hq ->. destruct (Hret ts Hts Hq) as [-> Hwhy].
  split; [done|]. intros p k Hp Hk. apply Hps in Hk.
  destruct Hwhy as [Hnil|(p0 & ps' & Hps' & Hb)].
  { rewrite Hnil in Hk. by apply elem_of_nil in Hk. }
  apply beyond_limit_true in Hb as (p' & Hp' & Hb).
  rewrite Hp in Hp'. injection Hp' as <-.
  assert (Hkd : k ∈ keys d) by (by apply elem_of_keys, Hps).
  unfold ps in Hps'. destruct is_buy.
  - pose proof (sorted_head_le _ _ _ _ Hps' Hkd). lia.
  - pose proof (sorted_reverse_head_ge _ _ _ _ Hps' Hkd). lia.
Qed.

(** ** Resting an order *)

Lemma add_level_lookup h (d : gmap Z PriceLevel.t) key order k :
  alter (fun l => PriceLevel.add_order h l order) key
        (match d !! key with
         | None => <[key := PriceLevel.new key]> d
         | Some _ => d
         end) !! k
  = if decide (key = k)
    then Some (PriceLevel.add_order h (default (PriceLevel.new key) (d !! key)) order)
    else d !! k.
Proof.
  rewrite lookup_alter. destruct (decide (key = k)) as [<-|Hne].
  - destruct (d !! key) as [l|] eqn:Hl; simpl.
    + by rewrite Hl.
    + by rewrite lookup_insert_eq.
  - destruct (d !! key) as [l|] eqn:Hl; [done|]. by rewrite lookup_insert_ne.
Qed.

Lemma add_order_spec h b order p :
  Order.price (h !!! order) = Some p ->
  let is_buy := String.eqb (Order.side (h !!! order)) "buy" in
  let d := MatchingEngine.opposite_book (negb is_buy) b in
  exists b',
    OrderBook.add_order h order b = (b', Return tt)
    /\ MatchingEngine.opposite_book is_buy b' = MatchingEngine.opposite_book is_buy b
    /\ (forall k,
          MatchingEngine.opposite_book (negb is_buy) b' !! k
          = if decide (normalize_price p = k)
            then Some (PriceLevel.add_order h
                         (default (PriceLevel.new (normalize_price p))
                                  (d !! normalize_price p)) order)
            else d !! k).
Proof.
  intros Hp is_buy d. unfold OrderBook.add_order. rewrite Hp.
  eexists. split; [reflexivity|].
  assert (Hside : String.eqb (Order.side (h !!! order)) "buy" = negb (negb is_buy)).
  { by rewrite negb_involutive. }
  set (b1 := OrderBook.set_orders b _).
  assert (Hd : OrderBook.side_book b1 (Order.side (h !!! order)) = d).
  { rewrite (side_book_opposite (negb is_buy)) by done.
    apply opposite_book_set_orders. }
  rewrite Hd.
  destruct (set_side_book_opposite (negb is_buy) b1 (Order.side (h !!! order))
              (alter (fun l => PriceLevel.add_order h l order) (normalize_price p)
                 match d !! normalize_price p with
                 | Some _ => d
                 | None => <[normalize_price p := PriceLevel.new (normalize_price p)]> d
                 end) Hside) as (H1 & H2 & _).
  rewrite negb_involutive in H2. split.
  - rewrite H2. apply opposite_book_set_orders.
  - intros k. rewrite H1. apply add_level_lookup.
Qed.

Lemma add_order_no_price h b order :
  Order.price (h !!! order) = None ->
  exists ix,
    OrderBook.add_order h order b = (OrderBook.set_orders b ix, Raise TypeError).
Proof. intros Hp. unfold OrderBook.add_order. rewrite Hp. eauto. Qed.

Lemma orders_add_order h l r :
  PriceLevel.orders (PriceLevel.add_order h l r) = PriceLevel.orders l ++ [r].
Proof. reflexivity. Qed.

Lemma add_order_ok h b order b' res :
  book_ok h b -> ~ resting b order -> 0 < Order.quantity (h !!! order) ->
  (forall p k,
     Order.price (h !!! order) = Some p ->
     is_Some (MatchingEngine.opposite_book
                (String.eqb (Order.side (h !!! order)) "buy") b !! k) ->
     if String.eqb (Order.side (h !!! order)) "buy"
     then normalize_price p < k else k < normalize_price p) ->
  OrderBook.add_order h order b = (b', res) ->
  book_ok h b' /\ forall x, resting b' x -> x = order \/ resting b x.
Proof.
  intros Hok Hnr Hq Hlim Hadd.
  destruct (Order.price (h !!! order)) as [p|] eqn:Hp.
  2:{ destruct (add_order_no_price h b order Hp) as (ix & Heq).
      rewrite Heq in Hadd. injection Hadd as <- <-. split; [done|]. by right. }
  destruct (add_order_spec h b order p Hp) as (b1 & Heq & Hopp & Hown).
  rewrite Heq in Hadd. injection Hadd as <- <-.
  set (is_buy := String.eqb (Order.side (h !!! order)) "buy") in *.
  set (d := MatchingEngine.opposite_book (negb is_buy) b) in *.
  set (np := normalize_price p) in *.
  pose proof Hok as Hok0.
  apply (book_ok_sides is_buy) in Hok0 as (Hopp_ok & Hown_ok & Hnc).
  assert (Hnq : ~ queued d order).
  { intros Hqd. apply Hnr. apply (resting_sides is_buy). by right. }
  assert (Hnew : forall l,
    MatchingEngine.opposite_book (negb is_buy) b1 !! np = Some l ->
    level_ok h is_buy np l
    /\ forall x, x ∈ PriceLevel.orders l -> x = order \/ queued d x).
  { intros l. rewrite Hown. rewrite decide_True by done. intros [= <-].
    unfold level_ok. rewrite orders_add_order.
    assert (Horder : order_ok h is_buy np order).
    { split; [done|]. split; [by exists p|done]. }
    destruct (d !! np) as [l0|] eqn:Hl0; simpl.
    - destruct (Hown_ok np l0 Hl0) as (Hne & Hnd & Hall). split.
      + split; [by destruct (PriceLevel.orders l0)|]. split.
        * apply NoDup_app. split; [done|]. split; [|apply NoDup_singleton].
          intros x Hx Hx'. apply list_elem_of_singleton in Hx'. subst x.
          apply Hnq. by exists np, l0.
        * apply Forall_app. split; [done|]. by constructor.
      + intros x Hx. apply elem_of_app in Hx as [Hx|Hx].
        * right. by exists np, l0.
        * left. by apply list_elem_of_singleton in Hx.
    - split.
      + split; [done|]. split; [apply NoDup_singleton|]. by constructor.
      + intros x Hx. left. by apply list_elem_of_singleton in Hx. }
  assert (Hold : forall k l,
    k <> np -> MatchingEngine.opposite_book (negb is_buy) b1 !! k = Some l ->
    d !! k = Some l).
  { intros k l Hk. rewrite Hown. by rewrite decide_False by done. }
  split.
  - apply (book_ok_sides is_buy). split; [by rewrite Hopp|]. split.
    + intros k l Hl. destruct (decide (k = np)) as [->|Hk].
      * by apply Hnew.
      * apply Hown_ok. by apply Hold.
    + assert (Hcross : forall k_own k_opp,
        is_Some (MatchingEngine.opposite_book (negb is_buy) b1 !! k_own) ->
        is_Some (MatchingEngine.opposite_book is_buy b1 !! k_opp) ->
        if is_buy then k_own < k_opp else k_opp < k_own).
      { intros k_own k_opp [l Hl] Hk_opp. rewrite Hopp in Hk_opp.
        destruct (decide (k_own = np)) as [->|Hk].
        - by apply (Hlim p k_opp).
        - apply Hold in Hl; [|done].
          unfold d in Hl. unfold no_cross in Hnc.
          destruct is_buy; simpl in *; apply Hnc; eauto. }
      intros kb ka Hkb Hka.
      destruct is_buy; simpl in *.
      * by apply (Hcross kb ka).
      * by apply (Hcross ka kb).
  - intros x Hx. apply (resting_sides is_buy) in Hx as [Hx|Hx].
    + right. apply (resting_sides is_buy). left. by rewrite Hopp in Hx.
    + destruct Hx as (k & l & Hl & Hx).
      destruct (decide (k = np)) as [->|Hk].
      * destruct (Hnew l Hl) as [_ Hin]. destruct (Hin x Hx) as [->|Hqd]; [by left|].
        right. apply (resting_sides is_buy). by right.
      * right. apply (resting_sides is_buy). right. exists k, l.
        split; [by apply Hold|done].
Qed.

(** ** One call on a well-formed book *)

Lemma call_ok_refl order s : book_ok (Env.heap s) (Env.book s) -> call_ok order s s.
Proof.
  intros Hok. split; [done|]. split; [apply frozen_refl|].
  split; [apply same_outside_refl|]. split; [by right|].
  exists []. rewrite app_nil_r. split; [done|constructor].
Qed.

Lemma match_order_call_ok order market s s' res :
  book_ok (Env.heap s) (Env.book s) ->
  ~ resting (Env.book s) order ->
  MatchingEngine._match_order order market s = (s', res) ->
  call_ok order s s' /\ ~ resting (Env.book s') order.
Proof.
  intros Hok Hnr Hrun.
  pose proof (match_order_trades _ _ _ _ _ Hrun) as (Hfr & Hle & _).
  apply match_order_ok in Hrun as (Hok' & Hnr' & Hso & Hnew & _); [|done..].
  split; [|done]. split; [done|]. split; [done|]. split; [done|].
  split; [|done]. intros x Hx. right. by eapply resting_le.
Qed.

Lemma execute_limit_order_ok order ioc s s' res :
  book_ok (Env.heap s) (Env.book s) ->
  ~ resting (Env.book s) order ->
  MatchingEngine._execute_limit_order order ioc s = (s', res) ->
  call_ok order s s'.
Proof.
  intros Hok Hnr. unfold MatchingEngine._execute_limit_order.
  destruct (MatchingEngine._match_order order false s) as [s1 [ts|e]] eqn:Hrun.
  2:{ intros [= <- <-]. by eapply match_order_call_ok. }
  pose proof (match_order_call_ok _ _ _ _ _ Hok Hnr Hrun) as [Hcall Hnr1].
  destruct ((0 <? Order.quantity (Env.heap s1 !!! order)) && negb ioc) eqn:Hrest.
  2:{ by intros [= <- <-]. }
  apply andb_true_iff in Hrest as [Hq _]. apply Z.ltb_lt in Hq.
  apply match_order_ok in Hrun as (Hok1 & _ & _ & _ & Hret); [|done..].
  destruct (Hret ts eq_refl Hq eq_refl) as [-> Hlim].
  destruct (OrderBook.add_order (Env.heap s) order (Env.book s)) as [b r] eqn:Hadd.
  apply add_order_ok in Hadd as [Hokb Hres]; [|done..].
  assert (Hgoal : call_ok order s (Env.set_book s b)).
  { destruct (call_ok_refl order s Hok) as (_ & Hfr & Hso & _ & Hnew).
    split; [done|]. split; [done|]. split; [done|]. split; [|done].
    exact Hres. }
  by destruct r; intros [= <- <-].
Qed.

Lemma dispatch_ok order s s' res :
  book_ok (Env.heap s) (Env.book s) ->
  ~ resting (Env.book s) order ->
  MatchingEngine.dispatch order s = (s', res) ->
  call_ok order s s'.
Proof.
  intros Hok Hnr. unfold MatchingEngine.dispatch.
  destruct (String.eqb _ "market").
  { intros Hrun. by eapply match_order_call_ok. }
  destruct (String.eqb _ "limit").
  { intros Hrun. by eapply execute_limit_order_ok. }
  destruct (String.eqb _ "ioc").
  { intros Hrun. by eapply execute_limit_order_ok. }
  destruct (String.eqb _ "fok").
  { destruct (MatchingEngine._can_fully_fill order s) as [[|]|e].
    - intros Hrun. by eapply execute_limit_order_ok.
    - intros [= <- <-]. by apply call_ok_refl.
    - intros [= <- <-]. by apply call_ok_refl. }
  intros [= <- <-]. by apply call_ok_refl.
Qed.

(** ** Cancelling on a well-formed book *)

Lemma remove_order_ok h r b b' res :
  book_ok h b -> OrderBook.remove_order h r b = (b', res) -> book_ok h b'.
Proof.
  intros Hok Hrm. pose proof (remove_order_book_le _ _ _ _ _ Hrm) as Hle.
  destruct Hok as (Hb & Ha & Hnc).
  assert (Hside : forall buy_side d d',
            side_ok h buy_side d -> side_le d' d ->
            (forall k l', d' !! k = Some l' -> PriceLevel.orders l' <> []) ->
            side_ok h buy_side d').
  { intros bs d d' Hd Hled Hne k l' Hl'.
    destruct (Hled k l' Hl') as (l & Hl & Hsub).
    eapply level_ok_sublist; [by apply Hd|done|by eapply Hne]. }
  assert (Hne : forall k l',
            (OrderBook.bids b' !! k = Some l' \/ OrderBook.asks b' !! k = Some l') ->
            PriceLevel.orders l' <> []).
  { revert Hrm. unfold OrderBook.remove_order.
    destruct (Order.price (h !!! r)) as [p|].
    2:{ intros [= <- <-] k l' [Hl'|Hl'].
        - by destruct (Hb k l' Hl').
        - by destruct (Ha k l' Hl'). }
    intros [= <- <-] k l'.
    set (key := normalize_price p).
    assert (Hnew : forall d buy_side, side_ok h buy_side d ->
      forall l', match d !! key with
                 | Some level =>
                     if PriceLevel.is_empty (PriceLevel.remove_order h level r)
                     then delete key d
                     else <[key := PriceLevel.remove_order h level r]> d
                 | None => d
                 end !! k = Some l' -> PriceLevel.orders l' <> []).
    { intros d bs Hd l0. destruct (d !! key) as [level|] eqn:Hlevel.
      - destruct (PriceLevel.is_empty _) eqn:Hemp.
        + intros Hl0. apply lookup_delete_Some in Hl0 as [_ Hl0].
          by destruct (Hd k l0 Hl0).
        + intros Hl0. apply lookup_insert_Some in Hl0 as [[_ <-]|[_ Hl0]].
          * intros He. apply is_empty_true in He. congruence.
          * by destruct (Hd k l0 Hl0).
      - intros Hl0. by destruct (Hd k l0 Hl0). }
    unfold OrderBook.set_side_book, OrderBook.side_book.
    destruct (String.eqb (Order.side (h !!! r)) "buy"); simpl; intros [Hl'|Hl'].
    - by eapply (Hnew _ true).
    - by destruct (Ha k l' Hl').
    - by destruct (Hb k l' Hl').
    - by eapply (Hnew _ false). }
  destruct Hle as (Hleb & Hlea & Hix). split; [|split].
  - eapply Hside; [exact Hb|done|]. intros k l' Hl'. apply (Hne k). by left.
  - eapply Hside; [exact Ha|done|]. intros k l' Hl'. apply (Hne k). by right.
  - eapply no_cross_le; [|exact Hnc]. by repeat split.
Qed.

(** ** Well-formed worlds *)

Lemma book_ok_same h h' b :
  book_ok h b -> (forall x, resting b x -> h' !!! x = h !!! x) -> book_ok h' b.
Proof.
  intros (Hb & Ha & Hnc) Hsame. split; [|split; [|done]].
  - eapply side_ok_same; [done|]. intros x Hx. apply Hsame. by left.
  - eapply side_ok_same; [done|]. intros x Hx. apply Hsame. by right.
Qed.

Lemma book_ok_new h symbol : book_ok h (OrderBook.new symbol).
Proof.
  split; [|split].
  - intros k l Hl. simpl in Hl. by rewrite lookup_empty in Hl.
  - intros k l Hl. simpl in Hl. by rewrite lookup_empty in Hl.
  - intros kb ka [l Hl]. simpl in Hl. by rewrite lookup_empty in Hl.
Qed.

Lemma resting_new symbol r : ~ resting (OrderBook.new symbol) r.
Proof.
  intros [(k & l & Hl & _)|(k & l & Hl & _)]; simpl in Hl;
    by rewrite lookup_empty in Hl.
Qed.

Lemma world_ok_init : world_ok World.init.
Proof. intros symbol b Hb. simpl in Hb. by rewrite lookup_empty in Hb. Qed.

Lemma world_ok_alloc o w :
  world_ok w ->
  world_ok (World.alloc o w).1
  /\ forall symbol b, World.order_books w !! symbol = Some b ->
       ~ resting b (World.next_ref w).
Proof.
  intros Hok.
  assert (Hfresh : forall symbol b, World.order_books w !! symbol = Some b ->
                     ~ resting b (World.next_ref w)).
  { intros symbol b Hb Hr. destruct (Hok symbol b Hb) as [_ Hres].
    destruct (Hres _ Hr) as [Hlt _]. lia. }
  split; [|done]. intros symbol b Hb. simpl in *.
  destruct (Hok symbol b Hb) as [Hbok Hres].
  assert (Hsame : forall x, resting b x ->
            (<[World.next_ref w := o]> (World.heap w) : gmap nat Order.t) !!! x
            = World.heap w !!! x).
  { intros x Hx. apply lookup_total_insert_ne. intros <-. by eapply Hfresh. }
  split; [by eapply book_ok_same|].
  intros r Hr. destruct (Hres r Hr) as [Hlt Hsym]. split; [lia|].
  by rewrite Hsame.
Qed.

Lemma process_order_ok order w :
  world_ok w -> (order < World.next_ref w)%nat ->
  (forall symbol b, World.order_books w !! symbol = Some b -> ~ resting b order) ->
  world_ok (process_order order w).1.
Proof.
  intros Hok Hlt Hfresh. unfold process_order.
  set (symbol := Order.symbol (World.heap w !!! order)).
  set (book := _get_order_book symbol w).
  assert (Hbook : book_ok (World.heap w) book
                  /\ ~ resting book order
                  /\ forall x, resting book x ->
                       (x < World.next_ref w)%nat
                       /\ Order.symbol (World.heap w !!! x) = symbol).
  { unfold book, _get_order_book.
    destruct (World.order_books w !! symbol) as [b|] eqn:Hb; simpl.
    - destruct (Hok symbol b Hb) as [Hbok Hres]. split; [done|].
      split; [by eapply Hfresh|done].
    - split; [apply book_ok_new|]. split; [apply resting_new|].
      intros x Hx. by apply resting_new in Hx. }
  destruct Hbook as (Hbok & Hnr & Hres).
  destruct (MatchingEngine.dispatch _ _) as [s res] eqn:Hrun.
  apply dispatch_ok in Hrun as (Hok' & Hfr & Hso & Hres' & _); [|done..].
  intros symbol' b' Hb'. simpl in *.
  destruct (decide (symbol = symbol')) as [<-|Hne].
  - rewrite lookup_insert_eq in Hb'. injection Hb' as <-. split; [done|].
    intros x Hx. rewrite (frozen_symbol _ _ _ Hfr).
    destruct (Hres' x Hx) as [->|Hx']; [done|]. by apply Hres.
  - rewrite lookup_insert_ne in Hb' by done.
    destruct (Hok symbol' b' Hb') as [Hbok' Hres''].
    assert (Hsame : forall x, resting b' x -> Env.heap s !!! x = World.heap w !!! x).
    { intros x Hx. apply Hso. intros [->|Hx'].
      - by eapply Hfresh.
      - destruct (Hres'' x Hx) as [_ Hs1]. destruct (Hres x Hx') as [_ Hs2].
        congruence. }
    split; [by eapply book_ok_same|].
    intros x Hx. destruct (Hres'' x Hx) as [Hlt' Hsym]. split; [done|].
    by rewrite Hsame.
Qed.

Lemma process_new_ok o w : world_ok w -> world_ok (process_new o w).1.
Proof.
  intros Hok. unfold process_new.
  destruct (World.alloc o w) as [w1 order] eqn:Halloc.
  destruct (world_ok_alloc o w Hok) as [Hok1 Hfresh].
  rewrite Halloc in Hok1. simpl in Hok1.
  injection Halloc as <- <-.
  apply process_order_ok; [done|simpl; lia|done].
Qed.

Lemma submit_order_ok o w : world_ok w -> world_ok (submit_order o w).1.
Proof.
  intros Hok. unfold submit_order.
  destruct (World.alloc o w) as [w1 order] eqn:Halloc.
  destruct (world_ok_alloc o w Hok) as [Hok1 Hfresh].
  rewrite Halloc in Hok1. simpl in Hok1.
  injection Halloc as <- <-.
  destruct (_ && _); [done|].
  pose proof (process_order_ok (World.next_ref w) _ Hok1) as Hp.
  destruct (process_order _ _) as [w2 [ts|e]]; simpl in *;
    apply Hp; try lia; done.
Qed.

Lemma cancel_order_ok symbol order_id w :
  world_ok w -> world_ok (cancel_order symbol order_id w).1.
Proof.
  intros Hok. unfold cancel_order.
  destruct (World.order_books w !! symbol) as [book|] eqn:Hbook; [|done].
  destruct (OrderBook.orders book !! order_id) as [order|]; [|done].
  destruct (OrderBook.remove_order _ _ _) as [b res] eqn:Hrm. simpl.
  destruct (Hok symbol book Hbook) as [Hbok Hres].
  intros symbol' b' Hb'. simpl in *.
  destruct (decide (symbol = symbol')) as [<-|Hne].
  - rewrite lookup_insert_eq in Hb'. injection Hb' as <-.
    split; [by eapply remove_order_ok|].
    intros x Hx. apply Hres. eapply resting_le; [|done].
    by eapply remove_order_book_le.
  - rewrite lookup_insert_ne in Hb' by done. by apply Hok.
Qed.

Lemma reachable_world_ok w : reachable w -> world_ok w.
Proof.
  induction 1 as [|o w Hr IH|o w Hr IH|symbol order_id w Hr IH].
  - apply world_ok_init.
  - by apply process_new_ok.
  - by apply submit_order_ok.
  - by apply cancel_order_ok.
Qed.

(** ** The book is never crossed *)

Lemma foldl_max_elem x l : foldl Z.max x l ∈ x :: l.
Proof.
  revert x. induction l as [|y l IH]; intros x; simpl; [left|].
  destruct (Z.max_spec x y) as [[_ ->]|[_ ->]].
  - right. apply IH.
  - specialize (IH x). apply elem_of_cons in IH as [->|IH]; [left|].
    right. by right.
Qed.

Lemma foldl_min_elem x l : foldl Z.min x l ∈ x :: l.
Proof.
  revert x. induction l as [|y l IH]; intros x; simpl; [left|].
  destruct (Z.min_spec x y) as [[_ ->]|[_ ->]].
  - specialize (IH x). apply elem_of_cons in IH as [->|IH]; [left|].
    right. by right.
  - right. apply IH.
Qed.

Lemma py_max_elem l k : py_max l = Some k -> k ∈ l.
Proof. destruct l; [done|]. intros [= <-]. apply foldl_max_elem. Qed.

Lemma py_min_elem l k : py_min l = Some k -> k ∈ l.
Proof. destruct l; [done|]. intros [= <-]. apply foldl_min_elem. Qed.

(** C3: in every state the engine can reach by orders handed to
    [process_order] and by cancellations, a book whose two sides are
    non-empty has its best bid strictly below its best ask. *)
Theorem book_never_crossed w symbol book bid ask :
  reachable w ->
  World.order_books w !! symbol = Some book ->
  OrderBook.get_best_bid book = Some bid ->
  OrderBook.get_best_ask book = Some ask ->
  bid < ask.
Proof.
  intros Hr Hbook Hbid Hask.
  destruct (reachable_world_ok w Hr symbol book Hbook) as [(_ & _ & Hnc) _].
  apply Hnc.
  - apply elem_of_keys. by apply py_max_elem.
  - apply elem_of_keys. by apply py_min_elem.
Qed.

Lemma reachable_two_sided : reachable world_two_sided.
Proof. unfold world_two_sided. do 2 apply reachable_process. apply reachable_init. Qed.

Lemma book_never_crossed_witness :
  reachable world_two_sided
  /\ World.order_books world_two_sided !! "BTC-USDT"%string
     = Some (_get_order_book "BTC-USDT" world_two_sided)
  /\ OrderBook.get_best_bid (_get_order_book "BTC-USDT" world_two_sided)
     = Some 1000000
  /\ OrderBook.get_best_ask (_get_order_book "BTC-USDT" world_two_sided)
     = Some 1010000
  /\ 1000000 < 1010000.
Proof.
  split; [exact reachable_two_sided|].
  split; [vm_compute; reflexivity|].
  split; [vm_compute; reflexivity|].
  split; [vm_compute; reflexivity|].
  apply (book_never_crossed world_two_sided "BTC-USDT"
           (_get_order_book "BTC-USDT" world_two_sided) 1000000 1010000).
  - exact reachable_two_sided.
  - vm_compute; reflexivity.
  - vm_compute; reflexivity.
  - vm_compute; reflexivity.
Defined.

(** ** Price-time priority *)

Lemma elem_of_queue_of d ks x : x ∈ queue_of d ks -> queued d x.
Proof.
  unfold queue_of. rewrite list_elem_of_bind. intros (k & Hx & _).
  destruct (d !! k) as [l|] eqn:Hl; simpl in Hx; [|by apply elem_of_nil in Hx].
  by exists k, l.
Qed.

Lemma elem_of_opposite_queue is_buy b x :
  x ∈ opposite_queue is_buy b -> resting b x.
Proof.
  unfold opposite_queue. intros Hx. apply elem_of_queue_of in Hx.
  apply (resting_sides is_buy). by left.
Qed.



Lemma reachable_two_asks : reachable world_two_asks.
Proof. unfold world_two_asks. do 2 apply reachable_process. apply reachable_init. Qed.


(** Two asks of 1.0 at 100.00 and a buy of 1.5: order 1, admitted first, is
    consumed in full, then half of order 2. *)
Example price_time_priority_two_asks :
  let r := process_new (limit_order 3 "buy" 15000 1000000) world_two_asks in
  (fun t => (Trade.maker_order_id t, Trade.quantity t))
    <$> TradeLog.trade_history (World.tlog r.1)
  = [(1%N, 10000); (2%N, 5000)]
  /\ r.2 <> Raise KeyError.
Proof. cbv zeta. split; [vm_compute; reflexivity|]. by vm_compute. Qed.

(** ** Where the code departs from the specification *)

(** C1 at a failing input: an ask of 2.0 at 100.00 is hit by a buy of 1.0.
    The resting order is left with 1.0, and the level still announces 2.0:
    a fill changes [order.quantity] and never [total_quantity]. *)
Lemma aggregate_stale_after_fill :
  exists book level,
    World.order_books world_after_partial_fill !! "BTC-USDT"%string = Some book
    /\ OrderBook.asks book !! 1000000 = Some level
    /\ PriceLevel.orders level = [0%nat]
    /\ Order.quantity (World.heap world_after_partial_fill !!! 0%nat) = 10000
    /\ level_sum (World.heap world_after_partial_fill) level = 10000
    /\ PriceLevel.total_quantity level = 20000
    /\ OrderBook.get_depth book 10 = ([], [(1000000, 20000)]).
Proof.
  destruct (World.order_books world_after_partial_fill !! "BTC-USDT"%string)
    as [book|] eqn:Hbook; [|by vm_compute in Hbook].
  destruct (OrderBook.asks book !! 1000000) as [level|] eqn:Hlevel.
  2:{ vm_compute in Hbook. injection Hbook as <-. by vm_compute in Hlevel. }
  exists book, level. split; [done|]. split; [done|].
  vm_compute in Hbook. injection Hbook as <-.
  vm_compute in Hlevel. injection Hlevel as <-.
  repeat split; vm_compute; reflexivity.
Qed.

(** C2 at a failing input: after the fill above the book holds 1.0 at 100.00
    and announces 2.0.  A fill-or-kill buy of 2.0 at 100.00 passes the
    probe, trades 1.0, empties the level and the call raises [KeyError]:
    one trade is recorded, half of the order is unfilled, and the book has
    changed. *)
Lemma fok_partial_fill :
  let fok := typed_order "fok" 3 "buy" 20000 1000000 in
  let before := world_after_partial_fill in
  let r := process_new fok before in
  MatchingEngine._can_fully_fill 2%nat
    (Env.mk (World.heap (World.alloc fok before).1)
            (_get_order_book "BTC-USDT" before) (World.tlog before))
    = Return true
  /\ r.2 = Raise KeyError
  /\ Trade.quantity <$> TradeLog.trade_history (World.tlog before) = [10000]
  /\ Trade.quantity <$> TradeLog.trade_history (World.tlog r.1) = [10000; 10000]
  /\ Order.quantity (World.heap r.1 !!! 2%nat) = 10000
  /\ OrderBook.get_depth (_get_order_book "BTC-USDT" before) 10
     = ([], [(1000000, 20000)])
  /\ OrderBook.get_depth (_get_order_book "BTC-USDT" r.1) 10 = ([], []).
Proof. cbv zeta. repeat split; vm_compute; reflexivity. Qed.

(** A fill-or-kill order that is filled completely also raises: its last
    trade empties a level. *)
Lemma fok_full_fill_raises :
  let r := process_new (typed_order "fok" 2 "buy" 10000 1000000) world_first_ask in
  r.2 = Raise KeyError
  /\ Trade.quantity <$> TradeLog.trade_history (World.tlog r.1) = [10000]
  /\ Order.quantity (World.heap r.1 !!! 1%nat) = 0.
Proof. cbv zeta. repeat split; vm_compute; reflexivity. Qed.

(** [cancel_order] never returns [True]. *)
Lemma cancel_order_never_true symbol order_id w :
  (cancel_order symbol order_id w).2 <> Return (PBool true).
Proof.
  unfold cancel_order.
  destruct (World.order_books w !! symbol) as [book|]; [|done].
  destruct (OrderBook.orders book !! order_id) as [order|]; [|done].
  by destruct (OrderBook.remove_order _ _ _) as [b [u|e]].
Qed.

(** C6 at a failing input: the resting order 1 is cancelled.  It leaves the
    index and the book, and the call returns [None]. *)
Lemma cancel_returns_none :
  let r := cancel_order "BTC-USDT" 1 world_first_ask in
  OrderBook.orders (_get_order_book "BTC-USDT" world_first_ask) !! 1%N = Some 0%nat
  /\ r.2 = Return PNone
  /\ OrderBook.orders (_get_order_book "BTC-USDT" r.1) !! 1%N = None
  /\ OrderBook.get_depth (_get_order_book "BTC-USDT" r.1) 10 = ([], [])
  /\ (cancel_order "ETH-USDT" 1 world_first_ask).2 = Return (PBool false)
  /\ (cancel_order "BTC-USDT" 9 world_first_ask).2 = Return (PBool false).
Proof. cbv zeta. repeat split; vm_compute; reflexivity. Qed.

(** * Further properties of the code *)

(** ** Levels and resting orders in the states the engine reaches *)

Lemma normalize_price_cents p :
  normalize_price p mod 100 = 0 /\ 2 * Z.abs (normalize_price p - p) <= 100.
Proof.
  unfold normalize_price, py_round, unit4.
  change (10 ^ (4 - 2)) with 100. change (10 ^ 2) with 100.
  pose proof (round_half_even_nearest (p * 100) 10000 ltac:(lia)) as Hn.
  set (k := round_half_even (p * 100) 10000) in *.
  split; [|lia].
  replace (100 * k) with (k * 100) by lia. apply Z.mod_mul. lia.
Qed.

Lemma reachable_level_ok w symbol book k level :
  reachable w ->
  World.order_books w !! symbol = Some book ->
  OrderBook.bids book !! k = Some level \/ OrderBook.asks book !! k = Some level ->
  exists buy_side : bool,
    level_ok (World.heap w) buy_side k level
    /\ (if buy_side then OrderBook.bids book else OrderBook.asks book) !! k
       = Some level.
Proof.
  intros Hr Hbook Hl.
  destruct (reachable_world_ok w Hr symbol book Hbook) as [(Hb & Ha & _) _].
  destruct Hl as [Hl|Hl]; [exists true|exists false]; split; auto.
Qed.

(** X1: in every state the engine reaches, a price level that is present in
    a book holds at least one order and no order object twice, its key is a
    whole number of cents, and the bid levels lie strictly below the ask
    levels. *)
Theorem levels_never_empty w symbol book k level :
  reachable w ->
  World.order_books w !! symbol = Some book ->
  OrderBook.bids book !! k = Some level \/ OrderBook.asks book !! k = Some level ->
  PriceLevel.is_empty level = false
  /\ NoDup (PriceLevel.orders level)
  /\ k mod 100 = 0
  /\ (forall ka, is_Some (OrderBook.asks book !! ka) ->
        OrderBook.bids book !! k = Some level -> k < ka)
  /\ (forall kb, is_Some (OrderBook.bids book !! kb) ->
        OrderBook.asks book !! k = Some level -> kb < k).
Proof.
  intros Hr Hbook Hl.
  destruct (reachable_level_ok _ _ _ _ _ Hr Hbook Hl) as (bs & Hok & _).
  destruct (reachable_world_ok w Hr symbol book Hbook) as [(_ & _ & Hnc) _].
  split; [by eapply level_ok_not_empty|].
  destruct Hok as (Hne & Hnd & Hall). split; [done|]. split.
  - destruct (PriceLevel.orders level) as [|r rs]; [done|].
    apply Forall_cons in Hall as [(_ & (p & _ & <-) & _) _].
    apply normalize_price_cents.
  - split.
    + intros ka Hka Hk. apply Hnc; [by rewrite Hk|done].
    + intros kb Hkb Hk. apply Hnc; [done|by rewrite Hk].
Qed.

Lemma levels_never_empty_witness :
  let book := _get_order_book "BTC-USDT" world_two_sided in
  let level := default (PriceLevel.new 0) (OrderBook.bids book !! 1000000) in
  PriceLevel.is_empty level = false
  /\ NoDup (PriceLevel.orders level)
  /\ 1000000 mod 100 = 0
  /\ (forall ka, is_Some (OrderBook.asks book !! ka) ->
        OrderBook.bids book !! 1000000 = Some level -> 1000000 < ka)
  /\ (forall kb, is_Some (OrderBook.bids book !! kb) ->
        OrderBook.asks book !! 1000000 = Some level -> kb < 1000000).
Proof.
  cbv zeta.
  apply (levels_never_empty world_two_sided "BTC-USDT").
  - exact reachable_two_sided.
  - vm_compute; reflexivity.
  - left. vm_compute; reflexivity.
Defined.



(** ** Best prices and depth *)

Lemma foldl_max_ge x l y : y ∈ x :: l -> y <= foldl Z.max x l.
Proof.
  revert x y. induction l as [|z l IH]; intros x y Hy; simpl.
  - apply list_elem_of_singleton in Hy as ->. lia.
  - assert (Hm : Z.max x z <= foldl Z.max (Z.max x z) l) by (apply IH; left).
    apply elem_of_cons in Hy as [->|Hy]; [lia|].
    apply elem_of_cons in Hy as [->|Hy]; [lia|].
    apply IH. by right.
Qed.

Lemma foldl_min_le x l y : y ∈ x :: l -> foldl Z.min x l <= y.
Proof.
  revert x y. induction l as [|z l IH]; intros x y Hy; simpl.
  - apply list_elem_of_singleton in Hy as ->. lia.
  - assert (Hm : foldl Z.min (Z.min x z) l <= Z.min x z) by (apply IH; left).
    apply elem_of_cons in Hy as [->|Hy]; [lia|].
    apply elem_of_cons in Hy as [->|Hy]; [lia|].
    apply IH. by right.
Qed.

Lemma keys_nil {V} (d : gmap Z V) : keys d = [] <-> d = ∅.
Proof.
  unfold keys. split.
  - intros H. apply fmap_nil_inv in H. by apply map_to_list_empty_iff.
  - intros ->. by rewrite map_to_list_empty.
Qed.

Lemma py_max_spec {V} (d : gmap Z V) :
  match py_max (keys d) with
  | None => d = ∅
  | Some m => is_Some (d !! m) /\ forall k, is_Some (d !! k) -> k <= m
  end.
Proof.
  destruct (py_max (keys d)) as [m|] eqn:Hm.
  - split; [apply elem_of_keys; by apply py_max_elem|].
    intros k Hk. apply elem_of_keys in Hk.
    destruct (keys d) as [|x l]; [done|]. injection Hm as <-.
    by apply foldl_max_ge.
  - apply keys_nil. by destruct (keys d).
Qed.

Lemma py_min_spec {V} (d : gmap Z V) :
  match py_min (keys d) with
  | None => d = ∅
  | Some m => is_Some (d !! m) /\ forall k, is_Some (d !! k) -> m <= k
  end.
Proof.
  destruct (py_min (keys d)) as [m|] eqn:Hm.
  - split; [apply elem_of_keys; by apply py_min_elem|].
    intros k Hk. apply elem_of_keys in Hk.
    destruct (keys d) as [|x l]; [done|]. injection Hm as <-.
    by apply foldl_min_le.
  - apply keys_nil. by destruct (keys d).
Qed.

(** X3: [get_bbo] reports as bid the greatest key of the bid levels of the
    symbol's book and as ask the least key of its ask levels; a side is
    [None] exactly when the symbol is not registered or that side of its
    book has no level. *)
Theorem get_bbo_spec symbol w :
  match BBO.bid (get_bbo symbol w) with
  | None =>
      forall book, World.order_books w !! symbol = Some book ->
        OrderBook.bids book = ∅
  | Some bid =>
      exists book, World.order_books w !! symbol = Some book
        /\ OrderBook.get_best_bid book = Some bid
        /\ is_Some (OrderBook.bids book !! bid)
        /\ forall k, is_Some (OrderBook.bids book !! k) -> k <= bid
  end
  /\ match BBO.ask (get_bbo symbol w) with
     | None =>
         forall book, World.order_books w !! symbol = Some book ->
           OrderBook.asks book = ∅
     | Some ask =>
         exists book, World.order_books w !! symbol = Some book
           /\ OrderBook.get_best_ask book = Some ask
           /\ is_Some (OrderBook.asks book !! ask)
           /\ forall k, is_Some (OrderBook.asks book !! k) -> ask <= k
     end.
Proof.
  unfold get_bbo.
  destruct (World.order_books w !! symbol) as [book|] eqn:Hbook; simpl; [|done].
  unfold OrderBook.get_best_bid, OrderBook.get_best_ask.
  pose proof (py_max_spec (OrderBook.bids book)) as Hmax.
  pose proof (py_min_spec (OrderBook.asks book)) as Hmin.
  split.
  - destruct (py_max _) as [bid|] eqn:Ebid.
    + exists book. destruct Hmax as [Hin Hle]. repeat split; assumption.
    + by intros ? [= <-].
  - destruct (py_min _) as [ask|] eqn:Eask.
    + exists book. destruct Hmin as [Hin Hle]. repeat split; assumption.
    + by intros ? [= <-].
Qed.

Lemma StronglySorted_le_lt l :
  StronglySorted Z.le l -> NoDup l -> StronglySorted Z.lt l.
Proof.
  induction 1 as [|x l Hl IH Hall]; intros Hnd; [constructor|].
  apply NoDup_cons in Hnd as [Hx Hnd]. constructor; [by apply IH|].
  rewrite Forall_forall in Hall |- *. intros y Hy.
  specialize (Hall y Hy). assert (x <> y) by (by intros ->). lia.
Qed.

Lemma NoDup_keys {V} (d : gmap Z V) : NoDup (keys d).
Proof. apply NoDup_fst_map_to_list. Qed.

Lemma sorted_keys_lt {V} (d : gmap Z V) : StronglySorted Z.lt (sorted (keys d)).
Proof.
  apply StronglySorted_le_lt; [apply StronglySorted_merge_sort; apply _|].
  unfold sorted. rewrite merge_sort_Permutation. apply NoDup_keys.
Qed.

Lemma StronglySorted_reverse_flip {A} (R : relation A) l :
  StronglySorted R l -> StronglySorted (flip R) (reverse l).
Proof.
  induction 1 as [|x l Hl IH Hall]; [rewrite reverse_nil; constructor|].
  rewrite reverse_cons. apply StronglySorted_app_2; [|done|repeat constructor].
  intros y z Hy Hz. apply list_elem_of_singleton in Hz as ->.
  rewrite elem_of_reverse in Hy. rewrite Forall_forall in Hall.
  unfold flip. by apply Hall.
Qed.

Lemma sorted_reverse_keys_gt {V} (d : gmap Z V) :
  StronglySorted (flip Z.lt) (sorted_reverse (keys d)).
Proof. apply StronglySorted_reverse_flip, sorted_keys_lt. Qed.

Lemma StronglySorted_take {A} (R : relation A) n l :
  StronglySorted R l -> StronglySorted R (take n l).
Proof.
  intros H. rewrite <- (take_drop n l) in H. by apply StronglySorted_app_1_l in H.
Qed.

Lemma depth_side_prices (d : gmap Z PriceLevel.t) ks levels :
  (forall k, k ∈ ks -> is_Some (d !! k)) ->
  (OrderBook.depth_side d ks levels).*1 = take levels ks.
Proof.
  unfold OrderBook.depth_side. intros Hks.
  assert (Hall : forall k, k ∈ take levels ks -> is_Some (d !! k)).
  { intros k Hk. apply Hks. by eapply subseteq_take. }
  induction (take levels ks) as [|k l IH]; [done|]. simpl.
  destruct (Hall k ltac:(left)) as [lv Hlv]. rewrite Hlv. simpl.
  f_equal. apply IH. intros k' Hk'. apply Hall. by right.
Qed.

Lemma elem_of_depth_side (d : gmap Z PriceLevel.t) ks levels p q :
  (p, q) ∈ OrderBook.depth_side d ks levels ->
  exists l, d !! p = Some l /\ q = PriceLevel.total_quantity l.
Proof.
  unfold OrderBook.depth_side. intros H.
  apply list_elem_of_omap in H as (k & _ & Hk).
  destruct (d !! k) as [l|] eqn:Hl; [|done]. simpl in Hk.
  injection Hk as <- <-. by exists l.
Qed.

Lemma best_levels R (l : list Z) n k p :
  StronglySorted R l -> k ∈ l -> k ∉ take n l -> p ∈ take n l -> R p k.
Proof.
  intros Hs Hk Hnk Hp. rewrite <- (take_drop n l) in Hs, Hk.
  apply elem_of_app in Hk as [Hk|Hk]; [done|].
  by eapply StronglySorted_app_1_elem_of.
Qed.

Lemma head_sorted_reverse_keys {V} (d : gmap Z V) :
  head (sorted_reverse (keys d)) = py_max (keys d).
Proof.
  pose proof (py_max_spec d) as Hm.
  destruct (sorted_reverse (keys d)) as [|p ps] eqn:Hs.
  - destruct (py_max (keys d)) as [m|]; [|done].
    destruct Hm as [Hm _]. apply elem_of_keys, elem_of_sorted_reverse in Hm.
    rewrite Hs in Hm. by apply elem_of_nil in Hm.
  - assert (Hp : p ∈ keys d).
    { apply elem_of_sorted_reverse. rewrite Hs. left. }
    destruct (py_max (keys d)) as [m|].
    + destruct Hm as [Hm Hle]. simpl. f_equal.
      apply elem_of_keys in Hm.
      pose proof (sorted_reverse_head_ge _ _ _ m Hs Hm).
      apply elem_of_keys in Hp. specialize (Hle p Hp). lia.
    + rewrite Hm in Hp. unfold keys in Hp. rewrite map_to_list_empty in Hp.
      by apply elem_of_nil in Hp.
Qed.

Lemma head_sorted_keys {V} (d : gmap Z V) :
  head (sorted (keys d)) = py_min (keys d).
Proof.
  pose proof (py_min_spec d) as Hm.
  destruct (sorted (keys d)) as [|p ps] eqn:Hs.
  - destruct (py_min (keys d)) as [m|]; [|done].
    destruct Hm as [Hm _]. apply elem_of_keys, elem_of_sorted in Hm.
    rewrite Hs in Hm. by apply elem_of_nil in Hm.
  - assert (Hp : p ∈ keys d).
    { apply elem_of_sorted. rewrite Hs. left. }
    destruct (py_min (keys d)) as [m|].
    + destruct Hm as [Hm Hle]. simpl. f_equal.
      apply elem_of_keys in Hm.
      pose proof (sorted_head_le _ _ _ m Hs Hm).
      apply elem_of_keys in Hp. specialize (Hle p Hp). lia.
    + rewrite Hm in Hp. unfold keys in Hp. rewrite map_to_list_empty in Hp.
      by apply elem_of_nil in Hp.
Qed.

Lemma length_sorted_keys {V} (d : gmap Z V) :
  length (sorted (keys d)) = size d /\ length (sorted_reverse (keys d)) = size d.
Proof.
  unfold sorted, sorted_reverse. rewrite length_reverse.
  rewrite merge_sort_Permutation. unfold keys. rewrite length_fmap.
  by rewrite length_map_to_list.
Qed.

(** X4: [get_depth] lists, for each side, the best [levels] price levels
    of the book (all of them when there are fewer), best first: the bid
    prices strictly descending and the ask prices strictly ascending, every
    level left out being worse than every level listed; each entry pairs a
    level's key with the [total_quantity] stored for it; and for
    [levels > 0] the first bid and ask prices are [get_best_bid] and
    [get_best_ask]. *)
Theorem get_depth_spec book levels :
  let bids := (OrderBook.get_depth book levels).1 in
  let asks := (OrderBook.get_depth book levels).2 in
  length bids = (levels `min` size (OrderBook.bids book))%nat
  /\ length asks = (levels `min` size (OrderBook.asks book))%nat
  /\ StronglySorted (flip Z.lt) bids.*1
  /\ StronglySorted Z.lt asks.*1
  /\ (forall p q, (p, q) ∈ bids ->
        exists l, OrderBook.bids book !! p = Some l
                  /\ q = PriceLevel.total_quantity l)
  /\ (forall p q, (p, q) ∈ asks ->
        exists l, OrderBook.asks book !! p = Some l
                  /\ q = PriceLevel.total_quantity l)
  /\ (forall k p, is_Some (OrderBook.bids book !! k) -> k ∉ bids.*1 ->
        p ∈ bids.*1 -> k < p)
  /\ (forall k p, is_Some (OrderBook.asks book !! k) -> k ∉ asks.*1 ->
        p ∈ asks.*1 -> p < k)
  /\ ((0 < levels)%nat ->
        head bids.*1 = OrderBook.get_best_bid book
        /\ head asks.*1 = OrderBook.get_best_ask book).
Proof.
  intros bids asks. subst bids asks. unfold OrderBook.get_depth. simpl.
  assert (Hb : (OrderBook.depth_side (OrderBook.bids book)
                  (sorted_reverse (keys (OrderBook.bids book))) levels).*1
               = take levels (sorted_reverse (keys (OrderBook.bids book)))).
  { apply depth_side_prices. intros k Hk.
    by apply elem_of_keys, elem_of_sorted_reverse. }
  assert (Ha : (OrderBook.depth_side (OrderBook.asks book)
                  (sorted (keys (OrderBook.asks book))) levels).*1
               = take levels (sorted (keys (OrderBook.asks book)))).
  { apply depth_side_prices. intros k Hk.
    by apply elem_of_keys, elem_of_sorted. }
  destruct (length_sorted_keys (OrderBook.bids book)) as [_ Hlb].
  destruct (length_sorted_keys (OrderBook.asks book)) as [Hla _].
  split.
  { rewrite <- (length_fmap fst), Hb, length_take. lia. }
  split.
  { rewrite <- (length_fmap fst), Ha, length_take. lia. }
  rewrite Hb, Ha.
  split; [apply StronglySorted_take, sorted_reverse_keys_gt|].
  split; [apply StronglySorted_take, sorted_keys_lt|].
  split; [intros p q; apply elem_of_depth_side|].
  split; [intros p q; apply elem_of_depth_side|].
  split.
  { intros k p Hk Hnk Hp.
    apply (best_levels (flip Z.lt) (sorted_reverse (keys (OrderBook.bids book)))
                       levels k p); try done.
    - apply sorted_reverse_keys_gt.
    - by apply elem_of_sorted_reverse, elem_of_keys. }
  split.
  { intros k p Hk Hnk Hp.
    apply (best_levels Z.lt (sorted (keys (OrderBook.asks book))) levels k p);
      try done.
    - apply sorted_keys_lt.
    - by apply elem_of_sorted, elem_of_keys. }
  intros Hpos. destruct levels as [|n]; [lia|].
  unfold OrderBook.get_best_bid, OrderBook.get_best_ask.
  rewrite <- head_sorted_reverse_keys, <- head_sorted_keys.
  split.
  - by destruct (sorted_reverse (keys (OrderBook.bids book))).
  - by destruct (sorted (keys (OrderBook.asks book))).
Qed.

Lemma depth_side_nil (d : gmap Z PriceLevel.t) ks levels :
  (forall k, k ∈ ks <-> is_Some (d !! k)) -> (0 < levels)%nat ->
  OrderBook.depth_side d ks levels = [] <-> d = ∅.
Proof.
  intros Hks Hpos. split.
  - intros Hnil. apply map_empty. intros k.
    destruct (d !! k) as [l|] eqn:Hl; [|done].
    assert (Hk : k ∈ ks) by (apply Hks; eauto).
    pose proof (depth_side_prices d ks levels
                  ltac:(intros k' Hk'; by apply Hks)) as Hp.
    rewrite Hnil in Hp. destruct levels as [|n]; [lia|].
    destruct ks as [|k0 ks]; [by apply elem_of_nil in Hk|done].
  - intros ->. unfold OrderBook.depth_side.
    destruct ks as [|k ks]; [by rewrite take_nil|].
    destruct (proj1 (Hks k) ltac:(left)) as [l Hl].
    by rewrite lookup_empty in Hl.
Qed.

Lemma get_depth_nil book levels :
  (0 < levels)%nat ->
  ((OrderBook.get_depth book levels).1 = [] <-> OrderBook.bids book = ∅)
  /\ ((OrderBook.get_depth book levels).2 = [] <-> OrderBook.asks book = ∅).
Proof.
  intros Hpos. unfold OrderBook.get_depth. simpl. split.
  - apply depth_side_nil; [|done]. intros k.
    by rewrite elem_of_sorted_reverse, elem_of_keys.
  - apply depth_side_nil; [|done]. intros k.
    by rewrite elem_of_sorted, elem_of_keys.
Qed.

(** X5: the endpoints [GET /orderbook/{symbol}] and [GET /bbo/{symbol}]
    answer 404 in the same states: exactly when the symbol is not
    registered or its book has no level on either side.  Otherwise the
    first answers with the depth for 10 levels and the second with the
    best bid and ask. *)
Theorem endpoints_not_found symbol w :
  (get_order_book symbol w = Status 404 <-> get_bbo_endpoint symbol w = Status 404)
  /\ (get_bbo_endpoint symbol w = Status 404
      <-> forall book, World.order_books w !! symbol = Some book ->
            OrderBook.bids book = ∅ /\ OrderBook.asks book = ∅)
  /\ (get_order_book symbol w <> Status 404 ->
      get_order_book symbol w = Body (get_order_book_depth symbol 10 w)
      /\ get_bbo_endpoint symbol w = Body (get_bbo symbol w)).
Proof.
  assert (Hob : get_order_book symbol w = Status 404
                <-> forall book, World.order_books w !! symbol = Some book ->
                      OrderBook.bids book = ∅ /\ OrderBook.asks book = ∅).
  { unfold get_order_book, get_order_book_depth.
    destruct (World.order_books w !! symbol) as [book|] eqn:Hbook.
    - destruct (get_depth_nil book 10 ltac:(lia)) as [Hb Ha].
      split.
      + intros H book' [= <-].
        destruct (bool_decide (_ = [])) eqn:E1; [|done].
        destruct (bool_decide (_.2 = [])) eqn:E2; [|done].
        apply bool_decide_eq_true in E1, E2. split; [by apply Hb|by apply Ha].
      + intros H. destruct (H book eq_refl) as [Hb' Ha'].
        apply Hb in Hb'. apply Ha in Ha'.
        rewrite !bool_decide_eq_true_2 by done. done.
    - simpl. split; [by intros _ ? [=]|done]. }
  assert (Hbbo : get_bbo_endpoint symbol w = Status 404
                <-> forall book, World.order_books w !! symbol = Some book ->
                      OrderBook.bids book = ∅ /\ OrderBook.asks book = ∅).
  { unfold get_bbo_endpoint, get_bbo.
    destruct (World.order_books w !! symbol) as [book|] eqn:Hbook; simpl.
    - unfold OrderBook.get_best_bid, OrderBook.get_best_ask.
      pose proof (py_max_spec (OrderBook.bids book)) as Hmax.
      pose proof (py_min_spec (OrderBook.asks book)) as Hmin.
      split.
      + intros H book' [= <-].
        destruct (py_max _) as [bid|]; [done|].
        destruct (py_min _) as [ask|]; [done|]. done.
      + intros H. destruct (H book eq_refl) as [Hb' Ha'].
        rewrite Hb', Ha'. reflexivity.
    - split; [by intros _ ? [=]|done]. }
  split; [by rewrite Hob, Hbbo|]. split; [done|].
  intros Hne.
  assert (Hne' : get_bbo_endpoint symbol w <> Status 404).
  { intros H. apply Hne. apply Hob. by apply Hbbo. }
  split.
  - unfold get_order_book in *. by destruct (_ && _).
  - unfold get_bbo_endpoint in *. by destruct (_ && _).
Qed.

(** ** The trade log: history, rings and the file *)

Lemma deque_append_last {A} (n : nat) (l : list A) x :
  (0 < n)%nat ->
  deque_append n (drop (length l - n) l) x
  = drop (length (l ++ [x]) - n) (l ++ [x]).
Proof.
  intros Hn. unfold deque_append. rewrite length_drop, length_app. simpl.
  destruct (Nat.leb_spec n (length l - (length l - n))) as [Hle|Hgt].
  - rewrite !drop_app_le by (rewrite ?length_drop; lia).
    rewrite drop_drop. do 2 f_equal. lia.
  - replace (length l - n)%nat with 0%nat by lia.
    by replace (length l + 1 - n)%nat with 0%nat by lia.
Qed.

Transparent log_trade.

Lemma log_trade_stores symbol price quantity side maker taker tl :
  let r := log_trade symbol price quantity side maker taker tl in
  Trade.symbol r.2 = symbol
  /\ TradeLog.trade_history r.1 = TradeLog.trade_history tl ++ [r.2]
  /\ TradeLog.symbol_trades r.1
     = <[symbol := deque_append RING_CAPACITY (ring_of tl symbol) r.2]>
         (TradeLog.symbol_trades tl)
  /\ TradeLog.trades_file r.1 = TradeLog.trades_file tl ++ [Trade.dict r.2].
Proof. done. Qed.

Opaque log_trade.

(** X6: the three stores of the trade recorder agree.  After any sequence
    of [log_trade] calls in a process, the ring of a symbol holds the trades
    of that symbol of [trade_history], in the same order, all of them up to
    1000 and the last 1000 beyond; and the file [trades.jsonl] holds the
    lines it had when the process started (none for a first start, the
    trades of earlier processes after a restart), followed by one line per
    trade of [trade_history], in the same order. *)
Theorem ring_is_history_tail lines tl symbol :
  recorded_after lines tl ->
  let of_symbol :=
    filter (fun t => Trade.symbol t = symbol) (TradeLog.trade_history tl) in
  ring_of tl symbol = drop (length of_symbol - 1000) of_symbol
  /\ TradeLog.trades_file tl
     = lines ++ (Trade.dict <$> TradeLog.trade_history tl).
Proof.
  induction 1 as [next now|tl s p q a m k Hrec IH]; cbv zeta.
  { unfold ring_of. simpl. by rewrite lookup_empty, app_nil_r. }
  cbv zeta in IH. destruct IH as [IHr IHf].
  destruct (log_trade_stores s p q a m k tl) as (Hsym & Hh & Hst & Hf).
  cbv zeta in Hsym, Hh, Hst, Hf. rewrite Hh, Hf. split.
  - rewrite filter_app. unfold ring_of at 1. rewrite Hst.
    destruct (decide (s = symbol)) as [->|Hne].
    + rewrite lookup_insert_eq. simpl.
      rewrite filter_cons_True by done. rewrite filter_nil.
      rewrite IHr. apply (deque_append_last 1000). lia.
    + rewrite lookup_insert_ne by done.
      rewrite filter_cons_False by (by rewrite Hsym). rewrite filter_nil, app_nil_r.
      exact IHr.
  - rewrite fmap_app. simpl. by rewrite IHf, app_assoc.
Qed.

Lemma ring_is_history_tail_witness :
  let line := Trade.dict (Trade.mk 7 "BTC-USDT" 990000 10000 "sell" 3 4 0) in
  let tl := (log_trade "BTC-USDT" 1000000 10000 "buy" 1 2
               (TradeLog.mk [] ∅ [line] 8 0)).1 in
  let of_symbol :=
    filter (fun t => Trade.symbol t = "BTC-USDT"%string)
           (TradeLog.trade_history tl) in
  ring_of tl "BTC-USDT" = drop (length of_symbol - 1000) of_symbol
  /\ TradeLog.trades_file tl
     = [line] ++ (Trade.dict <$> TradeLog.trade_history tl).
Proof.
  apply (ring_is_history_tail
           [Trade.dict (Trade.mk 7 "BTC-USDT" 990000 10000 "sell" 3 4 0)]
           (log_trade "BTC-USDT" 1000000 10000 "buy" 1 2
              (TradeLog.mk [] ∅
                 [Trade.dict (Trade.mk 7 "BTC-USDT" 990000 10000 "sell" 3 4 0)]
                 8 0)).1
           "BTC-USDT").
  apply recorded_after_log, recorded_start.
Defined.

Lemma py_slice_limit {A} (limit : Z) (l : list A) :
  reverse (py_slice_from (- limit) l)
  = if 0 <? limit then take (Z.to_nat limit) (reverse l)
    else reverse (drop (Z.to_nat (- limit)) l).
Proof.
  unfold py_slice_from.
  destruct (Z.ltb_spec 0 limit) as [Hpos|Hneg].
  - destruct (Z.ltb_spec (- limit) 0); [|lia].
    rewrite reverse_drop.
    destruct (decide (Z.to_nat limit <= length l)%nat) as [Hle|Hgt].
    + f_equal. lia.
    + rewrite !take_ge by (rewrite length_reverse; lia). done.
  - destruct (Z.ltb_spec (- limit) 0); [lia|].
    destruct (decide (Z.to_nat (- limit) <= length l)%nat) as [Hle|Hgt].
    + do 2 f_equal. lia.
    + rewrite !drop_ge by lia. done.
Qed.

(** X7: [get_all_trade_history] with a positive [limit] returns the
    [limit] newest trades of the whole history (all of them when there are
    fewer), newest first; with [limit = 0] it returns the whole history,
    newest first; with a negative [limit = -k] it returns all trades but
    the [k] oldest.  [get_recent_trades] treats its [limit] in the same way
    on the ring of the symbol, and returns the empty list for a symbol
    that has no ring. *)
Theorem get_all_trade_history_limit tl symbol limit :
  get_all_trade_history tl limit
  = (if 0 <? limit
     then take (Z.to_nat limit) (reverse (TradeLog.trade_history tl))
     else reverse (drop (Z.to_nat (- limit)) (TradeLog.trade_history tl)))
  /\ get_recent_trades tl symbol limit
     = (if 0 <? limit
        then take (Z.to_nat limit) (reverse (ring_of tl symbol))
        else reverse (drop (Z.to_nat (- limit)) (ring_of tl symbol)))
  /\ (TradeLog.symbol_trades tl !! symbol = None ->
      get_recent_trades tl symbol limit = []).
Proof.
  split; [apply py_slice_limit|]. split.
  - unfold get_recent_trades, ring_of.
    destruct (TradeLog.symbol_trades tl !! symbol) as [d|]; simpl.
    + apply py_slice_limit.
    + rewrite drop_nil. change (reverse []) with (@nil Trade.t).
      rewrite take_nil. by destruct (0 <? limit).
  - unfold get_recent_trades. by intros ->.
Qed.

(** ** The trigger predicate *)

(** X8: what [should_trigger] needs to answer true: a trigger price that
    is present and not zero, one of the three trigger types, and either a
    buy order with an ask in the BBO or a sell order with a bid in the BBO.
    In every other case it answers false. *)
Theorem should_trigger_requires order bbo :
  should_trigger order bbo = true ->
  exists trigger ttype,
    Order.trigger_price order = Some trigger /\ trigger <> 0
    /\ Order.trigger_type order = Some ttype
    /\ ttype ∈ ["stop_loss"; "take_profit"; "stop_limit"]%string
    /\ ((Order.side order = "buy"%string /\ is_Some (BBO.ask bbo))
        \/ (Order.side order = "sell"%string /\ is_Some (BBO.bid bbo))).
Proof.
  unfold should_trigger. intros H.
  destruct (truthy_float (Order.trigger_price order)) eqn:Htp; [|done].
  destruct (truthy_str (Order.trigger_type order)) eqn:Htt; [|done].
  simpl in H.
  apply truthy_float_Some in Htp as (trigger & Htp & Hnz).
  apply truthy_str_Some in Htt as (ttype & Htt & _).
  exists trigger, ttype. rewrite Htp, Htt in *. simpl in H.
  split; [done|]. split; [done|]. split; [done|].
  assert (Hle : forall x y, some_le x y = true -> is_Some x).
  { intros x y Hx. apply some_le_true in Hx as (v & -> & _). eauto. }
  assert (Hge : forall x y, some_ge x y = true -> is_Some x).
  { intros x y Hx. apply some_ge_true in Hx as (v & -> & _). eauto. }
  destruct (String.eqb_spec ttype "stop_loss") as [->|H1].
  { split; [set_solver|].
    destruct (String.eqb_spec (Order.side order) "sell") as [Hs|Hs]; simpl in H.
    - destruct (some_le (BBO.bid bbo) trigger) eqn:E; [right; eauto|].
      rewrite Hs in H. simpl in H. done.
    - destruct (String.eqb_spec (Order.side order) "buy") as [Hb|Hb]; simpl in H;
        [|done].
      destruct (some_ge (BBO.ask bbo) trigger) eqn:E; [left; eauto|done]. }
  destruct (String.eqb_spec ttype "take_profit") as [->|H2].
  { split; [set_solver|].
    destruct (String.eqb_spec (Order.side order) "sell") as [Hs|Hs]; simpl in H.
    - destruct (some_ge (BBO.bid bbo) trigger) eqn:E; [right; eauto|].
      rewrite Hs in H. simpl in H. done.
    - destruct (String.eqb_spec (Order.side order) "buy") as [Hb|Hb]; simpl in H;
        [|done].
      destruct (some_le (BBO.ask bbo) trigger) eqn:E; [left; eauto|done]. }
  destruct (String.eqb_spec ttype "stop_limit") as [->|H3]; [|done].
  split; [set_solver|].
  destruct (String.eqb_spec (Order.side order) "buy") as [Hb|Hb]; simpl in H.
  - destruct (some_ge (BBO.ask bbo) trigger) eqn:E; [left; eauto|].
    rewrite Hb in H. simpl in H. done.
  - destruct (String.eqb_spec (Order.side order) "sell") as [Hs|Hs]; simpl in H;
      [|done].
    destruct (some_le (BBO.bid bbo) trigger) eqn:E; [right; eauto|done].
Qed.

Lemma should_trigger_requires_witness :
  let order := Order.mk 7 "BTC-USDT" "market" "sell" 10000 None 0
                        (Some 990000) (Some "stop_loss"%string) in
  let bbo := BBO.mk (Some 985000) None in
  exists trigger ttype,
    Order.trigger_price order = Some trigger /\ trigger <> 0
    /\ Order.trigger_type order = Some ttype
    /\ ttype ∈ ["stop_loss"; "take_profit"; "stop_limit"]%string
    /\ ((Order.side order = "buy"%string /\ is_Some (BBO.ask bbo))
        \/ (Order.side order = "sell"%string /\ is_Some (BBO.bid bbo))).
Proof.
  apply (should_trigger_requires
           (Order.mk 7 "BTC-USDT" "market" "sell" 10000 None 0
                     (Some 990000) (Some "stop_loss"%string))
           (BBO.mk (Some 985000) None)).
  vm_compute; reflexivity.
Defined.

(** X9: a [stop_limit] order triggers in exactly the states in which the
    same order with type [stop_loss] triggers; and the decision for a buy
    order reads only the ask of the BBO, the decision for a sell order only
    the bid. *)
Theorem should_trigger_sides i symbol ty side q p ts trigger ttype
    bid bid' ask ask' bbo :
  should_trigger
    (Order.mk i symbol ty side q p ts trigger (Some "stop_limit"%string)) bbo
  = should_trigger
      (Order.mk i symbol ty side q p ts trigger (Some "stop_loss"%string)) bbo
  /\ should_trigger (Order.mk i symbol ty "buy" q p ts trigger ttype)
                    (BBO.mk bid ask)
     = should_trigger (Order.mk i symbol ty "buy" q p ts trigger ttype)
                      (BBO.mk bid' ask)
  /\ should_trigger (Order.mk i symbol ty "sell" q p ts trigger ttype)
                    (BBO.mk bid ask)
     = should_trigger (Order.mk i symbol ty "sell" q p ts trigger ttype)
                      (BBO.mk bid ask').
Proof.
  unfold should_trigger. simpl. split; [|split; reflexivity].
  destruct (truthy_float trigger); simpl; [|done].
  by destruct (String.eqb side "sell"), (String.eqb side "buy"),
              (some_le _ _), (some_ge _ _).
Qed.

(** ** The id index stays sound *)

Lemma list_remove_elem p l (r : nat) :
  r ∈ l -> r ∈ PriceLevel.list_remove p l \/ p r = true.
Proof.
  induction l as [|x l IH]; simpl; [by intros ?%elem_of_nil|].
  intros Hr. destruct (p x) eqn:Hpx.
  - apply elem_of_cons in Hr as [->|Hr]; [by right|by left].
  - apply elem_of_cons in Hr as [->|Hr]; [left; left|].
    destruct (IH Hr) as [?|?]; [left; by right|by right].
Qed.

Lemma same_true h x r : PriceLevel.same h x r = true -> h !!! r = h !!! x.
Proof.
  unfold PriceLevel.same. intros H. apply orb_true_iff in H as [H|H].
  - apply bool_decide_eq_true in H. by subst.
  - by apply bool_decide_eq_true in H.
Qed.

Lemma remove_order_side h x b b' res :
  OrderBook.remove_order h x b = (b', res) ->
  forall side,
    String.eqb side "buy" <> String.eqb (Order.side (h !!! x)) "buy" ->
    OrderBook.side_book b' side = OrderBook.side_book b side.
Proof.
  unfold OrderBook.remove_order.
  destruct (Order.price (h !!! x)) as [p|]; [|by intros [= <- _]].
  intros [= <- _] side Hside.
  unfold OrderBook.set_orders, OrderBook.set_side_book, OrderBook.side_book in *.
  by destruct (String.eqb (Order.side (h !!! x)) "buy"),
              (String.eqb side "buy").
Qed.

(** An order that rested before [remove_order] rests after it, unless it
    has the same fields as the order removed. *)
Lemma remove_order_resting h x b b' res r :
  OrderBook.remove_order h x b = (b', res) ->
  resting b r -> resting b' r \/ h !!! r = h !!! x.
Proof.
  unfold OrderBook.remove_order.
  destruct (Order.price (h !!! x)) as [p|]; [|intros [= <- _]; by left].
  intros [= <- _] Hr.
  set (k := normalize_price p).
  set (d := OrderBook.side_book b (Order.side (h !!! x))).
  assert (Hside : forall y, queued d y ->
            queued match d !! k with
                   | Some level =>
                       if PriceLevel.is_empty (PriceLevel.remove_order h level x)
                       then delete k d
                       else <[k := PriceLevel.remove_order h level x]> d
                   | None => d
                   end y
            \/ h !!! y = h !!! x).
  { intros y (k0 & l0 & Hl0 & Hy).
    destruct (d !! k) as [level|] eqn:Hk; [|left; by exists k0, l0].
    destruct (decide (k0 = k)) as [->|Hne].
    - assert (l0 = level) as -> by congruence.
      assert (Hy' : y ∈ PriceLevel.orders (PriceLevel.remove_order h level x)
                    \/ h !!! y = h !!! x).
      { unfold PriceLevel.remove_order.
        destruct (existsb _ _); simpl; [|by left].
        destruct (list_remove_elem (PriceLevel.same h x) _ y Hy) as [?|Hs];
          [by left|right]. by apply same_true. }
      destruct Hy' as [Hy'|?]; [left|by right].
      destruct (PriceLevel.is_empty _) eqn:He.
      + apply is_empty_true in He. rewrite He in Hy'. by apply elem_of_nil in Hy'.
      + exists k, (PriceLevel.remove_order h level x).
        by rewrite lookup_insert_eq.
    - left. exists k0, l0. split; [|done].
      destruct (PriceLevel.is_empty _).
      + by rewrite lookup_delete_ne.
      + by rewrite lookup_insert_ne. }
  unfold resting in *. revert Hside Hr. unfold d.
  unfold OrderBook.set_orders, OrderBook.set_side_book, OrderBook.side_book.
  destruct (String.eqb (Order.side (h !!! x)) "buy"); simpl; intros Hside [Hq|Hq].
  - destruct (Hside r Hq); [left; by left|by right].
  - left. by right.
  - left. by left.
  - destruct (Hside r Hq); [left; by right|by right].
Qed.

Lemma remove_order_index h x b b' res i :
  OrderBook.remove_order h x b = (b', res) ->
  is_Some (OrderBook.orders b' !! i) ->
  i <> Order.id (h !!! x) \/ res = Raise TypeError.
Proof.
  unfold OrderBook.remove_order.
  destruct (Order.price (h !!! x)) as [p|]; [|intros [= <- <-]; by right].
  intros [= <- _]. unfold OrderBook.set_orders, OrderBook.set_side_book.
  intros [r Hr]. left. intros ->.
  destruct (String.eqb (Order.side (h !!! x)) "buy"); simpl in Hr;
    by rewrite lookup_delete_eq in Hr.
Qed.

Lemma book_sound_frozen h h' b : frozen h h' -> book_sound h b -> book_sound h' b.
Proof.
  intros Hfr Hs i r Hr. destruct (Hs i r Hr) as [Hrest Hid].
  split; [done|]. by rewrite (frozen_id h h').
Qed.

Lemma remove_order_raise h x b b' e :
  OrderBook.remove_order h x b = (b', Raise e) ->
  b' = b /\ e = TypeError /\ Order.price (h !!! x) = None.
Proof.
  unfold OrderBook.remove_order.
  destruct (Order.price (h !!! x)) as [p|]; [done|]. by intros [= <- <-].
Qed.

Lemma remove_order_sound h x b b' res :
  book_sound h b -> OrderBook.remove_order h x b = (b', res) ->
  book_sound h b'.
Proof.
  intros Hs Hrm.
  destruct res as [u|e]; [|by apply remove_order_raise in Hrm as (-> & _)].
  intros i r Hr.
  pose proof (remove_order_book_le _ _ _ _ _ Hrm) as (_ & _ & Hsub).
  pose proof (lookup_weaken _ _ _ _ Hr Hsub) as Hr0.
  destruct (Hs i r Hr0) as [Hrest Hid]. split; [|done].
  destruct (remove_order_resting _ _ _ _ _ r Hrm Hrest) as [?|Heq]; [done|].
  destruct (remove_order_index _ _ _ _ _ i Hrm ltac:(eauto)) as [Hne|?]; [|done].
  exfalso. apply Hne. by rewrite <- Hid, Heq.
Qed.

Lemma match_level_sound order price rs :
  forall trades s s' res,
    book_sound (Env.heap s) (Env.book s) ->
    MatchingEngine.match_level order price rs trades s = (s', res) ->
    book_sound (Env.heap s') (Env.book s').
Proof.
  induction rs as [|r rs IH]; intros trades s s' res Hs.
  { simpl. by intros [= <- <-]. }
  rewrite match_level_cons.
  destruct (Order.quantity (Env.heap s !!! order) <=? 0); [by intros [= <- <-]|].
  cbv zeta.
  set (q := Z.min _ _).
  set (h2 := sub_quantity (sub_quantity (Env.heap s) order q) r q).
  set (lt := log_trade _ _ _ _ _ _ _). clearbody lt.
  assert (Hfr : frozen (Env.heap s) h2).
  { eapply frozen_trans; apply frozen_sub_quantity. }
  assert (Hs2 : book_sound h2 (Env.book s)) by (by eapply book_sound_frozen).
  destruct (Order.quantity (h2 !!! r) <=? 0).
  - destruct (OrderBook.remove_order h2 r (Env.book s)) as [b [u|e]] eqn:Hrm.
    + intros Hrun. eapply IH; [|exact Hrun]. simpl.
      by eapply remove_order_sound.
    + intros [= <- <-]. simpl. by eapply remove_order_sound.
  - intros Hrun. eapply IH; [|exact Hrun]. done.
Qed.

Lemma delete_empty_level_sound h is_buy b price l :
  book_sound h b ->
  MatchingEngine.opposite_book is_buy b !! price = Some l ->
  PriceLevel.is_empty l = true ->
  book_sound h (MatchingEngine.set_opposite_book is_buy b
                  (delete price (MatchingEngine.opposite_book is_buy b))).
Proof.
  intros Hs Hl He i r Hr. apply is_empty_true in He.
  assert (Hr0 : OrderBook.orders b !! i = Some r) by (by destruct is_buy).
  destruct (Hs i r Hr0) as [Hrest Hid]. split; [|done].
  assert (Hq : forall d : gmap Z PriceLevel.t,
            d !! price = Some l -> queued d r -> queued (delete price d) r).
  { intros d Hd (k0 & l0 & Hl0 & Hin). exists k0, l0. split; [|done].
    rewrite lookup_delete_ne; [done|]. intros <-.
    assert (l0 = l) as -> by congruence. rewrite He in Hin.
    by apply elem_of_nil in Hin. }
  unfold resting in *. destruct is_buy; simpl in *.
  - destruct Hrest as [?|?]; [by left|right; by apply Hq].
  - destruct Hrest as [?|?]; [left; by apply Hq|by right].
Qed.

Lemma match_levels_sound order market is_buy ps :
  forall trades s s' res,
    book_sound (Env.heap s) (Env.book s) ->
    MatchingEngine.match_levels order market is_buy ps trades s = (s', res) ->
    book_sound (Env.heap s') (Env.book s').
Proof.
  induction ps as [|price ps IH]; intros trades s s' res Hs; simpl.
  { by intros [= <- <-]. }
  destruct (MatchingEngine.beyond_limit _ _ _ _ _) as [[|]|e];
    try (by intros [= <- <-]).
  destruct (MatchingEngine.opposite_book is_buy (Env.book s) !! price)
    as [level|]; [|by intros [= <- <-]].
  destruct (MatchingEngine.match_level _ _ _ _ _) as [s1 res1] eqn:Hrun.
  pose proof (match_level_sound _ _ _ _ _ _ _ Hs Hrun) as Hs1.
  destruct res1 as [trades1|e]; [|by intros [= <- <-]].
  destruct (MatchingEngine.opposite_book is_buy (Env.book s1) !! price)
    as [l1|] eqn:Hl1; [|by intros [= <- <-]].
  destruct (PriceLevel.is_empty l1) eqn:He.
  - destruct (Order.quantity _ <=? 0).
    + intros [= <- <-]. simpl. by eapply delete_empty_level_sound.
    + intros Hrun2. eapply IH; [|exact Hrun2]. simpl.
      by eapply delete_empty_level_sound.
  - destruct (Order.quantity _ <=? 0).
    + by intros [= <- <-].
    + intros Hrun2. eapply IH; [|exact Hrun2]. done.
Qed.

Lemma match_order_sound order market s s' res :
  book_sound (Env.heap s) (Env.book s) ->
  MatchingEngine._match_order order market s = (s', res) ->
  book_sound (Env.heap s') (Env.book s').
Proof.
  intros Hs Hrun. unfold MatchingEngine._match_order in Hrun.
  by eapply match_levels_sound.
Qed.
Lemma add_order_index h order b b' res :
  OrderBook.add_order h order b = (b', res) ->
  OrderBook.orders b' = <[Order.id (h !!! order) := order]> (OrderBook.orders b).
Proof.
  unfold OrderBook.add_order.
  destruct (Order.price (h !!! order)) as [p|]; [|by intros [= <- _]].
  intros [= <- _]. unfold OrderBook.set_side_book.
  by destruct (String.eqb _ "buy").
Qed.

Lemma add_order_resting h order b b' res p :
  Order.price (h !!! order) = Some p ->
  OrderBook.add_order h order b = (b', res) ->
  resting b' order /\ forall r, resting b r -> resting b' r.
Proof.
  intros Hp Hadd.
  destruct (add_order_spec h b order p Hp) as (b1 & Hadd1 & Hsame & Hnew).
  rewrite Hadd in Hadd1. injection Hadd1 as -> ->.
  set (is_buy := String.eqb (Order.side (h !!! order)) "buy") in *.
  set (d := MatchingEngine.opposite_book (negb is_buy) b) in *.
  split.
  - apply (resting_sides is_buy). right.
    exists (normalize_price p), (PriceLevel.add_order h
      (default (PriceLevel.new (normalize_price p)) (d !! normalize_price p)) order).
    split; [by rewrite Hnew, decide_True|].
    rewrite orders_add_order. apply elem_of_app. right. left.
  - intros r Hr. apply (resting_sides is_buy) in Hr.
    apply (resting_sides is_buy). destruct Hr as [Hr|Hr]; [left; by rewrite Hsame|].
    right. destruct Hr as (k0 & l0 & Hl0 & Hin).
    destruct (decide (normalize_price p = k0)) as [<-|Hne].
    + exists (normalize_price p), (PriceLevel.add_order h l0 order). split.
      * rewrite Hnew, decide_True by done. fold d in Hl0. by rewrite Hl0.
      * rewrite orders_add_order. apply elem_of_app. by left.
    + exists k0, l0. split; [|done]. by rewrite Hnew, decide_False.
Qed.

Lemma add_order_sound h order b b' res :
  book_sound h b -> is_Some (Order.price (h !!! order)) ->
  OrderBook.add_order h order b = (b', res) ->
  book_sound h b'.
Proof.
  intros Hs [p Hp] Hadd.
  destruct (add_order_resting _ _ _ _ _ _ Hp Hadd) as [Hnew Hold].
  intros i r Hr. rewrite (add_order_index _ _ _ _ _ Hadd) in Hr.
  apply lookup_insert_Some in Hr as [[<- <-]|[Hne Hr]]; [done|].
  destruct (Hs i r Hr) as [Hrest Hid]. split; [by apply Hold|done].
Qed.

Lemma execute_limit_order_sound order ioc s s' res :
  book_sound (Env.heap s) (Env.book s) ->
  is_Some (Order.price (Env.heap s !!! order)) ->
  MatchingEngine._execute_limit_order order ioc s = (s', res) ->
  book_sound (Env.heap s') (Env.book s').
Proof.
  intros Hs Hp. unfold MatchingEngine._execute_limit_order.
  destruct (MatchingEngine._match_order order false s) as [s1 res1] eqn:Hrun.
  pose proof (match_order_sound _ _ _ _ _ Hs Hrun) as Hs1.
  apply match_order_trades in Hrun as (Hfr & _).
  destruct res1 as [ts|e]; [|by intros [= <- <-]].
  destruct (_ && _); [|by intros [= <- <-]].
  destruct (OrderBook.add_order _ _ _) as [b res2] eqn:Hadd.
  assert (Hsb : book_sound (Env.heap s1) b).
  { eapply add_order_sound; [exact Hs1| |exact Hadd].
    by rewrite (frozen_price _ _ _ Hfr). }
  by destruct res2; intros [= <- <-].
Qed.

Lemma dispatch_sound order s s' res :
  book_sound (Env.heap s) (Env.book s) ->
  (Order.order_type (Env.heap s !!! order) <> "market"%string ->
   is_Some (Order.price (Env.heap s !!! order))) ->
  MatchingEngine.dispatch order s = (s', res) ->
  book_sound (Env.heap s') (Env.book s').
Proof.
  intros Hs Hp. unfold MatchingEngine.dispatch.
  destruct (String.eqb_spec (Order.order_type (Env.heap s !!! order)) "market")
    as [Hm|Hm].
  { apply match_order_sound. done. }
  specialize (Hp Hm).
  destruct (String.eqb _ "limit"); [by apply execute_limit_order_sound|].
  destruct (String.eqb _ "ioc"); [by apply execute_limit_order_sound|].
  destruct (String.eqb _ "fok"); [|by intros [= <- <-]].
  destruct (MatchingEngine._can_fully_fill order s) as [[|]|e];
    try (by intros [= <- <-]).
  by apply execute_limit_order_sound.
Qed.

Lemma book_sound_new h symbol : book_sound h (OrderBook.new symbol).
Proof. intros i r Hr. simpl in Hr. by rewrite lookup_empty in Hr. Qed.

Lemma process_order_frozen order w :
  world_ok w ->
  (forall symbol b, World.order_books w !! symbol = Some b -> ~ resting b order) ->
  call_ok order
    (Env.mk (World.heap w)
            (_get_order_book (Order.symbol (World.heap w !!! order)) w)
            (World.tlog w))
    (MatchingEngine.dispatch order
       (Env.mk (World.heap w)
               (_get_order_book (Order.symbol (World.heap w !!! order)) w)
               (World.tlog w))).1.
Proof.
  intros Hok Hfresh.
  set (symbol := Order.symbol (World.heap w !!! order)).
  destruct (MatchingEngine.dispatch _ _) as [s res] eqn:Hrun.
  eapply dispatch_ok; [| |exact Hrun]; simpl; unfold _get_order_book.
  - destruct (World.order_books w !! symbol) as [b|] eqn:Hb; simpl.
    + by destruct (Hok symbol b Hb).
    + apply book_ok_new.
  - destruct (World.order_books w !! symbol) as [b|] eqn:Hb; simpl.
    + by eapply Hfresh.
    + apply resting_new.
Qed.

Lemma process_order_sound order w :
  world_ok w ->
  (forall symbol b, World.order_books w !! symbol = Some b -> ~ resting b order) ->
  index_sound w ->
  (Order.order_type (World.heap w !!! order) <> "market"%string ->
   is_Some (Order.price (World.heap w !!! order))) ->
  index_sound (process_order order w).1.
Proof.
  intros Hok Hfresh Hs Hp.
  pose proof (process_order_frozen order w Hok Hfresh) as (_ & Hfr & _).
  unfold process_order.
  set (symbol := Order.symbol (World.heap w !!! order)) in *.
  destruct (MatchingEngine.dispatch _ _) as [s res] eqn:Hrun. simpl in *.
  intros symbol' b' Hb'. simpl in *.
  destruct (decide (symbol = symbol')) as [<-|Hne].
  - rewrite lookup_insert_eq in Hb'. injection Hb' as <-.
    eapply dispatch_sound; [| |exact Hrun]; simpl; [|done].
    unfold _get_order_book.
    destruct (World.order_books w !! symbol) as [b|] eqn:Hb; simpl.
    + by eapply Hs.
    + apply book_sound_new.
  - rewrite lookup_insert_ne in Hb' by done.
    eapply book_sound_frozen; [exact Hfr|]. by eapply Hs.
Qed.

Lemma index_sound_alloc o w :
  world_ok w -> index_sound w -> index_sound (World.alloc o w).1.
Proof.
  intros Hok Hs symbol b Hb i r Hr. simpl in *.
  destruct (Hs symbol b Hb i r Hr) as [Hrest Hid]. split; [done|].
  destruct (Hok symbol b Hb) as [_ Hres]. destruct (Hres r Hrest) as [Hlt _].
  rewrite lookup_total_insert_ne by lia. done.
Qed.

Lemma submit_order_sound o w :
  world_ok w -> index_sound w -> index_sound (submit_order o w).1.
Proof.
  intros Hok Hs. unfold submit_order.
  destruct (World.alloc o w) as [w1 order] eqn:Halloc.
  destruct (world_ok_alloc o w Hok) as [Hok1 Hfresh].
  pose proof (index_sound_alloc o w Hok Hs) as Hs1.
  rewrite Halloc in Hok1, Hs1. simpl in Hok1, Hs1.
  injection Halloc as <- <-.
  destruct (negb (String.eqb (Order.order_type o) "market")
            && negb (bool_decide (is_Some (Order.price o)))) eqn:Hv; [done|].
  pose proof (process_order_sound (World.next_ref w) _ Hok1) as Hp.
  assert (Hgoal : index_sound (process_order (World.next_ref w)
                                 (World.alloc o w).1).1).
  { apply Hp; [done|done|]. simpl. rewrite lookup_total_insert_eq.
    intros Hm. apply andb_false_iff in Hv as [Hv|Hv].
    - apply negb_false_iff, String.eqb_eq in Hv. done.
    - by apply negb_false_iff, bool_decide_eq_true in Hv. }
  by destruct (process_order _ _) as [w2 [ts|e]].
Qed.

Lemma cancel_order_sound symbol order_id w :
  index_sound w -> index_sound (cancel_order symbol order_id w).1.
Proof.
  intros Hs. unfold cancel_order.
  destruct (World.order_books w !! symbol) as [book|] eqn:Hbook; [|done].
  destruct (OrderBook.orders book !! order_id) as [order|]; [|done].
  destruct (OrderBook.remove_order _ _ _) as [b res] eqn:Hrm. simpl.
  intros symbol' b' Hb'. simpl in *.
  destruct (decide (symbol = symbol')) as [<-|Hne].
  - rewrite lookup_insert_eq in Hb'. injection Hb' as <-.
    eapply remove_order_sound; [|exact Hrm]. by eapply Hs.
  - rewrite lookup_insert_ne in Hb' by done. by eapply Hs.
Qed.

Lemma reachable_api_reachable w : reachable_api w -> reachable w.
Proof.
  induction 1; [apply reachable_init|by apply reachable_submit
               |by apply reachable_cancel].
Qed.

Lemma reachable_api_sound w : reachable_api w -> index_sound w.
Proof.
  induction 1 as [|o w Hr IH|symbol order_id w Hr IH].
  - intros symbol b Hb. simpl in Hb. by rewrite lookup_empty in Hb.
  - apply submit_order_sound; [|done].
    by apply reachable_world_ok, reachable_api_reachable.
  - by apply cancel_order_sound.
Qed.

Lemma reachable_api_ask : reachable_api world_api_ask.
Proof. apply reachable_api_submit, reachable_api_init. Qed.

Lemma order_status_found symbol order_id w r :
  reachable_api w ->
  get_order_status symbol order_id w = Some r ->
  exists book,
    World.order_books w !! symbol = Some book
    /\ OrderBook.orders book !! order_id = Some r
    /\ book_ok (World.heap w) book
    /\ resting book r
    /\ Order.id (World.heap w !!! r) = order_id.
Proof.
  intros Hr Hst. unfold get_order_status in Hst.
  destruct (World.order_books w !! symbol) as [book|] eqn:Hbook; [|done].
  exists book. split; [done|]. split; [done|].
  destruct (reachable_api_sound w Hr symbol book Hbook order_id r Hst)
    as [Hrest Hid].
  destruct (reachable_world_ok w (reachable_api_reachable w Hr) symbol book Hbook)
    as [Hbok _].
  done.
Qed.

(** X10: in the states reached through [submit_order] and cancellations,
    an identifier that [get_order_status] finds names an order that rests in
    the book of the symbol: the object carries the identifier and the
    symbol, has a price and a positive remaining quantity.  A filled or
    cancelled order is never reported. *)
Theorem order_status_is_resting symbol order_id w r :
  reachable_api w ->
  get_order_status symbol order_id w = Some r ->
  exists book,
    World.order_books w !! symbol = Some book
    /\ resting book r
    /\ Order.id (World.heap w !!! r) = order_id
    /\ Order.symbol (World.heap w !!! r) = symbol
    /\ is_Some (Order.price (World.heap w !!! r))
    /\ 0 < Order.quantity (World.heap w !!! r).
Proof.
  intros Hr Hst. unfold get_order_status in Hst.
  destruct (World.order_books w !! symbol) as [book|] eqn:Hbook; [|done].
  exists book. split; [done|].
  destruct (reachable_api_sound w Hr symbol book Hbook order_id r Hst)
    as [Hrest Hid].
  pose proof (reachable_world_ok w (reachable_api_reachable w Hr) symbol book Hbook)
    as [(Hb & Ha & _) Hres].
  destruct (Hres r Hrest) as [_ Hsym].
  split; [done|]. split; [done|]. split; [done|].
  destruct Hrest as [Hq|Hq].
  - destruct (side_ok_queued _ _ _ _ Hb Hq)
      as (k & l & _ & _ & _ & (p & Hp & _) & Hpos).
    split; [by rewrite Hp|done].
  - destruct (side_ok_queued _ _ _ _ Ha Hq)
      as (k & l & _ & _ & _ & (p & Hp & _) & Hpos).
    split; [by rewrite Hp|done].
Qed.

Lemma order_status_is_resting_witness :
  exists book,
    World.order_books world_api_ask !! "BTC-USDT"%string = Some book
    /\ resting book 0%nat
    /\ Order.id (World.heap world_api_ask !!! 0%nat) = 1%N
    /\ Order.symbol (World.heap world_api_ask !!! 0%nat) = "BTC-USDT"%string
    /\ is_Some (Order.price (World.heap world_api_ask !!! 0%nat))
    /\ 0 < Order.quantity (World.heap world_api_ask !!! 0%nat).
Proof.
  apply (order_status_is_resting "BTC-USDT" 1 world_api_ask 0).
  - exact reachable_api_ask.
  - vm_compute; reflexivity.
Defined.
(** ** Cancelling an order *)

Lemma list_remove_split p (l : list nat) :
  existsb p l = true ->
  exists l1 x l2, l = l1 ++ x :: l2 /\ p x = true
                  /\ PriceLevel.list_remove p l = l1 ++ l2.
Proof.
  induction l as [|y l IH]; simpl; [done|].
  destruct (p y) eqn:Hy.
  - intros _. by exists [], y, l.
  - simpl. intros H. destruct (IH H) as (l1 & x & l2 & -> & Hx & Hrm).
    exists (y :: l1), x, l2. by rewrite Hrm.
Qed.

(** On a well-formed side, removing an order queued at its level takes
    exactly one object out of the side: the first one of the level that has
    the fields of the order. *)
Lemma side_remove_exact h bs (d : gmap Z PriceLevel.t) k l r :
  side_ok h bs d -> d !! k = Some l -> r ∈ PriceLevel.orders l ->
  let level' := PriceLevel.remove_order h l r in
  let d' := if PriceLevel.is_empty level' then delete k d else <[k := level']> d in
  exists x, h !!! x = h !!! r /\ queued d x /\ ~ queued d' x
            /\ forall y, y <> x -> (queued d' y <-> queued d y).
Proof.
  intros Hok Hl Hr level' d'.
  assert (Hex : existsb (PriceLevel.same h r) (PriceLevel.orders l) = true).
  { apply existsb_exists. exists r. split; [by apply list_elem_of_In|].
    unfold PriceLevel.same. by rewrite bool_decide_eq_true_2. }
  destruct (list_remove_split _ _ Hex) as (l1 & x & l2 & Hsplit & Hx & Hrm).
  assert (Hords : PriceLevel.orders level' = l1 ++ l2).
  { unfold level', PriceLevel.remove_order. by rewrite Hex. }
  destruct (Hok k l Hl) as (_ & Hnd & Hall).
  rewrite Hsplit in Hnd. apply NoDup_app in Hnd as (Hnd1 & Hdisj & Hnd2).
  apply NoDup_cons in Hnd2 as [Hx2 _].
  assert (Hx1 : x ∉ l1).
  { intros Hin. apply (Hdisj x Hin). left. }
  assert (Hxl : x ∈ PriceLevel.orders l).
  { rewrite Hsplit. apply elem_of_app. right. left. }
  assert (Hxok : order_ok h bs k x).
  { rewrite Forall_forall in Hall. by apply Hall. }
  assert (Hd' : forall k0 l0, d' !! k0 = Some l0 ->
            (k0 = k /\ l0 = level' /\ PriceLevel.is_empty level' = false)
            \/ (k0 <> k /\ d !! k0 = Some l0)).
  { intros k0 l0. unfold d'. destruct (PriceLevel.is_empty level') eqn:He.
    - intros Hk0. apply lookup_delete_Some in Hk0 as [? ?]. right. by split.
    - intros Hk0. apply lookup_insert_Some in Hk0 as [[<- <-]|[? ?]]; [by left|].
      right. by split. }
  exists x. split; [by apply same_true in Hx|]. split; [by exists k, l|]. split.
  - intros (k0 & l0 & Hk0 & Hin).
    destruct (Hd' k0 l0 Hk0) as [(-> & -> & _)|[Hne Hk0']].
    + rewrite Hords in Hin. apply elem_of_app in Hin as [?|?]; done.
    + destruct (Hok k0 l0 Hk0') as (_ & _ & Hall0).
      rewrite Forall_forall in Hall0.
      apply Hne. by eapply order_ok_key; [apply Hall0|].
  - intros y Hy. split.
    + intros (k0 & l0 & Hk0 & Hin).
      destruct (Hd' k0 l0 Hk0) as [(-> & -> & _)|[Hne Hk0']].
      * exists k, l. split; [done|]. rewrite Hsplit. rewrite Hords in Hin.
        apply elem_of_app in Hin as [?|?]; apply elem_of_app; [by left|].
        right. by right.
      * by exists k0, l0.
    + intros (k0 & l0 & Hk0 & Hin).
      destruct (decide (k0 = k)) as [->|Hne].
      * assert (l0 = l) as -> by congruence.
        assert (Hin' : y ∈ PriceLevel.orders level').
        { rewrite Hords. rewrite Hsplit in Hin.
          apply elem_of_app in Hin as [?|Hin]; apply elem_of_app; [by left|].
          apply elem_of_cons in Hin as [?|?]; [done|by right]. }
        exists k, level'. split; [|done]. unfold d'.
        destruct (PriceLevel.is_empty level') eqn:He.
        -- apply is_empty_true in He. rewrite He in Hin'.
           by apply elem_of_nil in Hin'.
        -- by rewrite lookup_insert_eq.
      * exists k0, l0. split; [|done]. unfold d'.
        destruct (PriceLevel.is_empty level').
        -- by rewrite lookup_delete_ne.
        -- by rewrite lookup_insert_ne.
Qed.

Lemma remove_order_exact h r b b' res :
  book_ok h b -> resting b r ->
  OrderBook.remove_order h r b = (b', res) ->
  res = Return tt
  /\ OrderBook.orders b' = delete (Order.id (h !!! r)) (OrderBook.orders b)
  /\ exists x, h !!! x = h !!! r /\ resting b x /\ ~ resting b' x
               /\ forall y, y <> x -> (resting b' y <-> resting b y).
Proof.
  intros (Hb & Ha & _) Hrest. unfold OrderBook.remove_order.
  assert (Hplace : exists (bs : bool) k l,
            (if bs then OrderBook.bids b else OrderBook.asks b) !! k = Some l
            /\ r ∈ PriceLevel.orders l /\ order_ok h bs k r).
  { destruct Hrest as [Hq|Hq].
    - destruct (side_ok_queued _ _ _ _ Hb Hq) as (k & l & ? & ? & ?).
      by exists true, k, l.
    - destruct (side_ok_queued _ _ _ _ Ha Hq) as (k & l & ? & ? & ?).
      by exists false, k, l. }
  destruct Hplace as (bs & k & l & Hl & Hin & Hside & (p & Hp & Hk) & _).
  rewrite Hp, Hk. unfold OrderBook.side_book. rewrite Hside.
  assert (Hother : forall (d : gmap Z PriceLevel.t) x,
            side_ok h (negb bs) d -> h !!! x = h !!! r -> ~ queued d x).
  { intros d x Hd Hx Hq.
    destruct (side_ok_queued _ _ _ _ Hd Hq) as (_ & _ & _ & _ & Hs & _).
    rewrite Hx, Hside in Hs. by destruct bs. }
  destruct bs.
  - rewrite Hl. intros [= <- <-].
    destruct (side_remove_exact h true _ k l r Hb Hl Hin)
      as (x & Hx & Hqx & Hnq & Hothers).
    split; [done|]. unfold OrderBook.set_side_book. rewrite Hside. simpl.
    split; [done|]. exists x. split; [done|]. split; [by left|]. split.
    + intros [?|?]; [done|]. by eapply (Hother (OrderBook.asks b)).
    + intros y Hy. unfold resting. simpl. by rewrite (Hothers y Hy).
  - rewrite Hl. intros [= <- <-].
    destruct (side_remove_exact h false _ k l r Ha Hl Hin)
      as (x & Hx & Hqx & Hnq & Hothers).
    split; [done|]. unfold OrderBook.set_side_book. rewrite Hside. simpl.
    split; [done|]. exists x. split; [done|]. split; [by right|]. split.
    + intros [?|?]; [|done]. by eapply (Hother (OrderBook.bids b)).
    + intros y Hy. unfold resting. simpl. by rewrite (Hothers y Hy).
Qed.

(** X11: [cancel_order] in the states reached through [submit_order] and
    cancellations.  When [get_order_status] does not find the identifier,
    the call returns [False] and changes nothing.  When it finds an order,
    the call does not raise and returns [None]; afterwards the identifier
    is no longer found, exactly one resting object has left the book of the
    symbol, an object with the fields of the order found, and nothing else
    has changed: not the order objects, not the trade log, not the book of
    any other symbol. *)
Theorem cancel_order_spec symbol order_id w :
  reachable_api w ->
  match get_order_status symbol order_id w with
  | None => cancel_order symbol order_id w = (w, Return (PBool false))
  | Some r =>
      let w' := (cancel_order symbol order_id w).1 in
      (cancel_order symbol order_id w).2 = Return PNone
      /\ get_order_status symbol order_id w' = None
      /\ World.heap w' = World.heap w
      /\ World.tlog w' = World.tlog w
      /\ (forall s, s <> symbol ->
            World.order_books w' !! s = World.order_books w !! s)
      /\ exists x,
           World.heap w !!! x = World.heap w !!! r
           /\ resting (_get_order_book symbol w) x
           /\ ~ resting (_get_order_book symbol w') x
           /\ forall y, y <> x ->
                (resting (_get_order_book symbol w') y
                 <-> resting (_get_order_book symbol w) y)
  end.
Proof.
  intros Hr.
  destruct (get_order_status symbol order_id w) as [r|] eqn:Hst.
  2:{ unfold get_order_status in Hst. unfold cancel_order.
      destruct (World.order_books w !! symbol) as [book|]; [|done].
      by rewrite Hst. }
  destruct (order_status_found symbol order_id w r Hr Hst)
    as (book & Hbook & Hix & Hbok & Hrest & Hid).
  unfold cancel_order, get_order_status, _get_order_book. rewrite Hbook, Hix.
  destruct (OrderBook.remove_order _ _ _) as [b res] eqn:Hrm.
  destruct (remove_order_exact _ _ _ _ _ Hbok Hrest Hrm)
    as (-> & Hix' & x & Hx & Hqx & Hnq & Hothers).
  simpl. rewrite lookup_insert_eq. simpl.
  split; [done|]. split; [by rewrite Hix', Hid, lookup_delete_eq|].
  split; [done|]. split; [done|].
  split; [intros s Hs; by rewrite lookup_insert_ne|].
  by exists x.
Qed.

Lemma cancel_order_spec_witness :
  match get_order_status "BTC-USDT" 1 world_api_ask with
  | None => cancel_order "BTC-USDT" 1 world_api_ask
            = (world_api_ask, Return (PBool false))
  | Some r =>
      let w' := (cancel_order "BTC-USDT" 1 world_api_ask).1 in
      (cancel_order "BTC-USDT" 1 world_api_ask).2 = Return PNone
      /\ get_order_status "BTC-USDT" 1 w' = None
      /\ World.heap w' = World.heap world_api_ask
      /\ World.tlog w' = World.tlog world_api_ask
      /\ (forall s, s <> "BTC-USDT"%string ->
            World.order_books w' !! s = World.order_books world_api_ask !! s)
      /\ exists x,
           World.heap world_api_ask !!! x = World.heap world_api_ask !!! r
           /\ resting (_get_order_book "BTC-USDT" world_api_ask) x
           /\ ~ resting (_get_order_book "BTC-USDT" w') x
           /\ forall y, y <> x ->
                (resting (_get_order_book "BTC-USDT" w') y
                 <-> resting (_get_order_book "BTC-USDT" world_api_ask) y)
  end.
Proof.
  apply (cancel_order_spec "BTC-USDT" 1 world_api_ask).
  exact reachable_api_ask.
Defined.

(** ** The matching pass on a well-formed book, to the unit *)

Lemma queue_sum_ext h h' rs :
  (forall x, x ∈ rs -> h' !!! x = h !!! x) -> queue_sum h' rs = queue_sum h rs.
Proof.
  induction rs as [|r rs IH]; intros Hx; simpl; [done|].
  rewrite Hx by left. rewrite IH; [done|]. intros x Hin. apply Hx. by right.
Qed.

Lemma queue_sum_pos h buy_side k rs :
  Forall (order_ok h buy_side k) rs ->
  0 <= queue_sum h rs /\ (rs <> [] -> 0 < queue_sum h rs).
Proof.
  induction 1 as [|r rs (_ & _ & Hq) _ [IH _]]; simpl; [done|].
  split; [lia|]. intros _. lia.
Qed.

Lemma traded_app ts ts' : traded (ts ++ ts') = traded ts + traded ts'.
Proof. induction ts as [|t ts IH]; simpl; [done|]. rewrite IH. lia. Qed.

Lemma PriceLevel_remove_head h l r rs :
  PriceLevel.orders l = r :: rs ->
  PriceLevel.remove_order h l r
  = PriceLevel.mk (PriceLevel.price l) rs
      (PriceLevel.total_quantity l - Order.quantity (h !!! r)).
Proof.
  intros Hrs. unfold PriceLevel.remove_order. rewrite Hrs. simpl.
  unfold PriceLevel.same at 1. rewrite bool_decide_eq_true_2 by done. simpl.
  unfold PriceLevel.same at 1. by rewrite bool_decide_eq_true_2 by done.
Qed.

(** Removing the head of a level: the level keeps its price and its tail,
    its aggregate loses what the order has left, and the identifier leaves
    the index. *)
Lemma remove_order_head_level h b is_buy k l r rs p :
  MatchingEngine.opposite_book is_buy b !! k = Some l ->
  PriceLevel.orders l = r :: rs ->
  String.eqb (Order.side (h !!! r)) "buy" = negb is_buy ->
  Order.price (h !!! r) = Some p -> normalize_price p = k ->
  exists b',
    OrderBook.remove_order h r b = (b', Return tt)
    /\ MatchingEngine.opposite_book (negb is_buy) b'
       = MatchingEngine.opposite_book (negb is_buy) b
    /\ OrderBook.orders b' = delete (Order.id (h !!! r)) (OrderBook.orders b)
    /\ MatchingEngine.opposite_book is_buy b'
       = match rs with
         | [] => delete k (MatchingEngine.opposite_book is_buy b)
         | _ => <[k := PriceLevel.mk (PriceLevel.price l) rs
                         (PriceLevel.total_quantity l - Order.quantity (h !!! r))]>
                  (MatchingEngine.opposite_book is_buy b)
         end.
Proof.
  intros Hl Hrs Hside Hp Hk. unfold OrderBook.remove_order.
  rewrite Hp, Hk, (side_book_opposite is_buy) by done. rewrite Hl.
  rewrite (PriceLevel_remove_head h l r rs Hrs).
  eexists. split; [reflexivity|]. rewrite !opposite_book_set_orders.
  unfold PriceLevel.is_empty. simpl.
  destruct rs as [|r' rs']; simpl.
  - destruct (set_side_book_opposite is_buy b (Order.side (h !!! r))
                (delete k (MatchingEngine.opposite_book is_buy b)) Hside)
      as (H1 & H2 & H3).
    split; [done|]. split; [|done]. by rewrite H3.
  - destruct (set_side_book_opposite is_buy b (Order.side (h !!! r))
                (<[k := PriceLevel.mk (PriceLevel.price l) (r' :: rs')
                          (PriceLevel.total_quantity l - Order.quantity (h !!! r))]>
                   (MatchingEngine.opposite_book is_buy b)) Hside)
      as (H1 & H2 & H3).
    split; [done|]. split; [|done]. by rewrite H3.
Qed.

(** The inner loop at a well-formed level [rs], to the unit: what the
    incoming order loses is what the trades move and what the level loses;
    the level is the only part of the book that changes, and it keeps its
    aggregate; the loop ends with the incoming order exhausted and the
    level still there when the order asks for less than the level holds,
    and with the level gone otherwise. *)
Lemma match_level_exact order is_buy price rs :
  forall trades s s' res,
    NoDup rs -> order ∉ rs ->
    Forall (order_ok (Env.heap s) (negb is_buy) price) rs ->
    level_at (MatchingEngine.opposite_book is_buy (Env.book s)) price rs ->
    MatchingEngine.match_level order price rs trades s = (s', res) ->
    exists new,
      res = Return (trades ++ new)
      /\ TradeLog.trade_history (Env.tlog s')
         = TradeLog.trade_history (Env.tlog s) ++ new
      /\ Forall (fun t => Trade.price t = price /\ 0 < Trade.quantity t) new
      /\ (forall sym, sym <> Order.symbol (Env.heap s !!! order) ->
            TradeLog.symbol_trades (Env.tlog s') !! sym
            = TradeLog.symbol_trades (Env.tlog s) !! sym)
      /\ Forall (fun x => 0 <= Order.quantity (Env.heap s' !!! x)
                                <= Order.quantity (Env.heap s !!! x)) rs
      /\ same_outside (fun x => x = order \/ x ∈ rs) (Env.heap s) (Env.heap s')
      /\ Order.quantity (Env.heap s' !!! order)
         = Order.quantity (Env.heap s !!! order) - traded new
      /\ queue_sum (Env.heap s') rs = queue_sum (Env.heap s) rs - traded new
      /\ MatchingEngine.opposite_book (negb is_buy) (Env.book s')
         = MatchingEngine.opposite_book (negb is_buy) (Env.book s)
      /\ (forall k, k <> price ->
            MatchingEngine.opposite_book is_buy (Env.book s') !! k
            = MatchingEngine.opposite_book is_buy (Env.book s) !! k)
      /\ (forall l', MatchingEngine.opposite_book is_buy (Env.book s') !! price
                     = Some l' ->
            PriceLevel.orders l' <> []
            /\ exists l, MatchingEngine.opposite_book is_buy (Env.book s) !! price
                         = Some l
                 /\ PriceLevel.total_quantity l' = PriceLevel.total_quantity l
                 /\ PriceLevel.price l' = PriceLevel.price l
                 /\ PriceLevel.orders l' `suffix_of` PriceLevel.orders l)
      /\ (if Order.quantity (Env.heap s !!! order) <=? 0 then s' = s /\ new = []
          else if Order.quantity (Env.heap s !!! order) <? queue_sum (Env.heap s) rs
          then is_Some (MatchingEngine.opposite_book is_buy (Env.book s') !! price)
               /\ Order.quantity (Env.heap s' !!! order) = 0
          else MatchingEngine.opposite_book is_buy (Env.book s') !! price = None
               /\ traded new = queue_sum (Env.heap s) rs).
Proof.
  induction rs as [|r rs IH]; intros trades s s' res Hnd Hno Hall Hlvl.
  { simpl. intros [= <- <-]. exists []. rewrite !app_nil_r. simpl in Hlvl.
    split; [done|]. split; [done|]. split; [constructor|].
    split; [done|]. split; [constructor|].
    split; [apply same_outside_refl|]. split; [simpl; lia|]. split; [simpl; lia|].
    split; [done|]. split; [done|]. split; [by rewrite Hlvl|].
    destruct (Z.leb_spec (Order.quantity (Env.heap s !!! order)) 0); [done|].
    simpl.
    destruct (Z.ltb_spec (Order.quantity (Env.heap s !!! order)) 0); [lia|done]. }
  destruct Hlvl as (l & Hl & Hrs).
  apply NoDup_cons in Hnd as [Hr_notin Hnd].
  apply Forall_cons in Hall as [Hr_ok Hall].
  pose proof (queue_sum_pos _ _ _ _ Hall) as [Hsum0 Hsum1].
  assert (Hlevel_ne : PriceLevel.orders l <> []) by (by rewrite Hrs).
  rewrite match_level_cons.
  destruct (Z.leb_spec (Order.quantity (Env.heap s !!! order)) 0) as [Hq|Hq].
  { intros [= <- <-]. exists []. rewrite !app_nil_r.
    split; [done|]. split; [done|]. split; [constructor|].
    split; [done|]. split.
    { apply Forall_forall. intros x Hx. rewrite Forall_forall in Hall.
      apply elem_of_cons in Hx as [->|Hx].
      - destruct Hr_ok as (_ & _ & ?). lia.
      - destruct (Hall x Hx) as (_ & _ & ?). lia. }
    split; [apply same_outside_refl|]. split; [simpl; lia|]. split; [simpl; lia|].
    split; [done|]. split; [done|]. split; [|done].
    intros l' Hl'. rewrite Hl in Hl'. injection Hl' as <-. split; [done|].
    by exists l. }
  cbv zeta.
  set (h := Env.heap s) in *.
  set (d := MatchingEngine.opposite_book is_buy (Env.book s)) in *.
  set (q := Z.min (Order.quantity (h !!! order)) (Order.quantity (h !!! r))).
  set (h2 := sub_quantity (sub_quantity h order q) r q).
  set (lt := log_trade _ _ _ _ _ _ _).
  destruct Hr_ok as (Hr_side & (p & Hp & Hpk) & Hr_q).
  assert (Hne_r : r <> order).
  { intros ->. apply Hno. left. }
  assert (Hno' : order ∉ rs).
  { intros Hin. apply Hno. by right. }
  assert (Hh2o : h2 !!! order
                 = Order.with_quantity (h !!! order) (Order.quantity (h !!! order) - q)).
  { unfold h2. rewrite sub_quantity_ne by done. apply sub_quantity_eq. }
  assert (Hh2r : h2 !!! r
                 = Order.with_quantity (h !!! r) (Order.quantity (h !!! r) - q)).
  { unfold h2. rewrite sub_quantity_eq. by rewrite sub_quantity_ne by done. }
  assert (Hh2x : forall x, x <> order -> x <> r -> h2 !!! x = h !!! x).
  { intros x Hxo Hxr. unfold h2. by rewrite !sub_quantity_ne by done. }
  assert (Hh2rs : forall x, x ∈ rs -> h2 !!! x = h !!! x).
  { intros x Hx. apply Hh2x; intros ->; done. }
  assert (Hfr : frozen h h2).
  { eapply frozen_trans; apply frozen_sub_quantity. }
  assert (Hlt2 : Trade.quantity lt.2 = q).
  { unfold lt. by rewrite log_trade_trade. }
  assert (Hlt3 : Trade.price lt.2 = price).
  { unfold lt. by rewrite log_trade_trade. }
  assert (Hlt4 : forall sym, sym <> Order.symbol (h !!! order) ->
            TradeLog.symbol_trades lt.1 !! sym
            = TradeLog.symbol_trades (Env.tlog s) !! sym).
  { intros sym Hsym. unfold lt.
    destruct (log_trade_stores (Order.symbol (h2 !!! order)) price q
                (Order.side (h2 !!! order)) (Order.id (h2 !!! r))
                (Order.id (h2 !!! order)) (Env.tlog s)) as (_ & _ & -> & _).
    rewrite lookup_insert_ne; [done|]. by rewrite (frozen_symbol h h2). }
  assert (Hrest_q : forall x, x ∈ rs -> 0 < Order.quantity (h !!! x)).
  { intros x Hx. rewrite Forall_forall in Hall.
    by destruct (Hall x Hx) as (_ & _ & ?). }
  assert (Hlt1 : TradeLog.trade_history lt.1
                 = TradeLog.trade_history (Env.tlog s) ++ [lt.2]).
  { unfold lt. apply log_trade_history. }
  clearbody lt.
  assert (Hso : same_outside (fun x => x = order \/ x ∈ r :: rs) h h2).
  { intros x Hx. apply Hh2x.
    - intros ->. apply Hx. by left.
    - intros ->. apply Hx. right. left. }
  assert (Hsum2 : queue_sum h2 rs = queue_sum h rs) by (by apply queue_sum_ext).
  destruct (Z.leb_spec (Order.quantity (h2 !!! r)) 0) as [Hfull|Hpart];
    rewrite Hh2r in Hfull || rewrite Hh2r in Hpart; simpl in *.
  - (* the resting order is filled and leaves the book *)
    assert (Hqr : q = Order.quantity (h !!! r)) by lia.
    destruct (remove_order_head_level h2 (Env.book s) is_buy price l r rs p Hl Hrs)
      as (b' & Hrm & Hown' & Hix' & Hopp').
    { by rewrite (frozen_side h h2). }
    { by rewrite (frozen_price h h2). }
    { done. }
    rewrite Hrm. intros Hrun.
    assert (Hh2r0 : Order.quantity (h2 !!! r) = 0).
    { rewrite Hh2r. simpl. lia. }
    rewrite Hh2r0, Z.sub_0_r in Hopp'.
    apply IH in Hrun; [|done|done| |]; simpl.
    2:{ apply Forall_forall. intros x Hx. rewrite Forall_forall in Hall.
        apply (order_ok_ext h); [by apply Hh2rs|by apply Hall]. }
    2:{ rewrite Hopp'. destruct rs as [|r' rs']; simpl.
        - apply lookup_delete_eq.
        - eexists. by rewrite lookup_insert_eq. }
    destruct Hrun as (new & -> & Hh & Hpos & Hring & Hmk & Hso' & Hqo & Hqs & Hown
                      & Hoth & Hlev & Hout).
    simpl in *.
    assert (Hr' : Env.heap s' !!! r = h2 !!! r).
    { apply Hso'. intros [?|?]; done. }
    exists (lt.2 :: new). split; [by rewrite <- app_assoc|].
    split; [by rewrite Hh, Hlt1, <- app_assoc|].
    split; [constructor; [rewrite Hlt2, Hqr; done|done]|].
    split.
    { intros sym Hsym. rewrite Hring; [by apply Hlt4|].
      by rewrite (frozen_symbol h h2). }
    split.
    { constructor; [rewrite Hr', Hh2r0; lia|].
      apply Forall_forall. intros x Hx. rewrite Forall_forall in Hmk.
      specialize (Hmk x Hx). by rewrite (Hh2rs x Hx) in Hmk. }
    split.
    { intros x Hx. rewrite Hso', Hso; [done|done|].
      intros [->|Hx']; apply Hx; [by left|by right; right]. }
    split.
    { rewrite Hqo, Hh2o. simpl. rewrite Hlt2. lia. }
    split; [simpl; rewrite Hr', Hh2r0, Hqs, Hsum2, Hlt2, Hqr; lia|].
    split; [by rewrite Hown|].
    split.
    { intros k Hk. rewrite Hoth by done. rewrite Hopp'.
      destruct rs; [by rewrite lookup_delete_ne|by rewrite lookup_insert_ne]. }
    split.
    { intros l' Hl'. destruct (Hlev l' Hl') as (Hne' & l1 & Hl1 & Ht & Hpr & Hsuf).
      split; [done|]. exists l. split; [done|].
      rewrite Hopp' in Hl1. destruct rs as [|r' rs'].
      - by rewrite lookup_delete_eq in Hl1.
      - rewrite lookup_insert_eq in Hl1. injection Hl1 as <-. simpl in *.
        split; [done|]. split; [done|]. rewrite Hrs.
        by apply suffix_cons_r. }
    destruct (Z.leb_spec (Order.quantity (h !!! order)) 0); [lia|].
    rewrite Hh2o in Hout. simpl in Hout. rewrite Hsum2 in Hout.
    destruct (Z.ltb_spec (Order.quantity (h !!! order))
                         (Order.quantity (h !!! r) + queue_sum h rs)) as [Hlt|Hge].
    + destruct (Z.leb_spec (Order.quantity (h !!! order) - q) 0) as [Hz|Hz].
      * destruct Hout as [-> ->]. simpl in *. rewrite Hh2o. simpl. split; [|lia].
        rewrite Hopp'. destruct rs as [|r' rs']; [simpl in *; lia|].
        by rewrite lookup_insert_eq.
      * destruct (Z.ltb_spec (Order.quantity (h !!! order) - q) (queue_sum h rs));
          [done|lia].
    + destruct (Z.leb_spec (Order.quantity (h !!! order) - q) 0) as [Hz|Hz].
      * destruct Hout as [-> ->]. simpl. rewrite Hopp', Hlt2, Hqr.
        destruct rs as [|r' rs']; [split; [apply lookup_delete_eq|simpl; lia]|].
        specialize (Hsum1 ltac:(done)). lia.
      * destruct (Z.ltb_spec (Order.quantity (h !!! order) - q) (queue_sum h rs));
          [lia|].
        destruct Hout as [Hnone Ht]. split; [done|]. simpl.
        rewrite Ht, Hlt2, Hqr. lia.
  - (* the incoming order is exhausted *)
    rewrite match_level_done by (simpl; rewrite Hh2o; simpl; lia).
    intros [= <- <-]. simpl.
    exists [lt.2]. split; [done|]. split; [done|].
    split; [repeat constructor; [done|lia]|]. split; [done|].
    split.
    { constructor; [rewrite Hh2r; simpl; lia|].
      apply Forall_forall. intros x Hx. rewrite (Hh2rs x Hx).
      specialize (Hrest_q x Hx). lia. }
    split; [done|].
    split; [rewrite Hh2o; simpl; lia|].
    split; [rewrite Hh2r, Hsum2; simpl; lia|].
    split; [done|]. split; [done|]. split.
    { intros l' Hl'. fold d in Hl'. rewrite Hl in Hl'. injection Hl' as <-.
      split; [done|]. by exists l. }
    destruct (Z.leb_spec (Order.quantity (h !!! order)) 0); [lia|].
    destruct (Z.ltb_spec (Order.quantity (h !!! order))
                         (Order.quantity (h !!! r) + queue_sum h rs)); [|lia].
    split; [by exists l|]. rewrite Hh2o. simpl. lia.
Qed.
Lemma head_price_levels (is_buy : bool) b :
  head (if is_buy
        then sorted (keys (MatchingEngine.opposite_book is_buy b))
        else sorted_reverse (keys (MatchingEngine.opposite_book is_buy b)))
  = best_opposite is_buy b.
Proof.
  destruct is_buy; simpl; [apply head_sorted_keys|apply head_sorted_reverse_keys].
Qed.

Lemma best_opposite_level is_buy b p :
  best_opposite is_buy b = Some p ->
  is_Some (MatchingEngine.opposite_book is_buy b !! p).
Proof.
  unfold best_opposite, OrderBook.get_best_ask, OrderBook.get_best_bid.
  destruct is_buy; simpl; intros H; apply elem_of_keys;
    [by apply py_min_elem|by apply py_max_elem].
Qed.

(** [_match_order] on a well-formed book, to the unit.  Nothing happens
    when the opposite side is empty, when its best price is beyond the
    limit, or when the incoming order has no quantity; a limit that is
    missing raises [TypeError] before anything is done.  Otherwise the pass
    works on the best level alone: an order that asks for less than the
    level holds is filled and the call returns; an order that asks for all
    of it or more empties the level and the call raises [KeyError]. *)
Lemma match_order_exact order market s s' res :
  book_ok (Env.heap s) (Env.book s) ->
  ~ resting (Env.book s) order ->
  MatchingEngine._match_order order market s = (s', res) ->
  let h := Env.heap s in
  let is_buy := String.eqb (Order.side (h !!! order)) "buy" in
  let opp := MatchingEngine.opposite_book is_buy (Env.book s) in
  let opp' := MatchingEngine.opposite_book is_buy (Env.book s') in
  exists new,
    TradeLog.trade_history (Env.tlog s')
      = TradeLog.trade_history (Env.tlog s) ++ new
    /\ (forall ts, res = Return ts -> ts = new)
    /\ Forall (fun t => 0 < Trade.quantity t
                        /\ best_opposite is_buy (Env.book s) = Some (Trade.price t))
              new
    /\ (forall sym, sym <> Order.symbol (h !!! order) ->
          TradeLog.symbol_trades (Env.tlog s') !! sym
          = TradeLog.symbol_trades (Env.tlog s) !! sym)
    /\ Order.quantity (Env.heap s' !!! order)
       = Order.quantity (h !!! order) - traded new
    /\ MatchingEngine.opposite_book (negb is_buy) (Env.book s')
       = MatchingEngine.opposite_book (negb is_buy) (Env.book s)
    /\ match best_opposite is_buy (Env.book s) with
       | None => s' = s /\ new = [] /\ res = Return []
       | Some p =>
           match MatchingEngine.beyond_limit h order market is_buy p with
           | Raise e => s' = s /\ new = [] /\ res = Raise e
           | Return true => s' = s /\ new = [] /\ res = Return []
           | Return false =>
               exists l,
                 opp !! p = Some l
                 /\ same_outside (fun x => x = order \/ x ∈ PriceLevel.orders l)
                                 h (Env.heap s')
                 /\ queue_sum (Env.heap s') (PriceLevel.orders l)
                    = level_sum h l - traded new
                 /\ Forall (fun x => 0 <= Order.quantity (Env.heap s' !!! x)
                                          <= Order.quantity (h !!! x))
                           (PriceLevel.orders l)
                 /\ (forall k, k <> p -> opp' !! k = opp !! k)
                 /\ (forall l', opp' !! p = Some l' ->
                       PriceLevel.orders l' <> []
                       /\ PriceLevel.total_quantity l' = PriceLevel.total_quantity l
                       /\ PriceLevel.price l' = PriceLevel.price l
                       /\ PriceLevel.orders l' `suffix_of` PriceLevel.orders l)
                 /\ if Order.quantity (h !!! order) <=? 0
                    then s' = s /\ new = [] /\ res = Return []
                    else if Order.quantity (h !!! order) <? level_sum h l
                    then res = Return new /\ traded new = Order.quantity (h !!! order)
                         /\ is_Some (opp' !! p)
                    else res = Raise KeyError /\ traded new = level_sum h l
                         /\ opp' !! p = None
           end
       end.
Proof.
  intros Hok Hnr. unfold MatchingEngine._match_order. cbv zeta.
  set (is_buy := String.eqb (Order.side (Env.heap s !!! order)) "buy").
  set (opp := MatchingEngine.opposite_book is_buy (Env.book s)).
  pose proof (head_price_levels is_buy (Env.book s)) as Hhead. fold opp in Hhead.
  destruct (if is_buy then sorted (keys opp) else sorted_reverse (keys opp))
    as [|p ps] eqn:Hps; simpl in Hhead; rewrite <- Hhead; simpl.
  { intros [= <- <-]. exists []. rewrite app_nil_r. simpl.
    split; [done|]. split; [congruence|]. split; [constructor|]. split; [done|].
    split; [lia|]. done. }
  destruct (MatchingEngine.beyond_limit _ _ _ _ _) as [[|]|e] eqn:Hlim.
  { intros [= <- <-]. exists []. rewrite app_nil_r. simpl.
    split; [done|]. split; [congruence|]. split; [constructor|]. split; [done|].
    split; [lia|]. done. }
  2:{ intros [= <- <-]. exists []. rewrite app_nil_r. simpl.
      split; [done|]. split; [congruence|]. split; [constructor|]. split; [done|].
      split; [lia|]. done. }
  destruct (best_opposite_level is_buy (Env.book s) p ltac:(by rewrite <- Hhead))
    as [l Hl]. rewrite Hl.
  pose proof Hok as Hok0.
  apply (book_ok_sides is_buy) in Hok0 as (Hopp & _ & _).
  destruct (Hopp p l Hl) as (Hne & Hnd & Hall).
  destruct (MatchingEngine.match_level _ _ _ _ _) as [s1 res1] eqn:Hrun.
  apply (match_level_exact order is_buy) in Hrun; [|done| |done|].
  2:{ intros Hin. apply Hnr. apply (resting_sides is_buy). left. by exists p, l. }
  2:{ destruct (PriceLevel.orders l) eqn:Hords; [done|]. exists l.
      by rewrite Hords. }
  destruct Hrun as (new & -> & Hh & Hpos & Hring & Hmk & Hso & Hqo & Hqs & Hown
                    & Hoth & Hlev & Hout).
  simpl. fold opp in Hoth, Hlev.
  change (queue_sum (Env.heap s) (PriceLevel.orders l))
    with (level_sum (Env.heap s) l) in *.
  assert (Hlev' : forall l',
            MatchingEngine.opposite_book is_buy (Env.book s1) !! p = Some l' ->
            PriceLevel.orders l' <> []
            /\ PriceLevel.total_quantity l' = PriceLevel.total_quantity l
            /\ PriceLevel.price l' = PriceLevel.price l
            /\ PriceLevel.orders l' `suffix_of` PriceLevel.orders l).
  { intros l' Hl'. destruct (Hlev l' Hl') as (? & l0 & Hl0 & ? & ? & ?).
    assert (l0 = l) as -> by (unfold opp in Hl0; congruence). done. }
  destruct (MatchingEngine.opposite_book is_buy (Env.book s1) !! p)
    as [l1|] eqn:Hl1.
  - destruct (Hlev' l1 eq_refl) as (Hne1 & _).
    assert (He1 : PriceLevel.is_empty l1 = false).
    { apply not_true_iff_false. intros He. by apply is_empty_true in He. }
    rewrite He1.
    destruct (Z.leb_spec (Order.quantity (Env.heap s !!! order)) 0) as [Hq|Hq].
    + destruct Hout as [-> ->].
      destruct (Z.leb_spec (Order.quantity (Env.heap s !!! order)) 0); [|lia].
      intros [= <- <-]. exists []. rewrite app_nil_r. simpl.
      split; [done|]. split; [congruence|]. split; [constructor|]. split; [done|].
      split; [lia|].
      split; [done|]. exists l. split; [done|].
      split; [apply same_outside_refl|]. split; [lia|]. split; [done|].
      split; [done|].
      split; [|done]. intros l' Hl'. apply Hlev'. unfold opp in Hl'. congruence.
    + destruct (Z.ltb_spec (Order.quantity (Env.heap s !!! order))
                           (level_sum (Env.heap s) l))
        as [Hlt|Hge].
      * destruct Hout as [_ Hz].
        destruct (Z.leb_spec (Order.quantity (Env.heap s1 !!! order)) 0); [|lia].
        intros [= <- <-]. exists new.
        split; [done|]. split; [congruence|].
        split; [eapply Forall_impl; [exact Hpos|]; by intros t [-> ?]|].
        split; [done|]. split; [done|].
        split; [done|]. exists l. split; [done|]. split; [done|].
        split; [done|]. split; [done|]. split; [done|]. split.
        { intros l' Hl'. apply Hlev'. congruence. }
        destruct (Z.ltb_spec (Order.quantity (Env.heap s !!! order))
                             (level_sum (Env.heap s) l)); [|lia].
        split; [done|]. split; [lia|]. by rewrite Hl1.
      * by destruct Hout.
  - destruct (Z.leb_spec (Order.quantity (Env.heap s !!! order)) 0) as [Hq|Hq].
    + destruct Hout as [-> ->]. congruence.
    + destruct (Z.ltb_spec (Order.quantity (Env.heap s !!! order))
                           (level_sum (Env.heap s) l))
        as [Hlt|Hge].
      * destruct Hout as [[? ?] _]. done.
      * destruct Hout as [_ Ht].
        intros [= <- <-]. exists new.
        split; [done|]. split; [done|].
        split; [eapply Forall_impl; [exact Hpos|]; by intros t [-> ?]|].
        split; [done|]. split; [done|].
        split; [done|]. exists l. split; [done|]. split; [done|].
        split; [done|]. split; [done|]. split; [done|]. split.
        { intros l' Hl'. by rewrite Hl1 in Hl'. }
        destruct (Z.ltb_spec (Order.quantity (Env.heap s !!! order))
                             (level_sum (Env.heap s) l)); [lia|].
        split; [done|]. split; [done|]. by rewrite Hl1.
Qed.

(** ** One call of [process_order] on a new order *)

Lemma dispatch_market order s :
  Order.order_type (Env.heap s !!! order) = "market"%string ->
  MatchingEngine.dispatch order s = MatchingEngine._match_order order true s.
Proof. unfold MatchingEngine.dispatch. by intros ->. Qed.

Lemma dispatch_limit order s :
  Order.order_type (Env.heap s !!! order) = "limit"%string ->
  MatchingEngine.dispatch order s
  = MatchingEngine._execute_limit_order order false s.
Proof. unfold MatchingEngine.dispatch. by intros ->. Qed.

Lemma dispatch_ioc order s :
  Order.order_type (Env.heap s !!! order) = "ioc"%string ->
  MatchingEngine.dispatch order s = MatchingEngine._match_order order false s.
Proof.
  unfold MatchingEngine.dispatch. intros ->. simpl.
  apply execute_limit_order_ioc.
Qed.

Lemma dispatch_fok order s :
  Order.order_type (Env.heap s !!! order) = "fok"%string ->
  MatchingEngine.dispatch order s
  = match MatchingEngine._can_fully_fill order s with
    | Raise e => (s, Raise e)
    | Return true => MatchingEngine._execute_limit_order order false s
    | Return false => (s, Return [])
    end.
Proof. unfold MatchingEngine.dispatch. by intros ->. Qed.

Lemma process_order_books order w :
  World.order_books (process_order order w).1
  = <[Order.symbol (World.heap w !!! order) :=
        Env.book (MatchingEngine.dispatch order
          (Env.mk (World.heap w)
                  (_get_order_book (Order.symbol (World.heap w !!! order)) w)
                  (World.tlog w))).1]> (World.order_books w).
Proof. unfold process_order. by destruct (MatchingEngine.dispatch _ _). Qed.

(** [process_new] as one [dispatch] on the book of the symbol. *)
Lemma process_new_env o w :
  world_ok w ->
  let r := World.next_ref w in
  let s := Env.mk (<[r := o]> (World.heap w))
                  (_get_order_book (Order.symbol o) w) (World.tlog w) in
  let d := MatchingEngine.dispatch r s in
  Env.heap s !!! r = o
  /\ book_ok (Env.heap s) (Env.book s)
  /\ ~ resting (Env.book s) r
  /\ (forall x, resting (Env.book s) x -> Env.heap s !!! x = World.heap w !!! x)
  /\ World.heap (process_new o w).1 = Env.heap d.1
  /\ World.tlog (process_new o w).1 = Env.tlog d.1
  /\ World.order_books (process_new o w).1
     = <[Order.symbol o := Env.book d.1]> (World.order_books w)
  /\ _get_order_book (Order.symbol o) (process_new o w).1 = Env.book d.1
  /\ (process_new o w).2 = d.2.
Proof.
  intros Hok r s d.
  destruct (world_ok_alloc o w Hok) as [Hok1 Hfresh].
  assert (Hro : Env.heap s !!! r = o) by apply lookup_total_insert_eq.
  assert (Hbook : book_ok (Env.heap s) (Env.book s) /\ ~ resting (Env.book s) r
                  /\ forall x, resting (Env.book s) x -> x <> r).
  { simpl. unfold _get_order_book.
    destruct (World.order_books w !! Order.symbol o) as [b|] eqn:Hb; simpl.
    - destruct (Hok1 (Order.symbol o) b Hb) as [Hbok _].
      split; [done|]. split; [by eapply Hfresh|].
      intros x Hx ->. by eapply Hfresh.
    - split; [apply book_ok_new|]. split; [apply resting_new|].
      intros x Hx. by apply resting_new in Hx. }
  destruct Hbook as (Hbok & Hnr & Hne).
  split; [done|]. split; [done|]. split; [done|]. split.
  { intros x Hx. simpl. apply lookup_total_insert_ne. intros <-. by eapply Hne. }
  assert (Hpn : process_new o w = process_order r (World.alloc o w).1)
    by reflexivity.
  rewrite Hpn.
  pose proof (process_order_dispatch r (World.alloc o w).1) as Hd.
  pose proof (process_order_books r (World.alloc o w).1) as Hb.
  cbv zeta in Hd.
  replace (World.heap (World.alloc o w).1 !!! r) with o in Hd, Hb
    by (symmetry; apply lookup_total_insert_eq).
  destruct Hd as (Hd1 & Hd2 & Hd3).
  split; [exact Hd1|]. split; [exact Hd2|]. split; [exact Hb|].
  split; [|exact Hd3].
  unfold _get_order_book at 1. rewrite Hb. rewrite lookup_insert_eq. done.
Qed.

Lemma beyond_limit_accepts h order is_buy p :
  is_buy = String.eqb (Order.side (h !!! order)) "buy" ->
  let market := String.eqb (Order.order_type (h !!! order)) "market" in
  match MatchingEngine.beyond_limit h order market is_buy p with
  | Return b => accepts (h !!! order) p = negb b
  | Raise e => e = TypeError /\ market = false /\ Order.price (h !!! order) = None
               /\ accepts (h !!! order) p = false
  end.
Proof.
  intros ->. unfold MatchingEngine.beyond_limit, accepts. cbv zeta.
  destruct (String.eqb (Order.order_type (h !!! order)) "market"); [done|].
  simpl. destruct (Order.price (h !!! order)) as [limit|]; [|done].
  destruct (String.eqb (Order.side (h !!! order)) "buy"); simpl.
  - rewrite orb_false_r. destruct (Z.leb_spec p (normalize_price limit));
      destruct (Z.ltb_spec (normalize_price limit) p); try done; lia.
  - destruct (Z.leb_spec (normalize_price limit) p);
      destruct (Z.ltb_spec p (normalize_price limit)); try done; lia.
Qed.

Lemma queue_sum_app h rs rs' :
  queue_sum h (rs ++ rs') = queue_sum h rs + queue_sum h rs'.
Proof. induction rs as [|r rs IH]; simpl; [done|]. rewrite IH. lia. Qed.

Lemma NoDup_price_levels {V} (is_buy : bool) (d : gmap Z V) :
  NoDup (if is_buy then sorted (keys d) else sorted_reverse (keys d)).
Proof.
  destruct is_buy; unfold sorted, sorted_reverse.
  - rewrite merge_sort_Permutation. apply NoDup_keys.
  - rewrite reverse_Permutation, merge_sort_Permutation. apply NoDup_keys.
Qed.

(** The priority queue of a side starts with the queue of its best level,
    and no order of that level comes again further down. *)
Lemma opposite_queue_best h is_buy b p l :
  book_ok h b ->
  best_opposite is_buy b = Some p ->
  MatchingEngine.opposite_book is_buy b !! p = Some l ->
  exists rest,
    opposite_queue is_buy b = PriceLevel.orders l ++ rest
    /\ forall x, x ∈ rest -> (x ∉ PriceLevel.orders l) /\ resting b x.
Proof.
  intros Hok Hbest Hl. unfold opposite_queue. cbv zeta.
  set (d := MatchingEngine.opposite_book is_buy b) in *.
  pose proof (head_price_levels is_buy b) as Hhead. fold d in Hhead.
  pose proof (NoDup_price_levels is_buy d) as Hnd.
  rewrite Hbest in Hhead.
  destruct (if is_buy then sorted (keys d) else sorted_reverse (keys d))
    as [|p0 ps]; [done|]. injection Hhead as ->.
  apply NoDup_cons in Hnd as [Hp _].
  exists (queue_of d ps). split.
  { unfold queue_of. simpl. by rewrite Hl. }
  intros x Hx. split.
  - intros Hxl. unfold queue_of in Hx.
    apply list_elem_of_bind in Hx as (k & Hxk & Hk).
    destruct (d !! k) as [lk|] eqn:Hlk; [|by apply elem_of_nil in Hxk].
    simpl in Hxk.
    apply (book_ok_sides is_buy) in Hok as (Hopp & _ & _). fold d in Hopp.
    destruct (Hopp k lk Hlk) as (_ & _ & Hallk).
    destruct (Hopp p l Hl) as (_ & _ & Hallp).
    rewrite Forall_forall in Hallk, Hallp.
    assert (k = p) as -> by (eapply order_ok_key; [by apply Hallk|by apply Hallp]).
    done.
  - apply (resting_sides is_buy). left. by eapply elem_of_queue_of.
Qed.

Lemma add_order_opposite h order b b' res :
  OrderBook.add_order h order b = (b', res) ->
  MatchingEngine.opposite_book (String.eqb (Order.side (h !!! order)) "buy") b'
  = MatchingEngine.opposite_book (String.eqb (Order.side (h !!! order)) "buy") b.
Proof.
  unfold OrderBook.add_order.
  destruct (Order.price (h !!! order)) as [p|].
  - intros [= <- _]. unfold OrderBook.set_side_book.
    by destruct (String.eqb (Order.side (h !!! order)) "buy").
  - intros [= <- _]. by destruct (String.eqb (Order.side (h !!! order)) "buy").
Qed.

Lemma accounted_refl order s res :
  (forall ts, res = Return ts -> ts = []) -> accounted order s s res.
Proof.
  intros Hres. exists []. rewrite app_nil_r. simpl.
  split; [done|]. split; [done|]. split; [constructor|]. split; [done|].
  split; [lia|]. split; [done|]. split; [lia|].
  split; [apply same_outside_refl|done].
Qed.

Lemma match_order_accounted order market s s' res :
  book_ok (Env.heap s) (Env.book s) ->
  ~ resting (Env.book s) order ->
  MatchingEngine._match_order order market s = (s', res) ->
  accounted order s s' res.
Proof.
  intros Hok Hnr Hrun.
  destruct (match_order_exact _ _ _ _ _ Hok Hnr Hrun)
    as (new & Hh & Hres & Hpos & Hring & Hqo & Hown & Hcase).
  cbv zeta in Hcase.
  set (is_buy := String.eqb (Order.side (Env.heap s !!! order)) "buy") in *.
  destruct (best_opposite is_buy (Env.book s)) as [p|] eqn:Hbest.
  2:{ destruct Hcase as (-> & -> & ->). apply accounted_refl. by intros ? [= <-]. }
  destruct (MatchingEngine.beyond_limit _ _ _ _ _) as [[|]|e].
  { destruct Hcase as (-> & -> & ->). apply accounted_refl. by intros ? [= <-]. }
  2:{ destruct Hcase as (-> & -> & ->). apply accounted_refl. by intros ? [=]. }
  destruct Hcase as (l & Hl & Hso & Hqs & Hmk & Hoth & Hlev & Hout).
  destruct (opposite_queue_best _ is_buy _ p l Hok Hbest Hl) as (rest & Hq & Hrest).
  pose proof Hok as Hok0.
  apply (book_ok_sides is_buy) in Hok0 as (Hopp & _ & _).
  destruct (Hopp p l Hl) as (_ & _ & Hall).
  pose proof (queue_sum_pos _ _ _ _ Hall) as [Hsum0 _].
  change (queue_sum (Env.heap s) (PriceLevel.orders l))
    with (level_sum (Env.heap s) l) in Hsum0.
  assert (Hrest' : forall x, x ∈ rest -> Env.heap s' !!! x = Env.heap s !!! x).
  { intros x Hx. destruct (Hrest x Hx) as [Hnl Hr]. apply Hso.
    intros [->|?]; done. }
  exists new. unfold accounted. cbv zeta. fold is_buy. rewrite Hbest, Hq.
  split; [done|]. split; [done|]. split; [done|]. split; [done|].
  split; [done|]. split.
  { intros Hq0. rewrite Hqo.
    destruct (Z.leb_spec (Order.quantity (Env.heap s !!! order)) 0).
    - destruct Hout as (_ & -> & _). simpl. lia.
    - destruct (Z.ltb_spec (Order.quantity (Env.heap s !!! order))
                           (level_sum (Env.heap s) l)).
      + destruct Hout as (_ & -> & _). lia.
      + destruct Hout as (_ & -> & _). lia. }
  split.
  { rewrite !queue_sum_app, Hqs, (queue_sum_ext _ _ rest Hrest'). 
    change (queue_sum (Env.heap s) (PriceLevel.orders l))
      with (level_sum (Env.heap s) l). lia. }
  split.
  { eapply same_outside_weaken; [|exact Hso]. intros x [->|Hx]; [by left|].
    right. apply elem_of_app. by left. }
  intros k Hk. apply Hoth. congruence.
Qed.

Lemma accounted_set_book order s s' b res res' :
  accounted order s s' res ->
  MatchingEngine.opposite_book
    (String.eqb (Order.side (Env.heap s !!! order)) "buy") b
  = MatchingEngine.opposite_book
      (String.eqb (Order.side (Env.heap s !!! order)) "buy") (Env.book s') ->
  (forall ts, res' = Return ts -> res = Return ts) ->
  accounted order s (Env.set_book s' b) res'.
Proof.
  intros (new & Hh & Hres & Hpos & Hring & Hqo & Hq0 & Hqs & Hso & Hoth) Hb Hr.
  exists new. simpl. rewrite Hb. repeat split; try done.
  intros ts Hts. apply Hres. by apply Hr.
Qed.

Lemma execute_limit_order_accounted order ioc s s' res :
  book_ok (Env.heap s) (Env.book s) ->
  ~ resting (Env.book s) order ->
  MatchingEngine._execute_limit_order order ioc s = (s', res) ->
  accounted order s s' res.
Proof.
  intros Hok Hnr. unfold MatchingEngine._execute_limit_order.
  destruct (MatchingEngine._match_order order false s) as [s1 res1] eqn:Hrun.
  pose proof (match_order_accounted _ _ _ _ _ Hok Hnr Hrun) as Hacc.
  apply match_order_trades in Hrun as (Hfr & _).
  destruct res1 as [ts|e]; [|by intros [= <- <-]].
  destruct (_ && _); [|by intros [= <- <-]].
  destruct (OrderBook.add_order _ _ _) as [b res2] eqn:Hadd.
  apply add_order_opposite in Hadd.
  rewrite (frozen_side _ _ _ Hfr) in Hadd.
  destruct res2 as [u|e]; intros [= <- <-];
    by apply (accounted_set_book _ _ _ _ (Return ts)).
Qed.

Lemma dispatch_accounted order s s' res :
  book_ok (Env.heap s) (Env.book s) ->
  ~ resting (Env.book s) order ->
  MatchingEngine.dispatch order s = (s', res) ->
  accounted order s s' res.
Proof.
  intros Hok Hnr. unfold MatchingEngine.dispatch.
  destruct (String.eqb _ "market"); [by apply match_order_accounted|].
  destruct (String.eqb _ "limit"); [by apply execute_limit_order_accounted|].
  destruct (String.eqb _ "ioc"); [by apply execute_limit_order_accounted|].
  destruct (String.eqb _ "fok").
  - destruct (MatchingEngine._can_fully_fill order s) as [[|]|e].
    + by apply execute_limit_order_accounted.
    + intros [= <- <-]. apply accounted_refl. by intros ? [= <-].
    + intros [= <- <-]. apply accounted_refl. by intros ? [=].
  - intros [= <- <-]. apply accounted_refl. by intros ? [= <-].
Qed.
Lemma reachable_dispatch o w :
  reachable w ->
  let r := World.next_ref w in
  let s := Env.mk (<[r := o]> (World.heap w))
                  (_get_order_book (Order.symbol o) w) (World.tlog w) in
  exists s' res,
    MatchingEngine.dispatch r s = (s', res)
    /\ Env.heap s !!! r = o
    /\ book_ok (Env.heap s) (Env.book s)
    /\ ~ resting (Env.book s) r
    /\ (forall x, resting (Env.book s) x -> Env.heap s !!! x = World.heap w !!! x)
    /\ World.heap (process_new o w).1 = Env.heap s'
    /\ World.tlog (process_new o w).1 = Env.tlog s'
    /\ World.order_books (process_new o w).1
       = <[Order.symbol o := Env.book s']> (World.order_books w)
    /\ _get_order_book (Order.symbol o) (process_new o w).1 = Env.book s'
    /\ (process_new o w).2 = res.
Proof.
  intros Hr r s.
  pose proof (process_new_env o w (reachable_world_ok w Hr)) as H.
  cbv zeta in H. fold r in H. fold s in H.
  destruct (MatchingEngine.dispatch r s) as [s' res] eqn:Hd.
  exists s', res. split; [done|]. exact H.
Qed.

(** ** States reached within exactly computed quantities *)

Lemma reachable_exact_reachable w : reachable_exact w -> reachable w.
Proof.
  induction 1; [apply reachable_init|by apply reachable_process
               |by apply reachable_submit|by apply reachable_cancel].
Qed.

Lemma reachable_exact_two_asks : reachable_exact world_two_asks.
Proof.
  unfold world_two_asks.
  apply reachable_exact_process; [|vm_compute; reflexivity..].
  apply reachable_exact_process; [|vm_compute; reflexivity..].
  apply reachable_exact_init.
Qed.

Lemma reachable_exact_after_partial_fill :
  reachable_exact world_after_partial_fill.
Proof.
  unfold world_after_partial_fill, world_one_ask.
  apply reachable_exact_process; [|vm_compute; reflexivity..].
  apply reachable_exact_process; [|vm_compute; reflexivity..].
  apply reachable_exact_init.
Qed.

(** X12: quantity is conserved by [process_order].  In every state the
    engine reaches, what a new order loses is what the recorded trades of
    the call move, each trade moves a positive quantity, and the orders
    resting on the opposite side lose the same total; an order that starts
    with a non-negative quantity never ends below zero; and no other order
    object changes.

    The statement is made for quantities the code computes exactly
    ([exact_world] for the state, [exact_quantity] for the order); with
    other quantities the sums and differences of the code are rounded. *)
Theorem quantity_conserved o w :
  reachable w ->
  exact_world w = true ->
  exact_quantity (Order.quantity o) = true ->
  let r := World.next_ref w in
  let w' := (process_new o w).1 in
  let queue := opposite_queue (String.eqb (Order.side o) "buy")
                              (_get_order_book (Order.symbol o) w) in
  exists new,
    TradeLog.trade_history (World.tlog w')
      = TradeLog.trade_history (World.tlog w) ++ new
    /\ Forall (fun t => 0 < Trade.quantity t) new
    /\ Order.quantity (World.heap w' !!! r) = Order.quantity o - traded new
    /\ (0 <= Order.quantity o -> 0 <= Order.quantity (World.heap w' !!! r))
    /\ queue_sum (World.heap w') queue = queue_sum (World.heap w) queue - traded new
    /\ forall x, x <> r -> x ∉ queue -> World.heap w' !!! x = World.heap w !!! x.
Proof.
  intros Hr _ _ r w' queue. subst w'.
  destruct (reachable_dispatch o w Hr)
    as (s' & res & Hd & Hro & Hbok & Hnr & Hsame & Hheap & Htlog & _).
  fold r in Hd, Hro, Hnr.
  apply dispatch_accounted in Hd; [|done|done].
  destruct Hd as (new & Hh & _ & Hpos & _ & Hqo & Hq0 & Hqs & Hso & _).
  simpl in Hro, Hh, Hpos, Hqo, Hq0, Hqs, Hso. rewrite Hro in Hqo, Hq0, Hqs, Hso.
  fold queue in Hqs, Hso.
  exists new. rewrite Hheap, Htlog.
  split; [done|]. split; [eapply Forall_impl; [exact Hpos|]; by intros t [? _]|].
  split; [done|]. split; [done|]. split.
  - rewrite Hqs. f_equal. apply queue_sum_ext. intros x Hx. apply Hsame.
    by eapply elem_of_opposite_queue.
  - intros x Hxr Hxq. rewrite Hso by (intros [?|?]; done).
    by apply lookup_total_insert_ne.
Qed.

Lemma quantity_conserved_witness :
  let o := limit_order 3 "buy" 15000 1000000 in
  let w := world_two_asks in
  let r := World.next_ref w in
  let w' := (process_new o w).1 in
  let queue := opposite_queue (String.eqb (Order.side o) "buy")
                              (_get_order_book (Order.symbol o) w) in
  exists new,
    TradeLog.trade_history (World.tlog w')
      = TradeLog.trade_history (World.tlog w) ++ new
    /\ Forall (fun t => 0 < Trade.quantity t) new
    /\ Order.quantity (World.heap w' !!! r) = Order.quantity o - traded new
    /\ (0 <= Order.quantity o -> 0 <= Order.quantity (World.heap w' !!! r))
    /\ queue_sum (World.heap w') queue = queue_sum (World.heap w) queue - traded new
    /\ forall x, x <> r -> x ∉ queue -> World.heap w' !!! x = World.heap w !!! x.
Proof.
  apply (quantity_conserved (limit_order 3 "buy" 15000 1000000) world_two_asks).
  - exact reachable_two_asks.
  - vm_compute. reflexivity.
  - vm_compute. reflexivity.
Defined.

(** X13: one call of [process_order] trades at one price.  In every state
    the engine reaches, every trade of a new order is printed at the best
    price of the opposite side as it was when the call started (the best
    ask for a buy order, the best bid otherwise), and no other level of the
    opposite side is changed by the call: the pass never goes on to the
    second best level. *)
Theorem trades_at_best_price o w :
  reachable w ->
  let book := _get_order_book (Order.symbol o) w in
  let book' := _get_order_book (Order.symbol o) (process_new o w).1 in
  let is_buy := String.eqb (Order.side o) "buy" in
  exists new,
    TradeLog.trade_history (World.tlog (process_new o w).1)
      = TradeLog.trade_history (World.tlog w) ++ new
    /\ (forall ts, (process_new o w).2 = Return ts -> ts = new)
    /\ Forall (fun t => best_opposite is_buy book = Some (Trade.price t)) new
    /\ forall k, best_opposite is_buy book <> Some k ->
         MatchingEngine.opposite_book is_buy book' !! k
         = MatchingEngine.opposite_book is_buy book !! k.
Proof.
  intros Hr book book' is_buy. subst book'.
  destruct (reachable_dispatch o w Hr)
    as (s' & res & Hd & Hro & Hbok & Hnr & Hsame & Hheap & Htlog & _ & Hbook' & Hres).
  apply dispatch_accounted in Hd; [|done|done].
  destruct Hd as (new & Hh & Hts & Hpos & _ & _ & _ & _ & _ & Hoth).
  simpl in Hro, Hh, Hts, Hpos, Hoth. rewrite Hro in Hpos, Hoth.
  exists new. rewrite Htlog, Hres, Hbook'.
  split; [done|]. split; [done|].
  split; [eapply Forall_impl; [exact Hpos|]; by intros t [_ ?]|]. done.
Qed.

Lemma trades_at_best_price_witness :
  let o := limit_order 3 "buy" 15000 1000000 in
  let w := world_two_asks in
  let book := _get_order_book (Order.symbol o) w in
  let book' := _get_order_book (Order.symbol o) (process_new o w).1 in
  let is_buy := String.eqb (Order.side o) "buy" in
  exists new,
    TradeLog.trade_history (World.tlog (process_new o w).1)
      = TradeLog.trade_history (World.tlog w) ++ new
    /\ (forall ts, (process_new o w).2 = Return ts -> ts = new)
    /\ Forall (fun t => best_opposite is_buy book = Some (Trade.price t)) new
    /\ forall k, best_opposite is_buy book <> Some k ->
         MatchingEngine.opposite_book is_buy book' !! k
         = MatchingEngine.opposite_book is_buy book !! k.
Proof.
  apply (trades_at_best_price (limit_order 3 "buy" 15000 1000000) world_two_asks).
  exact reachable_two_asks.
Defined.

(** ** When a call raises *)

Lemma match_order_raises order s s' res :
  book_ok (Env.heap s) (Env.book s) ->
  ~ resting (Env.book s) order ->
  let o := Env.heap s !!! order in
  let market := String.eqb (Order.order_type o) "market" in
  let is_buy := String.eqb (Order.side o) "buy" in
  MatchingEngine._match_order order market s = (s', res) ->
  (res = Raise KeyError <->
     exists p l,
       best_opposite is_buy (Env.book s) = Some p
       /\ MatchingEngine.opposite_book is_buy (Env.book s) !! p = Some l
       /\ accepts o p = true
       /\ 0 < Order.quantity o
       /\ level_sum (Env.heap s) l <= Order.quantity o)
  /\ (res = Raise TypeError <->
        market = false /\ Order.price o = None
        /\ is_Some (best_opposite is_buy (Env.book s)))
  /\ (forall ts, res = Return ts ->
        (0 < Order.quantity (Env.heap s' !!! order) ->
         s' = s /\ ts = []
         /\ forall p, best_opposite is_buy (Env.book s) = Some p ->
                      accepts o p = false)
        /\ (ts <> [] -> Order.quantity (Env.heap s' !!! order) = 0
                        /\ traded ts = Order.quantity o)
        /\ (ts = [] -> s' = s))
  /\ (best_opposite is_buy (Env.book s) = None -> s' = s /\ res = Return []).
Proof.
  intros Hok Hnr o market is_buy Hrun.
  destruct (match_order_exact _ _ _ _ _ Hok Hnr Hrun)
    as (new & Hh & Hres & Hpos & Hring & Hqo & Hown & Hcase).
  cbv zeta in Hcase. fold o in Hcase, Hqo. fold is_buy in Hcase.
  destruct (best_opposite is_buy (Env.book s)) as [p|] eqn:Hbest.
  2:{ destruct Hcase as (-> & -> & ->).
      split; [split; [done|by intros (? & ? & ? & _)]|].
      split; [split; [done|by intros (_ & _ & [? ?])]|].
      split; [|done].
      intros ts [= <-]. split; [|done]. intros _. done. }
  pose proof (beyond_limit_accepts (Env.heap s) order is_buy p eq_refl) as Hacc.
  cbv zeta in Hacc. fold o in Hacc. fold market in Hacc.
  destruct (MatchingEngine.beyond_limit _ _ _ _ _) as [[|]|e] eqn:Hlim.
  - (* the best price is beyond the limit *)
    destruct Hcase as (-> & -> & ->). simpl in Hacc.
    split.
    { split; [done|]. intros (p' & l & [= <-] & _ & Ha & _). congruence. }
    split.
    { split; [done|]. intros (Hm & Hp & _).
      unfold MatchingEngine.beyond_limit in Hlim. fold o in Hlim.
      rewrite Hm, Hp in Hlim. done. }
    split; [|done].
    intros ts [= <-]. split; [|done]. intros _. split; [done|]. split; [done|].
    by intros p' [= <-].
  - (* the pass works on the best level *)
    simpl in Hacc.
    destruct Hcase as (l & Hl & _ & _ & _ & _ & _ & Hout).
    assert (Hnt : ~ (market = false /\ Order.price o = None
                     /\ is_Some (Some p))).
    { intros (Hm & Hp & _).
      unfold MatchingEngine.beyond_limit in Hlim. fold o in Hlim.
      rewrite Hm, Hp in Hlim. done. }
    destruct (Z.leb_spec (Order.quantity o) 0) as [Hq|Hq].
    { destruct Hout as (-> & -> & ->).
      split; [split; [done|intros (? & ? & _ & _ & _ & ? & _); lia]|].
      split; [split; [done|done]|]. split; [|done].
      intros ts [= <-]. split; [intros ?; unfold o in *; lia|done]. }
    destruct (Z.ltb_spec (Order.quantity o) (level_sum (Env.heap s) l)) as [Hlt|Hge].
    + destruct Hout as (-> & Ht & _).
      split.
      { split; [done|]. intros (p' & l' & [= <-] & Hl' & _ & _ & Hle).
        assert (l' = l) as -> by congruence. lia. }
      split; [split; [done|done]|]. split; [|done].
      intros ts [= <-]. split; [intros ?; unfold o in *; lia|].
      split; [intros _; split; [unfold o in *; lia|done]|].
      intros ->. simpl in Ht. unfold o in *. lia.
    + destruct Hout as (-> & _ & _).
      split; [split; [|done]|].
      { intros _. by exists p, l. }
      split; [split; [done|done]|]. done.
  - (* the limit is missing *)
    destruct Hacc as (-> & Hm & Hp & _).
    destruct Hcase as (-> & -> & ->).
    split.
    { split; [done|]. intros (p' & l & [= <-] & _ & Ha & _).
      unfold accepts in Ha. fold market in Ha. rewrite Hm, Hp in Ha. done. }
    split; [|done]. split; [|done]. intros _. split; [done|]. split; [done|]. eauto.
Qed.

Lemma execute_limit_order_raises order ioc s s' res :
  book_ok (Env.heap s) (Env.book s) ->
  ~ resting (Env.book s) order ->
  let o := Env.heap s !!! order in
  let is_buy := String.eqb (Order.side o) "buy" in
  Order.order_type o <> "market"%string ->
  MatchingEngine._execute_limit_order order ioc s = (s', res) ->
  (res = Raise KeyError <->
     exists p l,
       best_opposite is_buy (Env.book s) = Some p
       /\ MatchingEngine.opposite_book is_buy (Env.book s) !! p = Some l
       /\ accepts o p = true
       /\ 0 < Order.quantity o
       /\ level_sum (Env.heap s) l <= Order.quantity o)
  /\ (res = Raise TypeError <->
        Order.price o = None
        /\ (is_Some (best_opposite is_buy (Env.book s))
            \/ (ioc = false /\ 0 < Order.quantity o))).
Proof.
  intros Hok Hnr o is_buy Hty. unfold MatchingEngine._execute_limit_order.
  assert (Hm : String.eqb (Order.order_type o) "market" = false).
  { by apply String.eqb_neq. }
  pose proof (match_order_raises order s) as Hraise.
  cbv zeta in Hraise. fold o in Hraise. rewrite Hm in Hraise. fold is_buy in Hraise.
  destruct (MatchingEngine._match_order order false s) as [s1 res1] eqn:Hrun.
  destruct (Hraise s1 res1 Hok Hnr eq_refl) as (Hke & Hte & Hret & Hnone).
  destruct res1 as [ts|e].
  2:{ intros [= <- <-]. split; [done|].
      rewrite Hte. split.
      - intros (_ & Hp & Hb). split; [done|]. by left.
      - intros (Hp & [Hb|[-> Hq]]); [done|].
        destruct (best_opposite is_buy (Env.book s)) as [p|] eqn:Hbest; [eauto|].
        by destruct (Hnone eq_refl) as [_ ?]. }
  destruct (Hret ts eq_refl) as (Hpos & Hfill & Hnil).
  assert (Hno_ke : ~ exists p l,
            best_opposite is_buy (Env.book s) = Some p
            /\ MatchingEngine.opposite_book is_buy (Env.book s) !! p = Some l
            /\ accepts o p = true
            /\ 0 < Order.quantity o
            /\ level_sum (Env.heap s) l <= Order.quantity o).
  { intros H. by apply Hke in H. }
  assert (Hno_te : ~ (Order.price o = None
                      /\ is_Some (best_opposite is_buy (Env.book s)))).
  { intros [? ?]. assert (Return ts = Raise TypeError) by (by apply Hte). done. }
  destruct (Z.ltb_spec 0 (Order.quantity (Env.heap s1 !!! order))) as [Hq|Hq];
    simpl.
  2:{ intros [= <- <-]. split; [split; [done|by intros ?]|].
      split; [done|]. intros (Hp & [Hb|[-> Hq']]); [by destruct Hno_te|].
      destruct (best_opposite is_buy (Env.book s)) as [p|] eqn:Hbest.
      - destruct Hno_te. eauto.
      - destruct (Hnone eq_refl) as [-> _]. unfold o in Hq'. lia. }
  destruct (Hpos Hq) as (-> & -> & Hacc).
  destruct ioc; simpl.
  { intros [= <- <-]. split; [split; [done|by intros ?]|].
    split; [done|]. intros (Hp & [Hb|[? _]]); [by destruct Hno_te|done]. }
  unfold OrderBook.add_order. fold o.
  destruct (Order.price o) as [limit|] eqn:Hp.
  - intros [= <- <-]. split; [split; [done|by intros ?]|].
    split; [done|]. by intros [? _].
  - intros [= <- <-]. split; [split; [done|by intros ?]|].
    split; [|done]. intros _. split; [done|]. right. by split.
Qed.

Lemma dispatch_ioc_limit order s :
  Order.order_type (Env.heap s !!! order) = "ioc"%string ->
  MatchingEngine.dispatch order s
  = MatchingEngine._execute_limit_order order true s.
Proof. unfold MatchingEngine.dispatch. by intros ->. Qed.

Lemma level_sum_same (h h' : gmap nat Order.t) is_buy b p l :
  (forall x, resting b x -> h' !!! x = h !!! x) ->
  MatchingEngine.opposite_book is_buy b !! p = Some l ->
  level_sum h' l = level_sum h l.
Proof.
  intros Hsame Hl. apply queue_sum_ext. intros x Hx. apply Hsame.
  apply (resting_sides is_buy). left. by exists p, l.
Qed.

Lemma dispatch_raises order s s' res :
  book_ok (Env.heap s) (Env.book s) ->
  ~ resting (Env.book s) order ->
  let o := Env.heap s !!! order in
  let is_buy := String.eqb (Order.side o) "buy" in
  Order.order_type o = "market"%string \/ Order.order_type o = "limit"%string
  \/ Order.order_type o = "ioc"%string ->
  MatchingEngine.dispatch order s = (s', res) ->
  (res = Raise KeyError <->
     exists p l,
       best_opposite is_buy (Env.book s) = Some p
       /\ MatchingEngine.opposite_book is_buy (Env.book s) !! p = Some l
       /\ accepts o p = true
       /\ 0 < Order.quantity o
       /\ level_sum (Env.heap s) l <= Order.quantity o)
  /\ (res = Raise TypeError <->
        Order.order_type o <> "market"%string
        /\ Order.price o = None
        /\ (is_Some (best_opposite is_buy (Env.book s))
            \/ (Order.order_type o = "limit"%string /\ 0 < Order.quantity o))).
Proof.
  intros Hbok Hnr o is_buy Hty Hd. subst is_buy.
  destruct Hty as [Hty|[Hty|Hty]].
  - (* market *)
    rewrite dispatch_market in Hd by done.
    pose proof (match_order_raises order s) as Hraise.
    cbv zeta in Hraise. fold o in Hraise. rewrite Hty in Hraise. simpl in Hraise.
    destruct (Hraise s' res Hbok Hnr Hd) as (Hk & Ht & _).
    split; [exact Hk|]. rewrite Ht. split; [by intros [? _]|].
    by intros [? _].
  - (* limit *)
    rewrite dispatch_limit in Hd by done.
    pose proof (execute_limit_order_raises order false s s' res Hbok Hnr) as Hraise.
    cbv zeta in Hraise. fold o in Hraise.
    destruct (Hraise ltac:(by rewrite Hty) Hd) as (Hk & Ht).
    split; [exact Hk|]. rewrite Ht. split.
    + intros (Hp & [Hb|[_ Hq]]); (split; [by rewrite Hty|]); (split; [done|]);
        [by left|by right].
    + intros (_ & Hp & [Hb|[_ Hq]]); (split; [done|]); [by left|by right].
  - (* immediate-or-cancel *)
    rewrite dispatch_ioc_limit in Hd by done.
    pose proof (execute_limit_order_raises order true s s' res Hbok Hnr) as Hraise.
    cbv zeta in Hraise. fold o in Hraise.
    destruct (Hraise ltac:(by rewrite Hty) Hd) as (Hk & Ht).
    split; [exact Hk|]. rewrite Ht. split.
    + intros (Hp & [Hb|[? _]]); [|done].
      split; [by rewrite Hty|]. split; [done|]. by left.
    + intros (_ & Hp & [Hb|[Hl _]]); [|by rewrite Hty in Hl].
      split; [done|]. by left.
Qed.

(** The condition under which an emptied level ends the call, read in the
    heap before and after the new order object was allocated. *)
Lemma level_consumed_alloc (h h' : gmap nat Order.t) (is_buy : bool) book o :
  (forall x, resting book x -> h' !!! x = h !!! x) ->
  (exists p l,
     best_opposite is_buy book = Some p
     /\ MatchingEngine.opposite_book is_buy book !! p = Some l
     /\ accepts o p = true
     /\ 0 < Order.quantity o
     /\ level_sum h' l <= Order.quantity o)
  <-> (exists p l,
     best_opposite is_buy book = Some p
     /\ MatchingEngine.opposite_book is_buy book !! p = Some l
     /\ accepts o p = true
     /\ 0 < Order.quantity o
     /\ level_sum h l <= Order.quantity o).
Proof.
  intros Hsame.
  split; intros (p & l & Hb & Hl & Ha & Hq & Hle); exists p, l;
    (split; [done|]; split; [done|]; split; [done|]; split; [done|]).
  - by rewrite <- (level_sum_same h h' is_buy book p l).
  - by rewrite (level_sum_same h h' is_buy book p l).
Qed.

(** X14: when [process_order] raises, for a market, limit or
    immediate-or-cancel order in a state the engine reaches.  It raises
    [KeyError] exactly when the order has a positive quantity, accepts the
    best price of the opposite side, and asks for at least the whole
    remaining quantity of the level at that price: consuming a level
    entirely always ends in the exception, after the trades have been
    recorded.  It raises [TypeError] exactly when the order is not a market
    order, has no price, and either the opposite side is not empty or the
    order is a limit order with a positive quantity.  In every other case
    the call returns.

    The statement is made for quantities the code computes exactly
    ([exact_world] for the state, [exact_quantity] for the order); with
    other quantities the sums and differences of the code are rounded. *)
Theorem process_order_raises o w :
  reachable w ->
  exact_world w = true ->
  exact_quantity (Order.quantity o) = true ->
  Order.order_type o = "market"%string \/ Order.order_type o = "limit"%string
  \/ Order.order_type o = "ioc"%string ->
  let book := _get_order_book (Order.symbol o) w in
  let is_buy := String.eqb (Order.side o) "buy" in
  let res := (process_new o w).2 in
  (res = Raise KeyError <->
     exists p l,
       best_opposite is_buy book = Some p
       /\ MatchingEngine.opposite_book is_buy book !! p = Some l
       /\ accepts o p = true
       /\ 0 < Order.quantity o
       /\ level_sum (World.heap w) l <= Order.quantity o)
  /\ (res = Raise TypeError <->
        Order.order_type o <> "market"%string
        /\ Order.price o = None
        /\ (is_Some (best_opposite is_buy book)
            \/ (Order.order_type o = "limit"%string /\ 0 < Order.quantity o))).
Proof.
  intros Hr _ _ Hty book is_buy res. subst book is_buy res.
  destruct (reachable_dispatch o w Hr)
    as (s' & res & Hd & Hro & Hbok & Hnr & Hsame & _ & _ & _ & _ & ->).
  pose proof (dispatch_raises _ _ s' res Hbok Hnr) as Hraise.
  cbv zeta in Hraise. rewrite Hro in Hraise.
  destruct (Hraise Hty Hd) as [Hke Hte].
  split; [|exact Hte]. rewrite Hke.
  by apply level_consumed_alloc.
Qed.

Lemma process_order_raises_witness :
  let o := limit_order 2 "buy" 10000 1000000 in
  let w := world_first_ask in
  let book := _get_order_book (Order.symbol o) w in
  let is_buy := String.eqb (Order.side o) "buy" in
  let res := (process_new o w).2 in
  (res = Raise KeyError <->
     exists p l,
       best_opposite is_buy book = Some p
       /\ MatchingEngine.opposite_book is_buy book !! p = Some l
       /\ accepts o p = true
       /\ 0 < Order.quantity o
       /\ level_sum (World.heap w) l <= Order.quantity o)
  /\ (res = Raise TypeError <->
        Order.order_type o <> "market"%string
        /\ Order.price o = None
        /\ (is_Some (best_opposite is_buy book)
            \/ (Order.order_type o = "limit"%string /\ 0 < Order.quantity o))).
Proof.
  apply (process_order_raises (limit_order 2 "buy" 10000 1000000) world_first_ask).
  - unfold world_first_ask. apply reachable_process, reachable_init.
  - vm_compute. reflexivity.
  - vm_compute. reflexivity.
  - right. left. reflexivity.
Defined.

(** ** Fill-or-kill orders *)

(** A probe that answers true has found the best opposite price within the
    limit. *)
Lemma can_fully_fill_true order s :
  MatchingEngine._can_fully_fill order s = Return true ->
  Order.order_type (Env.heap s !!! order) <> "market"%string ->
  exists p,
    best_opposite (String.eqb (Order.side (Env.heap s !!! order)) "buy")
                  (Env.book s) = Some p
    /\ accepts (Env.heap s !!! order) p = true.
Proof.
  unfold MatchingEngine._can_fully_fill, accepts. intros Hprobe Hty.
  apply String.eqb_neq in Hty. rewrite Hty. simpl.
  destruct (Order.price (Env.heap s !!! order)) as [limit|]; [|done].
  destruct (String.eqb (Order.side (Env.heap s !!! order)) "buy").
  - pose proof (head_price_levels true (Env.book s)) as Hhead. simpl in Hhead.
    destruct (sorted (keys (OrderBook.asks (Env.book s)))) as [|p ps]; [done|].
    simpl in Hhead, Hprobe. exists p. split; [done|].
    destruct (Z.ltb_spec (normalize_price limit) p); [done|].
    by apply Z.leb_le.
  - pose proof (head_price_levels false (Env.book s)) as Hhead. simpl in Hhead.
    destruct (sorted_reverse (keys (OrderBook.bids (Env.book s)))) as [|p ps];
      [done|].
    simpl in Hhead, Hprobe. exists p. split; [done|].
    destruct (Z.ltb_spec p (normalize_price limit)); [done|].
    by apply Z.leb_le.
Qed.

Lemma dispatch_fok_outcome order s s' res :
  book_ok (Env.heap s) (Env.book s) ->
  ~ resting (Env.book s) order ->
  Order.order_type (Env.heap s !!! order) = "fok"%string ->
  MatchingEngine.dispatch order s = (s', res) ->
  ~ resting (Env.book s') order
  /\ book_le (Env.book s') (Env.book s)
  /\ forall ts, res = Return ts ->
       (ts = [] /\ s' = s)
       \/ (ts <> [] /\ traded ts = Order.quantity (Env.heap s !!! order)
           /\ Order.quantity (Env.heap s' !!! order) = 0).
Proof.
  intros Hbok Hnr Hty Hd.
  assert (Hstay : forall res0, (s', res) = (s, res0) ->
            (forall ts, res0 = Return ts -> ts = []) ->
            ~ resting (Env.book s') order
            /\ book_le (Env.book s') (Env.book s)
            /\ forall ts, res = Return ts ->
                 (ts = [] /\ s' = s)
                 \/ (ts <> [] /\ traded ts = Order.quantity (Env.heap s !!! order)
                     /\ Order.quantity (Env.heap s' !!! order) = 0)).
  { intros res0 [= -> ->] Hres0. split; [done|]. split; [apply book_le_refl|].
    intros ts Hts. left. split; [by apply Hres0|done]. }
  rewrite dispatch_fok in Hd by done.
  destruct (MatchingEngine._can_fully_fill order s) as [[|]|e] eqn:Hprobe.
  2:{ eapply Hstay; [by rewrite Hd|]. by intros ts [= <-]. }
  2:{ eapply Hstay; [by rewrite Hd|]. by intros ts [=]. }
  destruct (can_fully_fill_true order s Hprobe) as (p & Hbest & Hacc).
  { by rewrite Hty. }
  unfold MatchingEngine._execute_limit_order in Hd.
  pose proof (match_order_raises order s) as Hraise.
  cbv zeta in Hraise. rewrite Hty in Hraise. simpl in Hraise.
  destruct (MatchingEngine._match_order order false s) as [s1 res1] eqn:Hrun.
  destruct (Hraise s1 res1 Hbok Hnr eq_refl) as (_ & _ & Hret & _).
  apply match_order_trades in Hrun as (_ & Hle & _).
  assert (Hnr1 : ~ resting (Env.book s1) order).
  { intros Hx. apply Hnr. by eapply resting_le. }
  destruct res1 as [ts|e].
  2:{ injection Hd as <- <-. split; [done|]. split; [done|]. by intros ts [=]. }
  destruct (Hret ts eq_refl) as (Hpos & Hfill & Hnil).
  destruct (Z.ltb_spec 0 (Order.quantity (Env.heap s1 !!! order))) as [Hq|Hq].
  { destruct (Hpos Hq) as (_ & _ & Hno). rewrite (Hno p Hbest) in Hacc. done. }
  simpl in Hd. injection Hd as <- <-.
  split; [done|]. split; [done|]. intros ts' [= <-].
  destruct ts as [|t ts].
  - left. by rewrite (Hnil eq_refl).
  - right. destruct (Hfill ltac:(done)) as [Hz Ht]. done.
Qed.

(** X15: fill-or-kill orders in the states the engine reaches.  The order
    never rests and the book only loses orders.  When [process_order]
    returns, either there is no trade and nothing has changed (book, order
    objects and trade log are as before), or the order is filled
    completely.  A partial fill is only ever left behind by a call that
    raises.

    The statement is made for quantities the code computes exactly
    ([exact_world] for the state, [exact_quantity] for the order); with
    other quantities the sums and differences of the code are rounded. *)
Theorem fok_all_or_nothing o w :
  reachable w ->
  exact_world w = true ->
  exact_quantity (Order.quantity o) = true ->
  Order.order_type o = "fok"%string ->
  let r := World.next_ref w in
  let w' := (process_new o w).1 in
  let book := _get_order_book (Order.symbol o) w in
  let book' := _get_order_book (Order.symbol o) w' in
  ~ resting book' r
  /\ book_le book' book
  /\ forall ts, (process_new o w).2 = Return ts ->
       (ts = [] /\ book' = book
        /\ World.heap w' = <[r := o]> (World.heap w)
        /\ World.tlog w' = World.tlog w)
       \/ (ts <> [] /\ traded ts = Order.quantity o
           /\ Order.quantity (World.heap w' !!! r) = 0).
Proof.
  intros Hr _ _ Hty r w' book book'. subst r w' book book'.
  destruct (reachable_dispatch o w Hr)
    as (s' & res & Hd & Hro & Hbok & Hnr & Hsame & -> & -> & _ & -> & ->).
  destruct (dispatch_fok_outcome _ _ _ _ Hbok Hnr ltac:(by rewrite Hro) Hd)
    as (Hnr' & Hle & Hret).
  rewrite Hro in Hret.
  split; [done|]. split; [done|]. intros ts Hts.
  destruct (Hret ts Hts) as [[-> ->]|?]; [left|by right]. done.
Qed.

Lemma fok_all_or_nothing_witness :
  let o := typed_order "fok" 3 "buy" 5000 1000000 in
  let w := world_two_asks in
  let r := World.next_ref w in
  let w' := (process_new o w).1 in
  let book := _get_order_book (Order.symbol o) w in
  let book' := _get_order_book (Order.symbol o) w' in
  ~ resting book' r
  /\ book_le book' book
  /\ forall ts, (process_new o w).2 = Return ts ->
       (ts = [] /\ book' = book
        /\ World.heap w' = <[r := o]> (World.heap w)
        /\ World.tlog w' = World.tlog w)
       \/ (ts <> [] /\ traded ts = Order.quantity o
           /\ Order.quantity (World.heap w' !!! r) = 0).
Proof.
  apply (fok_all_or_nothing (typed_order "fok" 3 "buy" 5000 1000000) world_two_asks).
  - exact reachable_two_asks.
  - vm_compute. reflexivity.
  - vm_compute. reflexivity.
  - reflexivity.
Defined.

(** ** The endpoint [submit_order] *)

Lemma submit_order_cases o w :
  (Order.order_type o <> "market"%string /\ Order.price o = None
   /\ submit_order o w = ((World.alloc o w).1, HttpError 500))
  \/ ((Order.order_type o = "market"%string \/ is_Some (Order.price o))
      /\ (submit_order o w).1 = (process_new o w).1
      /\ (submit_order o w).2
         = match (process_new o w).2 with
           | Return ts => Accepted (Order.id o) (length ts)
           | Raise _ => HttpError 500
           end).
Proof.
  unfold submit_order, process_new. simpl.
  destruct (String.eqb_spec (Order.order_type o) "market") as [Hm|Hm]; simpl.
  { right. split; [by left|]. by destruct (process_order _ _) as [w2 [ts|e]]. }
  destruct (Order.price o) as [p|] eqn:Hp.
  - rewrite bool_decide_eq_true_2 by eauto. simpl.
    right. split; [right; eauto|]. by destruct (process_order _ _) as [w2 [ts|e]].
  - rewrite bool_decide_eq_false_2 by (by intros [? ?]). simpl.
    left. done.
Qed.

(** X16: the answers of [submit_order], for a market, limit or
    immediate-or-cancel order in a state the engine reaches.  An error is
    always answered with status 500, never 400.  The answer is 500 exactly
    when the order is not a market order and has no price, or when it has a
    positive quantity, accepts the best opposite price and asks for at
    least the whole remaining quantity of that level.  A missing price
    leaves books and trade log untouched.  An accepted order is answered
    with its own identifier and the number of trades the call has
    recorded.

    The statement is made for quantities the code computes exactly
    ([exact_world] for the state, [exact_quantity] for the order); with
    other quantities the sums and differences of the code are rounded. *)
Theorem submit_order_status o w :
  reachable w ->
  exact_world w = true ->
  exact_quantity (Order.quantity o) = true ->
  Order.order_type o = "market"%string \/ Order.order_type o = "limit"%string
  \/ Order.order_type o = "ioc"%string ->
  let w' := (submit_order o w).1 in
  let book := _get_order_book (Order.symbol o) w in
  let is_buy := String.eqb (Order.side o) "buy" in
  ((submit_order o w).2 = HttpError 500 <->
     (Order.order_type o <> "market"%string /\ Order.price o = None)
     \/ exists p l,
          best_opposite is_buy book = Some p
          /\ MatchingEngine.opposite_book is_buy book !! p = Some l
          /\ accepts o p = true
          /\ 0 < Order.quantity o
          /\ level_sum (World.heap w) l <= Order.quantity o)
  /\ (forall c, (submit_order o w).2 = HttpError c -> c = 500%nat)
  /\ (Order.order_type o <> "market"%string -> Order.price o = None ->
      World.order_books w' = World.order_books w
      /\ World.tlog w' = World.tlog w)
  /\ (forall i n, (submit_order o w).2 = Accepted i n ->
        i = Order.id o
        /\ exists new,
             TradeLog.trade_history (World.tlog w')
               = TradeLog.trade_history (World.tlog w) ++ new
             /\ n = length new).
Proof.
  intros Hr _ _ Hty w' book is_buy. subst w' book is_buy.
  assert (Hraise :
    ((process_new o w).2 = Raise KeyError <->
       exists p l,
         best_opposite (String.eqb (Order.side o) "buy")
                       (_get_order_book (Order.symbol o) w) = Some p
         /\ MatchingEngine.opposite_book (String.eqb (Order.side o) "buy")
              (_get_order_book (Order.symbol o) w) !! p = Some l
         /\ accepts o p = true
         /\ 0 < Order.quantity o
         /\ level_sum (World.heap w) l <= Order.quantity o)
    /\ ((process_new o w).2 = Raise TypeError ->
        Order.order_type o <> "market"%string /\ Order.price o = None)).
  { destruct (reachable_dispatch o w Hr)
      as (s' & res & Hd & Hro & Hbok & Hnr & Hsame & _ & _ & _ & _ & ->).
    pose proof (dispatch_raises _ _ s' res Hbok Hnr) as Hraise.
    cbv zeta in Hraise. rewrite Hro in Hraise.
    destruct (Hraise Hty Hd) as [Hke Hte]. split.
    - rewrite Hke. by apply level_consumed_alloc.
    - intros Ht. apply Hte in Ht as (? & ? & _). done. }
  destruct Hraise as [Hke Hte].
  destruct (submit_order_cases o w) as [(Hm & Hp & Hsub)|(Hv & Hw & Hres)].
  - rewrite Hsub. simpl.
    split; [split; [by left|done]|]. split; [by intros c [= <-]|].
    split; [done|]. by intros i n [=].
  - assert (Hnot : ~ (Order.order_type o <> "market"%string /\ Order.price o = None)).
    { intros [Hm Hp]. destruct Hv as [?|[? ?]]; congruence. }
    rewrite Hw, Hres.
    destruct (reachable_dispatch o w Hr)
      as (s' & res & Hd & Hro & Hbok & Hnr & _ & _ & Htlog & _ & _ & Hpres).
    apply dispatch_accounted in Hd as (new & Hh & Hts & _); [|done|done].
    rewrite Hpres in Hke, Hte |- *. rewrite Htlog.
    destruct res as [ts|e].
    + split.
      { split; [done|]. intros [?|Hk]; [done|]. by apply Hke in Hk. }
      split; [by intros c [=]|]. split; [by intros ? ?; destruct Hnot|].
      intros i n [= <- <-]. split; [done|]. exists new. split; [done|].
      by rewrite (Hts ts eq_refl).
    + split.
      { split; [|done]. intros _. destruct e.
        - right. by apply Hke.
        - destruct (Hte eq_refl) as (Hm & Hp). by destruct Hnot. }
      split; [by intros c [= <-]|]. split; [by intros ? ?; destruct Hnot|].
      by intros i n [=].
Qed.

Lemma submit_order_status_witness :
  let o := limit_order 2 "buy" 10000 1000000 in
  let w := world_first_ask in
  let w' := (submit_order o w).1 in
  let book := _get_order_book (Order.symbol o) w in
  let is_buy := String.eqb (Order.side o) "buy" in
  ((submit_order o w).2 = HttpError 500 <->
     (Order.order_type o <> "market"%string /\ Order.price o = None)
     \/ exists p l,
          best_opposite is_buy book = Some p
          /\ MatchingEngine.opposite_book is_buy book !! p = Some l
          /\ accepts o p = true
          /\ 0 < Order.quantity o
          /\ level_sum (World.heap w) l <= Order.quantity o)
  /\ (forall c, (submit_order o w).2 = HttpError c -> c = 500%nat)
  /\ (Order.order_type o <> "market"%string -> Order.price o = None ->
      World.order_books w' = World.order_books w
      /\ World.tlog w' = World.tlog w)
  /\ (forall i n, (submit_order o w).2 = Accepted i n ->
        i = Order.id o
        /\ exists new,
             TradeLog.trade_history (World.tlog w')
               = TradeLog.trade_history (World.tlog w) ++ new
             /\ n = length new).
Proof.
  apply (submit_order_status (limit_order 2 "buy" 10000 1000000) world_first_ask).
  - unfold world_first_ask. apply reachable_process, reachable_init.
  - vm_compute. reflexivity.
  - vm_compute. reflexivity.
  - right. left. reflexivity.
Defined.

(** X17: after [submit_order] has accepted an order in a state reached
    through the endpoint and cancellations, [get_order_status] finds the
    new order object under its identifier exactly when the order is a limit
    order with a positive remaining quantity: a rested limit order can be
    looked up at once, and a market, immediate-or-cancel or fill-or-kill
    order, or an order filled completely, is never found. *)
Theorem order_status_after_submit o w i n :
  reachable_api w ->
  (submit_order o w).2 = Accepted i n ->
  let r := World.next_ref w in
  let w' := (submit_order o w).1 in
  get_order_status (Order.symbol o) (Order.id o) w' = Some r
  <-> Order.order_type o = "limit"%string
      /\ 0 < Order.quantity (World.heap w' !!! r).
Proof.
  intros Hra Hacc r w'. subst w'.
  pose proof (reachable_api_reachable w Hra) as Hr.
  pose proof (reachable_api_submit o w Hra) as Hra'.
  destruct (submit_order_cases o w) as [(_ & _ & Hsub)|(_ & Hw & Hres)].
  { rewrite Hsub in Hacc. done. }
  rewrite Hres in Hacc. rewrite Hw in Hra' |- *.
  destruct (reachable_dispatch o w Hr)
    as (s' & res & Hd & Hro & Hbok & Hnr & _ & Hheap & _ & Hbooks & Hbook' & Hpres).
  fold r in Hd, Hro, Hnr. rewrite Hpres in Hacc.
  destruct res as [ts|e]; [|done]. clear Hacc.
  set (s := Env.mk (<[r := o]> (World.heap w)) (_get_order_book (Order.symbol o) w)
                   (World.tlog w)) in *.
  split.
  - intros Hst.
    destruct (order_status_found _ _ _ _ Hra' Hst)
      as (book' & Hb' & _ & Hok' & Hrest & _).
    assert (book' = Env.book s') as ->.
    { rewrite <- Hbook'. unfold _get_order_book. by rewrite Hb'. }
    split.
    + destruct (String.eqb_spec (Order.order_type o) "limit") as [?|Hl]; [done|].
      exfalso.
      destruct (String.eqb_spec (Order.order_type o) "fok") as [Hf|Hf].
      { assert (Hfty : Order.order_type (Env.heap s !!! r) = "fok"%string)
          by (by rewrite Hro).
        by destruct (dispatch_fok_outcome r s s' (Return ts) Hbok Hnr Hfty Hd)
          as (? & _). }
      apply Hnr. eapply resting_le; [|exact Hrest].
      unfold MatchingEngine.dispatch in Hd. rewrite Hro in Hd.
      apply String.eqb_neq in Hl, Hf. rewrite Hl, Hf in Hd.
      destruct (String.eqb (Order.order_type o) "market").
      { by apply match_order_trades in Hd as (_ & ? & _). }
      destruct (String.eqb (Order.order_type o) "ioc").
      { rewrite execute_limit_order_ioc in Hd.
        by apply match_order_trades in Hd as (_ & ? & _). }
      injection Hd as <- _. apply book_le_refl.
    + destruct Hrest as [Hq|Hq].
      * destruct Hok' as (Hb & _ & _).
        by destruct (side_ok_queued _ _ _ _ Hb Hq) as (_ & _ & _ & _ & _ & _ & ?).
      * destruct Hok' as (_ & Ha & _).
        by destruct (side_ok_queued _ _ _ _ Ha Hq) as (_ & _ & _ & _ & _ & _ & ?).
  - intros [Hl Hq]. rewrite Hheap in Hq.
    rewrite dispatch_limit in Hd by (by rewrite Hro).
    unfold MatchingEngine._execute_limit_order in Hd.
    destruct (MatchingEngine._match_order r false s) as [s1 res1] eqn:Hrun.
    apply match_order_trades in Hrun as (Hfr & _).
    destruct res1 as [ts1|e]; [|done].
    destruct (Z.ltb_spec 0 (Order.quantity (Env.heap s1 !!! r))) as [Hq1|Hq1];
      simpl in Hd.
    2:{ injection Hd as <- _. lia. }
    destruct (OrderBook.add_order _ _ _) as [b res2] eqn:Hadd.
    apply add_order_index in Hadd.
    rewrite (frozen_id _ _ _ Hfr), Hro in Hadd.
    assert (Env.book s' = b) as Hb.
    { by destruct res2; injection Hd as <- _. }
    unfold get_order_status. rewrite Hbooks, lookup_insert_eq, Hb, Hadd.
    by rewrite lookup_insert_eq.
Qed.

Lemma order_status_after_submit_witness :
  let o := limit_order 1 "sell" 10000 1000000 in
  let w := World.init in
  let r := World.next_ref w in
  let w' := (submit_order o w).1 in
  get_order_status (Order.symbol o) (Order.id o) w' = Some r
  <-> Order.order_type o = "limit"%string
      /\ 0 < Order.quantity (World.heap w' !!! r).
Proof.
  apply (order_status_after_submit (limit_order 1 "sell" 10000 1000000)
           World.init 1 0).
  - exact reachable_api_init.
  - vm_compute; reflexivity.
Defined.

(** ** Symbols do not interfere *)

Lemma process_new_other o w symbol :
  reachable w -> symbol <> Order.symbol o ->
  World.order_books (process_new o w).1 !! symbol = World.order_books w !! symbol
  /\ (forall book x, World.order_books w !! symbol = Some book -> resting book x ->
        World.heap (process_new o w).1 !!! x = World.heap w !!! x)
  /\ TradeLog.symbol_trades (World.tlog (process_new o w).1) !! symbol
     = TradeLog.symbol_trades (World.tlog w) !! symbol.
Proof.
  intros Hr Hne.
  pose proof (reachable_world_ok w Hr) as Hok.
  destruct (reachable_dispatch o w Hr)
    as (s' & res & Hd & Hro & Hbok & Hnr & Hsame & -> & -> & -> & _ & _).
  apply dispatch_accounted in Hd; [|done|done].
  destruct Hd as (new & _ & _ & _ & Hring & _ & _ & _ & Hso & _).
  simpl in Hro, Hring, Hso. rewrite Hro in Hring, Hso.
  split; [by rewrite lookup_insert_ne|]. split; [|by apply Hring].
  intros book x Hbook Hx.
  destruct (Hok symbol book Hbook) as [_ Hres].
  destruct (Hres x Hx) as [Hlt Hsym].
  rewrite Hso.
  - apply lookup_total_insert_ne. lia.
  - intros [->|Hq]; [lia|].
    apply elem_of_opposite_queue in Hq.
    unfold _get_order_book in Hq.
    destruct (World.order_books w !! Order.symbol o) as [b|] eqn:Hb; simpl in Hq.
    + destruct (Hok _ b Hb) as [_ Hres']. destruct (Hres' x Hq) as [_ Hsym'].
      congruence.
    + by apply resting_new in Hq.
Qed.

(** X18: symbols do not interfere.  In every state the engine reaches,
    processing a new order of one symbol leaves every other symbol as it
    was: its book, the order objects resting in it, and its ring of recent
    trades; so its best bid and ask, its depth, the status of its orders
    and its recent trades read the same before and after. *)
Theorem other_symbols_untouched o w symbol :
  reachable w ->
  symbol <> Order.symbol o ->
  let w' := (process_new o w).1 in
  World.order_books w' !! symbol = World.order_books w !! symbol
  /\ (forall book x, World.order_books w !! symbol = Some book -> resting book x ->
        World.heap w' !!! x = World.heap w !!! x)
  /\ get_bbo symbol w' = get_bbo symbol w
  /\ (forall levels,
        get_order_book_depth symbol levels w' = get_order_book_depth symbol levels w)
  /\ (forall order_id,
        get_order_status symbol order_id w' = get_order_status symbol order_id w)
  /\ (forall limit,
        get_recent_trades (World.tlog w') symbol limit
        = get_recent_trades (World.tlog w) symbol limit).
Proof.
  intros Hr Hne w'. subst w'.
  destruct (process_new_other o w symbol Hr Hne) as (Hb & Hh & Hring).
  split; [done|]. split; [done|].
  unfold get_bbo, get_order_book_depth, get_order_status, get_recent_trades.
  rewrite Hb, Hring. done.
Qed.

Lemma other_symbols_untouched_witness :
  let o := Order.mk 3 "ETH-USDT" "limit" "buy" 10000 (Some 1000000) 0 None None in
  let w := world_two_asks in
  let symbol := "BTC-USDT"%string in
  let w' := (process_new o w).1 in
  World.order_books w' !! symbol = World.order_books w !! symbol
  /\ (forall book x, World.order_books w !! symbol = Some book -> resting book x ->
        World.heap w' !!! x = World.heap w !!! x)
  /\ get_bbo symbol w' = get_bbo symbol w
  /\ (forall levels,
        get_order_book_depth symbol levels w' = get_order_book_depth symbol levels w)
  /\ (forall order_id,
        get_order_status symbol order_id w' = get_order_status symbol order_id w)
  /\ (forall limit,
        get_recent_trades (World.tlog w') symbol limit
        = get_recent_trades (World.tlog w) symbol limit).
Proof.
  apply (other_symbols_untouched
           (Order.mk 3 "ETH-USDT" "limit" "buy" 10000 (Some 1000000) 0 None None)
           world_two_asks "BTC-USDT").
  - exact reachable_two_asks.
  - discriminate.
Defined.

(** ** The aggregate of a level never falls below what its orders hold *)

Lemma side_agg_same h h' d :
  side_agg h d -> (forall x, queued d x -> h' !!! x = h !!! x) -> side_agg h' d.
Proof.
  intros Hagg Hsame k l Hl. destruct (Hagg k l Hl) as [Hle Hp]. split; [|done].
  unfold level_sum. fold (queue_sum h' (PriceLevel.orders l)).
  rewrite (queue_sum_ext h h'); [exact Hle|].
  intros x Hx. apply Hsame. by exists k, l.
Qed.

Lemma book_agg_same h h' b :
  book_agg h b -> (forall x, resting b x -> h' !!! x = h !!! x) -> book_agg h' b.
Proof.
  intros [Hb Ha] Hsame. split; (eapply side_agg_same; [done|]); intros x Hx;
    apply Hsame; [by left|by right].
Qed.

Lemma book_agg_sides is_buy h b :
  book_agg h b <->
  side_agg h (MatchingEngine.opposite_book is_buy b)
  /\ side_agg h (MatchingEngine.opposite_book (negb is_buy) b).
Proof. unfold book_agg. destruct is_buy; simpl; tauto. Qed.

Lemma queue_sum_nonneg h rs :
  Forall (fun x => 0 <= Order.quantity (h !!! x)) rs -> 0 <= queue_sum h rs.
Proof. induction 1; simpl; lia. Qed.

Lemma traded_nonneg ts :
  Forall (fun t => 0 <= Trade.quantity t) ts -> 0 <= traded ts.
Proof. induction 1; simpl; lia. Qed.

Lemma match_order_agg order market s s' res :
  book_ok (Env.heap s) (Env.book s) ->
  ~ resting (Env.book s) order ->
  MatchingEngine._match_order order market s = (s', res) ->
  book_agg (Env.heap s) (Env.book s) ->
  book_agg (Env.heap s') (Env.book s').
Proof.
  intros Hok Hnr Hrun Hagg.
  destruct (match_order_exact _ _ _ _ _ Hok Hnr Hrun)
    as (new & _ & _ & Hpos & _ & _ & Hown & Hcase).
  cbv zeta in Hcase, Hown.
  set (is_buy := String.eqb (Order.side (Env.heap s !!! order)) "buy") in *.
  destruct (best_opposite is_buy (Env.book s)) as [p|] eqn:Hbest.
  2:{ by destruct Hcase as (-> & _). }
  destruct (MatchingEngine.beyond_limit _ _ _ _ _) as [[|]|e].
  { by destruct Hcase as (-> & _). }
  2:{ by destruct Hcase as (-> & _). }
  destruct Hcase as (l & Hl & Hso & Hqs & Hmk & Hoth & Hlev & _).
  pose proof Hok as Hok0.
  apply (book_ok_sides is_buy) in Hok0 as (Hopp_ok & Hown_ok & _).
  apply (book_agg_sides is_buy) in Hagg as [Hopp_agg Hown_agg].
  assert (Hnq : forall d, d = MatchingEngine.opposite_book is_buy (Env.book s)
                          \/ d = MatchingEngine.opposite_book (negb is_buy) (Env.book s) ->
                          ~ queued d order).
  { intros d [->| ->] Hq; apply Hnr; apply (resting_sides is_buy); [by left|by right]. }
  destruct (Hopp_ok p l Hl) as (_ & _ & Hall_l).
  rewrite Forall_forall in Hall_l.
  apply (book_agg_sides is_buy). split.
  - intros k l' Hl'.
    destruct (decide (k = p)) as [->|Hne].
    + destruct (Hlev l' Hl') as (_ & Ht & Hp & [pre Hsuf]).
      destruct (Hopp_agg p l Hl) as [Hle Hpl]. split; [|congruence].
      rewrite Ht. unfold level_sum in *.
      fold (queue_sum (Env.heap s') (PriceLevel.orders l')).
      fold (queue_sum (Env.heap s) (PriceLevel.orders l)) in Hle, Hqs.
      rewrite Hsuf in Hqs, Hmk. rewrite queue_sum_app in Hqs.
      apply Forall_app in Hmk as [Hmk _].
      assert (0 <= queue_sum (Env.heap s') pre).
      { apply queue_sum_nonneg. eapply Forall_impl; [exact Hmk|]. simpl. lia. }
      assert (0 <= traded new).
      { apply traded_nonneg. eapply Forall_impl; [exact Hpos|]. simpl.
        intros t [? _]. lia. }
      rewrite <- Hsuf in Hqs. lia.
    + rewrite (Hoth k Hne) in Hl'.
      destruct (Hopp_agg k l' Hl') as [Hle Hp]. split; [|done].
      unfold level_sum. fold (queue_sum (Env.heap s') (PriceLevel.orders l')).
      rewrite (queue_sum_ext (Env.heap s)); [exact Hle|].
      intros x Hx. apply Hso. intros [->|Hxl].
      * apply (Hnq _ (or_introl eq_refl)). by exists k, l'.
      * destruct (Hopp_ok k l' Hl') as (_ & _ & Hall').
        rewrite Forall_forall in Hall'. apply Hne.
        eapply order_ok_key; [by apply Hall'|by apply Hall_l].
  - rewrite Hown. eapply side_agg_same; [exact Hown_agg|].
    intros x Hx. apply Hso. intros [->|Hxl].
    + apply (Hnq _ (or_intror eq_refl)). exact Hx.
    + destruct (side_ok_queued _ _ _ _ Hown_ok Hx) as (_ & _ & _ & _ & Hs & _).
      destruct (Hall_l x Hxl) as (Hs' & _). rewrite Hs in Hs'.
      by destruct is_buy.
Qed.

Lemma add_order_agg h b order b' res :
  book_agg h b -> OrderBook.add_order h order b = (b', res) -> book_agg h b'.
Proof.
  intros Hagg Hadd.
  destruct (Order.price (h !!! order)) as [p|] eqn:Hp.
  2:{ destruct (add_order_no_price h b order Hp) as (ix & Hadd').
      rewrite Hadd in Hadd'. by injection Hadd' as -> _. }
  destruct (add_order_spec h b order p Hp) as (b1 & Hadd1 & Hsame & Hnew).
  rewrite Hadd in Hadd1. injection Hadd1 as -> ->.
  set (is_buy := String.eqb (Order.side (h !!! order)) "buy") in *.
  apply (book_agg_sides is_buy) in Hagg as [Hopp Hown].
  apply (book_agg_sides is_buy). split; [by rewrite Hsame|].
  intros k l Hl. rewrite Hnew in Hl.
  destruct (decide (normalize_price p = k)) as [<-|Hne]; [|by apply Hown].
  injection Hl as <-.
  destruct (MatchingEngine.opposite_book (negb is_buy) b !! normalize_price p)
    as [l0|] eqn:Hl0; simpl.
  - destruct (Hown _ l0 Hl0) as [Hle Hpr]. split; [|done].
    unfold level_sum in *. simpl.
    fold (queue_sum h (PriceLevel.orders l0 ++ [order])).
    fold (queue_sum h (PriceLevel.orders l0)) in Hle.
    rewrite queue_sum_app. simpl. lia.
  - split; [unfold level_sum; simpl; lia|]. simpl. apply normalize_price_idem.
Qed.

Lemma PriceLevel_remove_order_agg h k l r :
  level_agg h k l -> level_agg h k (PriceLevel.remove_order h l r).
Proof.
  intros [Hle Hp]. unfold PriceLevel.remove_order.
  destruct (existsb _ _) eqn:Hex; [|done].
  destruct (list_remove_split _ _ Hex) as (l1 & x & l2 & Hsplit & Hx & Hrm).
  apply same_true in Hx. split; [|done].
  unfold level_sum in *. simpl. rewrite Hrm.
  fold (queue_sum h (l1 ++ l2)). fold (queue_sum h (PriceLevel.orders l)) in Hle.
  rewrite Hsplit, queue_sum_app in Hle. simpl in Hle. rewrite Hx in Hle.
  rewrite queue_sum_app. lia.
Qed.

Lemma remove_order_agg h r b b' res :
  book_agg h b -> OrderBook.remove_order h r b = (b', res) -> book_agg h b'.
Proof.
  intros Hagg. unfold OrderBook.remove_order.
  destruct (Order.price (h !!! r)) as [p|]; [|by intros [= <- _]].
  intros [= <- _].
  set (k := normalize_price p).
  assert (Hside : forall d, side_agg h d ->
            side_agg h match d !! k with
                       | Some level =>
                           if PriceLevel.is_empty (PriceLevel.remove_order h level r)
                           then delete k d
                           else <[k := PriceLevel.remove_order h level r]> d
                       | None => d
                       end).
  { intros d Hd. destruct (d !! k) as [level|] eqn:Hk; [|done].
    destruct (PriceLevel.is_empty _).
    - intros k' l' Hl'. apply lookup_delete_Some in Hl' as [_ Hl']. by apply Hd.
    - intros k' l' Hl'. apply lookup_insert_Some in Hl' as [[<- <-]|[_ Hl']].
      + apply PriceLevel_remove_order_agg. by apply Hd.
      + by apply Hd. }
  destruct Hagg as [Hb Ha].
  unfold OrderBook.set_orders, OrderBook.set_side_book, OrderBook.side_book.
  destruct (String.eqb (Order.side (h !!! r)) "buy"); simpl; split; simpl;
    try done; by apply Hside.
Qed.

Lemma execute_limit_order_agg order ioc s s' res :
  book_ok (Env.heap s) (Env.book s) ->
  ~ resting (Env.book s) order ->
  MatchingEngine._execute_limit_order order ioc s = (s', res) ->
  book_agg (Env.heap s) (Env.book s) ->
  book_agg (Env.heap s') (Env.book s').
Proof.
  intros Hok Hnr. unfold MatchingEngine._execute_limit_order.
  destruct (MatchingEngine._match_order order false s) as [s1 res1] eqn:Hrun.
  intros Hd Hagg.
  pose proof (match_order_agg _ _ _ _ _ Hok Hnr Hrun Hagg) as Hagg1.
  destruct res1 as [ts|e]; [|by injection Hd as <- _].
  destruct (_ && _); [|by injection Hd as <- _].
  destruct (OrderBook.add_order _ _ _) as [b res2] eqn:Hadd.
  pose proof (add_order_agg _ _ _ _ _ Hagg1 Hadd) as Hagg2.
  by destruct res2; injection Hd as <- _.
Qed.

Lemma dispatch_agg order s s' res :
  book_ok (Env.heap s) (Env.book s) ->
  ~ resting (Env.book s) order ->
  MatchingEngine.dispatch order s = (s', res) ->
  book_agg (Env.heap s) (Env.book s) ->
  book_agg (Env.heap s') (Env.book s').
Proof.
  intros Hok Hnr. unfold MatchingEngine.dispatch.
  destruct (String.eqb _ "market"); [by apply match_order_agg|].
  destruct (String.eqb _ "limit"); [by apply execute_limit_order_agg|].
  destruct (String.eqb _ "ioc"); [by apply execute_limit_order_agg|].
  destruct (String.eqb _ "fok").
  - destruct (MatchingEngine._can_fully_fill order s) as [[|]|e].
    + by apply execute_limit_order_agg.
    + by intros [= <- _].
    + by intros [= <- _].
  - by intros [= <- _].
Qed.

Lemma world_agg_alloc o w :
  world_ok w -> world_agg w -> world_agg (World.alloc o w).1.
Proof.
  intros Hok Hagg symbol b Hb. simpl in *.
  eapply book_agg_same; [by eapply Hagg|].
  intros x Hx. destruct (Hok symbol b Hb) as [_ Hres].
  destruct (Hres x Hx) as [Hlt _]. apply lookup_total_insert_ne. lia.
Qed.

Lemma process_new_agg o w :
  reachable w -> world_agg w -> world_agg (process_new o w).1.
Proof.
  intros Hr Hagg symbol b Hb.
  destruct (decide (symbol = Order.symbol o)) as [->|Hne].
  - destruct (reachable_dispatch o w Hr)
      as (s' & res & Hd & Hro & Hbok & Hnr & Hsame & Hheap & _ & Hbooks & _ & _).
    rewrite Hbooks, lookup_insert_eq in Hb. injection Hb as <-. rewrite Hheap.
    eapply dispatch_agg; [exact Hbok|exact Hnr|exact Hd|].
    simpl. unfold _get_order_book.
    destruct (World.order_books w !! Order.symbol o) as [b|] eqn:Hb; simpl.
    + eapply book_agg_same; [by eapply Hagg|].
      intros x Hx. apply (Hsame x). simpl. unfold _get_order_book.
      by rewrite Hb.
    + split; intros k l Hl; simpl in Hl; by rewrite lookup_empty in Hl.
  - destruct (process_new_other o w symbol Hr Hne) as (Hbs & Hh & _).
    rewrite Hbs in Hb.
    eapply book_agg_same; [by eapply Hagg|]. intros x Hx. by eapply Hh.
Qed.

Lemma reachable_world_agg w : reachable w -> world_agg w.
Proof.
  induction 1 as [|o w Hr IH|o w Hr IH|symbol order_id w Hr IH].
  - intros symbol b Hb. simpl in Hb. by rewrite lookup_empty in Hb.
  - by apply process_new_agg.
  - destruct (submit_order_cases o w) as [(_ & _ & ->)|(_ & -> & _)].
    + apply world_agg_alloc; [by apply reachable_world_ok|done].
    + by apply process_new_agg.
  - unfold cancel_order.
    destruct (World.order_books w !! symbol) as [book|] eqn:Hbook; [|done].
    destruct (OrderBook.orders book !! order_id) as [order|]; [|done].
    destruct (OrderBook.remove_order _ _ _) as [b res] eqn:Hrm. simpl.
    intros symbol' b' Hb'. simpl in *.
    destruct (decide (symbol = symbol')) as [<-|Hne].
    + rewrite lookup_insert_eq in Hb'. injection Hb' as <-.
      eapply remove_order_agg; [|exact Hrm]. by eapply IH.
    + rewrite lookup_insert_ne in Hb' by done. by eapply IH.
Qed.

(** X19: in every state the engine reaches while all quantities are
    computed exactly ([reachable_exact]), the aggregate a price level
    stores, which [get_depth] reports and [_can_fully_fill] adds up, is
    never below the quantity the orders of the level have left, and that
    quantity is positive; the level object stores its own key as price.
    Fills make the aggregate stale, but only ever too large.  (With
    quantities whose sums are rounded the aggregate can fall below.) *)
Theorem aggregate_never_below w symbol book k level :
  reachable_exact w ->
  World.order_books w !! symbol = Some book ->
  OrderBook.bids book !! k = Some level \/ OrderBook.asks book !! k = Some level ->
  0 < level_sum (World.heap w) level <= PriceLevel.total_quantity level
  /\ PriceLevel.price level = k.
Proof.
  intros Hre Hbook Hl.
  pose proof (reachable_exact_reachable w Hre) as Hr.
  destruct (reachable_world_agg w Hr symbol book Hbook) as [Hb Ha].
  destruct (reachable_level_ok _ _ _ _ _ Hr Hbook Hl) as (bs & (Hne & _ & Hall) & _).
  destruct (queue_sum_pos _ _ _ _ Hall) as [_ Hpos].
  assert (Hagg : level_agg (World.heap w) k level).
  { destruct Hl as [Hl|Hl]; [by apply Hb|by apply Ha]. }
  destruct Hagg as [Hle Hp]. split; [|done]. split; [|done]. by apply Hpos.
Qed.

Lemma aggregate_never_below_witness :
  let w := world_after_partial_fill in
  let book := _get_order_book "BTC-USDT" w in
  let level := default (PriceLevel.new 0) (OrderBook.asks book !! 1000000) in
  0 < level_sum (World.heap w) level <= PriceLevel.total_quantity level
  /\ PriceLevel.price level = 1000000.
Proof.
  cbv zeta.
  apply (aggregate_never_below world_after_partial_fill "BTC-USDT"
           (_get_order_book "BTC-USDT" world_after_partial_fill)).
  - exact reachable_exact_after_partial_fill.
  - vm_compute; reflexivity.
  - right. vm_compute; reflexivity.
Defined.

(** ** The probe of a fill-or-kill order *)

Lemma queue_of_cons (d : gmap Z PriceLevel.t) k ks :
  queue_of d (k :: ks) = from_option PriceLevel.orders [] (d !! k) ++ queue_of d ks.
Proof. reflexivity. Qed.

(** Past the first price beyond the limit, a side sorted best first holds
    no accepted price. *)
Lemma filter_beyond (is_buy : bool) key p prices :
  Forall ((if is_buy then Z.lt else flip Z.lt) p) prices ->
  (if is_buy then key <? p else p <? key) = true ->
  List.filter (fun p => if is_buy then p <=? key else key <=? p) prices = [].
Proof.
  intros Hall Hb. induction Hall as [|p' ps Hp' _ IH]; [done|]. simpl.
  rewrite IH.
  destruct is_buy; unfold flip in Hp'; apply Z.ltb_lt in Hb.
  - destruct (Z.leb_spec p' key); [lia|done].
  - destruct (Z.leb_spec key p'); [lia|done].
Qed.

(** The loop of [_can_fully_fill] on prices sorted best first: when it
    answers false with a total below the quantity asked for, the levels at
    accepted prices hold less than what is still missing. *)
Lemma can_fill_loop_false h (d : gmap Z PriceLevel.t) (is_buy : bool) key q :
  side_agg h d ->
  forall prices total,
    StronglySorted (if is_buy then Z.lt else flip Z.lt) prices ->
    (forall p, p ∈ prices -> is_Some (d !! p)) ->
    total < q ->
    MatchingEngine.can_fill_loop d is_buy key q prices total = Return false ->
    total
    + queue_sum h (queue_of d (List.filter
                     (fun p => if is_buy then p <=? key else key <=? p) prices))
    < q.
Proof.
  intros Hagg. induction prices as [|p prices IH]; intros total Hs Hkeys Ht; simpl.
  { intros _. lia. }
  apply StronglySorted_cons in Hs as [Hall Hs].
  pose proof (filter_beyond is_buy key p prices Hall) as Hrest.
  destruct (if is_buy then key <? p else p <? key) eqn:Hbeyond.
  - intros _. rewrite (Hrest eq_refl).
    assert (Hp : (if is_buy then p <=? key else key <=? p) = false).
    { destruct is_buy; apply Z.ltb_lt in Hbeyond; apply Z.leb_gt; lia. }
    rewrite Hp. simpl. lia.
  - destruct (Hkeys p ltac:(left)) as [l Hl]. rewrite Hl.
    destruct (Z.leb_spec q (total + PriceLevel.total_quantity l)); [done|].
    intros Hrun. apply IH in Hrun; [|done| |done].
    2:{ intros x Hx. apply Hkeys. by right. }
    assert (Hp : (if is_buy then p <=? key else key <=? p) = true).
    { destruct is_buy; apply Z.ltb_ge in Hbeyond; apply Z.leb_le; lia. }
    rewrite Hp. rewrite queue_of_cons, Hl, queue_sum_app. simpl.
    destruct (Hagg p l Hl) as [Hle _]. unfold level_sum in Hle.
    fold (queue_sum h (PriceLevel.orders l)) in Hle. lia.
Qed.

(** X20: a fill-or-kill order of positive quantity that is answered with no
    trade was killed for a reason: in any state reached while all
    quantities are computed exactly ([reachable_exact], and
    [exact_quantity] for the order), the orders that rest on the opposite
    side of its book at prices within its limit have, together, less left
    than the quantity it asked for.  (The probe adds up the aggregates of
    the levels, which are then never below what their orders have left;
    with quantities whose sums are rounded the probe can fall short.) *)
Theorem fok_kill_justified o w :
  reachable_exact w ->
  exact_quantity (Order.quantity o) = true ->
  Order.order_type o = "fok"%string ->
  0 < Order.quantity o ->
  (process_new o w).2 = Return [] ->
  available (World.heap w) (_get_order_book (Order.symbol o) w) o
  < Order.quantity o.
Proof.
  intros Hre _ Hty Hq Hres.
  pose proof (reachable_exact_reachable w Hre) as Hr.
  destruct (reachable_dispatch o w Hr)
    as (s' & res & Hd & Hro & Hbok & Hnr & Hsame & _ & _ & _ & _ & Heq).
  rewrite Hres in Heq. subst res.
  assert (Hagg : book_agg (World.heap w) (_get_order_book (Order.symbol o) w)).
  { unfold _get_order_book.
    destruct (World.order_books w !! Order.symbol o) as [b|] eqn:Hb; simpl.
    - by eapply (reachable_world_agg w Hr).
    - split; intros k l Hl; simpl in Hl; by rewrite lookup_empty in Hl. }
  rewrite dispatch_fok in Hd by (by rewrite Hro).
  destruct (MatchingEngine._can_fully_fill _ _) as [[|]|e] eqn:Hprobe;
    [|clear Hd|done].
  - (* the probe said yes: then the order trades or the call raises *)
    destruct (can_fully_fill_true _ _ Hprobe) as (p & Hbest & Hacc).
    { by rewrite Hro, Hty. }
    unfold MatchingEngine._execute_limit_order in Hd.
    pose proof (match_order_raises (World.next_ref w)
                  (Env.mk (<[World.next_ref w := o]> (World.heap w))
                          (_get_order_book (Order.symbol o) w) (World.tlog w)))
      as Hraise.
    cbv zeta in Hraise. rewrite Hro, Hty in Hraise. simpl in Hraise.
    destruct (MatchingEngine._match_order _ false _) as [s1 res1] eqn:Hrun.
    destruct (Hraise s1 res1 Hbok Hnr eq_refl) as (_ & _ & Hret & _).
    destruct res1 as [ts|e]; [|by injection Hd].
    destruct (Hret ts eq_refl) as (Hpos & _ & Hnil).
    assert (ts = []) as ->.
    { destruct (_ && _) in Hd; [destruct (OrderBook.add_order _ _ _) as [? []]|];
        congruence. }
    rewrite (Hnil eq_refl) in Hpos. rewrite Hro in Hpos.
    destruct (Hpos Hq) as (_ & _ & Hno). rewrite Hro in Hbest, Hacc.
    by rewrite (Hno p Hbest) in Hacc.
  - (* the probe said no *)
    unfold MatchingEngine._can_fully_fill in Hprobe. rewrite Hro in Hprobe.
    simpl in Hprobe. unfold available.
    destruct (Order.price o) as [limit|] eqn:Hp; [|done].
    assert (Hf : forall ps,
              List.filter (accepts o) ps
              = List.filter (fun p => if String.eqb (Order.side o) "buy"
                                      then p <=? normalize_price limit
                                      else normalize_price limit <=? p) ps).
    { intros ps. apply List.filter_ext. intros p. unfold accepts.
      by rewrite Hty, Hp. }
    rewrite Hf. destruct Hagg as [Hbids Hasks]. simpl.
    rewrite <- (Z.add_0_l (queue_sum _ _)).
    destruct (String.eqb (Order.side o) "buy").
    + apply (can_fill_loop_false (World.heap w) _ true _ _ Hasks);
        [apply sorted_keys_lt| |done|done].
      intros p Hin. by apply elem_of_sorted, elem_of_keys in Hin.
    + apply (can_fill_loop_false (World.heap w) _ false _ _ Hbids);
        [apply sorted_reverse_keys_gt| |done|done].
      intros p Hin. by apply elem_of_sorted_reverse, elem_of_keys in Hin.
Qed.

Lemma fok_kill_justified_witness :
  let o := typed_order "fok" 3 "buy" 25000 1000000 in
  available (World.heap world_two_asks)
            (_get_order_book (Order.symbol o) world_two_asks) o
  < Order.quantity o.
Proof.
  apply (fok_kill_justified (typed_order "fok" 3 "buy" 25000 1000000)
           world_two_asks).
  - exact reachable_exact_two_asks.
  - vm_compute. reflexivity.
  - reflexivity.
  - reflexivity.
  - vm_compute. reflexivity.
Defined.

(** ** Placing an order and taking it out again *)

Lemma list_remove_last p (l : list nat) r :
  Forall (fun x => p x = false) l -> p r = true ->
  PriceLevel.list_remove p (l ++ [r]) = l.
Proof.
  intros Hl Hr. induction Hl as [|x l Hx _ IH]; simpl.
  - by rewrite Hr.
  - by rewrite Hx, IH.
Qed.

Lemma existsb_last p (l : list nat) r : p r = true -> existsb p (l ++ [r]) = true.
Proof.
  intros Hr. rewrite existsb_app. simpl. rewrite Hr. apply orb_true_iff.
  by right.
Qed.

(** One side of a book: queueing an order at the end of its level and
    removing it again gives the side back, when no other object of the
    level equals it and the levels present are not empty. *)
Lemma side_add_remove h (d : gmap Z PriceLevel.t) k order :
  (forall l, d !! k = Some l ->
     PriceLevel.orders l <> []
     /\ Forall (fun x => PriceLevel.same h order x = false) (PriceLevel.orders l)) ->
  let d1 := match d !! k with
            | None => <[k := PriceLevel.new k]> d
            | Some _ => d
            end in
  let d2 := alter (fun l => PriceLevel.add_order h l order) k d1 in
  exists level,
    d2 !! k = Some level
    /\ (let level' := PriceLevel.remove_order h level order in
        if PriceLevel.is_empty level' then delete k d2
        else <[k := level']> d2) = d.
Proof.
  intros Hlev d1 d2. subst d1 d2.
  assert (Hself : PriceLevel.same h order order = true).
  { unfold PriceLevel.same. by rewrite bool_decide_eq_true_2. }
  destruct (d !! k) as [l|] eqn:Hl.
  - destruct (Hlev l eq_refl) as [Hne Hno].
    exists (PriceLevel.add_order h l order). split.
    { by rewrite lookup_alter_eq, Hl. }
    unfold PriceLevel.remove_order, PriceLevel.add_order. simpl.
    rewrite existsb_last by done. rewrite list_remove_last by done.
    unfold PriceLevel.is_empty. simpl.
    destruct (PriceLevel.orders l) as [|x xs] eqn:Ho; [done|]. simpl.
    rewrite insert_alter_eq. apply insert_id. rewrite Hl. f_equal.
    destruct l as [pl ol tl]. simpl in *. subst ol. f_equal. lia.
  - exists (PriceLevel.add_order h (PriceLevel.new k) order). split.
    { by rewrite lookup_alter_eq, lookup_insert_eq. }
    unfold PriceLevel.remove_order, PriceLevel.add_order. simpl.
    rewrite Hself. simpl.
    rewrite delete_alter_eq. by apply delete_insert_id.
Qed.

(** The book: [remove_order] undoes [add_order], index included, for an
    order whose id is not in the index and that equals no resting order. *)
Lemma add_remove_round_trip h order b b1 :
  book_ok h b ->
  (forall x, resting b x -> PriceLevel.same h order x = false) ->
  OrderBook.orders b !! Order.id (h !!! order) = None ->
  OrderBook.add_order h order b = (b1, Return tt) ->
  OrderBook.remove_order h order b1 = (b, Return tt).
Proof.
  intros (Hbids & Hasks & _) Hno Hix. unfold OrderBook.add_order.
  destruct (Order.price (h !!! order)) as [p|] eqn:Hp; [|done].
  intros [= <-]. unfold OrderBook.remove_order. rewrite Hp.
  unfold OrderBook.side_book, OrderBook.set_side_book, OrderBook.set_orders.
  destruct (String.eqb (Order.side (h !!! order)) "buy") eqn:Hside; simpl.
  - destruct (side_add_remove h (OrderBook.bids b) (normalize_price p) order)
      as (level & Hl & Heq).
    { intros l Hl. destruct (Hbids _ _ Hl) as (Hne & _ & _). split; [done|].
      apply Forall_forall. intros x Hx. apply Hno. left.
      by exists (normalize_price p), l. }
    cbv zeta in Hl, Heq. rewrite Hl, Heq. rewrite delete_insert_id by done.
    by destruct b.
  - destruct (side_add_remove h (OrderBook.asks b) (normalize_price p) order)
      as (level & Hl & Heq).
    { intros l Hl. destruct (Hasks _ _ Hl) as (Hne & _ & _). split; [done|].
      apply Forall_forall. intros x Hx. apply Hno. right.
      by exists (normalize_price p), l. }
    cbv zeta in Hl, Heq. rewrite Hl, Heq. rewrite delete_insert_id by done.
    by destruct b.
Qed.

(** A call of [dispatch] that returns no trade leaves everything as it was,
    or has only queued the order. *)
Lemma dispatch_no_trade order s s' :
  book_ok (Env.heap s) (Env.book s) ->
  ~ resting (Env.book s) order ->
  MatchingEngine.dispatch order s = (s', Return []) ->
  s' = s
  \/ (0 < Order.quantity (Env.heap s !!! order)
      /\ exists b, OrderBook.add_order (Env.heap s) order (Env.book s)
                   = (b, Return tt)
                   /\ s' = Env.set_book s b).
Proof.
  intros Hbok Hnr.
  assert (Hmatch : forall market s1,
            market = String.eqb (Order.order_type (Env.heap s !!! order)) "market" ->
            MatchingEngine._match_order order market s = (s1, Return []) -> s1 = s).
  { intros market s1 -> Hrun.
    destruct (match_order_raises order s s1 (Return []) Hbok Hnr Hrun)
      as (_ & _ & Hret & _).
    destruct (Hret [] eq_refl) as (_ & _ & Hnil). by apply Hnil. }
  assert (Hlimit : forall ioc,
            String.eqb (Order.order_type (Env.heap s !!! order)) "market" = false ->
            MatchingEngine._execute_limit_order order ioc s = (s', Return []) ->
            s' = s
            \/ (0 < Order.quantity (Env.heap s !!! order)
                /\ exists b, OrderBook.add_order (Env.heap s) order (Env.book s)
                             = (b, Return tt)
                             /\ s' = Env.set_book s b)).
  { intros ioc Hm. unfold MatchingEngine._execute_limit_order.
    destruct (MatchingEngine._match_order order false s) as [s1 [ts|e]] eqn:Hrun;
      [|done].
    destruct (Z.ltb_spec 0 (Order.quantity (Env.heap s1 !!! order))) as [Hq|Hq];
      destruct ioc; simpl.
    - intros [= <- ->]. left. apply (Hmatch false); [by rewrite Hm|done].
    - destruct (OrderBook.add_order _ _ _) as [b [[]|e]] eqn:Hadd; [|done].
      intros [= <- ->]. rewrite (Hmatch false s1) in * by (by rewrite ?Hm).
      right. split; [done|]. by exists b.
    - intros [= <- ->]. left. apply (Hmatch false); [by rewrite Hm|done].
    - intros [= <- ->]. left. apply (Hmatch false); [by rewrite Hm|done]. }
  unfold MatchingEngine.dispatch.
  destruct (String.eqb (Order.order_type (Env.heap s !!! order)) "market") eqn:Hm.
  { intros Hrun. left. by apply (Hmatch true). }
  destruct (String.eqb _ "limit"); [by apply Hlimit|].
  destruct (String.eqb _ "ioc"); [by apply Hlimit|].
  destruct (String.eqb _ "fok").
  - destruct (MatchingEngine._can_fully_fill order s) as [[|]|e];
      [by apply Hlimit|intros [= <-]; by left|done].
  - intros [= <-]. by left.
Qed.

(** X21: submitting an order that is accepted without a trade and then
    cancelling it by its id gives the book of its symbol back exactly as it
    was (levels, queues, aggregates and id index), provided the id was not
    in that book before.  Nothing else changes but the heap, which holds
    the new object; the cancellation answers [None] when the order had been
    queued and [False] when it had not.

    The statement is made for quantities the code computes exactly
    ([exact_world] for the state, [exact_quantity] for the order); with
    other quantities the sums and differences of the code are rounded. *)
Theorem submit_cancel_round_trip o w i :
  reachable w ->
  exact_world w = true ->
  exact_quantity (Order.quantity o) = true ->
  in_book (World.heap w) (_get_order_book (Order.symbol o) w) (Order.id o)
  = false ->
  (submit_order o w).2 = Accepted i 0 ->
  let w1 := (submit_order o w).1 in
  let w2 := (cancel_order (Order.symbol o) (Order.id o) w1).1 in
  let res := (cancel_order (Order.symbol o) (Order.id o) w1).2 in
  _get_order_book (Order.symbol o) w2 = _get_order_book (Order.symbol o) w
  /\ (forall s, s <> Order.symbol o ->
        World.order_books w2 !! s = World.order_books w !! s)
  /\ World.heap w2 = <[World.next_ref w := o]> (World.heap w)
  /\ World.tlog w2 = World.tlog w
  /\ res = (if bool_decide (resting (_get_order_book (Order.symbol o) w1)
                                    (World.next_ref w))
            then Return PNone else Return (PBool false)).
Proof.
  intros Hr _ _ Hfresh Hacc w1 w2 res. subst w1 w2 res.
  destruct (submit_order_cases o w) as [(_ & _ & Heq)|(_ & Hw & Hres)].
  { by rewrite Heq in Hacc. }
  rewrite Hw. rewrite Hres in Hacc. clear Hw Hres.
  destruct (reachable_dispatch o w Hr)
    as (s' & res & Hd & Hro & Hbok & Hnr & Hsame & Hheap & Htlog & Hbooks
        & Hbook & Hres).
  rewrite Hres in Hacc. destruct res as [ts|e]; [|done].
  assert (ts = []) as -> by (destruct ts; [done|by injection Hacc]).
  clear Hacc Hres.
  assert (Hix : OrderBook.orders (_get_order_book (Order.symbol o) w)
                !! Order.id o = None).
  { destruct (OrderBook.orders _ !! Order.id o) eqn:Hi; [|done].
    assert (in_book (World.heap w) (_get_order_book (Order.symbol o) w)
                    (Order.id o) = true); [|congruence].
    apply in_book_true. right. by rewrite Hi. }
  assert (Htwin : forall x,
            resting (_get_order_book (Order.symbol o) w) x ->
            PriceLevel.same (<[World.next_ref w := o]> (World.heap w))
                            (World.next_ref w) x = false).
  { intros x Hx. unfold PriceLevel.same. apply orb_false_iff. split.
    - apply bool_decide_eq_false. intros ->. by apply Hnr.
    - apply bool_decide_eq_false. simpl in Hro, Hsame. rewrite Hro, (Hsame x Hx).
      intros Heq.
      assert (in_book (World.heap w) (_get_order_book (Order.symbol o) w)
                      (Order.id o) = true); [|congruence].
      apply in_book_true. left. exists x. by rewrite Heq. }
  unfold cancel_order. rewrite Hbooks, lookup_insert_eq.
  destruct (dispatch_no_trade _ _ _ Hbok Hnr Hd)
    as [->|(Hq & b & Hadd & ->)]; simpl in *.
  - rewrite Hix. simpl. rewrite Hbook, Hbooks, Hheap, Htlog. simpl.
    split; [done|]. split; [intros s Hs; by rewrite lookup_insert_ne|].
    split; [done|]. split; [done|]. by rewrite bool_decide_eq_false_2.
  - assert (Hin : OrderBook.orders b !! Order.id o = Some (World.next_ref w)).
    { pose proof (add_order_index _ _ _ _ _ Hadd) as Hi. rewrite Hi, Hro.
      apply lookup_insert_eq. }
    rewrite Hin, Hheap. simpl.
    pose proof (add_remove_round_trip _ _ _ b Hbok Htwin) as Hrt.
    simpl in Hrt. rewrite lookup_total_insert_eq in Hrt.
    rewrite (Hrt Hix Hadd).
    simpl. unfold _get_order_book at 1. simpl. rewrite lookup_insert_eq. simpl.
    split; [done|].
    split; [intros s Hs; by rewrite !lookup_insert_ne|].
    split; [done|]. split; [done|].
    rewrite Hbook. rewrite bool_decide_eq_true_2; [done|].
    destruct (Order.price o) as [p|] eqn:Hp.
    + refine (proj1 (add_order_resting _ _ _ _ _ p _ Hadd)). simpl.
      by rewrite lookup_total_insert_eq.
    + unfold OrderBook.add_order in Hadd. simpl in Hadd.
      rewrite lookup_total_insert_eq, Hp in Hadd. done.
Qed.

Lemma submit_cancel_round_trip_witness :
  let o := limit_order 3 "buy" 10000 990000 in
  let w := world_two_asks in
  let w1 := (submit_order o w).1 in
  let w2 := (cancel_order (Order.symbol o) (Order.id o) w1).1 in
  let res := (cancel_order (Order.symbol o) (Order.id o) w1).2 in
  _get_order_book (Order.symbol o) w2 = _get_order_book (Order.symbol o) w
  /\ (forall s, s <> Order.symbol o ->
        World.order_books w2 !! s = World.order_books w !! s)
  /\ World.heap w2 = <[World.next_ref w := o]> (World.heap w)
  /\ World.tlog w2 = World.tlog w
  /\ res = (if bool_decide (resting (_get_order_book (Order.symbol o) w1)
                                    (World.next_ref w))
            then Return PNone else Return (PBool false)).
Proof.
  apply (submit_cancel_round_trip (limit_order 3 "buy" 10000 990000)
           world_two_asks 3%N).
  - exact reachable_two_asks.
  - vm_compute. reflexivity.
  - vm_compute. reflexivity.
  - vm_compute. reflexivity.
  - vm_compute. reflexivity.
Defined.

(** ** The pending stop orders *)

Lemma store_get_Some symbol l l0 d :
  StopOrders.get symbol d = Some l0 ->
  exists d1 d2,
    d = d1 ++ (symbol, l0) :: d2
    /\ (symbol ∉ d1.*1)
    /\ StopOrders.store symbol l d = d1 ++ (symbol, l) :: d2.
Proof.
  induction d as [|[s x] d IH]; simpl; [done|].
  destruct (String.eqb_spec s symbol) as [->|Hne].
  - intros [= ->]. exists [], d. split; [done|]. split; [|done].
    simpl. apply not_elem_of_nil.
  - intros Hg. destruct (IH Hg) as (d1 & d2 & -> & Hnot & ->).
    exists ((s, x) :: d1), d2. split; [done|]. split; [|done].
    simpl. intros [?|?]%elem_of_cons; [congruence|done].
Qed.

Lemma store_get_None symbol l d :
  StopOrders.get symbol d = None ->
  (symbol ∉ d.*1) /\ StopOrders.store symbol l d = d ++ [(symbol, l)].
Proof.
  induction d as [|[s x] d IH]; simpl.
  - intros _. split; [apply not_elem_of_nil|done].
  - destruct (String.eqb_spec s symbol) as [->|Hne]; [done|].
    intros Hg. destruct (IH Hg) as [Hnot ->]. split; [|done].
    intros [?|?]%elem_of_cons; [congruence|done].
Qed.

Lemma get_store_eq symbol l d :
  StopOrders.get symbol (StopOrders.store symbol l d) = Some l.
Proof.
  induction d as [|[s x] d IH]; simpl.
  - by rewrite String.eqb_refl.
  - destruct (String.eqb_spec s symbol) as [->|Hne]; simpl.
    + by rewrite String.eqb_refl.
    + by destruct (String.eqb_spec s symbol).
Qed.

Lemma get_store_ne symbol symbol' l d :
  symbol' <> symbol ->
  StopOrders.get symbol' (StopOrders.store symbol l d) = StopOrders.get symbol' d.
Proof.
  intros Hne. induction d as [|[s x] d IH]; simpl.
  - by destruct (String.eqb_spec symbol symbol').
  - destruct (String.eqb_spec s symbol) as [->|Hs]; simpl.
    + by destruct (String.eqb_spec symbol symbol').
    + by rewrite IH.
Qed.

Lemma get_elem_of symbol l d :
  StopOrders.get symbol d = Some l -> (symbol, l) ∈ d.
Proof.
  induction d as [|[s x] d IH]; simpl; [done|].
  destruct (String.eqb_spec s symbol) as [->|Hne].
  - intros [= ->]. left.
  - intros Hg. right. by apply IH.
Qed.

Lemma elem_of_get symbol l d :
  NoDup d.*1 -> (symbol, l) ∈ d -> StopOrders.get symbol d = Some l.
Proof.
  induction d as [|[s x] d IH]; simpl; [by intros _ ?%elem_of_nil|].
  intros [Hnot Hnd]%NoDup_cons Hin.
  apply elem_of_cons in Hin as [[= -> ->]|Hin].
  - by rewrite String.eqb_refl.
  - destruct (String.eqb_spec s symbol) as [->|Hne]; [|by apply IH].
    exfalso. apply Hnot. apply list_elem_of_fmap. by exists (symbol, l).
Qed.

Lemma refs_app d1 d2 :
  StopOrders.refs (d1 ++ d2) = StopOrders.refs d1 ++ StopOrders.refs d2.
Proof. unfold StopOrders.refs. apply bind_app. Qed.

Lemma refs_cons symbol l d :
  StopOrders.refs ((symbol, l) :: d) = l ++ StopOrders.refs d.
Proof. reflexivity. Qed.

Lemma elem_of_refs d r :
  r ∈ StopOrders.refs d <-> exists symbol l, (symbol, l) ∈ d /\ r ∈ l.
Proof.
  unfold StopOrders.refs. rewrite list_elem_of_bind. split.
  - intros ([s l] & Hr & Hin). by exists s, l.
  - intros (s & l & Hin & Hr). by exists (s, l).
Qed.

(** ** What [process_order] does to the world, for an object that is
    allocated and rests nowhere *)

Lemma process_order_effect order w :
  world_ok w -> (order < World.next_ref w)%nat ->
  (forall sym b, World.order_books w !! sym = Some b -> ~ resting b order) ->
  let w' := (process_order order w).1 in
  let symbol := Order.symbol (World.heap w !!! order) in
  world_ok w'
  /\ World.next_ref w' = World.next_ref w
  /\ frozen (World.heap w) (World.heap w')
  /\ (forall x, x <> order ->
        (forall sym b, World.order_books w !! sym = Some b -> ~ resting b x) ->
        World.heap w' !!! x = World.heap w !!! x)
  /\ (forall sym, sym <> symbol ->
        World.order_books w' !! sym = World.order_books w !! sym)
  /\ (forall sym b' x, World.order_books w' !! sym = Some b' -> resting b' x ->
        x = order
        \/ exists b, World.order_books w !! sym = Some b /\ resting b x).
Proof.
  intros Hok Hlt Hfresh w' symbol. subst w'.
  split; [by apply process_order_ok|].
  pose proof (process_order_frozen order w Hok Hfresh) as (_ & Hfr & Hso & Hres & _).
  pose proof (process_order_books order w) as Hbooks.
  destruct (process_order_dispatch order w) as (Hheap & _ & _).
  cbv zeta in Hheap. fold symbol in Hfr, Hso, Hres, Hbooks, Hheap.
  simpl in Hfr, Hso, Hres.
  assert (Hget : forall x, resting (_get_order_book symbol w) x ->
            exists b, World.order_books w !! symbol = Some b /\ resting b x).
  { intros x Hx. unfold _get_order_book in Hx.
    destruct (World.order_books w !! symbol) as [b|]; simpl in Hx.
    - by exists b.
    - by apply resting_new in Hx. }
  split; [unfold process_order; by destruct (MatchingEngine.dispatch _ _)|].
  split; [by rewrite Hheap|]. split.
  { intros x Hx Hnr. rewrite Hheap. apply Hso. intros [->|Hrx]; [done|].
    destruct (Hget x Hrx) as (b & Hb & Hxb). by eapply Hnr. }
  split; [intros sym Hsym; by rewrite Hbooks, lookup_insert_ne|].
  intros sym b' x Hb' Hx. rewrite Hbooks in Hb'.
  destruct (decide (symbol = sym)) as [<-|Hne].
  - rewrite lookup_insert_eq in Hb'. injection Hb' as <-.
    destruct (Hres x Hx) as [->|Hrx]; [by left|right]. by apply Hget.
  - rewrite lookup_insert_ne in Hb' by done. right. by exists b'.
Qed.

(** Changing an object that rests nowhere keeps the world well formed. *)
Lemma world_ok_update order o w :
  world_ok w ->
  (forall sym b, World.order_books w !! sym = Some b -> ~ resting b order) ->
  world_ok (World.mk (<[order := o]> (World.heap w)) (World.next_ref w)
                     (World.order_books w) (World.tlog w)).
Proof.
  intros Hok Hfresh symbol b Hb. simpl in *.
  destruct (Hok symbol b Hb) as [Hbok Hres].
  assert (Hsame : forall x, resting b x ->
            (<[order := o]> (World.heap w) : gmap nat Order.t) !!! x
            = World.heap w !!! x).
  { intros x Hx. apply lookup_total_insert_ne. intros <-. by eapply Hfresh. }
  split; [by eapply book_ok_same|].
  intros r Hr. destruct (Hres r Hr) as [Hlt Hsym]. split; [done|].
  by rewrite Hsame.
Qed.
(** ** One triggered order *)

Lemma triggered_admitted_symbol o i : Order.symbol (triggered o i) = Order.symbol o.
Proof. reflexivity. Qed.

(** The step [trigger] for the order at the head of what is left to
    trigger, [nt] being pending orders before it that do not equal it. *)
Lemma trigger_step uuid4 symbol order st nt rest :
  system_ok st ->
  StopOrders.pending symbol (System.stop_orders_by_symbol st)
  = nt ++ order :: rest ->
  Forall (fun x => PriceLevel.same (World.heap (System.world st)) order x = false)
         nt ->
  let st' := (trigger uuid4 symbol order st).1 in
  let res := (trigger uuid4 symbol order st).2 in
  res <> Died ValueError
  /\ system_ok st'
  /\ StopOrders.pending symbol (System.stop_orders_by_symbol st') = nt ++ rest
  /\ (forall sym, sym <> symbol ->
        StopOrders.get sym (System.stop_orders_by_symbol st')
        = StopOrders.get sym (System.stop_orders_by_symbol st))
  /\ (System.stop_orders_by_symbol st').*1 = (System.stop_orders_by_symbol st).*1
  /\ System.drawn st' = S (System.drawn st)
  /\ (forall x, x ∈ StopOrders.refs (System.stop_orders_by_symbol st') ->
        x <> order
        /\ x ∈ StopOrders.refs (System.stop_orders_by_symbol st)
        /\ World.heap (System.world st') !!! x
           = World.heap (System.world st) !!! x)
  /\ (forall y, y <> order ->
        static (World.heap (System.world st') !!! y)
        = static (World.heap (System.world st) !!! y))
  /\ (forall sym, sym <> symbol ->
        World.order_books (System.world st') !! sym
        = World.order_books (System.world st) !! sym)
  /\ static (World.heap (System.world st') !!! order)
     = static (triggered (World.heap (System.world st) !!! order)
                         (uuid4 (System.drawn st))).
Proof.
  intros (Hok & Hkeys & Hnd & Hpend) Hl Hnt st' res. subst st' res.
  set (w := System.world st) in *.
  set (d := System.stop_orders_by_symbol st) in *.
  assert (Hget : StopOrders.get symbol d = Some (nt ++ order :: rest)).
  { unfold StopOrders.pending in Hl. destruct (StopOrders.get symbol d) as [l|];
      simpl in Hl; [by rewrite Hl|]. by destruct nt. }
  destruct (store_get_Some symbol (nt ++ rest) _ d Hget)
    as (d1 & d2 & Hd & Hnot & Hstore).
  assert (Hself : PriceLevel.same (World.heap w) order order = true).
  { unfold PriceLevel.same. by rewrite bool_decide_eq_true_2. }
  assert (Hex : existsb (PriceLevel.same (World.heap w) order)
                        (nt ++ order :: rest) = true).
  { rewrite existsb_app. simpl. rewrite Hself. simpl. apply orb_true_r. }
  assert (Hrm : PriceLevel.list_remove (PriceLevel.same (World.heap w) order)
                  (nt ++ order :: rest) = nt ++ rest).
  { clear -Hnt Hself. induction Hnt as [|x nt Hx _ IH]; simpl.
    - by rewrite Hself.
    - by rewrite Hx, IH. }
  assert (Hord : pending_ok w symbol order).
  { apply (Hpend symbol (nt ++ order :: rest)); [by apply get_elem_of|].
    apply elem_of_app. right. left. }
  destruct Hord as (Hlt & Hsym & Hadm & Hnr).
  assert (Hrefs : StopOrders.refs d
                  = StopOrders.refs d1 ++ (nt ++ order :: rest) ++ StopOrders.refs d2).
  { by rewrite Hd, refs_app, refs_cons. }
  assert (Hrefs' : StopOrders.refs (d1 ++ (symbol, nt ++ rest) :: d2)
                   = StopOrders.refs d1 ++ (nt ++ rest) ++ StopOrders.refs d2).
  { by rewrite refs_app, refs_cons. }
  assert (Hsub : forall x, x ∈ StopOrders.refs (d1 ++ (symbol, nt ++ rest) :: d2) ->
            x <> order /\ exists s l, (s, l) ∈ d /\ x ∈ l).
  { intros x Hx. rewrite Hrefs' in Hx. rewrite Hrefs in Hnd.
    apply NoDup_app in Hnd as (Hnd1 & Hdis1 & Hnd23).
    apply NoDup_app in Hnd23 as (Hnd2 & Hdis2 & Hnd3).
    apply NoDup_app in Hnd2 as (Hndnt & Hdisnt & Hndr).
    apply NoDup_cons in Hndr as [Hnotr _].
    apply elem_of_app in Hx as [Hx|Hx]; [|apply elem_of_app in Hx as [Hx|Hx]].
    - split.
      + intros ->. apply (Hdis1 order Hx). apply elem_of_app. left.
        apply elem_of_app. right. left.
      + apply elem_of_refs in Hx as (s & l & Hin & Hxl). exists s, l.
        split; [|done]. rewrite Hd. apply elem_of_app. by left.
    - split.
      + intros ->. apply elem_of_app in Hx as [Hx|Hx].
        * apply (Hdisnt order Hx). left.
        * done.
      + exists symbol, (nt ++ order :: rest). split; [by apply get_elem_of|].
        apply elem_of_app in Hx as [Hx|Hx]; apply elem_of_app; [by left|].
        right. by right.
    - split.
      + intros ->. apply (Hdis2 order); [|done]. apply elem_of_app. right. left.
      + apply elem_of_refs in Hx as (s & l & Hin & Hxl). exists s, l.
        split; [|done]. rewrite Hd. apply elem_of_app. right. by right. }
  unfold trigger. fold w d. rewrite Hl, Hex, Hrm, Hstore.
  set (o' := triggered (World.heap w !!! order) (uuid4 (System.drawn st))).
  set (w1 := World.mk (<[order := o']> (World.heap w)) (World.next_ref w)
                      (World.order_books w) (World.tlog w)).
  assert (Hok1 : world_ok w1) by (by apply world_ok_update).
  destruct (process_order_effect order w1 Hok1 Hlt Hnr)
    as (Hok2 & Hnext & Hfr & Hother & Hbooks & Hrest).
  simpl in Hother, Hbooks, Hrest, Hfr.
  rewrite lookup_total_insert_eq in Hbooks. simpl in Hbooks.
  destruct (process_order order w1) as [w2 r2] eqn:Hrun. simpl in *.
  assert (Hheap : forall x,
            x ∈ StopOrders.refs (d1 ++ (symbol, nt ++ rest) :: d2) ->
            World.heap w2 !!! x = World.heap w !!! x
            /\ exists s l, (s, l) ∈ d /\ x ∈ l).
  { intros x Hx. destruct (Hsub x Hx) as (Hne & s & l & Hin & Hxl).
    split; [|by exists s, l].
    destruct (Hpend s l x Hin Hxl) as (_ & _ & _ & Hnrx).
    rewrite Hother by done. by apply lookup_total_insert_ne. }
  split; [by destruct r2|].
  cbn [System.world System.stop_orders_by_symbol System.drawn].
  split.
  { unfold system_ok.
    cbn [System.world System.stop_orders_by_symbol System.drawn].
    split; [done|]. split.
    { rewrite Hd in Hkeys. rewrite fmap_app, fmap_cons in Hkeys.
      by rewrite fmap_app, fmap_cons. }
    split.
    { rewrite Hrefs'. rewrite Hrefs in Hnd.
      eapply sublist_NoDup; [exact Hnd|].
      apply sublist_app; [done|]. apply sublist_app; [|done].
      apply sublist_app; [done|]. by apply sublist_cons. }
    intros s l x Hin Hxl.
    assert (Hx : x ∈ StopOrders.refs (d1 ++ (symbol, nt ++ rest) :: d2)).
    { apply elem_of_refs. by exists s, l. }
    destruct (Hsub x Hx) as (Hne & _).
    assert (Hold : exists l0, (s, l0) ∈ d /\ x ∈ l0).
    { apply elem_of_app in Hin as [Hin|Hin].
      - exists l. split; [|done]. rewrite Hd. apply elem_of_app. by left.
      - apply elem_of_cons in Hin as [[= -> ->]|Hin].
        + exists (nt ++ order :: rest). split; [by apply get_elem_of|].
          apply elem_of_app in Hxl as [?|?]; apply elem_of_app; [by left|].
          right. by right.
        + exists l. split; [|done]. rewrite Hd. apply elem_of_app. right.
          by right. }
    destruct Hold as (l0 & Hin0 & Hxl0).
    destruct (Hpend s l0 x Hin0 Hxl0) as (Hltx & Hsymx & Hadmx & Hnrx).
    destruct (Hheap x Hx) as [Hhx _].
    split; [lia|]. split; [by rewrite Hhx|]. split; [by rewrite Hhx|].
    intros sym b' Hb' Hrx.
    destruct (Hrest sym b' x Hb' Hrx) as [->|(b & Hb & Hxb)]; [done|].
    by eapply Hnrx. }
  split.
  { unfold StopOrders.pending. rewrite <- Hstore. by rewrite get_store_eq. }
  split.
  { intros sym Hne. rewrite <- Hstore. by apply get_store_ne. }
  split.
  { rewrite Hd. by rewrite !fmap_app, !fmap_cons. }
  split; [done|].
  split.
  { intros x Hx. destruct (Hheap x Hx) as (Hhx & sx & lx & Hin & Hxl).
    split; [by apply Hsub|]. split; [|done]. apply elem_of_refs. by exists sx, lx. }
  split.
  { intros y Hy. rewrite Hfr. by rewrite lookup_total_insert_ne. }
  split; [intros sym Hne; apply Hbooks; by rewrite Hsym|].
  rewrite Hfr. by rewrite lookup_total_insert_eq.
Qed.

(** ** Parts of a pass of the monitor *)

Lemma monitor_ok_refl uuid4 touched st :
  system_ok st -> monitor_ok uuid4 touched st st.
Proof.
  intros Hok. split; [done|]. split; [done|]. split; [done|].
  split; [done|]. split; [done|]. split; [done|]. done.
Qed.

Lemma monitor_ok_weaken uuid4 (P Q : string -> Prop) st st' :
  (forall s, P s -> Q s) -> monitor_ok uuid4 P st st' -> monitor_ok uuid4 Q st st'.
Proof.
  intros HPQ (H1 & H2 & H3 & H4 & H5 & H6 & H7).
  split; [done|]. split; [done|]. split; [done|].
  split; [done|]. split; [done|]. split; [done|].
  intros sym Hsym. apply H7. intros HP. by apply Hsym, HPQ.
Qed.

Lemma monitor_ok_trans uuid4 (P : string -> Prop) st st1 st2 :
  monitor_ok uuid4 P st st1 -> monitor_ok uuid4 P st1 st2 ->
  monitor_ok uuid4 P st st2.
Proof.
  intros (_ & Hk1 & Hd1 & Hp1 & Hs1 & Ht1 & Ho1)
         (Hok & Hk2 & Hd2 & Hp2 & Hs2 & Ht2 & Ho2).
  split; [done|]. split; [congruence|]. split; [cbv zeta in *; lia|].
  split.
  { intros x Hx. destruct (Hp2 x Hx) as [Hx1 Hh2].
    destruct (Hp1 x Hx1) as [Hx0 Hh1]. split; [done|]. congruence. }
  split.
  { intros y Hy. rewrite Hs2; [by apply Hs1|].
    intros Hy1. by destruct (Hp1 y Hy1). }
  split.
  { intros r Hr Hr2.
    destruct (decide (r ∈ StopOrders.refs (System.stop_orders_by_symbol st1)))
      as [Hr1|Hr1].
    - destruct (Ht2 r Hr1 Hr2) as (i & Hi & Hst). exists i. split; [lia|].
      destruct (Hp1 r Hr1) as [_ Hh]. by rewrite Hst, Hh.
    - destruct (Ht1 r Hr Hr1) as (i & Hi & Hst). exists i. split; [lia|].
      by rewrite Hs2. }
  intros sym Hsym. destruct (Ho1 sym Hsym) as [Hg1 Hb1].
  destruct (Ho2 sym Hsym) as [Hg2 Hb2]. split; congruence.
Qed.

Lemma pending_NoDup symbol st :
  system_ok st ->
  NoDup (StopOrders.pending symbol (System.stop_orders_by_symbol st)).
Proof.
  intros (_ & _ & Hnd & _). unfold StopOrders.pending.
  destruct (StopOrders.get symbol _) as [l|] eqn:Hg; simpl; [|constructor].
  destruct (store_get_Some symbol l _ _ Hg) as (d1 & d2 & Hd & _ & _).
  rewrite Hd, refs_app, refs_cons in Hnd.
  apply NoDup_app in Hnd as (_ & _ & Hnd). by apply NoDup_app in Hnd as (? & _ & _).
Qed.

Lemma pending_refs symbol d x :
  x ∈ StopOrders.pending symbol d -> x ∈ StopOrders.refs d.
Proof.
  unfold StopOrders.pending.
  destruct (StopOrders.get symbol d) as [l|] eqn:Hg; simpl;
    [|by intros ?%elem_of_nil].
  intros Hx. apply elem_of_refs. exists symbol, l. split; [|done].
  by apply get_elem_of.
Qed.

(** One triggered order, as a part of a pass. *)
Lemma trigger_monitor_ok uuid4 symbol order st nt rest :
  system_ok st ->
  StopOrders.pending symbol (System.stop_orders_by_symbol st)
  = nt ++ order :: rest ->
  Forall (fun x => PriceLevel.same (World.heap (System.world st)) order x = false)
         nt ->
  (trigger uuid4 symbol order st).2 <> Died ValueError
  /\ monitor_ok uuid4 (eq symbol) st (trigger uuid4 symbol order st).1
  /\ StopOrders.pending symbol
       (System.stop_orders_by_symbol (trigger uuid4 symbol order st).1)
     = nt ++ rest
  /\ System.drawn (trigger uuid4 symbol order st).1 = S (System.drawn st).
Proof.
  intros Hok Hl Hnt.
  destruct (trigger_step uuid4 symbol order st nt rest Hok Hl Hnt)
    as (Hres & Hok' & Hl' & Hget & Hkeys & Hdrawn & Hpend & Hstat & Hbooks & Hord).
  split; [done|]. split; [|done].
  split; [done|]. split; [done|]. split; [lia|].
  split; [intros x Hx; by destruct (Hpend x Hx) as (_ & ? & ?)|].
  split.
  { intros y Hy. apply Hstat. intros ->. apply Hy.
    apply (pending_refs symbol). rewrite Hl. apply elem_of_app. right. left. }
  split.
  { intros r Hr Hr'. exists (System.drawn st). split; [lia|].
    destruct (decide (r = order)) as [->|Hne]; [done|].
    exfalso. apply Hr'.
    apply elem_of_refs in Hr as (s & l & Hin & Hrl).
    destruct Hok as (_ & Hnd & _ & _).
    apply elem_of_get in Hin; [|done].
    destruct (decide (s = symbol)) as [->|Hs].
    - apply (pending_refs symbol). rewrite Hl'.
      unfold StopOrders.pending in Hl. rewrite Hin in Hl. simpl in Hl. subst l.
      apply elem_of_app in Hrl as [?|Hrl]; apply elem_of_app; [by left|right].
      apply elem_of_cons in Hrl as [?|?]; done.
    - apply elem_of_refs. exists s, l. split; [|done]. apply get_elem_of.
      by rewrite Hget. }
  intros sym Hsym. split; [apply Hget|apply Hbooks]; congruence.
Qed.

(** The second inner loop: the orders of [rest] that the quote triggers are
    executed in turn, the pending list of the symbol being [nt ++ rest] with
    nothing to trigger in [nt]. *)
Lemma trigger_all_spec uuid4 symbol bbo rest :
  forall nt st,
    system_ok st ->
    StopOrders.pending symbol (System.stop_orders_by_symbol st) = nt ++ rest ->
    Forall (fun x => should_trigger (World.heap (System.world st) !!! x) bbo
                     = false) nt ->
    let trig := fun x => should_trigger (World.heap (System.world st) !!! x) bbo in
    let run := trigger_all uuid4 symbol (List.filter trig rest) st in
    run.2 <> Died ValueError
    /\ monitor_ok uuid4 (eq symbol) st run.1
    /\ (run.2 = Completed ->
        StopOrders.pending symbol (System.stop_orders_by_symbol run.1)
        = nt ++ List.filter (fun x => negb (trig x)) rest
        /\ System.drawn run.1
           = (System.drawn st + length (List.filter trig rest))%nat).
Proof.
  induction rest as [|x rest IH]; intros nt st Hok Hl Hnt; cbv zeta; simpl.
  { split; [done|]. split; [by apply monitor_ok_refl|]. intros _.
    split; [done|lia]. }
  destruct (should_trigger (World.heap (System.world st) !!! x) bbo) eqn:Hx;
    simpl.
  2:{ (* [x] stays *)
      pose proof (IH (nt ++ [x]) st Hok) as IH1. cbv zeta in IH1.
      destruct IH1 as (Hres & Hmon & Hdone).
      { by rewrite <- app_assoc. }
      { apply Forall_app. split; [done|]. by constructor. }
      split; [done|]. split; [done|]. intros Hc.
      destruct (Hdone Hc) as [Hp Hdr]. by rewrite Hp, <- app_assoc. }
  (* [x] is triggered *)
  assert (Hnd : NoDup (nt ++ x :: rest)).
  { rewrite <- Hl. by apply pending_NoDup. }
  assert (Hsame : Forall (fun y => PriceLevel.same (World.heap (System.world st))
                                     x y = false) nt).
  { apply Forall_forall. intros y Hy. unfold PriceLevel.same.
    apply orb_false_iff. split; apply bool_decide_eq_false.
    - intros ->. apply NoDup_app in Hnd as (_ & Hdis & _).
      apply (Hdis x Hy). left.
    - intros Heq. rewrite Forall_forall in Hnt. specialize (Hnt y Hy).
      rewrite Heq in Hnt. congruence. }
  destruct (trigger_monitor_ok uuid4 symbol x st nt rest Hok Hl Hsame)
    as (Hres1 & Hmon1 & Hl1 & Hdr1).
  destruct (trigger uuid4 symbol x st) as [st1 [|e]] eqn:Hstep; simpl in *.
  2:{ split; [done|]. split; [done|]. done. }
  pose proof Hmon1 as (Hok1 & _ & _ & Hp1 & _).
  assert (Hsameh : forall y, y ∈ nt ++ rest ->
            World.heap (System.world st1) !!! y
            = World.heap (System.world st) !!! y).
  { intros y Hy. apply Hp1. apply (pending_refs symbol). by rewrite Hl1. }
  assert (Hnt1 : Forall (fun y => should_trigger
                           (World.heap (System.world st1) !!! y) bbo = false) nt).
  { apply Forall_forall. intros y Hy. rewrite Hsameh.
    - rewrite Forall_forall in Hnt. by apply Hnt.
    - apply elem_of_app. by left. }
  pose proof (IH nt st1 Hok1 Hl1 Hnt1) as IH1. cbv zeta in IH1.
  destruct IH1 as (Hres & Hmon & Hdone).
  assert (Hf : forall (f : Order.t -> bool),
            List.filter (fun y => f (World.heap (System.world st1) !!! y)) rest
            = List.filter (fun y => f (World.heap (System.world st) !!! y)) rest).
  { intros f. apply List.filter_ext_in. intros y Hy. rewrite Hsameh; [done|].
    apply elem_of_app. right. by apply list_elem_of_In. }
  rewrite (Hf (fun o => should_trigger o bbo)) in Hres, Hmon, Hdone.
  rewrite (Hf (fun o => negb (should_trigger o bbo))) in Hdone.
  split; [done|]. split; [by eapply monitor_ok_trans|].
  intros Hc. destruct (Hdone Hc) as [Hp Hdr]. split; [done|].
  rewrite Hdr, Hdr1. lia.
Qed.

(** The body of the outer loop, for one symbol. *)
Lemma monitor_symbol_ok uuid4 symbol st :
  system_ok st ->
  let bbo := get_bbo symbol (System.world st) in
  let trig := fun x => should_trigger (World.heap (System.world st) !!! x) bbo in
  let pending := StopOrders.pending symbol (System.stop_orders_by_symbol st) in
  let run := monitor_symbol uuid4 symbol st in
  run.2 <> Died ValueError
  /\ monitor_ok uuid4 (eq symbol) st run.1
  /\ (run.2 = Completed ->
      StopOrders.pending symbol (System.stop_orders_by_symbol run.1)
      = List.filter (fun x => negb (trig x)) pending
      /\ System.drawn run.1
         = (System.drawn st + length (List.filter trig pending))%nat).
Proof.
  intros Hok. cbv zeta. unfold monitor_symbol.
  by apply (trigger_all_spec uuid4 symbol _ _ [] st Hok).
Qed.

Lemma get_None_keys symbol d : StopOrders.get symbol d = None <-> symbol ∉ d.*1.
Proof.
  induction d as [|[s l] d IH]; simpl.
  - split; [intros _; apply not_elem_of_nil|done].
  - rewrite not_elem_of_cons.
    destruct (String.eqb_spec s symbol) as [->|Hne]; [split; [done|tauto]|].
    rewrite IH. split; [by split; [congruence|]|tauto].
Qed.

(** The outer loop over the symbols. *)
Lemma monitor_symbols_spec uuid4 symbols :
  forall st,
    system_ok st -> NoDup symbols ->
    let w := System.world st in
    let d := System.stop_orders_by_symbol st in
    let run := monitor_symbols uuid4 symbols st in
    run.2 <> Died ValueError
    /\ monitor_ok uuid4 (fun s => s ∈ symbols) st run.1
    /\ (run.2 = Completed ->
        forall symbol, symbol ∈ symbols ->
          StopOrders.pending symbol (System.stop_orders_by_symbol run.1)
          = List.filter
              (fun x => negb (should_trigger (World.heap w !!! x)
                                             (get_bbo symbol w)))
              (StopOrders.pending symbol d)).
Proof.
  induction symbols as [|s symbols IH]; intros st Hok Hnd; cbv zeta; simpl.
  { split; [done|]. split; [by apply monitor_ok_refl|].
    by intros _ symbol ?%elem_of_nil. }
  apply NoDup_cons in Hnd as [Hs Hnd].
  pose proof (monitor_symbol_ok uuid4 s st Hok) as H1. cbv zeta in H1.
  destruct H1 as (Hres1 & Hmon1 & Hdone1).
  assert (Hmon1' : monitor_ok uuid4 (fun x => x ∈ s :: symbols) st
                     (monitor_symbol uuid4 s st).1).
  { eapply monitor_ok_weaken; [|exact Hmon1]. intros x <-. left. }
  destruct (monitor_symbol uuid4 s st) as [st1 [|e]] eqn:Hrun; simpl in *.
  2:{ split; [done|]. split; [done|]. done. }
  pose proof Hmon1 as (Hok1 & _ & _ & Hp1 & _ & _ & Ho1).
  pose proof (IH st1 Hok1 Hnd) as H2. cbv zeta in H2.
  destruct H2 as (Hres2 & Hmon2 & Hdone2).
  split; [done|]. split.
  { eapply monitor_ok_trans; [exact Hmon1'|].
    eapply monitor_ok_weaken; [|exact Hmon2]. intros x Hx. by right. }
  intros Hc symbol Hin.
  destruct (decide (symbol = s)) as [->|Hne].
  - destruct Hmon2 as (_ & _ & _ & _ & _ & _ & Ho2).
    destruct (Ho2 s Hs) as [Hg _]. unfold StopOrders.pending at 1.
    rewrite Hg. by apply Hdone1.
  - apply elem_of_cons in Hin as [?|Hin]; [done|].
    rewrite (Hdone2 Hc symbol Hin).
    destruct (Ho1 symbol) as [Hg Hb]; [congruence|].
    unfold StopOrders.pending. rewrite Hg. unfold get_bbo. rewrite Hb.
    apply List.filter_ext_in. intros x Hx. apply list_elem_of_In in Hx.
    destruct (Hp1 x) as [_ ->]; [|done].
    apply (pending_refs symbol). unfold StopOrders.pending. by rewrite Hg.
Qed.

(** ** The states of the service are well formed *)

Lemma system_ok_init : system_ok System.init.
Proof.
  split; [apply world_ok_init|]. split; [constructor|]. split; [constructor|].
  by intros symbol l r ?%elem_of_nil.
Qed.

(** A step of the engine that keeps the allocated objects that rest
    nowhere, and lets no old object into a book. *)
Lemma system_ok_world st w' :
  system_ok st ->
  world_ok w' ->
  (World.next_ref (System.world st) <= World.next_ref w')%nat ->
  (forall x, (x < World.next_ref (System.world st))%nat ->
     (forall sym b, World.order_books (System.world st) !! sym = Some b ->
                    ~ resting b x) ->
     World.heap w' !!! x = World.heap (System.world st) !!! x
     /\ forall sym b, World.order_books w' !! sym = Some b -> ~ resting b x) ->
  system_ok (System.set_world st w').
Proof.
  intros (Hok & Hkeys & Hnd & Hpend) Hok' Hnext Hkeep.
  split; [done|]. split; [done|]. split; [done|].
  intros symbol l r Hin Hr. simpl in *.
  destruct (Hpend symbol l r Hin Hr) as (Hlt & Hsym & Hadm & Hnr).
  destruct (Hkeep r Hlt Hnr) as [Hh Hnr'].
  split; [lia|]. by rewrite Hh.
Qed.

Lemma system_ok_process_new st o :
  system_ok st -> system_ok (System.set_world st (process_new o (System.world st)).1).
Proof.
  intros Hsys. pose proof Hsys as (Hok & _).
  destruct (world_ok_alloc o _ Hok) as [Hok1 Hfresh].
  destruct (process_order_effect (World.next_ref (System.world st))
              (World.alloc o (System.world st)).1 Hok1)
    as (Hok2 & Hnext & _ & Hother & _ & Hrest); [simpl; lia|done|].
  apply system_ok_world; [done|exact Hok2| |].
  - unfold process_new. simpl in *. rewrite Hnext. lia.
  - intros x Hx Hnr. unfold process_new. simpl in *. split.
    + rewrite Hother; [|lia|done]. apply lookup_total_insert_ne. lia.
    + intros sym b Hb Hrx. destruct (Hrest sym b x Hb Hrx) as [->|(b0 & Hb0 & Hx0)].
      * lia.
      * by eapply Hnr.
Qed.

Lemma system_ok_submit st o :
  system_ok st -> system_ok (System.set_world st (submit_order o (System.world st)).1).
Proof.
  intros Hsys.
  destruct (submit_order_cases o (System.world st)) as [(_ & _ & ->)|(_ & -> & _)];
    [|by apply system_ok_process_new].
  pose proof Hsys as (Hok & _).
  destruct (world_ok_alloc o _ Hok) as [Hok1 Hfresh].
  apply system_ok_world; [done|exact Hok1|simpl; lia|].
  intros x Hx Hnr. simpl. split; [|done]. apply lookup_total_insert_ne. lia.
Qed.

Lemma system_ok_cancel st symbol order_id :
  system_ok st ->
  system_ok (System.set_world st
               (cancel_order symbol order_id (System.world st)).1).
Proof.
  intros Hsys. pose proof Hsys as (Hok & _).
  apply system_ok_world; [done|by apply cancel_order_ok| |];
    unfold cancel_order;
    destruct (World.order_books (System.world st) !! symbol) as [book|] eqn:Hbook;
    try done;
    destruct (OrderBook.orders book !! order_id) as [order|]; try done;
    destruct (OrderBook.remove_order _ _ _) as [b res] eqn:Hrm; simpl; [done|].
  intros x Hx Hnr. split; [done|]. intros sym b' Hb' Hrx.
  destruct (decide (symbol = sym)) as [<-|Hne].
  - rewrite lookup_insert_eq in Hb'. injection Hb' as <-.
    apply (Hnr symbol book Hbook). eapply resting_le; [|done].
    by eapply remove_order_book_le.
  - rewrite lookup_insert_ne in Hb' by done. by eapply Hnr.
Qed.

Lemma elem_of_store symbol l d s l' :
  (s, l') ∈ StopOrders.store symbol l d -> (s = symbol /\ l' = l) \/ (s, l') ∈ d.
Proof.
  induction d as [|[s0 l0] d IH]; simpl.
  - intros [[= -> ->]|?%elem_of_nil]%elem_of_cons; [by left|done].
  - destruct (String.eqb_spec s0 symbol) as [->|Hne].
    + intros [[= -> ->]|Hin]%elem_of_cons; [by left|]. right. by right.
    + intros [[= -> ->]|Hin]%elem_of_cons; [right; left|].
      destruct (IH Hin) as [?|?]; [by left|]. right. by right.
Qed.

Lemma refs_store_snoc symbol r d :
  StopOrders.refs (StopOrders.store symbol (StopOrders.pending symbol d ++ [r]) d)
  ≡ₚ StopOrders.refs d ++ [r].
Proof.
  unfold StopOrders.pending.
  destruct (StopOrders.get symbol d) as [l0|] eqn:Hg; simpl.
  - destruct (store_get_Some symbol (l0 ++ [r]) l0 d Hg) as (d1 & d2 & Hd & _ & ->).
    rewrite Hd, !refs_app, !refs_cons. solve_Permutation.
  - destruct (store_get_None symbol [r] d Hg) as [_ ->].
    by rewrite refs_app.
Qed.

Lemma keys_store symbol l d :
  NoDup d.*1 -> NoDup (StopOrders.store symbol l d).*1.
Proof.
  intros Hnd. destruct (StopOrders.get symbol d) as [l0|] eqn:Hg.
  - destruct (store_get_Some symbol l l0 d Hg) as (d1 & d2 & Hd & _ & ->).
    rewrite Hd in Hnd. rewrite fmap_app, fmap_cons in Hnd.
    by rewrite fmap_app, fmap_cons.
  - destruct (store_get_None symbol l d Hg) as [Hnot ->].
    rewrite fmap_app. simpl. apply NoDup_app. split; [done|]. split.
    + intros x Hx [->|?%elem_of_nil]%elem_of_cons; done.
    + apply NoDup_singleton.
Qed.

(** What [submit_stop_order] does. *)
Lemma submit_stop_order_effect o st :
  system_ok st ->
  let w := System.world st in
  let d := System.stop_orders_by_symbol st in
  let st' := (submit_stop_order o st).1 in
  system_ok st'
  /\ System.world st' = (World.alloc o w).1
  /\ System.drawn st' = System.drawn st
  /\ (if stop_order_admitted o
      then (submit_stop_order o st).2 = Queued (Order.id o) 0
           /\ System.stop_orders_by_symbol st'
              = StopOrders.store (Order.symbol o)
                  (StopOrders.pending (Order.symbol o) d ++ [World.next_ref w]) d
      else (submit_stop_order o st).2 = Refused 400
           /\ System.stop_orders_by_symbol st' = d).
Proof.
  intros Hsys. pose proof Hsys as (Hok & Hkeys & Hnd & Hpend). cbv zeta.
  destruct (world_ok_alloc o _ Hok) as [Hok1 Hfresh].
  assert (Hsys1 : system_ok (System.set_world st (World.alloc o (System.world st)).1)).
  { apply system_ok_world; [done|exact Hok1|simpl; lia|].
    intros x Hx Hnr. simpl. split; [|done]. apply lookup_total_insert_ne. lia. }
  unfold submit_stop_order. simpl.
  destruct (stop_order_admitted o) eqn:Hadm; simpl; [|done].
  unfold add_stop_order. simpl. rewrite lookup_total_insert_eq.
  split; [|done].
  destruct Hsys1 as (_ & _ & _ & Hpend1). simpl in Hpend1.
  split; [done|]. split; [by apply keys_store|]. split.
  - simpl. rewrite refs_store_snoc. apply NoDup_app. split; [done|]. split.
    + intros x Hx [->|?%elem_of_nil]%elem_of_cons; [|done].
      apply elem_of_refs in Hx as (s & l & Hin & Hxl).
      destruct (Hpend s l _ Hin Hxl) as (Hlt & _). lia.
    + apply NoDup_singleton.
  - simpl. intros s l x Hin Hx.
    apply elem_of_store in Hin as [[-> ->]|Hin]; [|by eapply Hpend1].
    apply elem_of_app in Hx as [Hx|Hx].
    + unfold StopOrders.pending in Hx.
      destruct (StopOrders.get (Order.symbol o) _) as [l0|] eqn:Hg; simpl in Hx;
        [|by apply elem_of_nil in Hx].
      apply (Hpend1 _ l0); [by apply get_elem_of|done].
    + apply elem_of_cons in Hx as [->|?%elem_of_nil]; [|done].
      split; [simpl; lia|]. simpl. rewrite lookup_total_insert_eq.
      split; [done|]. split; [done|]. exact Hfresh.
Qed.

Lemma reachable_sys_ok uuid4 st : reachable_sys uuid4 st -> system_ok st.
Proof.
  induction 1 as [|o st _ IH|o st _ IH|symbol order_id st _ IH|o st _ IH|st _ IH].
  - apply system_ok_init.
  - by apply system_ok_process_new.
  - by apply system_ok_submit.
  - by apply system_ok_cancel.
  - by apply submit_stop_order_effect.
  - pose proof IH as (_ & Hkeys & _).
    pose proof (monitor_symbols_spec uuid4 _ st IH Hkeys) as H. cbv zeta in H.
    by destruct H as (_ & (? & _) & _).
Qed.

Lemma reachable_system_two_asks : reachable_sys sample_uuid4 system_two_asks.
Proof. do 2 apply sys_submit. apply sys_init. Qed.

Lemma reachable_system_with_stop : reachable_sys sample_uuid4 system_with_stop.
Proof. apply sys_stop. apply reachable_system_two_asks. Qed.

(** X22: the whole service keeps the books well formed.  In every state
    reached by orders submitted, loaded and cancelled, stop orders submitted
    and passes of the monitor (whether they complete or end the task), every
    book is well formed, so that a quote with both sides has its bid
    strictly below its ask; and a pending stop order is pending once, is an
    allocated object that passed the guard of [submit_stop_order], is filed
    under its own symbol and rests in no book. *)
Theorem service_well_formed uuid4 st :
  reachable_sys uuid4 st ->
  let w := System.world st in
  let d := System.stop_orders_by_symbol st in
  world_ok w
  /\ (forall symbol bid ask,
        BBO.bid (get_bbo symbol w) = Some bid ->
        BBO.ask (get_bbo symbol w) = Some ask -> bid < ask)
  /\ NoDup (StopOrders.refs d)
  /\ forall symbol r, r ∈ StopOrders.pending symbol d -> pending_ok w symbol r.
Proof.
  intros Hr w d. subst w d.
  destruct (reachable_sys_ok uuid4 st Hr) as (Hok & Hkeys & Hnd & Hpend).
  split; [done|]. split; [|split; [done|]].
  - intros symbol bid ask. unfold get_bbo.
    destruct (World.order_books (System.world st) !! symbol) as [book|] eqn:Hb;
      [|done].
    simpl. intros Hbid Hask. destruct (Hok symbol book Hb) as [(_ & _ & Hnc) _].
    apply Hnc; apply elem_of_keys; [by apply py_max_elem|by apply py_min_elem].
  - intros symbol r. unfold StopOrders.pending.
    destruct (StopOrders.get symbol _) as [l|] eqn:Hg; simpl;
      [|by intros ?%elem_of_nil].
    apply Hpend. by apply get_elem_of.
Qed.

Lemma service_well_formed_witness :
  let w := System.world system_with_stop in
  let d := System.stop_orders_by_symbol system_with_stop in
  world_ok w
  /\ (forall symbol bid ask,
        BBO.bid (get_bbo symbol w) = Some bid ->
        BBO.ask (get_bbo symbol w) = Some ask -> bid < ask)
  /\ NoDup (StopOrders.refs d)
  /\ forall symbol r, r ∈ StopOrders.pending symbol d -> pending_ok w symbol r.
Proof.
  apply (service_well_formed sample_uuid4 system_with_stop).
  exact reachable_system_with_stop.
Defined.

(** X23: a pass of the monitor.  From a reachable state the pass never
    ends with the [ValueError] of [list.remove]; whatever its end, the
    state it leaves is well formed, an order still pending was pending and
    is unchanged, and an order no longer pending has lost its trigger and
    got an id drawn during the pass in place of its own; and when the pass
    completes, the pending orders of every symbol are exactly those that
    the quote of that symbol at the start of the pass did not trigger, in
    their order of arrival. *)
Theorem monitor_pass_spec uuid4 st :
  reachable_sys uuid4 st ->
  let w := System.world st in
  let d := System.stop_orders_by_symbol st in
  let run := monitor_pass uuid4 st in
  run.2 <> Died ValueError
  /\ monitor_ok uuid4 (fun s => s ∈ d.*1) st run.1
  /\ (run.2 = Completed ->
      forall symbol,
        StopOrders.pending symbol (System.stop_orders_by_symbol run.1)
        = List.filter
            (fun x => negb (should_trigger (World.heap w !!! x)
                                           (get_bbo symbol w)))
            (StopOrders.pending symbol d)).
Proof.
  intros Hr w d run. subst w d run.
  pose proof (reachable_sys_ok uuid4 st Hr) as Hok.
  pose proof Hok as (_ & Hkeys & _).
  pose proof (monitor_symbols_spec uuid4 _ st Hok Hkeys) as H. cbv zeta in H.
  destruct H as (Hres & Hmon & Hdone). fold (monitor_pass uuid4 st) in *.
  split; [done|]. split; [done|]. intros Hc symbol.
  destruct (decide (symbol ∈ (System.stop_orders_by_symbol st).*1)) as [Hin|Hout].
  { by apply Hdone. }
  destruct Hmon as (_ & Hk & _).
  unfold StopOrders.pending.
  rewrite (proj2 (get_None_keys symbol (System.stop_orders_by_symbol st)) Hout).
  rewrite (proj2 (get_None_keys symbol _)); [done|]. by rewrite Hk.
Qed.

Lemma monitor_pass_spec_witness :
  let st := system_with_stop in
  let w := System.world st in
  let d := System.stop_orders_by_symbol st in
  let run := monitor_pass sample_uuid4 st in
  run.2 <> Died ValueError
  /\ monitor_ok sample_uuid4 (fun s => s ∈ d.*1) st run.1
  /\ (run.2 = Completed ->
      forall symbol,
        StopOrders.pending symbol (System.stop_orders_by_symbol run.1)
        = List.filter
            (fun x => negb (should_trigger (World.heap w !!! x)
                                           (get_bbo symbol w)))
            (StopOrders.pending symbol d)).
Proof.
  apply (monitor_pass_spec sample_uuid4 system_with_stop).
  exact reachable_system_with_stop.
Defined.

Lemma pending_store_eq symbol l d :
  StopOrders.pending symbol (StopOrders.store symbol l d) = l.
Proof. unfold StopOrders.pending. by rewrite get_store_eq. Qed.

Lemma pending_store_ne symbol symbol' l d :
  symbol' <> symbol ->
  StopOrders.pending symbol' (StopOrders.store symbol l d)
  = StopOrders.pending symbol' d.
Proof. intros Hne. unfold StopOrders.pending. by rewrite get_store_ne. Qed.

(** X24: [POST /submit_stop_order].  The request is refused with status
    400 exactly when the trigger price is missing or 0, the trigger type is
    missing or empty, or the order is neither a limit nor a market order,
    and then nothing is queued; otherwise the answer is "queued" with the id
    of the order and no trade, and the order goes to the end of the pending
    orders of its symbol, those of the other symbols staying as they are.
    In both cases no book and no trade log entry changes, and no id is
    drawn. *)
Theorem submit_stop_order_spec o st :
  let w := System.world st in
  let d := System.stop_orders_by_symbol st in
  let st' := (submit_stop_order o st).1 in
  let d' := System.stop_orders_by_symbol st' in
  World.order_books (System.world st') = World.order_books w
  /\ World.tlog (System.world st') = World.tlog w
  /\ World.heap (System.world st') = <[World.next_ref w := o]> (World.heap w)
  /\ System.drawn st' = System.drawn st
  /\ (forall symbol, symbol <> Order.symbol o ->
        StopOrders.pending symbol d' = StopOrders.pending symbol d)
  /\ ((submit_stop_order o st).2 = Refused 400
      \/ (submit_stop_order o st).2 = Queued (Order.id o) 0)
  /\ ((submit_stop_order o st).2 = Refused 400 <->
      truthy_float (Order.trigger_price o) = false
      \/ truthy_str (Order.trigger_type o) = false
      \/ (Order.order_type o <> "limit"%string
          /\ Order.order_type o <> "market"%string))
  /\ StopOrders.pending (Order.symbol o) d'
     = match (submit_stop_order o st).2 with
       | Queued _ _ => StopOrders.pending (Order.symbol o) d ++ [World.next_ref w]
       | Refused _ => StopOrders.pending (Order.symbol o) d
       end.
Proof.
  cbv zeta. unfold submit_stop_order, add_stop_order. simpl.
  assert (Hadm : stop_order_admitted o = false <->
            truthy_float (Order.trigger_price o) = false
            \/ truthy_str (Order.trigger_type o) = false
            \/ (Order.order_type o <> "limit"%string
                /\ Order.order_type o <> "market"%string)).
  { unfold stop_order_admitted.
    destruct (truthy_float _); simpl; [|by split; [left|]].
    destruct (truthy_str _); simpl; [|by split; [right; left|]].
    destruct (String.eqb_spec (Order.order_type o) "limit") as [Hl|Hl]; simpl.
    { split; [done|]. intros [?|[?|[? _]]]; done. }
    destruct (String.eqb_spec (Order.order_type o) "market") as [Hm|Hm]; simpl.
    { split; [done|]. intros [?|[?|[_ ?]]]; done. }
    split; [|done]. intros _. right. right. done. }
  destruct (stop_order_admitted o); simpl.
  - rewrite lookup_total_insert_eq.
    repeat (split; [done|]).
    split; [intros symbol Hne; by apply pending_store_ne|].
    split; [by right|]. split; [|by rewrite pending_store_eq].
    split; [done|]. intros H. by apply Hadm in H.
  - repeat (split; [done|]). split; [by left|]. split; [|done].
    split; [intros _; by apply Hadm|done].
Qed.


(** ** A triggered order that ends the monitor task *)

Lemma filter_head (f : nat -> bool) l x rest :
  List.filter f l = x :: rest ->
  exists nt l', l = nt ++ x :: l' /\ Forall (fun y => f y = false) nt
                /\ f x = true /\ List.filter f l' = rest.
Proof.
  induction l as [|y l IH]; simpl; [done|].
  destruct (f y) eqn:Hy.
  - intros [= -> <-]. by exists [], l.
  - intros Hf. destruct (IH Hf) as (nt & l' & -> & Hnt & Hx & Hrest).
    exists (y :: nt), l'. split; [done|]. split; [by constructor|done].
Qed.

(** The result of [trigger] for a pending order is that of the engine. *)
Lemma trigger_result uuid4 symbol order st :
  order ∈ StopOrders.pending symbol (System.stop_orders_by_symbol st) ->
  let w := System.world st in
  let o' := triggered (World.heap w !!! order) (uuid4 (System.drawn st)) in
  let w1 := World.mk (<[order := o']> (World.heap w)) (World.next_ref w)
                     (World.order_books w) (World.tlog w) in
  (trigger uuid4 symbol order st).2
  = match (process_order order w1).2 with
    | Return _ => Completed
    | Raise e => Died (EngineError e)
    end.
Proof.
  intros Hin. cbv zeta. unfold trigger.
  assert (Hex : existsb (PriceLevel.same (World.heap (System.world st)) order)
                  (StopOrders.pending symbol (System.stop_orders_by_symbol st))
                = true).
  { apply existsb_exists. exists order. split; [by apply list_elem_of_In|].
    unfold PriceLevel.same. by rewrite bool_decide_eq_true_2. }
  rewrite Hex. by destruct (process_order _ _).
Qed.

(** X25: the first order a pass triggers for a symbol, and the end of the
    monitor task.  The engine's exceptions are not caught in the monitor.
    So the task ends with [KeyError] exactly when the order is of positive
    quantity, accepts the best opposite price and asks for at least all
    that the orders at that price have left; and with [TypeError] exactly
    when it is a limit order without price (the guard of
    [submit_stop_order] lets it through) that finds an opposite order or
    has a positive quantity.  When the task ends there, the order is no
    longer pending, and the other orders the quote had triggered still
    are.

    The statement is made for quantities the code computes exactly
    ([exact_world] for the state, [exact_quantity] for the order); with
    other quantities the sums and differences of the code are rounded. *)
Theorem first_trigger_fatal uuid4 symbol st order rest :
  reachable_sys uuid4 st ->
  let w := System.world st in
  let h := World.heap w in
  let d := System.stop_orders_by_symbol st in
  exact_world w = true ->
  exact_quantity (Order.quantity (h !!! order)) = true ->
  List.filter (fun x => should_trigger (h !!! x) (get_bbo symbol w))
              (StopOrders.pending symbol d) = order :: rest ->
  let o := h !!! order in
  let book := _get_order_book symbol w in
  let is_buy := String.eqb (Order.side o) "buy" in
  let step := trigger uuid4 symbol order st in
  (step.2 = Died (EngineError KeyError) <->
     exists p l,
       best_opposite is_buy book = Some p
       /\ MatchingEngine.opposite_book is_buy book !! p = Some l
       /\ accepts o p = true
       /\ 0 < Order.quantity o
       /\ level_sum h l <= Order.quantity o)
  /\ (step.2 = Died (EngineError TypeError) <->
        Order.order_type o = "limit"%string
        /\ Order.price o = None
        /\ (is_Some (best_opposite is_buy book) \/ 0 < Order.quantity o))
  /\ (forall e, step.2 = Died e ->
        monitor_symbol uuid4 symbol st = step
        /\ (order ∉ StopOrders.pending symbol
                      (System.stop_orders_by_symbol step.1))
        /\ forall x, x ∈ rest ->
             x ∈ StopOrders.pending symbol (System.stop_orders_by_symbol step.1)).
Proof.
  intros Hr w h d _ _ Hfilter o book is_buy step.
  subst step is_buy book o d h w. simpl in Hfilter.
  pose proof (reachable_sys_ok uuid4 st Hr) as Hsys.
  pose proof Hsys as (Hok & _ & _ & Hpend).
  destruct (filter_head _ _ _ _ Hfilter) as (nt & l' & Hl & Hnt & Htrig & Hrest).
  assert (Hin : order ∈ StopOrders.pending symbol (System.stop_orders_by_symbol st)).
  { rewrite Hl. apply elem_of_app. right. left. }
  assert (Hnd : NoDup (nt ++ order :: l')).
  { rewrite <- Hl. by apply pending_NoDup. }
  assert (Hord : pending_ok (System.world st) symbol order).
  { unfold StopOrders.pending in Hin.
    destruct (StopOrders.get symbol _) as [l0|] eqn:Hg; simpl in Hin;
      [|by apply elem_of_nil in Hin].
    apply (Hpend symbol l0); [by apply get_elem_of|done]. }
  destruct Hord as (Hlt & Hsym & Hadm & Hnr).
  (* the call of the engine *)
  pose proof (trigger_result uuid4 symbol order st Hin) as Htr.
  cbv zeta in Htr.
  destruct (process_order_dispatch order
              (World.mk
                 (<[order := triggered (World.heap (System.world st) !!! order)
                                       (uuid4 (System.drawn st))]>
                    (World.heap (System.world st)))
                 (World.next_ref (System.world st))
                 (World.order_books (System.world st))
                 (World.tlog (System.world st)))) as (_ & _ & Hres).
  cbv zeta in Hres. simpl in Hres.
  rewrite lookup_total_insert_eq in Hres. simpl in Hres.
  rewrite Hsym in Hres. rewrite Hres in Htr. clear Hres.
  change (_get_order_book symbol _)
    with (_get_order_book symbol (System.world st)) in Htr.
  assert (Hbook : book_ok (World.heap (System.world st))
                          (_get_order_book symbol (System.world st))
                  /\ ~ resting (_get_order_book symbol (System.world st)) order).
  { unfold _get_order_book.
    destruct (World.order_books (System.world st) !! symbol) as [b|] eqn:Hb; simpl.
    - split; [by destruct (Hok symbol b Hb)|by eapply Hnr].
    - split; [apply book_ok_new|apply resting_new]. }
  destruct Hbook as [Hbok Hnrb].
  assert (Hsame : forall o' x,
            resting (_get_order_book symbol (System.world st)) x ->
            (<[order := o']> (World.heap (System.world st)) : gmap nat Order.t)
              !!! x
            = World.heap (System.world st) !!! x).
  { intros o' x Hx. apply lookup_total_insert_ne. by intros <-. }
  assert (Hty : Order.order_type (World.heap (System.world st) !!! order)
                = "limit"%string
                \/ Order.order_type (World.heap (System.world st) !!! order)
                   = "market"%string).
  { unfold stop_order_admitted in Hadm.
    destruct (_ || _) in Hadm; [done|].
    destruct (String.eqb_spec
                (Order.order_type (World.heap (System.world st) !!! order))
                "limit"); [by left|].
    destruct (String.eqb_spec
                (Order.order_type (World.heap (System.world st) !!! order))
                "market"); [by right|done]. }
  set (s := Env.mk
              (<[order := triggered (World.heap (System.world st) !!! order)
                                    (uuid4 (System.drawn st))]>
                 (World.heap (System.world st)))
              (_get_order_book symbol (System.world st))
              (World.tlog (System.world st))) in Htr.
  assert (Hbok1 : book_ok (Env.heap s) (Env.book s)).
  { subst s. simpl. eapply book_ok_same; [exact Hbok|]. apply Hsame. }
  destruct (MatchingEngine.dispatch order s) as [s' res] eqn:Hd.
  pose proof (dispatch_raises order s s' res Hbok1 Hnrb) as Hraise.
  subst s. cbv zeta in Hraise. simpl in Hraise.
  rewrite lookup_total_insert_eq in Hraise. simpl in Hraise.
  destruct Hraise as [Hke Hte]; [tauto|exact Hd|].
  assert (Hls : forall is_buy p l,
            MatchingEngine.opposite_book is_buy
              (_get_order_book symbol (System.world st)) !! p = Some l ->
            level_sum
              (<[order := triggered (World.heap (System.world st) !!! order)
                                    (uuid4 (System.drawn st))]>
                 (World.heap (System.world st))) l
            = level_sum (World.heap (System.world st)) l).
  { intros is_buy p l Hlp. eapply level_sum_same; [apply Hsame|exact Hlp]. }
  simpl in Htr. rewrite Htr.
  split; [|split].
  - (* KeyError *)
    assert (Hiff : res = Raise KeyError <->
              match res with
              | Return _ => Completed
              | Raise e => Died (EngineError e)
              end = Died (EngineError KeyError)).
    { destruct res as [ts|[|]]; split; intros H; congruence. }
    rewrite <- Hiff, Hke. split.
    + intros (p & l & Hbest & Hlp & Hacc & Hq & Hsum). exists p, l.
      split; [done|]. split; [done|]. split; [done|]. split; [done|].
      by rewrite <- (Hls _ p l Hlp).
    + intros (p & l & Hbest & Hlp & Hacc & Hq & Hsum). exists p, l.
      split; [done|]. split; [done|]. split; [done|]. split; [done|].
      by rewrite (Hls _ p l Hlp).
  - (* TypeError *)
    assert (Hiff : res = Raise TypeError <->
              match res with
              | Return _ => Completed
              | Raise e => Died (EngineError e)
              end = Died (EngineError TypeError)).
    { destruct res as [ts|[|]]; split; intros H; congruence. }
    rewrite <- Hiff, Hte. split.
    + intros (Hnm & Hp & Hcase). destruct Hty as [Hlim|Hm]; [|done].
      split; [done|]. split; [done|]. destruct Hcase as [?|[_ ?]]; [by left|by right].
    + intros (Hlim & Hp & Hcase). split; [by rewrite Hlim|]. split; [done|].
      destruct Hcase as [?|?]; [by left|right; by split].
  - (* the task ends *)
    intros e He.
    assert (Hsamef : Forall (fun y => PriceLevel.same (World.heap (System.world st))
                                        order y = false) nt).
    { apply Forall_forall. intros y Hy. unfold PriceLevel.same.
      apply orb_false_iff. split; apply bool_decide_eq_false.
      - intros ->. apply NoDup_app in Hnd as (_ & Hdis & _).
        apply (Hdis order Hy). left.
      - intros Heq. rewrite Forall_forall in Hnt. specialize (Hnt y Hy).
        simpl in Hnt, Htrig. rewrite Heq in Hnt. congruence. }
    destruct (trigger_step uuid4 symbol order st nt l' Hsys Hl Hsamef)
      as (_ & _ & Hl1 & _).
    split; [|split].
    + unfold monitor_symbol. rewrite Hfilter. simpl.
      destruct (trigger uuid4 symbol order st) as [st1 r1]. simpl in Htr.
      subst r1. by rewrite He.
    + rewrite Hl1. intros Hx. apply NoDup_app in Hnd as (_ & Hdis & Hnd2).
      apply NoDup_cons in Hnd2 as [Hnot _].
      apply elem_of_app in Hx as [Hx|Hx]; [|done]. apply (Hdis order Hx). left.
    + intros x Hx. rewrite Hl1. apply elem_of_app. right.
      rewrite <- Hrest in Hx. apply list_elem_of_In in Hx.
      apply List.filter_In in Hx as [Hx _]. by apply list_elem_of_In.
Qed.

Lemma first_trigger_fatal_witness :
  let uuid4 := sample_uuid4 in
  let symbol := "BTC-USDT"%string in
  let st := system_with_fatal_stop in
  let order := 2%nat in
  let rest := @nil nat in
  let w := System.world st in
  let h := World.heap w in
  let o := h !!! order in
  let book := _get_order_book symbol w in
  let is_buy := String.eqb (Order.side o) "buy" in
  let step := trigger uuid4 symbol order st in
  (step.2 = Died (EngineError KeyError) <->
     exists p l,
       best_opposite is_buy book = Some p
       /\ MatchingEngine.opposite_book is_buy book !! p = Some l
       /\ accepts o p = true
       /\ 0 < Order.quantity o
       /\ level_sum h l <= Order.quantity o)
  /\ (step.2 = Died (EngineError TypeError) <->
        Order.order_type o = "limit"%string
        /\ Order.price o = None
        /\ (is_Some (best_opposite is_buy book) \/ 0 < Order.quantity o))
  /\ (forall e, step.2 = Died e ->
        monitor_symbol uuid4 symbol st = step
        /\ (order ∉ StopOrders.pending symbol
                      (System.stop_orders_by_symbol step.1))
        /\ forall x, x ∈ rest ->
             x ∈ StopOrders.pending symbol (System.stop_orders_by_symbol step.1)).
Proof.
  apply (first_trigger_fatal sample_uuid4 "BTC-USDT" system_with_fatal_stop
           2%nat []).
  - apply sys_stop. apply reachable_system_two_asks.
  - vm_compute. reflexivity.
  - vm_compute. reflexivity.
  - vm_compute. reflexivity.
Defined.


(** ** Orders the engine accepts and ignores *)

Lemma can_fill_loop_returns (d : gmap Z PriceLevel.t) is_buy key q prices :
  forall total,
    (forall p, p ∈ prices -> is_Some (d !! p)) ->
    exists b, MatchingEngine.can_fill_loop d is_buy key q prices total = Return b.
Proof.
  induction prices as [|p prices IH]; intros total Hkeys; simpl; [by exists false|].
  destruct (if is_buy then key <? p else p <? key); [by exists false|].
  destruct (Hkeys p ltac:(left)) as [l ->].
  destruct (q <=? total + PriceLevel.total_quantity l); [by exists true|].
  apply IH. intros x Hx. apply Hkeys. by right.
Qed.

Lemma can_fully_fill_returns order s limit :
  Order.price (Env.heap s !!! order) = Some limit ->
  exists b, MatchingEngine._can_fully_fill order s = Return b.
Proof.
  intros Hp. unfold MatchingEngine._can_fully_fill. rewrite Hp.
  destruct (String.eqb _ "buy"); apply can_fill_loop_returns; intros p Hin.
  - by apply elem_of_sorted, elem_of_keys in Hin.
  - by apply elem_of_sorted_reverse, elem_of_keys in Hin.
Qed.

(** The matching loop does nothing for an order with nothing to fill. *)
Lemma match_order_idle order market s :
  book_ok (Env.heap s) (Env.book s) ->
  ~ resting (Env.book s) order ->
  Order.quantity (Env.heap s !!! order) <= 0 ->
  market = true \/ is_Some (Order.price (Env.heap s !!! order)) ->
  MatchingEngine._match_order order market s = (s, Return []).
Proof.
  intros Hbok Hnr Hq Hprice.
  destruct (MatchingEngine._match_order order market s) as [s' res] eqn:Hrun.
  destruct (match_order_exact _ _ _ _ _ Hbok Hnr Hrun)
    as (new & _ & _ & _ & _ & _ & _ & Hcase).
  cbv zeta in Hcase.
  destruct (best_opposite _ _) as [p|].
  2:{ by destruct Hcase as (-> & _ & ->). }
  unfold MatchingEngine.beyond_limit in Hcase.
  destruct market.
  - destruct Hcase as (l & _ & _ & _ & _ & _ & _ & Hend).
    destruct (Z.leb_spec (Order.quantity (Env.heap s !!! order)) 0); [|lia].
    by destruct Hend as (-> & _ & ->).
  - destruct Hprice as [?|[limit Hp]]; [done|]. rewrite Hp in Hcase.
    destruct (_ || _).
    + by destruct Hcase as (-> & _ & ->).
    + destruct Hcase as (l & _ & _ & _ & _ & _ & _ & Hend).
      destruct (Z.leb_spec (Order.quantity (Env.heap s !!! order)) 0); [|lia].
      by destruct Hend as (-> & _ & ->).
Qed.

Lemma dispatch_idle order s :
  book_ok (Env.heap s) (Env.book s) ->
  ~ resting (Env.book s) order ->
  let o := Env.heap s !!! order in
  (Order.order_type o <> "market"%string /\ Order.order_type o <> "limit"%string
   /\ Order.order_type o <> "ioc"%string /\ Order.order_type o <> "fok"%string)
  \/ (Order.quantity o <= 0
      /\ (Order.order_type o = "market"%string \/ is_Some (Order.price o))) ->
  MatchingEngine.dispatch order s = (s, Return []).
Proof.
  intros Hbok Hnr o Hcase. subst o. unfold MatchingEngine.dispatch.
  destruct Hcase as [(Hm & Hl & Hi & Hf)|(Hq & Hprice)].
  { apply String.eqb_neq in Hm, Hl, Hi, Hf. by rewrite Hm, Hl, Hi, Hf. }
  assert (Hlimit : forall ioc,
            is_Some (Order.price (Env.heap s !!! order)) ->
            MatchingEngine._execute_limit_order order ioc s = (s, Return [])).
  { intros ioc Hp. unfold MatchingEngine._execute_limit_order.
    rewrite match_order_idle by (done || by right).
    destruct (Z.ltb_spec 0 (Order.quantity (Env.heap s !!! order))); [lia|done]. }
  destruct (String.eqb_spec (Order.order_type (Env.heap s !!! order)) "market")
    as [Hm|Hm].
  { unfold MatchingEngine._execute_market_order.
    apply match_order_idle; [done|done|done|by left]. }
  destruct Hprice as [?|Hp]; [done|].
  destruct (String.eqb _ "limit"); [by apply Hlimit|].
  destruct (String.eqb _ "ioc"); [by apply Hlimit|].
  destruct (String.eqb _ "fok"); [|done].
  destruct Hp as [limit Hp].
  destruct (can_fully_fill_returns order s limit Hp) as [[|] ->]; [|done].
  apply Hlimit. by rewrite Hp.
Qed.

(** X26: orders the engine accepts and ignores.  Neither [submit_order] nor
    [process_order] checks the order type or the sign of the quantity.  In
    every state the engine reaches, a new order whose type is none of
    market, limit, ioc and fok, or a new order with a quantity of zero or
    less that is a market order or has a price, is answered with no trade
    and changes nothing: the world afterwards is the world before with the
    new object allocated and the book of the symbol registered as it was
    (empty if the symbol was new); [submit_order] answers such an order
    (when it is a market order or has a price) as accepted with 0 trades. *)
Theorem orders_without_effect o w :
  reachable w ->
  (Order.order_type o <> "market"%string /\ Order.order_type o <> "limit"%string
   /\ Order.order_type o <> "ioc"%string /\ Order.order_type o <> "fok"%string)
  \/ (Order.quantity o <= 0
      /\ (Order.order_type o = "market"%string \/ is_Some (Order.price o))) ->
  let w' := World.mk (<[World.next_ref w := o]> (World.heap w))
                     (S (World.next_ref w))
                     (<[Order.symbol o := _get_order_book (Order.symbol o) w]>
                        (World.order_books w))
                     (World.tlog w) in
  process_new o w = (w', Return [])
  /\ (Order.order_type o = "market"%string \/ is_Some (Order.price o) ->
      submit_order o w = (w', Accepted (Order.id o) 0)).
Proof.
  intros Hr Hcase w'. subst w'.
  destruct (reachable_dispatch o w Hr)
    as (s' & res & Hd & Hro & Hbok & Hnr & _).
  pose proof (dispatch_idle _ _ Hbok Hnr) as Hidle. cbv zeta in Hidle.
  rewrite Hro in Hidle. specialize (Hidle Hcase). clear Hd.
  assert (Hpn : process_new o w
                = (World.mk (<[World.next_ref w := o]> (World.heap w))
                            (S (World.next_ref w))
                            (<[Order.symbol o := _get_order_book (Order.symbol o) w]>
                               (World.order_books w))
                            (World.tlog w), Return [])).
  { unfold process_new, process_order. simpl.
    rewrite lookup_total_insert_eq.
    change (_get_order_book (Order.symbol o) _)
      with (_get_order_book (Order.symbol o) w) at 1.
    by rewrite Hidle. }
  split; [exact Hpn|]. intros Hprice.
  destruct (submit_order_cases o w) as [(Hnm & Hnone & _)|(_ & Hw & Hres)].
  { destruct Hprice as [?|[? ?]]; congruence. }
  rewrite Hpn in Hw, Hres. simpl in Hw, Hres.
  destruct (submit_order o w) as [w2 r2]. simpl in *. by subst.
Qed.

Lemma orders_without_effect_witness :
  let o := typed_order "stop" 3 "buy" 10000 1000000 in
  let w := world_two_asks in
  let w' := World.mk (<[World.next_ref w := o]> (World.heap w))
                     (S (World.next_ref w))
                     (<[Order.symbol o := _get_order_book (Order.symbol o) w]>
                        (World.order_books w))
                     (World.tlog w) in
  process_new o w = (w', Return [])
  /\ (Order.order_type o = "market"%string \/ is_Some (Order.price o) ->
      submit_order o w = (w', Accepted (Order.id o) 0)).
Proof.
  apply (orders_without_effect (typed_order "stop" 3 "buy" 10000 1000000)
           world_two_asks).
  - exact reachable_two_asks.
  - left. repeat split; discriminate.
Defined.


(** ** A limit order without a price *)

(** X27: a limit order without a price that reaches [process_order] (the
    endpoint [submit_order] refuses it, [submit_stop_order] does not).  In
    every state the engine reaches, when the opposite side of the book is
    empty and the order has a positive quantity, the call raises
    [TypeError] after the id index has been written: [get_order_status]
    then finds the order although it rests at no level, and [cancel_order]
    for its id raises [TypeError] and leaves the entry where it is. *)
Theorem priceless_limit_order o w :
  reachable w ->
  Order.order_type o = "limit"%string ->
  Order.price o = None ->
  0 < Order.quantity o ->
  best_opposite (String.eqb (Order.side o) "buy")
                (_get_order_book (Order.symbol o) w) = None ->
  let r := World.next_ref w in
  let w' := (process_new o w).1 in
  (process_new o w).2 = Raise TypeError
  /\ get_order_status (Order.symbol o) (Order.id o) w' = Some r
  /\ ~ resting (_get_order_book (Order.symbol o) w') r
  /\ World.tlog w' = World.tlog w
  /\ cancel_order (Order.symbol o) (Order.id o) w' = (w', Raise TypeError).
Proof.
  intros Hr Hty Hp Hq Hbest r w'. subst r w'.
  destruct (reachable_dispatch o w Hr)
    as (s' & res & Hd & Hro & Hbok & Hnr & _ & Hheap & Htlog & Hbooks & Hbook
        & Hres).
  rewrite dispatch_limit in Hd by (by rewrite Hro).
  unfold MatchingEngine._execute_limit_order in Hd.
  destruct (MatchingEngine._match_order _ false _) as [s1 res1] eqn:Hrun.
  pose proof (match_order_raises (World.next_ref w)
                (Env.mk (<[World.next_ref w := o]> (World.heap w))
                        (_get_order_book (Order.symbol o) w) (World.tlog w)))
    as Hraise.
  cbv zeta in Hraise. rewrite Hro, Hty in Hraise. simpl in Hraise.
  destruct (Hraise s1 res1 Hbok Hnr Hrun) as (_ & _ & _ & Hnone).
  destruct (Hnone Hbest) as [-> ->]. clear Hnone Hrun Hraise.
  rewrite Hro in Hd. simpl in Hd.
  destruct (Z.ltb_spec 0 (Order.quantity o)); [|lia]. simpl in Hd.
  unfold OrderBook.add_order in Hd. simpl in Hd.
  rewrite lookup_total_insert_eq, Hp in Hd. injection Hd as <- <-.
  simpl in *.
  split; [done|].
  assert (Hst : get_order_status (Order.symbol o) (Order.id o) (process_new o w).1
                = Some (World.next_ref w)).
  { unfold get_order_status. rewrite Hbooks, lookup_insert_eq. simpl.
    apply lookup_insert_eq. }
  split; [exact Hst|]. split.
  { rewrite Hbook. intros [Hx|Hx]; apply Hnr; [by left|by right]. }
  split; [done|].
  unfold cancel_order. rewrite Hbooks, lookup_insert_eq. simpl.
  rewrite lookup_insert_eq.
  unfold OrderBook.remove_order. rewrite Hheap.
  rewrite lookup_total_insert_eq, Hp.
  rewrite <- Hbooks, <- Hheap.
  rewrite insert_id; [by destruct (process_new o w).1|].
  by rewrite Hbooks, lookup_insert_eq.
Qed.

Lemma priceless_limit_order_witness :
  let o := Order.mk 3 "BTC-USDT" "limit" "sell" 10000 None 0 None None in
  let w := world_two_asks in
  let r := World.next_ref w in
  let w' := (process_new o w).1 in
  (process_new o w).2 = Raise TypeError
  /\ get_order_status (Order.symbol o) (Order.id o) w' = Some r
  /\ ~ resting (_get_order_book (Order.symbol o) w') r
  /\ World.tlog w' = World.tlog w
  /\ cancel_order (Order.symbol o) (Order.id o) w' = (w', Raise TypeError).
Proof.
  apply (priceless_limit_order
           (Order.mk 3 "BTC-USDT" "limit" "sell" 10000 None 0 None None)
           world_two_asks).
  - exact reachable_two_asks.
  - reflexivity.
  - reflexivity.
  - reflexivity.
  - vm_compute. reflexivity.
Defined.

(** ** Every trade names the order it fills *)

Lemma prints_length h h' o d ts rs :
  prints h h' o d ts rs -> (length ts <= length rs)%nat.
Proof. induction 1; simpl; lia. Qed.

Lemma prints_app h h' o d ts rs rest :
  prints h h' o d ts rs -> prints h h' o d ts (rs ++ rest).
Proof. induction 1; simpl; [constructor|by econstructor]. Qed.

(** The inner loop of [_match_order] on a well-formed level: the trades are
    made against the head of the queue, and no resting order but those
    changes. *)
Lemma match_level_prints order is_buy price h0 o0 (d0 : gmap Z PriceLevel.t) l0 rs :
  forall trades s s' res,
    NoDup rs -> order ∉ rs ->
    Forall (order_ok (Env.heap s) (negb is_buy) price) rs ->
    level_at (MatchingEngine.opposite_book is_buy (Env.book s)) price rs ->
    d0 !! price = Some l0 ->
    (forall x, x ∈ rs ->
       x ∈ PriceLevel.orders l0 /\ Env.heap s !!! x = h0 !!! x) ->
    Order.id (Env.heap s !!! order) = Order.id o0 ->
    Order.side (Env.heap s !!! order) = Order.side o0 ->
    MatchingEngine.match_level order price rs trades s = (s', res) ->
    exists new,
      TradeLog.trade_history (Env.tlog s')
      = TradeLog.trade_history (Env.tlog s) ++ new
      /\ prints h0 (Env.heap s') o0 d0 new rs
      /\ same_outside (fun x => x = order \/ x ∈ take (length new) rs)
                      (Env.heap s) (Env.heap s').
Proof.
  induction rs as [|r rs IH];
    intros trades s s' res Hnd Hno Hall Hlvl Hd0 Hin0 Hid Hside.
  { simpl. intros [= <- <-]. exists []. rewrite app_nil_r.
    split; [done|]. split; [constructor|apply same_outside_refl]. }
  destruct Hlvl as (l & Hl & Hrs).
  apply NoDup_cons in Hnd as [Hr_notin Hnd].
  apply Forall_cons in Hall as [Hr_ok Hall].
  rewrite match_level_cons.
  destruct (Z.leb_spec (Order.quantity (Env.heap s !!! order)) 0) as [Hq|Hq].
  { intros [= <- <-]. exists []. rewrite app_nil_r.
    split; [done|]. split; [constructor|apply same_outside_refl]. }
  cbv zeta.
  set (h := Env.heap s) in *.
  set (q := Z.min (Order.quantity (h !!! order)) (Order.quantity (h !!! r))).
  set (h2 := sub_quantity (sub_quantity h order q) r q).
  set (lt := log_trade _ _ _ _ _ _ _).
  destruct Hr_ok as (Hr_side & (p & Hp & Hpk) & Hr_q).
  assert (Hne_r : r <> order).
  { intros ->. apply Hno. left. }
  assert (Hno' : order ∉ rs).
  { intros Hin. apply Hno. by right. }
  assert (Hh2o : h2 !!! order
                 = Order.with_quantity (h !!! order)
                     (Order.quantity (h !!! order) - q)).
  { unfold h2. rewrite sub_quantity_ne by done. apply sub_quantity_eq. }
  assert (Hh2r : h2 !!! r
                 = Order.with_quantity (h !!! r) (Order.quantity (h !!! r) - q)).
  { unfold h2. rewrite sub_quantity_eq. by rewrite sub_quantity_ne by done. }
  assert (Hh2x : forall x, x <> order -> x <> r -> h2 !!! x = h !!! x).
  { intros x Hxo Hxr. unfold h2. by rewrite !sub_quantity_ne by done. }
  assert (Hh2rs : forall x, x ∈ rs -> h2 !!! x = h !!! x).
  { intros x Hx. apply Hh2x; intros ->; done. }
  assert (Hfr : frozen h h2).
  { eapply frozen_trans; apply frozen_sub_quantity. }
  assert (Hlt : lt.2 = Trade.mk (TradeLog.next_uuid (Env.tlog s))
                         (Order.symbol (h2 !!! order)) price q
                         (Order.side (h2 !!! order)) (Order.id (h2 !!! r))
                         (Order.id (h2 !!! order)) (TradeLog.now (Env.tlog s))).
  { unfold lt. apply log_trade_trade. }
  assert (Hlt1 : TradeLog.trade_history lt.1
                 = TradeLog.trade_history (Env.tlog s) ++ [lt.2]).
  { unfold lt. apply log_trade_history. }
  clearbody lt.
  destruct (Hin0 r ltac:(left)) as [Hr_l0 Hr_h0].
  assert (Hfirst : forall hf ts rs', hf !!! r = h2 !!! r ->
            prints h0 hf o0 d0 ts rs' ->
            prints h0 hf o0 d0 (lt.2 :: ts) (r :: rs')).
  { intros hf ts rs' Hhf Hts. rewrite Hlt.
    apply (prints_cons h0 hf o0 d0 _ ts r rs' l0 p); simpl.
    - done.
    - done.
    - by rewrite <- Hr_h0.
    - done.
    - rewrite <- Hr_h0. by rewrite (frozen_id h h2).
    - rewrite <- Hid. by rewrite (frozen_id h h2).
    - rewrite <- Hside. by rewrite (frozen_side h h2).
    - rewrite <- Hr_h0. unfold q. lia.
    - by rewrite Hhf, Hh2r, Hr_h0.
    - done. }
  destruct (Z.leb_spec (Order.quantity (h2 !!! r)) 0) as [Hfull|Hpart].
  - (* the resting order is filled and leaves the book *)
    destruct (remove_order_head_level h2 (Env.book s) is_buy price l r rs p Hl Hrs)
      as (b' & Hrm & Hown' & Hix' & Hopp').
    { by rewrite (frozen_side h h2). }
    { by rewrite (frozen_price h h2). }
    { done. }
    rewrite Hrm. intros Hrun.
    apply IH in Hrun; simpl; [|done|done| | |done| | |].
    2:{ apply Forall_forall. intros x Hx. rewrite Forall_forall in Hall.
        apply (order_ok_ext h); [by apply Hh2rs|by apply Hall]. }
    2:{ rewrite Hopp'. destruct rs as [|r' rs']; simpl.
        - apply lookup_delete_eq.
        - eexists. by rewrite lookup_insert_eq. }
    2:{ intros x Hx. destruct (Hin0 x ltac:(by right)) as [? Hx0].
        split; [done|]. by rewrite Hh2rs. }
    2:{ rewrite <- Hid. by rewrite (frozen_id h h2). }
    2:{ rewrite <- Hside. by rewrite (frozen_side h h2). }
    destruct Hrun as (new & Hh & Hpr & Hso). simpl in *.
    exists (lt.2 :: new). split; [by rewrite Hh, Hlt1, <- app_assoc|].
    split.
    { apply Hfirst; [|done]. apply Hso. intros [?|Hin]; [done|].
      apply Hr_notin. eapply elem_of_sublist; [exact Hin|apply sublist_take]. }
    intros x Hx. simpl in Hx. rewrite Hso.
    + apply Hh2x; intros ->; apply Hx; [by left|right; left].
    + intros [->|Hx']; apply Hx; [by left|right; by right].
  - (* the incoming order is exhausted *)
    rewrite Hh2r in Hpart. simpl in Hpart.
    rewrite match_level_done by (simpl; rewrite Hh2o; simpl; lia).
    intros [= <- <-]. simpl.
    exists [lt.2]. split; [done|]. split; [apply Hfirst; [done|constructor]|].
    intros x Hx. simpl in Hx. rewrite take_0 in Hx.
    apply Hh2x; intros ->; apply Hx; [by left|right; left].
Qed.

(** The whole pass on a well-formed book: it works on the best level. *)
Lemma match_order_prints order market s s' res :
  book_ok (Env.heap s) (Env.book s) ->
  ~ resting (Env.book s) order ->
  MatchingEngine._match_order order market s = (s', res) ->
  let is_buy := String.eqb (Order.side (Env.heap s !!! order)) "buy" in
  let queue := opposite_queue is_buy (Env.book s) in
  exists new,
    TradeLog.trade_history (Env.tlog s')
    = TradeLog.trade_history (Env.tlog s) ++ new
    /\ prints (Env.heap s) (Env.heap s') (Env.heap s !!! order)
              (MatchingEngine.opposite_book is_buy (Env.book s)) new queue
    /\ same_outside (fun x => x = order \/ x ∈ take (length new) queue)
                    (Env.heap s) (Env.heap s').
Proof.
  intros Hok Hnr Hrun0 is_buy queue.
  assert (Hnil : s' = s ->
            exists new,
              TradeLog.trade_history (Env.tlog s')
              = TradeLog.trade_history (Env.tlog s) ++ new
              /\ prints (Env.heap s) (Env.heap s') (Env.heap s !!! order)
                        (MatchingEngine.opposite_book is_buy (Env.book s)) new queue
              /\ same_outside (fun x => x = order \/ x ∈ take (length new) queue)
                              (Env.heap s) (Env.heap s')).
  { intros ->. exists []. rewrite app_nil_r. split; [done|].
    split; [constructor|apply same_outside_refl]. }
  revert Hrun0. unfold MatchingEngine._match_order. cbv zeta. fold is_buy.
  set (opp := MatchingEngine.opposite_book is_buy (Env.book s)) in *.
  pose proof (head_price_levels is_buy (Env.book s)) as Hhead. fold opp in Hhead.
  destruct (if is_buy then sorted (keys opp) else sorted_reverse (keys opp))
    as [|p ps] eqn:Hps; simpl in Hhead; simpl.
  { intros [= <- <-]. by apply Hnil. }
  destruct (MatchingEngine.beyond_limit _ _ _ _ _) as [[|]|e] eqn:Hlim;
    [intros [= <- <-]; by apply Hnil| |intros [= <- <-]; by apply Hnil].
  destruct (best_opposite_level is_buy (Env.book s) p ltac:(by rewrite <- Hhead))
    as [l Hl]. rewrite Hl. fold opp in Hl.
  pose proof Hok as Hok0.
  apply (book_ok_sides is_buy) in Hok0 as (Hopp & _ & _).
  destruct (Hopp p l Hl) as (Hne & Hnd & Hall).
  assert (Hno : order ∉ PriceLevel.orders l).
  { intros Hin. apply Hnr. apply (resting_sides is_buy). left. by exists p, l. }
  assert (Hlvl : level_at opp p (PriceLevel.orders l)).
  { destruct (PriceLevel.orders l) eqn:Hords; [done|]. exists l.
    by rewrite Hords. }
  destruct (MatchingEngine.match_level _ _ _ _ _) as [s1 res1] eqn:Hrun.
  pose proof (match_level_exact order is_buy p _ _ _ _ _ Hnd Hno Hall Hlvl Hrun)
    as (new0 & -> & _ & _ & _ & _ & _ & _ & _ & _ & _ & Hlev & Hout).
  destruct (match_level_prints order is_buy p (Env.heap s) (Env.heap s !!! order)
              opp l _ _ _ _ _ Hnd Hno Hall Hlvl Hl ltac:(done) eq_refl eq_refl
              Hrun) as (new & Hh & Hprints & Hso).
  destruct (opposite_queue_best _ is_buy _ p l Hok ltac:(by rewrite <- Hhead) Hl)
    as (rest & Hqueue & _).
  assert (Hres : exists new,
            TradeLog.trade_history (Env.tlog s1)
            = TradeLog.trade_history (Env.tlog s) ++ new
            /\ prints (Env.heap s) (Env.heap s1) (Env.heap s !!! order) opp new queue
            /\ same_outside (fun x => x = order \/ x ∈ take (length new) queue)
                            (Env.heap s) (Env.heap s1)).
  { exists new. split; [done|]. unfold queue. rewrite Hqueue.
    split; [by apply prints_app|].
    rewrite take_app_le by (by apply prints_length in Hprints). done. }
  simpl.
  destruct (MatchingEngine.opposite_book is_buy (Env.book s1) !! p)
    as [l1|] eqn:Hl1.
  - destruct (Hlev l1 eq_refl) as (Hne1 & _).
    assert (He1 : PriceLevel.is_empty l1 = false).
    { apply not_true_iff_false. intros He. by apply is_empty_true in He. }
    rewrite He1.
    destruct (Z.leb_spec (Order.quantity (Env.heap s !!! order)) 0) as [Hq|Hq].
    + destruct Hout as [-> ->].
      destruct (Z.leb_spec (Order.quantity (Env.heap s !!! order)) 0); [|lia].
      by intros [= <- <-].
    + destruct (Z.ltb_spec (Order.quantity (Env.heap s !!! order))
                           (queue_sum (Env.heap s) (PriceLevel.orders l)))
        as [Hlt|Hge].
      * destruct Hout as [_ Hz].
        destruct (Z.leb_spec (Order.quantity (Env.heap s1 !!! order)) 0); [|lia].
        by intros [= <- <-].
      * destruct Hout as [Hnone _]. congruence.
  - by intros [= <- <-].
Qed.

Lemma execute_limit_order_prints order ioc s s' res :
  book_ok (Env.heap s) (Env.book s) ->
  ~ resting (Env.book s) order ->
  MatchingEngine._execute_limit_order order ioc s = (s', res) ->
  let is_buy := String.eqb (Order.side (Env.heap s !!! order)) "buy" in
  let queue := opposite_queue is_buy (Env.book s) in
  exists new,
    TradeLog.trade_history (Env.tlog s')
    = TradeLog.trade_history (Env.tlog s) ++ new
    /\ prints (Env.heap s) (Env.heap s') (Env.heap s !!! order)
              (MatchingEngine.opposite_book is_buy (Env.book s)) new queue
    /\ same_outside (fun x => x = order \/ x ∈ take (length new) queue)
                    (Env.heap s) (Env.heap s').
Proof.
  intros Hok Hnr. unfold MatchingEngine._execute_limit_order.
  destruct (MatchingEngine._match_order order false s) as [s1 res1] eqn:Hrun.
  pose proof (match_order_prints _ _ _ _ _ Hok Hnr Hrun) as Hpr.
  destruct res1 as [ts|e]; [|by intros [= <- <-]].
  destruct (_ && _); [|by intros [= <- <-]].
  destruct (OrderBook.add_order _ _ _) as [b [[]|e]]; by intros [= <- <-].
Qed.

Lemma dispatch_prints order s s' res :
  book_ok (Env.heap s) (Env.book s) ->
  ~ resting (Env.book s) order ->
  MatchingEngine.dispatch order s = (s', res) ->
  let is_buy := String.eqb (Order.side (Env.heap s !!! order)) "buy" in
  let queue := opposite_queue is_buy (Env.book s) in
  exists new,
    TradeLog.trade_history (Env.tlog s')
    = TradeLog.trade_history (Env.tlog s) ++ new
    /\ prints (Env.heap s) (Env.heap s') (Env.heap s !!! order)
              (MatchingEngine.opposite_book is_buy (Env.book s)) new queue
    /\ same_outside (fun x => x = order \/ x ∈ take (length new) queue)
                    (Env.heap s) (Env.heap s').
Proof.
  intros Hok Hnr Hrun is_buy queue.
  assert (Hnil : s' = s ->
            exists new,
              TradeLog.trade_history (Env.tlog s')
              = TradeLog.trade_history (Env.tlog s) ++ new
              /\ prints (Env.heap s) (Env.heap s') (Env.heap s !!! order)
                        (MatchingEngine.opposite_book is_buy (Env.book s)) new queue
              /\ same_outside (fun x => x = order \/ x ∈ take (length new) queue)
                              (Env.heap s) (Env.heap s')).
  { intros ->. exists []. rewrite app_nil_r. split; [done|].
    split; [constructor|apply same_outside_refl]. }
  revert Hrun. unfold MatchingEngine.dispatch.
  destruct (String.eqb _ "market").
  { intros Hrun. by apply (match_order_prints _ true _ _ res). }
  destruct (String.eqb _ "limit").
  { intros Hrun. by apply (execute_limit_order_prints _ false _ _ res). }
  destruct (String.eqb _ "ioc").
  { intros Hrun. by apply (execute_limit_order_prints _ true _ _ res). }
  destruct (String.eqb _ "fok"); [|intros [= <- <-]; by apply Hnil].
  destruct (MatchingEngine._can_fully_fill order s) as [[|]|e];
    [|intros [= <- <-]; by apply Hnil..].
  intros Hrun. by apply (execute_limit_order_prints _ false _ _ res).
Qed.

Lemma prints_ext h h' hf o d ts rs :
  (forall x, x ∈ rs -> h' !!! x = h !!! x) ->
  prints h hf o d ts rs -> prints h' hf o d ts rs.
Proof.
  intros Hsame Hp.
  induction Hp as [rs|t ts r rs level p Hl Hr Hp Hn Hm Ht Ha Hq Hf Hts IH].
  - constructor.
  - apply (prints_cons h' hf o d t ts r rs level p); try done.
    + rewrite Hsame; [done|left].
    + rewrite Hsame; [done|left].
    + rewrite Hsame; [done|left].
    + rewrite Hsame; [done|left].
    + apply IH. intros x Hx. apply Hsame. by right.
Qed.

(** C4: every trade names the order it fills.  In every state the engine
    reaches, the trades that [process_order] records for a new order (and
    returns, when it returns) are made against the orders at the head of the
    opposite queue, one trade per resting order and in the order of the
    queue.  Each trade has as price the key of the price level of the
    resting order it is made against, which is that order's price rounded
    to the cent; as maker the id of that resting order; as aggressor side
    the side of the incoming order and as taker its id.  The resting order
    named as maker is the object on which the fill is booked: after the call
    it is the same object with the quantity of the trade taken off.  These
    resting orders and the incoming order are the only order objects the
    call changes. *)
Theorem trade_names_filled_order o w :
  reachable w ->
  let r := World.next_ref w in
  let w' := (process_new o w).1 in
  let book := _get_order_book (Order.symbol o) w in
  let is_buy := String.eqb (Order.side o) "buy" in
  let queue := opposite_queue is_buy book in
  exists new,
    TradeLog.trade_history (World.tlog w')
    = TradeLog.trade_history (World.tlog w) ++ new
    /\ (forall ts, (process_new o w).2 = Return ts -> ts = new)
    /\ prints (World.heap w) (World.heap w') o
              (MatchingEngine.opposite_book is_buy book) new queue
    /\ forall x, x <> r -> x ∉ take (length new) queue ->
         World.heap w' !!! x = World.heap w !!! x.
Proof.
  intros Hr r w' book is_buy queue. subst r w' book is_buy queue.
  destruct (reachable_dispatch o w Hr)
    as (s' & res & Hd & Hro & Hbok & Hnr & Hsame & Hheap & Htlog & _ & _ & Hres).
  pose proof (dispatch_prints _ _ _ _ Hbok Hnr Hd) as Hpr.
  pose proof (dispatch_accounted _ _ _ _ Hbok Hnr Hd) as (new' & Hh' & Hret & _).
  cbv zeta in Hpr. rewrite Hro in Hpr. simpl in Hpr, Hh', Hro.
  destruct Hpr as (new & Hh & Hprints & Hso).
  assert (new' = new) as ->.
  { rewrite Hh in Hh'. by apply app_inv_head in Hh'. }
  exists new. rewrite Htlog, Hheap, Hres.
  split; [done|]. split; [done|]. split.
  - eapply prints_ext; [|exact Hprints].
    intros x Hx. symmetry. apply Hsame. simpl. by apply elem_of_opposite_queue in Hx.
  - intros x Hx Hnot. rewrite Hso by (intros [?|?]; done).
    simpl. apply lookup_total_insert_ne. done.
Qed.

Lemma trade_names_filled_order_witness :
  let o := limit_order 3 "buy" 15000 1000000 in
  let w := world_two_asks in
  let r := World.next_ref w in
  let w' := (process_new o w).1 in
  let book := _get_order_book (Order.symbol o) w in
  let is_buy := String.eqb (Order.side o) "buy" in
  let queue := opposite_queue is_buy book in
  exists new,
    TradeLog.trade_history (World.tlog w')
    = TradeLog.trade_history (World.tlog w) ++ new
    /\ (forall ts, (process_new o w).2 = Return ts -> ts = new)
    /\ prints (World.heap w) (World.heap w') o
              (MatchingEngine.opposite_book is_buy book) new queue
    /\ forall x, x <> r -> x ∉ take (length new) queue ->
         World.heap w' !!! x = World.heap w !!! x.
Proof.
  apply (trade_names_filled_order (limit_order 3 "buy" 15000 1000000)
           world_two_asks).
  exact reachable_two_asks.
Defined.
